(* ===== verification/_CoqProject ===== *)
-Q . S2P
Prelude.v
GoStrings.v
NetIP.v
Retry.v
GoTime.v
Regex.v
Credentials.v
Api.v
ServiceAccounts.v
Pods.v
Informers.v
HTTP.v
ResponseLog.v
ServeMux.v
Directory.v
Tokens.v
TokenCache.v
TokenCacheProofs.v
TokenCacheTheorems.v
TokenCacheUnwatched.v
Fairness.v
TokenCacheTurns.v
TokenCacheLiveness.v
TokenCachePods.v
CacheProvider.v
Attestation.v
Preflight.v
Proxy.v
Forward.v
Server.v
ServerIdentity.v
ServerTokens.v
ServerRoutes.v
ServerResponse.v
ServerNew.v
Node.v
Routing.v
Ebpf.v
ProxyTest.v
Main.v
CommandLine.v
Lifecycle.v
Metrics.v
Logging.v
Chain.v
Daemon.v
Process.v
DaemonCache.v
EndToEnd.v
