(* ===== verification/Prelude.v ===== *)
(** * gke-metadata-server: root of the development

    A model of the daemon of src/ (Go, with two eBPF programs in C) that
    answers the requests of Kubernetes pods to 169.254.169.254 with tokens of
    their service accounts, and the theorems that make it correct.

    ** The program and its files here

    main.go wires the parts by its flags.  A pod's connection reaches the
    daemon by eBPF redirection, by an address on lo, or not at all
    (internal/routing, redirect, loopback).  In eBPF mode internal/proxy
    decides from the first request line whether the connection is for the
    metadata server or for the real endpoint.  internal/http finds the handler
    of a path in a tree of directories; internal/server finds the pod behind
    the connection (by its IP through internal/pods, or by asking the kernel
    through internal/attestation), its service account and the Google account
    this is annotated with (internal/serviceaccounts), and answers with tokens
    that internal/serviceaccounttokens issues or caches.

    - Prelude: Go errors, results and panics, the state-and-panic monad [ST],
      int64 wrap-around; GoStrings, NetIP, GoTime, Regex: the standard library
      that the program uses.
    - Retry: internal/retry and internal/time.  Credentials:
      internal/googlecredentials.  Api: api/api.go and the Kubernetes objects.
    - ServiceAccounts, Pods, Node: internal/serviceaccounts, pods, node (the
      interfaces, the plain and the watching providers, the taints).
    - HTTP: internal/http/response.go; ResponseLog: the same with latencies, log
      lines and failing writes, which HTTP's version abstracts.  ServeMux: net/http's multiplexer as
      far as the program uses it.  Directory: directory_handler.go.
    - Tokens: the interface of internal/serviceaccounttokens, the issuing
      provider and the lifetime of a cached token.  TokenCache: the cache with
      its goroutines as a step machine; TokenCacheProofs its invariants,
      TokenCacheTheorems and TokenCacheUnwatched its properties, CacheProvider
      the cache as the provider that the server calls.  Fairness: executions
      of a machine and leads-to reasoning; TokenCacheTurns and
      TokenCacheLiveness: what the cache achieves under a fair scheduler.
      Informers: the notifications of client-go; TokenCachePods: both watchers'
      notifications and the cache's counts and marks.
    - Attestation: internal/attestation and ebpf/attest.c.  Routing:
      internal/routing, redirect, loopback and ebpf/redirect.c.  Ebpf: loading
      and closing the eBPF objects of both.  ProxyTest: internal/proxytest.
    - Preflight: internal/preflight.  Proxy and Forward: internal/proxy.
    - Server: internal/server, with its properties in ServerIdentity (who is
      calling), ServerTokens (what is handed out), ServerRoutes (paths,
      readiness, Google's errors) and ServerResponse (from the request to the
      token in the response).  ServerNew: server.New, the two servers around
      the handlers.
    - Main: main.go's wiring; CommandLine: its flags and exits; Lifecycle:
      starting and stopping; Process: from the command line to the two
      servers; Metrics and Logging: internal/metrics and internal/logging; Chain: redirection, attestation and the server
      together; Daemon: main, the issuing provider and the server together,
      from a message on a connection to the token in the response, for any
      provider of tokens; DaemonCache: the same with the token cache's machine
      in place, the state of the process being that of the machine; EndToEnd:
      Chain and DaemonCache in one, from a pod's connect to its own token.

    ** How the code is modelled

    A Go function is a Rocq function with the names of the source.  What it
    calls outside src/ (the Kubernetes client, informers, the token exchange,
    netlink, the eBPF maps, file systems, clocks) is an argument in
    [ST W], for any world [W]: state passing with panics, so a theorem holds
    for every behaviour of that code that meets the stated hypotheses.
    Errors are values of [result]; [errors.Is] follows the wrapping.  Integers
    are Z with Go's wrap-around where a value can overflow.  Strings are byte
    strings.  Concurrent parts (the token cache, a forwarded connection and
    the proxy, server.New, Start and Close of the watchers) are machines: a
    state, labels and an executable [step]; reachability and invariants are by
    induction on labels, and a label's choices are the scheduler's.

    Interfaces between components are classes: [Pods.Lawful] (a pod provider
    returns running pods of the node, by their IP or UID), [Attests] (a
    lookuper returns the owner of a 4-tuple), [Issues] (a token provider's
    tokens are the account's), [Reader] (a source of io.Copy), [Registry].
    The server's theorems use only these; the providers discharge them.

    ** What the theorems show

    - The whole: [pod_gets_own_token] starts at a pod's connect to the metadata
      address in eBPF mode: both kernel programs, the map the daemon reads, the
      server and the cache; a token in the response was granted to the service
      account of the pod that connected.
    - Identity: [daemon_identity], with [identity_from_connection],
      [one_strategy], [lookupers_attest], [providers_lawful] and
      [pod_uid_of_cgroup_path] underneath: under all
      flags and modes, the account a request is served as is that of the pod
      the kernel or the pod network puts behind the connection; nothing in the
      request matters; there is no fallback from one strategy to the other.
      [ebpf_request_identified] follows one connection through both eBPF
      programs to the server.
    - Tokens: [daemon_token_response] and [daemon_identity_response] are about
      the started daemon, with and without its cache: a token in a response to
      any message on any connection was granted to the service account of the
      pod behind the connection, whatever the schedule of the cache; only the
      answers of the Kubernetes API, the kernel and Google are assumed.
      Underneath, the server's theorems (ServerTokens, ServerResponse,
      [token_endpoints_refuse]) hold for any provider that [Issues], the
      issuing provider is one, and [cache_issues] shows that the cache is one;
      [informers_drive] connects the informers of main to the machine.
    - The cache never mixes accounts ([cache_isolation], in terms of the calls
      to its source), has one refresher per account ([single_refresher]),
      bounds concurrent issuing ([issuing_bounded]), answers, stores, sleeps
      and retries as [refresh_outcome] says, follows the pods of the node
      ([cache_follows_pods]: it refines a table of counts, [step_account];
      missed deletes and replaced pods are among the notifications, and the
      theorem says what they lead to), and keeps no token to its expiry
      ([newToken_lifetime]).  Under a fair scheduler and a clock that
      advances, requests settle, but for those handed to a goroutine that has
      returned, which cannot happen while the account has pods
      ([requests_settle], by the leads-to rules of Fairness).
    - Where the cache fails: [return_replies_nil], [stranded_request_waits],
      [unwatched_never_answered] (nor is anything with a concurrency of
      zero; a negative one panics, [negative_concurrency], and with a watcher
      main then hangs, [main_closes]); [recreated_account_unserved],
      [replaced_pod_unknown] and [missed_delete_panics] in TokenCachePods.
    - The HTTP surface: [flavor_required], [serve_registered] (a path of the
      shape of a pattern goes through the listers of its parameters to the
      pattern's handler), [registration_wf], [routes_served], [readyz_spec],
      [health_server_routes]; also [recursive_ignores_tokens],
      [respond_once], and [responses_refine] and [latency_observed] (what a
      response logs and observes).
    - Connections: [proxy_routes_by_path], [proxy_lossless], [forward_exact],
      [forward_returns], [proxy_invariant], [redirect_attached] (what the eBPF
      mode does to connects), and the whole path of a forwarded request,
      [passthrough].
    - Starting and stopping: [main_ends], [flags_read] and [flags_roundtrip]
      (the command line: the table [given] of every flag with its value and
      default, and the exit codes), [main_configures] (from the arguments to
      the configuration of both servers and the cache), [main_closes],
      [new_returns_listening], [informer_close], [attest_releases],
      [registration_succeeds] and [registry_complete].
    - The rest: [Do_outcome] and [Do_terminates] (retries against a loop-free
      reference), [NewConfig_spec], [os_release_roundtrip],
      [removeTaints_spec].

    ** Fuel and bounds

    Only the retry loop takes fuel, one unit per attempt: [Do_terminates]
    shows that [MaxAttempts] units (three when unset) are enough, and the
    server's lookup takes that many for the attempts main passes.  Directory
    walks, sniffing and the cgroup walk recurse on their data.  Runs of the
    machines are lists of labels of any length; [forward_returns] bounds them
    for a forwarded connection.

    ** Not modelled

    Signals and log lines (except in Logging, ResponseLog and the level and
    error of request observations); the libraries behind the arguments above:
    pflag and logrus's level names, client-go's informers (described by the
    notifications they promise, [informs], deletes missed in a disconnected
    watch included), netlink and cilium/ebpf,
    Prometheus's own collectors and promhttp's handler, and net/http's servers
    below the message; what ServeMux does with a path that is not clean; helm,
    timoni, terraform, workflows and test programs.  Case mapping and edge
    names are ASCII.  A goroutine's step runs to its next synchronisation,
    with one reading of the clock; the loop that empties a request channel
    receives one request per step, so that senders come in between. *)

From stdpp Require Export base tactics numbers list gmap strings pretty.

(** ** Go values *)

(** The sentinel errors the program compares with [errors.Is]. *)
Inductive sentinel : Type :=
| ErrGKEAnnotationInvalid
| ErrServiceAccountDeleted
| ErrContextDone
| ErrBpfNotFound
| ErrSockdiagNotFound.

#[export] Instance sentinel_eq_dec : EqDecision sentinel.
Proof. solve_decision. Defined.

(** Go's [error] values: plain texts, [fmt.Errorf] with one [%w], the
    sentinels, the two error types of internal/retry and googleapi.Error. *)
Inductive error : Type :=
| EMsg (text : string)
| EWrap (pre : string) (e : error) (post : string)
| ESentinel (s : sentinel) (text : string)
| EMaxAttempts (desc : string) (maxAttempts : Z) (lastErr : error)
| EContextCanceled (desc : string) (lastErr : error)
| EGoogleAPI (code : Z) (body : string) (text : string).

#[export] Instance error_eq_dec : EqDecision error.
Proof. solve_decision. Defined.

(** [err.Error()]. *)
Fixpoint error_text (e : error) : string :=
  match e with
  | EMsg t => t
  | EWrap pre e' post => pre +:+ error_text e' +:+ post
  | ESentinel _ t => t
  | EMaxAttempts desc n e' =>
      "reached max attempts (" +:+ pretty n +:+ ") for trying to " +:+ desc
        +:+ ". last attempt error: " +:+ error_text e'
  | EContextCanceled desc e' =>
      "context canceled while trying to " +:+ desc
        +:+ ". last attempt error: " +:+ error_text e'
  | EGoogleAPI _ _ t => t
  end.

(** [errors.Is] against a sentinel: only [%w] wrapping is unwrapped. *)
Fixpoint errors_Is (e : error) (s : sentinel) : bool :=
  match e with
  | ESentinel s' _ => bool_decide (s' = s)
  | EWrap _ e' _ => errors_Is e' s
  | _ => false
  end.

(** A Go [(T, error)] pair. *)
Inductive result (A : Type) : Type :=
| Ok (a : A)
| Err (e : error).
Arguments Ok {A} a.
Arguments Err {A} e.

(** How a Go call ends: with a value or with a run-time panic. *)
Inductive outcome (A : Type) : Type :=
| Ret (a : A)
| Panic (msg : string).
Arguments Ret {A} a.
Arguments Panic {A} msg.

#[export] Instance result_eq_dec {A} `{EqDecision A} : EqDecision (result A).
Proof. solve_decision. Defined.
#[export] Instance outcome_eq_dec {A} `{EqDecision A} : EqDecision (outcome A).
Proof. solve_decision. Defined.

(** ** The state-and-panic monad *)

(** A Go call on a mutable state [S]; a panic keeps the effects done so far. *)
Definition ST (S A : Type) : Type := S → outcome A * S.

#[export] Instance st_ret {S} : MRet (ST S) := λ A a s, (Ret a, s).
#[export] Instance st_bind {S} : MBind (ST S) := λ A B f m s,
  match m s with
  | (Ret a, s') => f a s'
  | (Panic msg, s') => (Panic msg, s')
  end.

Definition panic {S A} (msg : string) : ST S A := λ s, (Panic msg, s).
Definition st_get {S} : ST S S := λ s, (Ret s, s).
Definition st_modify {S} (f : S → S) : ST S unit := λ s, (Ret tt, f s).

(** [v, err := m(); if err != nil { return err }; k v]. *)
Definition bindR {S A B} (m : ST S (result A)) (k : A → ST S (result B))
    : ST S (result B) :=
  r ← m; match r with Ok a => k a | Err e => mret (Err e) end.

Declare Scope go_scope.
Delimit Scope go_scope with go.
Notation "x ←? m ; k" := (bindR m (λ x, k))
  (at level 20, m at level 100, k at level 200, format "x  ←?  m ; '/' k") : go_scope.
Notation "' p ←? m ; k" := (bindR m (λ x, match x with p => k end))
  (at level 20, p pattern, m at level 100, k at level 200) : go_scope.
#[global] Open Scope go_scope.

(** [Ok]-returning and [Err]-returning calls. *)
Definition ok {S A} (a : A) : ST S (result A) := mret (Ok a).
Definition err {S A} (e : error) : ST S (result A) := mret (Err e).

(** Unfold the monad and compute. *)
Ltac st_simpl := unfold bindR, ok, err, mbind, mret, st_bind, st_ret; cbn.

(** Running a call of a sub-state inside a larger state. *)
Definition zoom {S T A} (get : T → S) (set : S → T → T) (m : ST S A) : ST T A :=
  λ t, let '(o, s') := m (get t) in (o, set s' t).

(** ** Generic lemmas *)

Lemma mapM_map_Some {A B} (f : B → option A) (g : A → B) (l : list A) :
  Forall (λ x, f (g x) = Some x) l → mapM f (map g l) = Some l.
Proof. induction 1 as [|x l Hx Hl IH]; [done|]. cbn. by rewrite Hx; cbn; rewrite IH. Qed.

(** ** Machine integers *)

(** Two's complement wrap-around of [int], [int64] and [time.Duration]. *)
Definition wrap64 (z : Z) : Z := (z + 2 ^ 63) mod 2 ^ 64 - 2 ^ 63.
Definition in_int64 (z : Z) : Prop := (- 2 ^ 63 ≤ z < 2 ^ 63)%Z.
#[export] Instance in_int64_dec z : Decision (in_int64 z).
Proof. unfold in_int64. apply _. Defined.

Lemma wrap64_id z : in_int64 z → wrap64 z = z.
Proof. unfold in_int64, wrap64. intros ?. rewrite Z.mod_small by lia. lia. Qed.
Lemma wrap64_range z : in_int64 (wrap64 z).
Proof.
  unfold in_int64, wrap64. pose proof (Z.mod_pos_bound (z + 2 ^ 63) (2 ^ 64)). lia.
Qed.

(** [time.Duration] units, in nanoseconds. *)
Definition Millisecond : Z := 1000000.
Definition Second : Z := 1000000000.
Definition Minute : Z := 60 * Second.
Definition Hour : Z := 60 * Minute.

#[export] Hint Rewrite wrap64_id using (unfold in_int64; lia) : wrap.

(** ** Calls that never panic *)

Definition total {S A} (m : ST S A) : Prop := ∀ s, ∃ a s', m s = (Ret a, s').

Lemma total_ret {S A} (a : A) : total (mret a : ST S A).
Proof. intros s. by exists a, s. Qed.
Lemma total_bind {S A B} (m : ST S A) (f : A → ST S B) :
  total m → (∀ a, total (f a)) → total (m ≫= f).
Proof.
  intros Hm Hf s. destruct (Hm s) as (a & s' & Ha).
  destruct (Hf a s') as (b & s'' & Hb). exists b, s''. st_simpl. by rewrite Ha.
Qed.
(** Inverting calls that return. *)
Lemma bind_ret {S A B} (m : ST S A) (k : A → ST S B) s b s' :
  (m ≫= k) s = (Ret b, s') → ∃ a s1, m s = (Ret a, s1) ∧ k a s1 = (Ret b, s').
Proof. unfold mbind, st_bind. destruct (m s) as [[a|msg] s1]; [|done]. eauto. Qed.
Lemma bindR_ok {S A B} (m : ST S (result A)) (k : A → ST S (result B)) s b s' :
  bindR m k s = (Ret (Ok b), s') → ∃ a s1, m s = (Ret (Ok a), s1) ∧ k a s1 = (Ret (Ok b), s').
Proof. intros ([a|e] & s1 & ? & ?)%bind_ret; [eauto|done]. Qed.
Lemma then_err {S A B} (m : ST S A) e s (b : B) s' : (m ≫= λ _, err e) s ≠ (Ret (Ok b), s').
Proof. by intros (a & s1 & _ & ?)%bind_ret. Qed.

(** Calls that keep a property of the state, however they end. *)
Definition keeps {S A} (I : S → Prop) (m : ST S A) : Prop := ∀ s, I s → I (m s).2.
Lemma keeps_ret {S A} (I : S → Prop) (a : A) : keeps I (mret a : ST S A).
Proof. by intros s Hs. Qed.
Lemma keeps_bind {S A B} (I : S → Prop) (m : ST S A) (f : A → ST S B) :
  keeps I m → (∀ a, keeps I (f a)) → keeps I (m ≫= f).
Proof.
  intros Hm Hf s Hs. specialize (Hm s Hs). unfold mbind, st_bind.
  destruct (m s) as [[a|msg] s']; [by apply Hf|done].
Qed.

Create HintDb total.
#[export] Hint Resolve total_ret total_bind : total.
