(* ===== verification/GoStrings.v ===== *)
(** * Go's strings, bytes and strconv packages

    The standard-library functions on strings that the program calls, on the
    byte strings Go uses ([String.string] as a sequence of bytes), with the
    lemmas the components share.  Case mapping is modelled on ASCII; white
    space trimming knows every Unicode space by its UTF-8 encoding. *)

From Stdlib Require Import Ascii.
From S2P Require Import Prelude.
Open Scope string_scope.

Abbreviation char := Ascii.ascii.

(** ** Definitions *)

Definition chr (n : nat) : char := ascii_of_nat n.
Definition one (c : char) : string := String c "".

Definition slash : char := "/"%char.
Definition comma : char := ","%char.
Definition colon : char := ":"%char.
Definition space : char := " "%char.
Definition newline : char := chr 10.

(** The bytes of a string, and membership of a byte. *)
Fixpoint bytes (s : string) : list char :=
  match s with "" => [] | String c s' => c :: bytes s' end.
Fixpoint of_bytes (l : list char) : string :=
  match l with [] => "" | c :: l' => String c (of_bytes l') end.
Definition str_in (c : char) (s : string) : Prop := c ∈ bytes s.
#[export] Instance str_in_dec c s : Decision (str_in c s).
Proof. unfold str_in. apply _. Defined.

Fixpoint str_drop (n : nat) (s : string) : string :=
  match n, s with
  | O, _ => s
  | S n', "" => ""
  | S n', String _ s' => str_drop n' s'
  end.
Fixpoint str_take (n : nat) (s : string) : string :=
  match n, s with
  | O, _ => ""
  | S n', "" => ""
  | S n', String c s' => String c (str_take n' s')
  end.
Definition str_rev (s : string) : string := of_bytes (rev (bytes s)).

(** strings.HasPrefix, strings.HasSuffix, strings.Index, strings.Contains. *)
Fixpoint has_prefix (p s : string) : bool :=
  match p, s with
  | "", _ => true
  | String a p', String b s' => bool_decide (a = b) && has_prefix p' s'
  | _, _ => false
  end.
Definition has_suffix (x s : string) : bool := has_prefix (str_rev x) (str_rev s).
Fixpoint str_index (sub s : string) : option nat :=
  if has_prefix sub s then Some O
  else match s with "" => None | String _ s' => S <$> str_index sub s' end.
Definition contains (sub s : string) : bool := bool_decide (is_Some (str_index sub s)).

(** bytes.IndexByte and strings.LastIndexByte. *)
Fixpoint index_byte (c : char) (s : string) : option nat :=
  match s with
  | "" => None
  | String a s' => if decide (a = c) then Some O else S <$> index_byte c s'
  end.
Definition last_index_byte (c : char) (s : string) : option nat :=
  (λ i, String.length s - 1 - i)%nat <$> index_byte c (str_rev s).

(** strings.Cut at a one-byte separator. *)
Fixpoint cut (c : char) (s : string) : option (string * string) :=
  match s with
  | "" => None
  | String a s' =>
      if decide (a = c) then Some ("", s')
      else '(l, r) ← cut c s'; Some (String a l, r)
  end.

(** strings.Split, strings.SplitSeq and strings.SplitN with a one-byte separator. *)
Fixpoint split (c : char) (s : string) : list string :=
  match s with
  | "" => [""]
  | String a s' =>
      if decide (a = c) then "" :: split c s'
      else match split c s' with
           | [] => [one a]
           | h :: t => String a h :: t
           end
  end.
Fixpoint splitn (n : nat) (c : char) (s : string) : list string :=
  match n with
  | O => []
  | S O => [s]
  | S n' => match cut c s with
            | Some (l, r) => l :: splitn n' c r
            | None => [s]
            end
  end.

(** strings.Join. *)
Fixpoint join (sep : string) (l : list string) : string :=
  match l with
  | [] => ""
  | [x] => x
  | x :: l' => x +:+ sep +:+ join sep l'
  end.

(** strings.ReplaceAll of one byte by another. *)
Fixpoint replace_byte (a b : char) (s : string) : string :=
  match s with
  | "" => ""
  | String c s' => String (if decide (c = a) then b else c) (replace_byte a b s')
  end.

(** unicode.IsSpace by UTF-8 encoding: one, two and three byte spaces. *)
Definition is_space1 (a : char) : bool :=
  bool_decide (nat_of_ascii a ∈ [9; 10; 11; 12; 13; 32]%nat).
Definition is_space2 (a b : char) : bool :=
  bool_decide (nat_of_ascii a = 194%nat ∧ nat_of_ascii b ∈ [133; 160]%nat).
Definition is_space3 (a b c : char) : bool :=
  bool_decide ((nat_of_ascii a, nat_of_ascii b, nat_of_ascii c) ∈
    [(225, 154, 128); (226, 128, 128); (226, 128, 129); (226, 128, 130);
     (226, 128, 131); (226, 128, 132); (226, 128, 133); (226, 128, 134);
     (226, 128, 135); (226, 128, 136); (226, 128, 137); (226, 128, 138);
     (226, 128, 168); (226, 128, 169); (226, 128, 175); (226, 129, 159);
     (227, 128, 128)]%nat).

Fixpoint trim_left (s : string) : string :=
  match s with
  | "" => ""
  | String a s1 =>
      if is_space1 a then trim_left s1 else
      match s1 with
      | "" => s
      | String b s2 =>
          if is_space2 a b then trim_left s2 else
          match s2 with
          | "" => s
          | String c s3 => if is_space3 a b c then trim_left s3 else s
          end
      end
  end.

(** The same from the right, on the reversed string. *)
Fixpoint trim_left_rev (s : string) : string :=
  match s with
  | "" => ""
  | String a s1 =>
      if is_space1 a then trim_left_rev s1 else
      match s1 with
      | "" => s
      | String b s2 =>
          if is_space2 b a then trim_left_rev s2 else
          match s2 with
          | "" => s
          | String c s3 => if is_space3 c b a then trim_left_rev s3 else s
          end
      end
  end.
Definition trim_right (s : string) : string := str_rev (trim_left_rev (str_rev s)).

(** strings.TrimSpace. *)
Definition trim_space (s : string) : string := trim_right (trim_left s).

(** strings.ToLower and strings.ToUpper, on ASCII. *)
Definition in_range (lo hi : nat) (c : char) : bool :=
  (lo <=? nat_of_ascii c)%nat && (nat_of_ascii c <=? hi)%nat.
Definition is_digit : char → bool := in_range 48 57.
Definition is_lower : char → bool := in_range 97 122.
Definition is_upper : char → bool := in_range 65 90.
Definition to_lower_char (c : char) : char :=
  if is_upper c then chr (nat_of_ascii c + 32) else c.
Definition to_upper_char (c : char) : char :=
  if is_lower c then chr (nat_of_ascii c - 32) else c.
Fixpoint str_map (f : char → char) (s : string) : string :=
  match s with "" => "" | String c s' => String (f c) (str_map f s') end.
Definition to_lower : string → string := str_map to_lower_char.
Definition to_upper : string → string := str_map to_upper_char.

(** strconv.ParseUint(s, 10, bits) as the program uses it. *)
Definition digit_val (c : char) : Z := Z.of_nat (nat_of_ascii c) - 48.
Fixpoint dec_val (acc : Z) (s : string) : option Z :=
  match s with
  | "" => Some acc
  | String c s' => if is_digit c then dec_val (acc * 10 + digit_val c) s' else None
  end.
Definition parse_dec (s : string) : option Z :=
  match s with "" => None | _ => dec_val 0 s end.
Definition parse_uint (bits : Z) (s : string) : option Z :=
  match parse_dec s with
  | Some n => if (n <? 2 ^ bits)%Z then Some n else None
  | None => None
  end.

(** strconv.Atoi: an optional sign, then decimal digits, in the range of [int]. *)
Definition atoi (s : string) : option Z :=
  let '(neg, ds) := match s with
                    | String "-" s' => (true, s')
                    | String "+" s' => (false, s')
                    | _ => (false, s)
                    end in
  match parse_dec ds with
  | Some n =>
      let v := if (neg : bool) then (- n)%Z else n in
      if bool_decide (- 2 ^ 63 ≤ v < 2 ^ 63)%Z then Some v else None
  | None => None
  end.

(** One piece of a slash-separated path in path.Clean and filepath.Clean of a
    rooted path: empty pieces and dots go, two dots take the last one back. *)
Definition clean_step (acc : list string) (piece : string) : list string :=
  if bool_decide (piece = "" ∨ piece = ".") then acc
  else if bool_decide (piece = "..") then removelast acc
  else (acc ++ [piece])%list.

(** ** Lemmas: bytes and appending *)

Lemma app_str_cons c s t : String c s +:+ t = String c (s +:+ t).
Proof. done. Qed.
Lemma app_str_nil_l t : "" +:+ t = t.
Proof. done. Qed.
Lemma app_str_nil_r s : s +:+ "" = s.
Proof. induction s as [|c s IH]; [done|]. by rewrite app_str_cons, IH. Qed.
Lemma app_str_assoc r s t : r +:+ s +:+ t = (r +:+ s) +:+ t.
Proof. induction r as [|c r IH]; [done|]. by rewrite !app_str_cons, IH. Qed.

Lemma bytes_of_bytes l : bytes (of_bytes l) = l.
Proof. induction l as [|c l IH]; simpl; [done|]. by rewrite IH. Qed.
Lemma of_bytes_bytes s : of_bytes (bytes s) = s.
Proof. induction s as [|c s IH]; simpl; [done|]. by rewrite IH. Qed.
Lemma bytes_app s t : bytes (s +:+ t) = (bytes s ++ bytes t)%list.
Proof. induction s as [|c s IH]; [done|]. rewrite app_str_cons. simpl. by rewrite IH. Qed.
Lemma bytes_str_rev s : bytes (str_rev s) = rev (bytes s).
Proof. apply bytes_of_bytes. Qed.
Lemma str_rev_involutive s : str_rev (str_rev s) = s.
Proof. unfold str_rev at 1. by rewrite bytes_str_rev, rev_involutive, of_bytes_bytes. Qed.
Lemma length_bytes s : length (bytes s) = String.length s.
Proof. induction s as [|c s IH]; simpl; [done|]. by rewrite IH. Qed.

Lemma str_in_cons c d s : str_in c (String d s) ↔ c = d ∨ str_in c s.
Proof. unfold str_in. simpl. set_solver. Qed.
Lemma str_in_nil c : ¬ str_in c "".
Proof. unfold str_in. simpl. set_solver. Qed.
Lemma str_in_app c s t : str_in c (s +:+ t) ↔ str_in c s ∨ str_in c t.
Proof. unfold str_in. rewrite bytes_app. set_solver. Qed.
Lemma str_in_rev c s : str_in c (str_rev s) ↔ str_in c s.
Proof.
  unfold str_in. rewrite bytes_str_rev, !list_elem_of_In. symmetry. apply in_rev.
Qed.

(** ** Lemmas: prefixes *)

Lemma has_prefix_spec p s : has_prefix p s = true ↔ ∃ r, s = p +:+ r.
Proof.
  revert s. induction p as [|a p IH]; intros s; simpl.
  { split; [|done]. intros _. by exists s. }
  destruct s as [|b s]; simpl.
  { split; [done|]. intros [r Hr]. rewrite app_str_cons in Hr. done. }
  rewrite andb_true_iff, bool_decide_eq_true, IH. split.
  - intros [-> [r ->]]. by exists r.
  - intros [r Hr]. rewrite app_str_cons in Hr. simplify_eq. eauto.
Qed.
Lemma has_prefix_app p r : has_prefix p (p +:+ r) = true.
Proof. apply has_prefix_spec. eauto. Qed.

(** ** Lemmas: splitting and joining *)

Lemma split_not_nil c s : split c s ≠ [].
Proof. destruct s as [|a s]; simpl; [done|]. case_decide; [done|]. by destruct (split c s). Qed.

Lemma split_no_sep c s : ¬ str_in c s → split c s = [s].
Proof.
  induction s as [|a s IH]; simpl; [done|].
  rewrite str_in_cons. intros Hni.
  rewrite decide_False by naive_solver.
  by rewrite IH by naive_solver.
Qed.

Lemma split_app c s t : ¬ str_in c s → split c (s +:+ String c t) = s :: split c t.
Proof.
  induction s as [|a s IH]; simpl; intros Hni.
  - rewrite decide_True by done. done.
  - rewrite str_in_cons in Hni. rewrite decide_False by naive_solver.
    by rewrite IH by naive_solver.
Qed.

Lemma split_app_sep c s t : split c (s +:+ String c t) = (split c s ++ split c t)%list.
Proof.
  induction s as [|a s IH]; simpl.
  - by rewrite decide_True.
  - case_decide; [by rewrite IH|]. rewrite IH.
    pose proof (split_not_nil c s). by destruct (split c s).
Qed.

Lemma split_pieces_no_sep c s : Forall (λ p, ¬ str_in c p) (split c s).
Proof.
  induction s as [|a s IH]; simpl.
  { constructor; [apply str_in_nil|constructor]. }
  case_decide as Ha.
  { constructor; [apply str_in_nil|done]. }
  pose proof (split_not_nil c s). destruct (split c s) as [|h t]; [done|].
  inversion IH; subst. constructor; [|done].
  rewrite str_in_cons. naive_solver.
Qed.

Lemma join_cons2 sep x y l : join sep (x :: y :: l) = x +:+ sep +:+ join sep (y :: l).
Proof. done. Qed.

Lemma join_split c s : join (one c) (split c s) = s.
Proof.
  induction s as [|a s IH]; [done|]. simpl. case_decide as Ha.
  - pose proof (split_not_nil c s). destruct (split c s) as [|h t]; [done|].
    rewrite join_cons2, IH. by subst.
  - pose proof (split_not_nil c s). destruct (split c s) as [|h [|h2 t]]; [done| |].
    + simpl in *. by subst.
    + rewrite join_cons2 in *. by rewrite app_str_cons, IH.
Qed.

Lemma split_join c l :
  l ≠ [] → Forall (λ p, ¬ str_in c p) l → split c (join (one c) l) = l.
Proof.
  induction l as [|x l IH]; [done|]. intros _ Hf. inversion Hf; subst.
  destruct l as [|y l].
  - simpl. by apply split_no_sep.
  - rewrite join_cons2. unfold one at 1. rewrite app_str_cons, app_str_nil_l.
    rewrite split_app by done. by rewrite IH.
Qed.

Lemma join_no_sep c sep l :
  ¬ str_in c sep → Forall (λ p, ¬ str_in c p) l → ¬ str_in c (join sep l).
Proof.
  intros Hsep. induction 1 as [|x l Hx Hl IH]; [apply str_in_nil|].
  destruct l as [|y l]; [done|]. rewrite join_cons2, !str_in_app. tauto.
Qed.

Lemma cut_spec c s l r : cut c s = Some (l, r) → s = l +:+ String c r ∧ ¬ str_in c l.
Proof.
  revert l r. induction s as [|a s IH]; intros l r; simpl; [done|].
  case_decide as Ha.
  - intros [= <- <-]. subst. split; [done|]. apply str_in_nil.
  - destruct (cut c s) as [[l' r']|] eqn:Hc; simpl; [|done].
    intros [= <- <-]. destruct (IH l' r' eq_refl) as [-> Hni].
    split; [done|]. rewrite str_in_cons. naive_solver.
Qed.
Lemma cut_app c l r : ¬ str_in c l → cut c (l +:+ String c r) = Some (l, r).
Proof.
  induction l as [|a l IH]; simpl; intros Hni.
  - by rewrite decide_True.
  - rewrite str_in_cons in Hni. rewrite decide_False by naive_solver.
    by rewrite IH by naive_solver.
Qed.
Lemma cut_None c s : cut c s = None ↔ ¬ str_in c s.
Proof.
  induction s as [|a s IH]; simpl.
  { split; [|done]. intros _. apply str_in_nil. }
  rewrite str_in_cons. case_decide as Ha.
  - split; [done|]. intros []. by left.
  - destruct (cut c s) as [[l r]|]; simpl; naive_solver.
Qed.

Lemma index_byte_None c s : index_byte c s = None ↔ ¬ str_in c s.
Proof.
  induction s as [|a s IH]; simpl.
  { split; [|done]. intros _. apply str_in_nil. }
  rewrite str_in_cons. case_decide as Ha.
  - split; [done|]. intros []. by left.
  - rewrite fmap_None. naive_solver.
Qed.
Lemma index_byte_Some_take c s i :
  index_byte c s = Some i →
  s = str_take i s +:+ String c (str_drop (S i) s) ∧ ¬ str_in c (str_take i s).
Proof.
  revert i. induction s as [|a s IH]; intros i; simpl; [done|].
  case_decide as Ha.
  - intros [= <-]. subst. split; [done|]. apply str_in_nil.
  - rewrite fmap_Some. intros (j & Hj & ->). destruct (IH j Hj) as [Hs Hni].
    split; [by rewrite Hs at 1|]. simpl. rewrite str_in_cons. naive_solver.
Qed.
Lemma index_byte_app c l r : ¬ str_in c l → index_byte c (l +:+ String c r) = Some (String.length l).
Proof.
  induction l as [|a l IH]; simpl; intros Hni.
  - by rewrite decide_True.
  - rewrite str_in_cons in Hni. rewrite decide_False by naive_solver.
    by rewrite IH by naive_solver.
Qed.
Lemma str_take_app l r : str_take (String.length l) (l +:+ r) = l.
Proof. induction l as [|a l IH]; simpl; [by destruct r|]. by rewrite IH. Qed.
Lemma str_drop_app l r : str_drop (String.length l) (l +:+ r) = r.
Proof. induction l as [|a l IH]; simpl; [by destruct r|]. done. Qed.

(** ** Lemmas: trimming *)

(** Whether the string starts with a space, read forwards or backwards. *)
Definition lead_space (s : string) : bool :=
  match s with
  | "" => false
  | String a s1 => is_space1 a ||
      match s1 with
      | "" => false
      | String b s2 => is_space2 a b ||
          match s2 with "" => false | String c _ => is_space3 a b c end
      end
  end.
Definition lead_space_rev (s : string) : bool :=
  match s with
  | "" => false
  | String a s1 => is_space1 a ||
      match s1 with
      | "" => false
      | String b s2 => is_space2 b a ||
          match s2 with "" => false | String c _ => is_space3 c b a end
      end
  end.

Lemma str_strong_ind (P : string → Prop) :
  (∀ s, (∀ t, (String.length t < String.length s)%nat → P t) → P s) → ∀ s, P s.
Proof.
  intros H s. remember (String.length s) as n eqn:Hn. revert s Hn.
  induction n as [n IH] using lt_wf_ind. intros s ->. apply H. eauto.
Qed.

(** One step of trimming: nothing to drop, or one encoded space. *)
Ltac trim_step s :=
  destruct s as [|a s]; [done|]; cbn [lead_space lead_space_rev trim_left trim_left_rev];
  destruct (is_space1 a); [intros _; exists (one a), s; simpl; repeat split; auto with lia|];
  destruct s as [|b s]; [done|];
  match goal with |- context [if ?t then _ else _] => destruct t end;
  [intros _; exists (String a (one b)), s; simpl; repeat split; auto with lia|];
  destruct s as [|c s]; [done|];
  match goal with |- context [if ?t then _ else _] => destruct t end;
  [intros _; exists (String a (String b (one c))), s; simpl; repeat split; auto with lia|done].

Lemma trim_left_step s :
  lead_space s = true →
  ∃ p t, s = p +:+ t ∧ (String.length t < String.length s)%nat ∧ trim_left s = trim_left t.
Proof. trim_step s. Qed.
Lemma trim_left_rev_step s :
  lead_space_rev s = true →
  ∃ p t, s = p +:+ t ∧ (String.length t < String.length s)%nat ∧
         trim_left_rev s = trim_left_rev t.
Proof. trim_step s. Qed.
Lemma trim_left_id s : lead_space s = false → trim_left s = s.
Proof. destruct s as [|a [|b [|c s]]]; cbn [lead_space trim_left]; intros H; repeat case_match; done. Qed.
Lemma trim_left_rev_id s : lead_space_rev s = false → trim_left_rev s = s.
Proof. destruct s as [|a [|b [|c s]]]; cbn [lead_space_rev trim_left_rev]; intros H; repeat case_match; done. Qed.

Lemma trim_left_spec s : (∃ p, s = p +:+ trim_left s) ∧ lead_space (trim_left s) = false.
Proof.
  induction s as [s IH] using str_strong_ind.
  destruct (lead_space s) eqn:Hl.
  - destruct (trim_left_step s Hl) as (p & t & Hs & Hlt & ->).
    destruct (IH t Hlt) as [[p' Hp'] ?]. split; [|done].
    exists (p +:+ p'). by rewrite <-app_str_assoc, <-Hp'.
  - rewrite trim_left_id by done. split; [by exists ""|done].
Qed.
Lemma trim_left_rev_spec s :
  (∃ p, s = p +:+ trim_left_rev s) ∧ lead_space_rev (trim_left_rev s) = false.
Proof.
  induction s as [s IH] using str_strong_ind.
  destruct (lead_space_rev s) eqn:Hl.
  - destruct (trim_left_rev_step s Hl) as (p & t & Hs & Hlt & ->).
    destruct (IH t Hlt) as [[p' Hp'] ?]. split; [|done].
    exists (p +:+ p'). by rewrite <-app_str_assoc, <-Hp'.
  - rewrite trim_left_rev_id by done. split; [by exists ""|done].
Qed.

Lemma str_rev_app s t : str_rev (s +:+ t) = str_rev t +:+ str_rev s.
Proof.
  rewrite <-(of_bytes_bytes (str_rev t +:+ str_rev s)).
  rewrite bytes_app, !bytes_str_rev. unfold str_rev.
  by rewrite bytes_app, rev_app_distr.
Qed.
Lemma trim_right_prefix s : ∃ q, s = trim_right s +:+ q.
Proof.
  unfold trim_right. destruct (trim_left_rev_spec (str_rev s)) as [[p Hp] _].
  exists (str_rev p). rewrite <-str_rev_app, <-Hp. by rewrite str_rev_involutive.
Qed.
Lemma lead_space_prefix s q : lead_space (s +:+ q) = false → lead_space s = false.
Proof.
  destruct s as [|a [|b [|c s]]]; [done|..]; rewrite ?app_str_cons; cbn [lead_space];
    rewrite ?orb_false_iff; naive_solver.
Qed.

(** Trimming is a retraction, and drops bytes only at the two ends. *)
Lemma trim_space_idem s : trim_space (trim_space s) = trim_space s.
Proof.
  unfold trim_space at 1. unfold trim_space at 2.
  destruct (trim_right_prefix (trim_left s)) as [q Hq].
  rewrite trim_left_id.
  - unfold trim_space, trim_right. rewrite str_rev_involutive.
    by rewrite (trim_left_rev_id _ (proj2 (trim_left_rev_spec _))).
  - apply (lead_space_prefix _ q). unfold trim_space. rewrite <-Hq. apply trim_left_spec.
Qed.
Lemma trim_space_in c s : str_in c (trim_space s) → str_in c s.
Proof.
  unfold trim_space. intros Hin.
  destruct (trim_right_prefix (trim_left s)) as [q Hq].
  destruct (trim_left_spec s) as [[p Hp] _]. rewrite Hp, Hq, !str_in_app. tauto.
Qed.

(** ** Lemmas: positions from the right *)

Lemma length_str_rev s : String.length (str_rev s) = String.length s.
Proof. rewrite <-!length_bytes, bytes_str_rev. apply length_rev. Qed.
Lemma length_app_str s t :
  String.length (s +:+ t) = (String.length s + String.length t)%nat.
Proof. rewrite <-!length_bytes, bytes_app. apply length_app. Qed.
Lemma last_index_byte_app c l r :
  ¬ str_in c r → last_index_byte c (l +:+ String c r) = Some (String.length l).
Proof.
  intros Hr. unfold last_index_byte.
  assert (str_rev (l +:+ String c r) = str_rev r +:+ String c (str_rev l)) as ->.
  { change (String c r) with (one c +:+ r). rewrite !str_rev_app.
    by rewrite <-app_str_assoc. }
  rewrite index_byte_app by by rewrite str_in_rev.
  simpl. f_equal. rewrite length_str_rev, length_app_str. simpl. lia.
Qed.

(** ** Lemmas: substrings *)

Lemma str_index_Some sub s : is_Some (str_index sub s) ↔ ∃ a b, s = a +:+ sub +:+ b.
Proof.
  induction s as [|c s IH]; simpl.
  - destruct (has_prefix sub "") eqn:Hp.
    + split; [|eauto]. intros _. apply has_prefix_spec in Hp as [r Hr]. by exists "", r.
    + split; [by intros []|]. intros (a & b & Hs).
      assert (has_prefix sub "" = true); [|congruence]. apply has_prefix_spec.
      exists b. destruct a; [done|]. by rewrite app_str_cons in Hs.
  - destruct (has_prefix sub (String c s)) eqn:Hp.
    + split; [|eauto]. intros _. apply has_prefix_spec in Hp as [r Hr]. by exists "", r.
    + rewrite fmap_is_Some, IH. split.
      * intros (a & b & ->). by exists (String c a), b.
      * intros (a & b & Hs). destruct a as [|c' a].
        { assert (has_prefix sub (String c s) = true); [|congruence].
          apply has_prefix_spec. by exists b. }
        rewrite app_str_cons in Hs. simplify_eq. eauto.
Qed.
Lemma contains_spec sub s : contains sub s = true ↔ ∃ a b, s = a +:+ sub +:+ b.
Proof. unfold contains. by rewrite bool_decide_eq_true, str_index_Some. Qed.

Lemma contains_app sub pre s post :
  contains sub s = true → contains sub (pre +:+ s +:+ post) = true.
Proof.
  rewrite !contains_spec. intros (a & b & ->). exists (pre +:+ a), (b +:+ post).
  by rewrite !app_str_assoc.
Qed.
Lemma contains_prefix sub post : contains sub (sub +:+ post) = true.
Proof. apply contains_spec. by exists "", post. Qed.

(** ** Lemmas: decimal numbers *)

Lemma pretty_N_char_digit (d : N) :
  (d < 10)%N → is_digit (pretty_N_char d) = true ∧ digit_val (pretty_N_char d) = Z.of_N d.
Proof.
  intros Hd. assert (d = 0 ∨ d = 1 ∨ d = 2 ∨ d = 3 ∨ d = 4 ∨ d = 5 ∨ d = 6 ∨ d = 7 ∨ d = 8 ∨ d = 9)%N
    as Hc by lia.
  repeat (destruct Hc as [-> |Hc]; [by vm_compute|]). by subst.
Qed.
Lemma dec_val_pretty_go (n : N) s : dec_val 0 (pretty_N_go n s) = dec_val (Z.of_N n) s.
Proof.
  revert s. induction (N.lt_wf_0 n) as [n _ IH]; intros s.
  assert (n = 0 ∨ 0 < n)%N as [->|Hn] by lia; [by rewrite pretty_N_go_0|].
  rewrite pretty_N_go_step, IH by (try done; by apply N.div_lt). cbn [dec_val].
  destruct (pretty_N_char_digit (n mod 10)) as [-> ->]; [by apply N.mod_lt|]. f_equal.
  rewrite N2Z.inj_div, N2Z.inj_mod. change (Z.of_N 10) with 10%Z.
  pose proof (Z.div_mod (Z.of_N n) 10). lia.
Qed.
Lemma pretty_go_digits (n : N) s :
  Forall (λ c, is_digit c = true) (bytes s) → Forall (λ c, is_digit c = true) (bytes (pretty_N_go n s)).
Proof.
  revert s. induction (N.lt_wf_0 n) as [n _ IH]; intros s Hs.
  assert (n = 0 ∨ 0 < n)%N as [->|Hn] by lia; [by rewrite pretty_N_go_0|].
  rewrite pretty_N_go_step by done. apply IH; [by apply N.div_lt|]. cbn. constructor; [|done].
  apply pretty_N_char_digit. by apply N.mod_lt.
Qed.

(** Decimal printing and parsing: a round trip, on digits only. *)
Lemma dec_val_nonneg s : ∀ acc n, (0 ≤ acc)%Z → dec_val acc s = Some n → (0 ≤ n)%Z.
Proof.
  induction s as [|c s IH]; intros acc n Ha; cbn; [by intros [= <-]|].
  destruct (is_digit c) eqn:Hc; [|done]. apply IH. unfold is_digit, in_range in Hc.
  apply andb_true_iff in Hc as [Hc _]. apply Nat.leb_le in Hc. unfold digit_val. lia.
Qed.
Lemma parse_dec_nonneg s n : parse_dec s = Some n → (0 ≤ n)%Z.
Proof. unfold parse_dec. destruct s; [done|]. by apply dec_val_nonneg. Qed.
Lemma parse_uint_range bits s n : parse_uint bits s = Some n → (0 ≤ n < 2 ^ bits)%Z.
Proof.
  unfold parse_uint. destruct (parse_dec s) as [m|] eqn:E; [|done]. apply parse_dec_nonneg in E.
  destruct (Z.ltb_spec m (2 ^ bits)); [|done]. intros [= <-]. lia.
Qed.
Lemma parse_dec_pretty (n : Z) : (0 ≤ n)%Z → parse_dec (pretty n) = Some n.
Proof.
  intros Hn. destruct n as [|p|p]; [done| |lia].
  change (pretty (Z.pos p)) with (pretty (N.pos p)). unfold pretty, pretty_N. rewrite decide_False by done.
  pose proof (dec_val_pretty_go (N.pos p) "") as E. unfold parse_dec.
  destruct (pretty_N_go (N.pos p) "") eqn:Hs; [|by rewrite E].
  by apply (f_equal (λ s, dec_val 0 s)) in Hs; rewrite dec_val_pretty_go in Hs.
Qed.
Lemma pretty_digits (n : Z) : (0 ≤ n)%Z → Forall (λ c, is_digit c = true) (bytes (pretty n)).
Proof.
  intros Hn. destruct n as [|p|p]; [by repeat constructor| |lia].
  change (pretty (Z.pos p)) with (pretty (N.pos p)). unfold pretty, pretty_N. rewrite decide_False by done.
  by apply pretty_go_digits.
Qed.
Lemma pretty_no c (n : Z) : (0 ≤ n)%Z → is_digit c = false → ¬ str_in c (pretty n).
Proof.
  intros Hn Hc Hin. pose proof (pretty_digits n Hn) as Hd. rewrite Forall_forall in Hd.
  specialize (Hd c Hin). congruence.
Qed.
