(* ===== verification/NetIP.v ===== *)
(** * Go's net and net/netip packages, as far as the program uses them

    IP addresses ([netip.Addr]) with their parser and printer, the address
    classes the routing dispatch looks at, [net.SplitHostPort], and the
    [net.TCPAddr] of an accepted connection.  An address is an integer of 32
    or 128 bits. *)

From Stdlib Require Import Ascii.
From S2P Require Import Prelude GoStrings.
Open Scope string_scope.
Open Scope Z_scope.

(** ** netip.Addr *)

Inductive Addr : Type :=
| V4 (a : Z)
| V6 (a : Z) (zone : string).

#[export] Instance Addr_eq_dec : EqDecision Addr.
Proof. solve_decision. Defined.

Definition v4_octets (a : Z) : list Z :=
  [a / 2 ^ 24; (a / 2 ^ 16) mod 256; (a / 2 ^ 8) mod 256; a mod 256].
Definition v4_of_octets (l : list Z) : Z := foldl (λ acc o, acc * 256 + o) 0 l.

Definition is4in6 (a : Z) : bool := bool_decide (Z.shiftr a 32 = 65535).
Definition unmap (ip : Addr) : Addr :=
  match ip with
  | V6 a z => if is4in6 a then V4 (a mod 2 ^ 32) else ip
  | V4 _ => ip
  end.

Definition is_loopback (ip : Addr) : bool :=
  match unmap ip with
  | V4 a => bool_decide (Z.shiftr a 24 = 127)
  | V6 a _ => bool_decide (a = 1)
  end.
Definition is_link_local_unicast (ip : Addr) : bool :=
  match unmap ip with
  | V4 a => bool_decide (Z.shiftr a 16 = 169 * 256 + 254)
  | V6 a _ => bool_decide (Z.land (Z.shiftr a 112) 65472 = 65152)
  end.

(** [Addr.As4]: panics on an address that is neither IPv4 nor IPv4-mapped. *)
Definition as4 (ip : Addr) : option Z :=
  match unmap ip with V4 a => Some a | V6 _ _ => None end.

(** *** Parsing *)

Definition parse_octet (s : string) : option Z :=
  match s with
  | String "0" (String _ _) => None
  | _ => match parse_dec s with
         | Some n => if bool_decide (n ≤ 255)%Z then Some n else None
         | None => None
         end
  end.
Definition parse_v4_fields (s : string) : option Z :=
  match mapM parse_octet (split "." s) with
  | Some [a; b; c; d] => Some (v4_of_octets [a; b; c; d])
  | _ => None
  end.

Definition hex_val (c : char) : option Z :=
  let n := Z.of_nat (nat_of_ascii c) in
  if in_range 48 57 c then Some (n - 48)
  else if in_range 97 102 c then Some (n - 87)
  else if in_range 65 70 c then Some (n - 55)
  else None.
Fixpoint span_hex (s : string) : list Z * string :=
  match s with
  | "" => ([], "")
  | String c s' =>
      match hex_val c with
      | Some d => let '(ds, r) := span_hex s' in (d :: ds, r)
      | None => ([], s)
      end
  end.

(** The group loop of parseIPv6: groups read so far, position of the "::". *)
Fixpoint v6_loop (fuel : nat) (acc : list Z) (ell : option nat) (s : string)
    : option (list Z * option nat * string) :=
  match fuel with
  | O => Some (acc, ell, s)
  | S fuel' =>
      let '(ds, rest) := span_hex s in
      if bool_decide (length ds = 0 ∨ 4 < length ds)%nat then None else
      let acc' := (acc ++ [foldl (λ a d, a * 16 + d) 0 ds])%list in
      match rest with
      | "" => Some (acc', ell, "")
      | String "." _ =>
          if bool_decide ((ell = None ∧ length acc ≠ 6) ∨ 6 < length acc)%nat then None else
          v4 ← parse_v4_fields s;
          Some ((acc ++ [v4 / 2 ^ 16; v4 mod 2 ^ 16])%list, ell, "")
      | String ":" "" => None
      | String ":" (String ":" s2) =>
          if ell then None
          else if bool_decide (s2 = "") then Some (acc', Some (length acc'), "")
          else v6_loop fuel' acc' (Some (length acc')) s2
      | String ":" s1 => v6_loop fuel' acc' ell s1
      | String _ _ => None
      end
  end.
Definition v6_finish (acc : list Z) (ell : option nat) : option Z :=
  match (length acc <? 8)%nat, ell with
  | true, Some e =>
      Some (foldl (λ a g, a * 2 ^ 16 + g) 0
        (take e acc ++ replicate (8 - length acc) 0%Z ++ drop e acc)%list)
  | false, None => Some (foldl (λ a g, a * 2 ^ 16 + g) 0 acc)
  | _, _ => None
  end.
Definition parse_v6_groups (s : string) : option Z :=
  match s with
  | "::" => Some 0%Z
  | String ":" (String ":" s') =>
      '(acc, ell, r) ← v6_loop 8 [] (Some 0%nat) s';
      if bool_decide (r = "") then v6_finish acc ell else None
  | _ =>
      '(acc, ell, r) ← v6_loop 8 [] None s;
      if bool_decide (r = "") then v6_finish acc ell else None
  end.
Definition parse_v6 (s : string) : option Addr :=
  match cut "%" s with
  | Some (_, "") => None
  | Some (s', zone) => (λ a, V6 a zone) <$> parse_v6_groups s'
  | None => (λ a, V6 a "") <$> parse_v6_groups s
  end.

(** The first of '.', ':' and '%' decides the family. *)
Fixpoint addr_family (s : string) : option char :=
  match s with
  | "" => None
  | String c s' => if bool_decide (c ∈ ["."; ":"; "%"]%char) then Some c else addr_family s'
  end.
Definition parse_addr_opt (s : string) : option Addr :=
  match addr_family s with
  | Some "."%char => V4 <$> parse_v4_fields s
  | Some ":"%char => parse_v6 s
  | _ => None
  end.

(** [netip.ParseAddr]; the error text is abbreviated to its constant part. *)
Definition ParseAddr (s : string) : result Addr :=
  match parse_addr_opt s with
  | Some a => Ok a
  | None => Err (EMsg ("ParseAddr(" +:+ s +:+ "): unable to parse IP"))
  end.

(** *** Printing *)

Definition hex_digit (d : Z) : char :=
  chr (Z.to_nat (if (d <? 10)%Z then d + 48 else d + 87)).
Fixpoint strip_zeros (l : list Z) : list Z :=
  match l with
  | 0%Z :: l' => if bool_decide (l' = []) then l else strip_zeros l'
  | _ => l
  end.
Definition hex16 (g : Z) : string :=
  of_bytes (map hex_digit
    (strip_zeros [g / 4096; (g / 256) mod 16; (g / 16) mod 16; g mod 16]%Z)).
Definition v6_groups (a : Z) : list Z :=
  map (λ i, (a / 2 ^ (16 * i)) mod 2 ^ 16) [7; 6; 5; 4; 3; 2; 1; 0].

(** The first longest run of at least two zero groups: (start, length). *)
Fixpoint zero_run (l : list Z) : nat :=
  match l with 0%Z :: l' => S (zero_run l') | _ => O end.
Fixpoint best_run (i : nat) (l : list Z) (best : nat * nat) : nat * nat :=
  match l with
  | [] => best
  | _ :: l' =>
      let n := zero_run l in
      best_run (S i) l' (if (2 <=? n)%nat && (best.2 <? n)%nat then (i, n) else best)
  end.
Definition v6_string (a : Z) : string :=
  let gs := v6_groups a in
  let '(i, n) := best_run 0 gs (0%nat, 0%nat) in
  if bool_decide (n = 0%nat) then join ":" (map hex16 gs)
  else join ":" (map hex16 (take i gs)) +:+ "::" +:+ join ":" (map hex16 (drop (i + n) gs)).

Definition v4_string (a : Z) : string := join "." (map pretty (v4_octets a)).
Definition addr_string (ip : Addr) : string :=
  match ip with
  | V4 a => v4_string a
  | V6 a z =>
      (if is4in6 a then "::ffff:" +:+ v4_string (a mod 2 ^ 32) else v6_string a)
        +:+ (if bool_decide (z = "") then "" else "%" +:+ z)
  end.

(** ** net.SplitHostPort *)

Definition addr_error (why addr : string) : error :=
  EMsg (if bool_decide (addr = "") then why else "address " +:+ addr +:+ ": " +:+ why).
Definition SplitHostPort (hp : string) : result (string * string) :=
  let fail why := Err (addr_error why hp) in
  match last_index_byte colon hp with
  | None => fail "missing port in address"
  | Some i =>
      let finish host j k :=
        if bool_decide (str_in "[" (str_drop j hp)) then fail "unexpected '[' in address"
        else if bool_decide (str_in "]" (str_drop k hp)) then fail "unexpected ']' in address"
        else Ok (host, str_drop (S i) hp) in
      match hp with
      | String "[" _ =>
          match index_byte "]" hp with
          | None => fail "missing ']' in address"
          | Some e =>
              if decide (S e = String.length hp) then fail "missing port in address"
              else if decide (S e = i) then finish (str_drop 1 (str_take e hp)) 1%nat (S e)
              else if has_prefix ":" (str_drop (S e) hp) then fail "too many colons in address"
              else fail "missing port in address"
          end
      | _ =>
          let host := str_take i hp in
          if bool_decide (str_in colon host) then fail "too many colons in address"
          else finish host 0%nat 0%nat
      end
  end.

(** ** net.TCPAddr *)

(** A [net.TCPAddr]: the bytes of its [net.IP] (4 or 16) and its port. *)
Record TCPAddr : Type := { ta_IP : list Z; ta_Port : Z }.

#[export] Instance TCPAddr_eq_dec : EqDecision TCPAddr.
Proof. solve_decision. Defined.

(** [ip.To4()] followed by [netip.AddrFromSlice]: an IPv4 address or nothing. *)
Definition addr_from_to4 (ip : list Z) : option Addr :=
  match ip with
  | [_; _; _; _] => Some (V4 (v4_of_octets ip))
  | [0; 0; 0; 0; 0; 0; 0; 0; 0; 0; 255; 255; a; b; c; d]%Z =>
      Some (V4 (v4_of_octets [a; b; c; d]))
  | _ => None
  end.

(** ** Lemmas *)

Lemma v4_of_octets_inv a : 0 ≤ a < 2 ^ 32 → v4_of_octets (v4_octets a) = a.
Proof.
  intros Ha. unfold v4_of_octets, v4_octets. cbn [foldl].
  change (2 ^ 24) with 16777216. change (2 ^ 16) with 65536. change (2 ^ 8) with 256.
  Z.to_euclidean_division_equations. lia.
Qed.
Lemma v4_octets_range a : 0 ≤ a < 2 ^ 32 → Forall (λ o, 0 ≤ o < 256) (v4_octets a).
Proof.
  intros Ha. unfold v4_octets. change (2 ^ 24) with 16777216.
  repeat constructor; try apply Z.mod_pos_bound; try lia.
  all: Z.to_euclidean_division_equations; lia.
Qed.

(** Every octet prints as a string the parser reads back, free of separators. *)
Definition separators : list char := ["."; ":"; "%"; "["; "]"]%char.
Definition octet_ok (n : Z) : bool :=
  bool_decide (parse_octet (pretty n) = Some n ∧
    Forall (λ c, ¬ str_in c (pretty n)) separators).
Lemma octets_ok n : 0 ≤ n < 256 →
  parse_octet (pretty n) = Some n ∧ Forall (λ c, ¬ str_in c (pretty n)) separators.
Proof.
  intros Hn.
  assert (forallb octet_ok (seqZ 0 256) = true) as Hall by (vm_compute; reflexivity).
  rewrite forallb_forall in Hall. apply (bool_decide_eq_true_1 _).
  apply Hall, list_elem_of_In, elem_of_seqZ. lia.
Qed.
Lemma octets_no_sep a c :
  0 ≤ a < 2 ^ 32 → c ∈ separators → Forall (λ p, ¬ str_in c p) (map pretty (v4_octets a)).
Proof.
  intros Ha Hc. apply Forall_map. eapply Forall_impl; [by apply v4_octets_range|].
  intros n [_ Hall]%octets_ok. rewrite Forall_forall in Hall. by apply Hall.
Qed.

(** A separator other than '.' never occurs in a printed IPv4 address. *)
Lemma v4_string_no_sep a c :
  0 ≤ a < 2 ^ 32 → c ∈ separators → c ≠ "."%char → ¬ str_in c (v4_string a).
Proof.
  intros Ha Hc Hne. apply (join_no_sep c "."); [|by apply octets_no_sep].
  rewrite str_in_cons. intros [?|[]%str_in_nil]; done.
Qed.

Lemma parse_v4_fields_string a : 0 ≤ a < 2 ^ 32 → parse_v4_fields (v4_string a) = Some a.
Proof.
  intros Ha. unfold parse_v4_fields, v4_string. change "." with (one ".").
  rewrite split_join; [|done|by apply octets_no_sep; [done|set_solver]].
  rewrite (mapM_map_Some parse_octet pretty (v4_octets a)).
  - unfold v4_octets at 1. f_equal. by apply (v4_of_octets_inv a).
  - eapply Forall_impl; [by apply v4_octets_range|]. by intros n [? _]%octets_ok.
Qed.

Lemma addr_family_dot s t :
  (∀ c, c ∈ [":"; "%"]%char → ¬ str_in c s) → addr_family (s +:+ String "." t) = Some "."%char.
Proof.
  induction s as [|a s IH]; intros Hs; [done|]. rewrite app_str_cons. simpl.
  case_bool_decide as Ha.
  - assert (¬ str_in ":" (String a s)) by (apply Hs; set_solver).
    assert (¬ str_in "%" (String a s)) by (apply Hs; set_solver).
    rewrite !str_in_cons in *. set_solver.
  - apply IH. intros c Hc Hin. apply (Hs c Hc), str_in_cons. by right.
Qed.

(** Printing then parsing an IPv4 address. *)
Lemma ParseAddr_v4_string a : 0 ≤ a < 2 ^ 32 → ParseAddr (v4_string a) = Ok (V4 a).
Proof.
  intros Ha. unfold ParseAddr, parse_addr_opt.
  replace (addr_family (v4_string a)) with (Some "."%char).
  { by rewrite parse_v4_fields_string. }
  symmetry. unfold v4_string, v4_octets. cbn [map join].
  change ("." +:+ ?x) with (String "." x). apply addr_family_dot.
  intros c Hc. pose proof (octets_no_sep a c Ha) as Ho. unfold v4_octets in Ho.
  apply Forall_cons in Ho as [? _]; [done|]. set_solver.
Qed.

(** Splitting the remote address of an IPv4 connection. *)
Lemma SplitHostPort_v4 a port :
  0 ≤ a < 2 ^ 32 → Forall (λ c, ¬ str_in c port) separators →
  SplitHostPort (v4_string a +:+ ":" +:+ port) = Ok (v4_string a, port).
Proof.
  intros Ha Hp. rewrite Forall_forall in Hp.
  assert (∀ c, c ∈ separators → c ≠ "."%char → ¬ str_in c (v4_string a)) as Hv
    by eauto using v4_string_no_sep.
  assert (∀ c, c ∈ ["["; "]"]%char → ¬ str_in c (v4_string a +:+ String ":" port)) as Hb.
  { intros c Hc. rewrite str_in_app, str_in_cons.
    intros [Hin|[->|Hin]]; [|set_solver|].
    - eapply Hv, Hin; [set_solver|]. intros ->. set_solver.
    - eapply Hp, Hin. set_solver. }
  change (":" +:+ port) with (String ":" port).
  assert (¬ str_in "[" (v4_string a +:+ String ":" port)) as Hl by (apply Hb; set_solver).
  assert (¬ str_in "]" (v4_string a +:+ String ":" port)) as Hr by (apply Hb; set_solver).
  assert (¬ str_in colon (v4_string a)) as Hc by (apply Hv; [set_solver|done]).
  assert (¬ str_in colon port) as Hcp by (apply Hp; set_solver).
  unfold SplitHostPort. rewrite last_index_byte_app by done.
  rewrite str_take_app. simpl str_drop at 1 2.
  rewrite !(bool_decide_eq_false_2 (str_in _ _)) by done.
  replace (str_drop (S (String.length (v4_string a))) (v4_string a +:+ String ":" port)) with port.
  2:{ change (String ":" port) with (one ":" +:+ port). rewrite app_str_assoc.
      rewrite <-(str_drop_app (v4_string a +:+ one ":") port) at 1. f_equal.
      rewrite length_app_str. simpl. lia. }
  destruct (v4_string a +:+ String ":" port) as [|c r] eqn:Hhp; [done|].
  rewrite str_in_cons in Hl. destruct (decide (c = "["%char)) as [->|Hne]; [naive_solver|].
  destruct c as [[] [] [] [] [] [] [] []]; done.
Qed.

(** A parsed IPv4 address has 32 bits. *)
Lemma parse_octet_range s n : parse_octet s = Some n → 0 ≤ n < 256.
Proof.
  intros Hs. assert (Hd : ∃ t, parse_dec t = Some n ∧ n ≤ 255).
  { unfold parse_octet in Hs. destruct s as [|[[] [] [] [] [] [] [] []] [|]]; try done;
      (case_match; [|done]; case_bool_decide; [|done]; injection Hs as <-; by eexists). }
  destruct Hd as (t & Ht & Hn). apply parse_dec_nonneg in Ht. lia.
Qed.
Lemma ParseAddr_v4_range s a : ParseAddr s = Ok (V4 a) → 0 ≤ a < 2 ^ 32.
Proof.
  unfold ParseAddr, parse_addr_opt. intros H. destruct (addr_family s) as [c|]; [|done].
  assert (Hf : parse_v4_fields s = Some a).
  { assert (H6 : parse_v6 s ≠ Some (V4 a)).
    { unfold parse_v6. destruct (cut "%" s) as [[s1 [|]]|]; [done|..]; by destruct (parse_v6_groups _). }
    destruct c as [[] [] [] [] [] [] [] []]; try done; cbn in H.
    all: first [destruct (parse_v6 s); [|done]; congruence
               |destruct (parse_v4_fields s); [|done]; by injection H as <-]. }
  unfold parse_v4_fields in Hf. destruct (mapM parse_octet _) as [l|] eqn:E; [|done].
  apply mapM_Some in E. assert (Hl : Forall (λ n, 0 ≤ n < 256) l).
  { clear Hf. induction E; constructor; [by eapply parse_octet_range|done]. }
  destruct l as [|n1 [|n2 [|n3 [|n4 [|]]]]]; try done. injection Hf as <-.
  rewrite !Forall_cons in Hl. unfold v4_of_octets. cbn [foldl]. change (2 ^ 32) with 4294967296. lia.
Qed.
