(* ===== verification/Retry.v ===== *)
(** * internal/retry and internal/time: retrying a fallible operation

    [Do] runs [Operation.Func] until it succeeds, fails with an error that is
    not retryable, runs out of attempts, or its context is done while it
    sleeps.  The state type [W] is the state the closure and the context work
    on; a world with a scripted operation ([Script]) gives the theorems their
    exact call, failure and sleep counts. *)

From S2P Require Import Prelude GoStrings.
Open Scope string_scope.
Open Scope Z_scope.

(** A context: whether it is done before a timer of the given duration
    fires, and [ctx.Err()] once it is done. *)
Record Ctx (W : Type) : Type := {
  ctx_done_before : Z → ST W bool;
  ctx_Err : ST W error;
}.
Arguments ctx_done_before {W} _ _.
Arguments ctx_Err {W} _.

(** pkgtime.SleepContext: the ctx error if the context is done first. *)
Definition SleepContext {W} (ctx : Ctx W) (d : Z) : ST W (option error) :=
  done ← ctx_done_before ctx d;
  if (done : bool) then e ← ctx_Err ctx; mret (Some e) else mret None.

Record Operation (W : Type) : Type := {
  MaxAttempts : Z;
  InitialDelay : Z;
  MaxDelay : Z;
  Description : string;
  FailureCounter : option (ST W unit);
  Func : option (ST W (result unit));
  IsRetryable : option (error → bool);
}.
Arguments MaxAttempts {W} _.
Arguments InitialDelay {W} _.
Arguments MaxDelay {W} _.
Arguments Description {W} _.
Arguments FailureCounter {W} _.
Arguments Func {W} _.
Arguments IsRetryable {W} _.

(** The option defaults at the top of [Do]. *)
Definition default_max_attempts (n : Z) : Z := if (n =? 0)%Z then 3 else n.
Definition default_initial_delay (d : Z) : Z := if (d <=? 0)%Z then Second else d.
Definition default_max_delay (init d : Z) : Z :=
  let d' := if (d <=? 0)%Z then 30 * Second else d in
  if (d' <? init)%Z then init else d'.

(** The delay after the [i]-th failed attempt. *)
Definition exp_delay (init maxd i : Z) : Z :=
  let d := wrap64 (wrap64 (Z.shiftl 1 (i - 1)) * init) in
  if (11 <? i)%Z || (maxd <? d)%Z then maxd else d.

Section Do.
Context {W : Type}.

(** The loop of [Do]; [None] when the fuel runs out before it returns. *)
Fixpoint attempts (fuel : nat) (ctx : Ctx W) (max init maxd : Z) (desc : string)
  (count : ST W unit) (f : ST W (result unit)) (retryable : error → bool) (i : Z)
  : ST W (option (result unit)) :=
match fuel with
| O => mret None
| S fuel' =>
    if (max <? 0)%Z || (i <=? max)%Z then
      r ← f;
      match r with
      | Ok _ => mret (Some (Ok tt))
      | Err e =>
          if negb (retryable e) then mret (Some (Err e)) else
          _ ← count;
          if (i =? max)%Z then mret (Some (Err (EMaxAttempts desc max e))) else
          c ← SleepContext ctx (exp_delay init maxd i);
          match c with
          | Some e' => mret (Some (Err (EContextCanceled desc e')))
          | None => attempts fuel' ctx max init maxd desc count f retryable (wrap64 (i + 1))
          end
      end
    else mret (Some (Ok tt))
end.

Definition Do (fuel : nat) (ctx : Ctx W) (op : Operation W) : ST W (option (result unit)) :=
if bool_decide (Description op = "") then
  mret (Some (Err (EMsg "a retryable operation must have a description"))) else
match Func op with
| None =>
    mret (Some (Err (EMsg "a retryable operation must have a function to be called")))
| Some f =>
    match FailureCounter op with
    | None => mret (Some (Err (EMsg
        "a retryable operation must have a failure counter for observability")))
    | Some count =>
        match IsRetryable op with
        | None => mret (Some (Err (EMsg
            "a retryable operation must have a function to check if an error is retryable")))
        | Some retryable =>
            let init := default_initial_delay (InitialDelay op) in
            attempts fuel ctx (default_max_attempts (MaxAttempts op)) init
              (default_max_delay init (MaxDelay op)) (Description op)
              count f retryable 1
        end
    end
end.
End Do.

(** [errors.Is] against the two error types of this package, through their
    [Is] methods and [%w] wrapping. *)
Fixpoint is_max_attempts (e : error) : bool :=
  match e with
  | EMaxAttempts _ _ _ => true
  | EWrap _ e' _ => is_max_attempts e'
  | _ => false
  end.
Fixpoint is_context_canceled (e : error) : bool :=
  match e with
  | EContextCanceled _ _ => true
  | EWrap _ e' _ => is_context_canceled e'
  | _ => false
  end.

Definition StatusClientClosedRequest : Z := 499.
Definition HTTPStatusCode (e : error) : Z :=
  if is_max_attempts e then 429
  else if is_context_canceled e then StatusClientClosedRequest
  else 500.

(** ** A scripted operation *)

Module Script.
(** The world counts the calls of the operation and the increments of the
  failure counter, and records the sleeps. *)
Record World : Type := { calls : nat; incs : nat; slept : list Z }.

Section Script.
(** What the [n]-th call returns, and whether the [n]-th sleep is cut short. *)
Context (script : nat → result unit) (cancel : nat → option error).

Definition func : ST World (result unit) := λ w,
(Ret (script (calls w)), {| calls := S (calls w); incs := incs w; slept := slept w |}).
Definition inc : ST World unit := λ w,
(Ret tt, {| calls := calls w; incs := S (incs w); slept := slept w |}).
Definition ctx : Ctx World := {|
ctx_done_before d w :=
(Ret (bool_decide (is_Some (cancel (length (slept w))))),
 {| calls := calls w; incs := incs w; slept := (slept w ++ [d])%list |});
ctx_Err w := (Ret (default (EMsg "") (cancel (pred (length (slept w))))), w);
|}.
Definition start : World := {| calls := 0; incs := 0; slept := [] |}.
Definition op (max init maxd : Z) (desc : string) (retryable : error → bool)
: Operation World :=
{| MaxAttempts := max; InitialDelay := init; MaxDelay := maxd; Description := desc;
 FailureCounter := Some inc; Func := Some func; IsRetryable := Some retryable |}.
End Script.
End Script.

(** ** Theorems *)

Section Script_theorems.
Context (script : nat → result unit) (cancel : nat → option error).
Context (max init maxd : Z) (desc : string) (retryable : error → bool).
Implicit Types w : Script.World.

Local Abbreviation loop fuel i := (attempts fuel (Script.ctx cancel) max init maxd desc
Script.inc (Script.func script) retryable (Z.of_nat i)).

Local Abbreviation delays i k := (map (λ j, exp_delay init maxd (Z.of_nat j)) (seq i k)).

(** The world after [k] failed, retried attempts starting at attempt [i]. *)
Definition advance (k i : nat) (w : Script.World) : Script.World :=
{| Script.calls := Script.calls w + k; Script.incs := Script.incs w + k;
   Script.slept := (Script.slept w ++ delays i k)%list |}.

(** The [j]-th call fails with a retryable error. *)
Definition fails (j : nat) : Prop := ∃ e, script j = Err e ∧ retryable e = true.

Ltac run_step Hi Hs :=
cbn [attempts]; rewrite (proj2 (Z.leb_le _ max)), orb_true_r by lia;
st_simpl; rewrite Hs; st_simpl.

(** One iteration, by what the call returns. *)
Lemma step_final fuel (i : nat) w r :
Z.of_nat i ≤ max → script (Script.calls w) = r → ¬ fails (Script.calls w) →
loop (S fuel) i w =
  (Ret (Some r), {| Script.calls := S (Script.calls w); Script.incs := Script.incs w;
                    Script.slept := Script.slept w |}).
Proof.
intros Hi Hs Hf. run_step Hi Hs. destruct r as [[]|e]; [done|].
destruct (retryable e) eqn:He; [|done]. destruct Hf. by exists e.
Qed.
Lemma step_exhausted fuel (i : nat) w e :
Z.of_nat i = max → script (Script.calls w) = Err e → retryable e = true →
loop (S fuel) i w =
  (Ret (Some (Err (EMaxAttempts desc max e))),
   {| Script.calls := S (Script.calls w); Script.incs := S (Script.incs w);
      Script.slept := Script.slept w |}).
Proof.
intros Hi Hs He. run_step Hi Hs. rewrite He. st_simpl. by rewrite (proj2 (Z.eqb_eq _ _)).
Qed.
Lemma step_cancelled fuel (i : nat) w e e' :
Z.of_nat i < max → script (Script.calls w) = Err e → retryable e = true →
cancel (length (Script.slept w)) = Some e' →
loop (S fuel) i w =
  (Ret (Some (Err (EContextCanceled desc e'))), advance 1 i w).
Proof.
intros Hi Hs He Hc. run_step Hi Hs. rewrite He. st_simpl.
rewrite (proj2 (Z.eqb_neq _ max)) by lia. unfold SleepContext. st_simpl. rewrite Hc. st_simpl.
rewrite length_app, Nat.add_1_r. cbn. rewrite Hc. cbn. unfold advance. cbn.
do 3 f_equal; lia.
Qed.
Lemma step_retry fuel (i : nat) w e :
Z.of_nat i < max → max < 2 ^ 63 → script (Script.calls w) = Err e →
retryable e = true → cancel (length (Script.slept w)) = None →
loop (S fuel) i w = loop fuel (S i) (advance 1 i w).
Proof.
intros Hi Hmax Hs He Hc. run_step Hi Hs. rewrite He. st_simpl.
rewrite (proj2 (Z.eqb_neq _ max)) by lia. unfold SleepContext. st_simpl. rewrite Hc. st_simpl.
rewrite wrap64_id by (unfold in_int64; lia).
rewrite Z.add_1_r, <-Nat2Z.inj_succ. unfold advance. cbn. by rewrite !Nat.add_1_r.
Qed.

Lemma advance_advance a b i w :
advance b (i + a) (advance a i w) = advance (a + b) i w.
Proof.
unfold advance; cbn. rewrite <-app_assoc, <-map_app, <-seq_app.
by rewrite !Nat.add_assoc.
Qed.

Lemma loop_prefix k : ∀ fuel (i : nat) w,
Z.of_nat (i + k) ≤ max → max < 2 ^ 63 → length (Script.slept w) = Script.calls w →
(∀ j, (j < k)%nat → fails (Script.calls w + j) ∧ cancel (Script.calls w + j)%nat = None) →
loop (k + fuel)%nat i w = loop fuel (i + k)%nat (advance k i w).
Proof.
induction k as [|k IH]; intros fuel i w Hmax Hlt Hlen Hfail.
{ unfold advance. rewrite !Nat.add_0_r, app_nil_r. by destruct w. }
destruct (Hfail O) as [(e & Hs & Hre) Hc]; [lia|]. rewrite Nat.add_0_r in Hs, Hc.
rewrite Nat.add_succ_l, (step_retry _ _ _ e) by (done || lia || by rewrite Hlen).
rewrite IH.
- rewrite <-Nat.add_1_r, advance_advance. by rewrite <-Nat.add_assoc, Nat.add_1_l.
- lia.
- done.
- cbn. rewrite length_app. cbn. lia.
- intros j Hj. cbn. rewrite <-Nat.add_assoc. apply Hfail. lia.
Qed.
Lemma loop_gives_up (n : nat) e :
(0 < n)%nat → max = Z.of_nat n → max < 2 ^ 63 →
(∀ j, (j < n)%nat → fails j) → (∀ j, (S j < n)%nat → cancel j = None) →
script (pred n) = Err e →
loop n 1 Script.start =
  (Ret (Some (Err (EMaxAttempts desc max e))),
   {| Script.calls := n; Script.incs := n; Script.slept := delays 1%nat (pred n) |}).
Proof.
intros Hn Hmax Hlt Hf Hc He. destruct n as [|n]; [lia|]. cbn [pred] in *.
rewrite <-(Nat.add_1_r n).
rewrite loop_prefix; [|lia|done|done|intros j Hj; split; [apply Hf|apply Hc]; cbn; lia].
destruct (Hf n) as (e2 & ? & ?); [lia|].
rewrite (step_exhausted _ _ _ e); cbn; [|lia|done|congruence].
by rewrite Nat.add_1_r.
Qed.

Lemma loop_returns (n k : nat) :
(k < n)%nat → max = Z.of_nat n → max < 2 ^ 63 →
(∀ j, (j < k)%nat → fails j ∧ cancel j = None) → ¬ fails k →
loop n 1 Script.start =
  (Ret (Some (script k)),
   {| Script.calls := S k; Script.incs := k; Script.slept := delays 1%nat k |}).
Proof.
intros Hk Hmax Hlt Hf Hr. replace n with (k + S (n - S k))%nat by lia.
rewrite loop_prefix; [|lia|done|done|exact Hf].
by rewrite (step_final _ _ _ (script k)); [|lia|..].
Qed.

Lemma loop_cancelled (n k : nat) e' :
(S k < n)%nat → max = Z.of_nat n → max < 2 ^ 63 →
(∀ j, (j ≤ k)%nat → fails j) → (∀ j, (j < k)%nat → cancel j = None) →
cancel k = Some e' →
loop n 1 Script.start =
  (Ret (Some (Err (EContextCanceled desc e'))),
   {| Script.calls := S k; Script.incs := S k; Script.slept := delays 1%nat (S k) |}).
Proof.
intros Hk Hmax Hlt Hf Hn Hc. replace n with (k + S (n - S k))%nat by lia.
rewrite loop_prefix; [|lia|done|done|intros j Hj; split; [apply Hf|apply Hn]; cbn; lia].
destruct (Hf k) as (e & ? & ?); [lia|].
rewrite (step_cancelled _ _ _ e e');
  [|cbn; lia|done|done|by cbn; rewrite length_map, length_seq].
rewrite seq_S, map_app. unfold advance. by rewrite !Nat.add_1_r.
Qed.
End Script_theorems.

(** *** Any operation *)

Lemma attempts_terminates {W} (ctx : Ctx W) max init maxd desc count f retryable :
  total f → total count → (∀ d, total (ctx_done_before ctx d)) → total (ctx_Err ctx) →
  0 < max < 2 ^ 63 → ∀ n i w, 1 ≤ i → (Z.to_nat (max + 1 - i) ≤ n)%nat → (0 < n)%nat →
  ∃ r w', attempts n ctx max init maxd desc count f retryable i w = (Ret (Some r), w') .
Proof.
  intros Hf Hcount Hdone Herr Hmax. induction n as [|n IH]; intros i w Hi Hn Hpos; [lia|].
  cbn [attempts]. destruct ((max <? 0) || (i <=? max))%Z eqn:Hguard; [|by eexists _, _].
  destruct (Hf w) as (r & w1 & E1). st_simpl. rewrite E1.
  destruct r as [a|e]; [by eexists _, _|].
  destruct (retryable e); [|by eexists _, _]. cbn.
  destruct (Hcount w1) as (u & w2 & E2). rewrite E2.
  destruct (i =? max)%Z eqn:Hlast; [by eexists _, _|].
  destruct (Hdone (exp_delay init maxd i) w2) as (b & w3 & E3).
  unfold SleepContext. st_simpl. rewrite E3.
  destruct b; [destruct (Herr w3) as (e' & w4 & E4); rewrite E4; by eexists _, _|].
  apply Z.eqb_neq in Hlast. apply orb_true_iff in Hguard.
  rewrite Z.ltb_lt, Z.leb_le in Hguard.
  rewrite wrap64_id by (unfold in_int64; lia). apply IH; lia.
Qed.

Lemma exp_delay_closed init maxd i :
  0 < init < 2 ^ 53 → init ≤ maxd < 2 ^ 63 → 1 ≤ i →
  exp_delay init maxd i = (if (i <=? 11)%Z then Z.min (2 ^ (i - 1) * init) maxd else maxd).
Proof.
  intros Hinit Hmaxd Hi. unfold exp_delay.
  destruct (Z.leb_spec i 11), (Z.ltb_spec 11 i); try lia; cbn; [|done].
  rewrite Z.shiftl_1_l.
  assert (1 ≤ 2 ^ (i - 1) ≤ 1024).
  { split; [|change 1024 with (2 ^ 10); apply Z.pow_le_mono_r; lia].
    pose proof (Z.pow_pos_nonneg 2 (i - 1)). lia. }
  change (2 ^ 53) with 9007199254740992 in *. change (2 ^ 63) with 9223372036854775808 in *.
  rewrite (wrap64_id (2 ^ (i - 1)))
    by (unfold in_int64; change (2 ^ 63) with 9223372036854775808; lia).
  rewrite wrap64_id by (unfold in_int64; change (2 ^ 63) with 9223372036854775808; nia).
  destruct (Z.ltb_spec maxd (2 ^ (i - 1) * init)); lia.
Qed.

(** Whatever the operation, the counter and the context keep true of the state
    holds when [Do] returns. *)
Lemma attempts_invariant {W} (I : W → Prop) (ctx : Ctx W) max init maxd desc
    (count : ST W unit) (f : ST W (result unit)) retryable :
  keeps I f → keeps I count → (∀ d, keeps I (ctx_done_before ctx d)) → keeps I (ctx_Err ctx) →
  ∀ fuel i, keeps I (attempts fuel ctx max init maxd desc count f retryable i).
Proof.
  intros Hf Hcount Hdone Herr fuel. induction fuel as [|fuel IH]; intros i; cbn [attempts].
  { apply keeps_ret. }
  destruct (_ || _); [|apply keeps_ret]. apply keeps_bind; [done|]. intros [[]|e]; [apply keeps_ret|].
  destruct (negb _); [apply keeps_ret|]. apply keeps_bind; [done|]. intros [].
  destruct (i =? max)%Z; [apply keeps_ret|]. apply keeps_bind.
  - apply keeps_bind; [done|]. intros []; [|apply keeps_ret].
    apply keeps_bind; [done|]. intros. apply keeps_ret.
  - intros []; [apply keeps_ret|apply IH].
Qed.
Lemma Do_invariant {W} (I : W → Prop) fuel (ctx : Ctx W) (op : Operation W) :
  (∀ f, Func op = Some f → keeps I f) → (∀ count, FailureCounter op = Some count → keeps I count) →
  (∀ d, keeps I (ctx_done_before ctx d)) → keeps I (ctx_Err ctx) → keeps I (Do fuel ctx op).
Proof.
  intros Hf Hcount Hdone Herr. unfold Do. repeat (case_match; [apply keeps_ret| ] || (case_match; [|apply keeps_ret])).
  apply attempts_invariant; eauto.
Qed.

(** What the loop of [Do] runs with. *)
Section Do_theorems.
Context (script : nat → result unit) (cancel : nat → option error).
Context (max init maxd : Z) (desc : string) (retryable : error → bool).
Context (Hdesc : desc ≠ "").

Local Abbreviation run n := (Do n (Script.ctx cancel)
(Script.op script max init maxd desc retryable) Script.start).
Local Abbreviation init' := (default_initial_delay init).
Local Abbreviation maxd' := (default_max_delay init' maxd).
Local Abbreviation delays k := (map (λ j, exp_delay init' maxd' (Z.of_nat j)) (seq 1 k)).

(** When every attempt fails with a retryable error and no sleep is cut
  short, [Do] calls the operation exactly [MaxAttempts] times (3 when
  unset), counts every failure, sleeps the exponential delays in between
  and returns the max-attempts error around the last failure. *)
Lemma Do_gives_up (n : nat) :
(0 < n)%nat → Z.of_nat n = default_max_attempts max → Z.of_nat n < 2 ^ 63 →
(∀ j, (j < n)%nat → fails script retryable j) →
(∀ j, (S j < n)%nat → cancel j = None) →
∃ e, script (pred n) = Err e ∧
  run n = (Ret (Some (Err (EMaxAttempts desc (Z.of_nat n) e))),
    {| Script.calls := n; Script.incs := n; Script.slept := delays (pred n) |}).
Proof.
intros Hn Hmax Hlt Hf Hc. destruct (Hf (pred n)) as (e & He & _); [lia|].
exists e. split; [done|]. unfold Do, Script.op. cbn [Description Func FailureCounter IsRetryable].
rewrite bool_decide_eq_false_2 by done. cbn. rewrite <-Hmax.
by apply loop_gives_up.
Qed.

(** [Do] returns the first result that is a success or an error that is
  not retryable, after exactly that many calls, and the failure counter
  counts only the retryable failures before it. *)
Lemma Do_returns_first_final (n k : nat) :
(k < n)%nat → Z.of_nat n = default_max_attempts max → Z.of_nat n < 2 ^ 63 →
(∀ j, (j < k)%nat → fails script retryable j ∧ cancel j = None) →
¬ fails script retryable k →
run n = (Ret (Some (script k)),
  {| Script.calls := S k; Script.incs := k; Script.slept := delays k |}).
Proof.
intros Hk Hmax Hlt Hf Hr. unfold Do, Script.op. cbn [Description Func FailureCounter IsRetryable].
rewrite bool_decide_eq_false_2 by done. cbn. rewrite <-Hmax. by apply loop_returns.
Qed.

(** A context that is done while [Do] sleeps stops it at once: no
  further call, and the context-canceled error, which HTTPStatusCode maps
  to 499, while giving up maps to 429. *)
Lemma Do_cancelled (n k : nat) e' :
(S k < n)%nat → Z.of_nat n = default_max_attempts max → Z.of_nat n < 2 ^ 63 →
(∀ j, (j ≤ k)%nat → fails script retryable j) →
(∀ j, (j < k)%nat → cancel j = None) → cancel k = Some e' →
run n = (Ret (Some (Err (EContextCanceled desc e'))),
  {| Script.calls := S k; Script.incs := S k; Script.slept := delays (S k) |})
∧ HTTPStatusCode (EContextCanceled desc e') = 499
∧ ∀ m e, HTTPStatusCode (EMaxAttempts desc m e) = 429.
Proof.
intros Hk Hmax Hlt Hf Hn Hc. split; [|done].
unfold Do, Script.op. cbn [Description Func FailureCounter IsRetryable].
rewrite bool_decide_eq_false_2 by done. cbn. rewrite <-Hmax. by apply loop_cancelled.
Qed.
(** What [Do] should return, said without a loop: look for the first attempt
    that is final (a success or a permanent error) or whose sleep is cut short;
    if there is none the attempts are used up.  The counts are of calls, of
    counted failures and of sleeps. *)
Definition final_at (k : nat) : bool :=
match script k with Ok _ => true | Err e => negb (retryable e) end.
Definition cut_at (n k : nat) : bool := (S k <? n)%nat && bool_decide (cancel k ≠ None).
Definition reference (n : nat) : result unit * (nat * nat * nat) :=
match list_find (λ k, final_at k || cut_at n k) (seq 0 n) with
| Some (_, k) =>
    if final_at k then (script k, (S k, k, k))
    else match cancel k with
         | Some e => (Err (EContextCanceled desc e), (S k, S k, S k))
         | None => (script k, (S k, k, k))
         end
| None =>
    (match script (pred n) with
     | Err e => Err (EMaxAttempts desc (Z.of_nat n) e)
     | Ok u => Ok u
     end, (n, n, pred n))
end.

Lemma final_at_false k : final_at k = false ↔ fails script retryable k.
Proof.
unfold final_at, fails. destruct (script k) as [u|e]; [split; [done|by intros (? & ? & ?)]|].
rewrite negb_false_iff. split; [intros ?; by exists e|]. by intros (e' & [= ->] & ?).
Qed.
Lemma not_stopped n k : (final_at k || cut_at n k) = false →
fails script retryable k ∧ ((S k < n)%nat → cancel k = None).
Proof.
intros [Hf Hc]%orb_false_iff. split; [by apply final_at_false|]. intros Hlt.
unfold cut_at in Hc. rewrite (proj2 (Nat.ltb_lt _ _) Hlt) in Hc. cbn in Hc.
apply bool_decide_eq_false in Hc. by destruct (cancel k); [destruct Hc|].
Qed.

(** C20: [Do] is equivalent to its reference on every script of results and
  cancelled sleeps: it returns the first success or permanent error, or the
  context-canceled error of the first sleep that is cut short, or else the
  max-attempts error around the last failure; it calls the operation, counts
  failures and sleeps (the exponential delays, in order) as often as that
  takes, and gives up after [MaxAttempts] calls, 3 when unset. *)
Theorem Do_outcome (n : nat) :
(0 < n)%nat → Z.of_nat n = default_max_attempts max → Z.of_nat n < 2 ^ 63 →
let '(r, (calls, incs, sleeps)) := reference n in
run n = (Ret (Some r), {| Script.calls := calls; Script.incs := incs; Script.slept := delays sleeps |}).
Proof.
intros Hn Hmax Hlt. unfold reference.
destruct (list_find _ _) as [[i k]|] eqn:Hfind.
- apply list_find_Some in Hfind as (Hk & Hstop & Hbefore).
  apply lookup_seq in Hk as [-> Hk]. cbn in Hk, Hstop.
  assert (Hpre : ∀ j, (j < i)%nat → fails script retryable j ∧ cancel j = None).
  { intros j Hj. destruct (not_stopped n j) as [Hf Hc]; [|by split; [|apply Hc; lia]].
    apply not_true_is_false. intros Ht. apply (Hbefore j j); [apply lookup_seq; lia|done|].
    by rewrite Ht. }
  cbn. destruct (final_at i) eqn:Hfin.
  { apply Do_returns_first_final; try done. rewrite <-final_at_false. congruence. }
  cbn in Hstop. unfold cut_at in Hstop. apply Is_true_true, andb_true_iff in Hstop as [Hi Hc].
  apply Nat.ltb_lt in Hi. apply bool_decide_eq_true in Hc. destruct (cancel i) as [e|] eqn:He; [|done].
  apply Do_cancelled; try done; [|by intros j Hj; apply Hpre].
  intros j Hj. destruct (decide (j = i)) as [->|]; [by apply final_at_false|apply Hpre; lia].
- apply list_find_None in Hfind. rewrite Forall_forall in Hfind.
  assert (Hall : ∀ j, (j < n)%nat → fails script retryable j ∧ ((S j < n)%nat → cancel j = None)).
  { intros j Hj. apply not_stopped, not_true_is_false. intros Ht.
    apply (Hfind j); [apply elem_of_seq; lia|]. by rewrite Ht. }
  destruct (Do_gives_up n) as (e & He & Hrun); try done; try (intros; by apply Hall; lia).
  by rewrite He.
Qed.
End Do_theorems.

(** Witness data: an operation that fails twice with a retryable error. *)
Definition flaky (n : nat) : result unit :=
  if (n <? 2)%nat then Err (EMsg "boom") else Ok tt.
Definition all_retryable (_ : error) : bool := true.

Lemma Do_outcome_witness :
  Do 5 (Script.ctx (λ _, None)) (Script.op flaky 5 Second 0 "probe" all_retryable) Script.start =
    (Ret (Some (Ok tt)), {| Script.calls := 3; Script.incs := 2; Script.slept := [Second; 2 * Second] |}) ∧
  Do 3 (Script.ctx (λ k, if (k =? 1)%nat then Some (ESentinel ErrContextDone "context canceled") else None))
      (Script.op flaky 0 Second 0 "probe" all_retryable) Script.start =
    (Ret (Some (Err (EContextCanceled "probe" (ESentinel ErrContextDone "context canceled")))),
     {| Script.calls := 2; Script.incs := 2; Script.slept := [Second; 2 * Second] |}) ∧
  Do 2 (Script.ctx (λ _, None)) (Script.op flaky 2 Second 0 "probe" all_retryable) Script.start =
    (Ret (Some (Err (EMaxAttempts "probe" 2 (EMsg "boom")))),
     {| Script.calls := 2; Script.incs := 2; Script.slept := [Second] |}).
Proof.
  split_and!.
  - exact (Do_outcome flaky (λ _, None) 5 Second 0 "probe" all_retryable ltac:(done) 5
      ltac:(lia) ltac:(reflexivity) ltac:(lia)).
  - exact (Do_outcome flaky (λ k, if (k =? 1)%nat then Some (ESentinel ErrContextDone "context canceled") else None)
      0 Second 0 "probe" all_retryable ltac:(done) 3 ltac:(lia) ltac:(reflexivity) ltac:(lia)).
  - exact (Do_outcome flaky (λ _, None) 2 Second 0 "probe" all_retryable ltac:(done) 2
      ltac:(lia) ltac:(reflexivity) ltac:(lia)).
Defined.

(** With enough fuel, [MaxAttempts] rounds, [Do] always returns a result,
    whatever the operation does, as long as it does not panic. *)
Theorem Do_terminates {W} (ctx : Ctx W) (op : Operation W) :
  (∀ f, Func op = Some f → total f) → (∀ count, FailureCounter op = Some count → total count) →
  (∀ d, total (ctx_done_before ctx d)) → total (ctx_Err ctx) →
  0 < default_max_attempts (MaxAttempts op) < 2 ^ 63 →
  ∀ w, ∃ r w', Do (Z.to_nat (default_max_attempts (MaxAttempts op))) ctx op w = (Ret (Some r), w').
Proof.
  intros Hf Hcount Hdone Herr Hmax w. unfold Do.
  case_bool_decide; [by eexists _, _|].
  destruct (Func op) as [f|]; [|by eexists _, _].
  destruct (FailureCounter op) as [count|]; [|by eexists _, _].
  destruct (IsRetryable op) as [retryable|]; [|by eexists _, _].
  apply attempts_terminates; eauto; lia.
Qed.
Lemma Do_terminates_witness :
  ∃ r w', Do 3 (Script.ctx (λ _, None)) (Script.op flaky 0 0 0 "probe" all_retryable) Script.start
    = (Ret (Some r), w').
Proof.
  apply (Do_terminates (Script.ctx (λ _, None)) (Script.op flaky 0 0 0 "probe" all_retryable)).
  - intros f [= <-] w. by eexists _, _.
  - intros f [= <-] w. by eexists _, _.
  - intros d w. by eexists _, _.
  - intros w. by eexists _, _.
  - by vm_compute.
Defined.

(** The delays are the exponential backoff capped at [MaxDelay]: positive,
    never above the cap and never decreasing, for every initial delay below
    2^53 ns (104 days), beyond which the 64-bit product could wrap around. *)
Theorem exp_delay_backoff (init maxd i : Z) :
  0 < init < 2 ^ 53 → init ≤ maxd < 2 ^ 63 → 1 ≤ i →
  exp_delay init maxd i = (if (i <=? 11)%Z then Z.min (2 ^ (i - 1) * init) maxd else maxd)
  ∧ 0 < exp_delay init maxd i ≤ maxd
  ∧ exp_delay init maxd i ≤ exp_delay init maxd (i + 1).
Proof.
  intros Hinit Hmaxd Hi.
  assert (∀ j, 1 ≤ j → exp_delay init maxd j =
    (if (j <=? 11)%Z then Z.min (2 ^ (j - 1) * init) maxd else maxd)) as Heq.
  { intros j Hj. by apply exp_delay_closed. }
  rewrite !Heq by lia. split; [done|].
  assert (∀ j, 1 ≤ j → 0 < 2 ^ (j - 1)) as Hpos by (intros; apply Z.pow_pos_nonneg; lia).
  pose proof (Hpos i Hi). assert (2 ^ (i - 1) ≤ 2 ^ (i + 1 - 1)) by (apply Z.pow_le_mono_r; lia).
  destruct (Z.leb_spec i 11), (Z.leb_spec (i + 1) 11); split; nia.
Qed.
Lemma exp_delay_backoff_witness :
  0 < exp_delay Second (30 * Second) 7 ≤ 30 * Second.
Proof. apply (exp_delay_backoff Second (30 * Second) 7); unfold Second; lia. Defined.
