(* ===== verification/GoTime.v ===== *)
(** * Go's time package, as far as the program uses it

    A [time.Time] is a wall clock reading in nanoseconds, with a monotonic
    clock reading when it comes from [time.Now]; a [time.Duration] is an int64
    number of nanoseconds.  Subtraction saturates, as in Go. *)

From S2P Require Import Prelude.
Open Scope Z_scope.

Record Time : Type := { t_wall : Z; t_mono : option Z }.
#[export] Instance Time_eq_dec : EqDecision Time.
Proof. solve_decision. Defined.

Definition saturate (d : Z) : Z := Z.max (- 2 ^ 63) (Z.min (2 ^ 63 - 1) d).

(** [t.Sub(u)]: on the monotonic readings when both have one. *)
Definition Sub (t u : Time) : Z :=
  match t_mono t, t_mono u with
  | Some m, Some m' => saturate (m - m')
  | _, _ => saturate (t_wall t - t_wall u)
  end.
Definition Before (t u : Time) : bool :=
  match t_mono t, t_mono u with
  | Some m, Some m' => m <? m'
  | _, _ => t_wall t <? t_wall u
  end.
(** [t.Add(d)]. *)
Definition Add (t : Time) (d : Z) : Time :=
  {| t_wall := t_wall t + d; t_mono := (λ m, m + d) <$> t_mono t |}.
(** [t.Unix()] and [time.Unix(sec, 0)]. *)
Definition Unix (t : Time) : Z := t_wall t / Second.
Definition FromUnix (sec : Z) : Time := {| t_wall := sec * Second; t_mono := None |}.

(** A reading of the two clocks, and [time.Until] at it. *)
Definition clock (wall mono : Z) : Time := {| t_wall := wall; t_mono := Some mono |}.
Definition Until (now t : Time) : Z := Sub t now.

Lemma saturate_id d : in_int64 d → saturate d = d.
Proof. unfold in_int64, saturate. lia. Qed.
Lemma saturate_le0 d : saturate d ≤ 0 ↔ d ≤ 0.
Proof. unfold saturate. lia. Qed.
Lemma saturate_mono a b : a ≤ b → saturate a ≤ saturate b.
Proof. unfold saturate. lia. Qed.
Lemma saturate_ub d n : d ≤ n → - 2 ^ 63 ≤ n → saturate d ≤ n.
Proof. unfold saturate. lia. Qed.
