(* ===== verification/Regex.v ===== *)
(** * Go's regexp package: the regular expressions the program compiles

    Expressions over byte classes, their language, a matcher by derivatives
    proved equal to the language, and the leftmost search of a pattern whose
    matches all have one length.  Components state their patterns as values of
    [regex] and use [re_match_lang] and the inversion lemmas. *)

From Stdlib Require Import Ascii.
From S2P Require Import Prelude GoStrings.
Open Scope string_scope.

Inductive regex : Type :=
| Never
| Eps
| Class (f : char → bool)
| Seq (r1 r2 : regex)
| Alt (r1 r2 : regex)
| Star (r : regex).

(** Literal text, repetition, one or more. *)
Fixpoint lit (s : string) : regex :=
  match s with
  | "" => Eps
  | String c s' => Seq (Class (λ a, bool_decide (a = c))) (lit s')
  end.
Fixpoint rep (n : nat) (r : regex) : regex :=
  match n with O => Eps | S n' => Seq r (rep n' r) end.
Definition plus (r : regex) : regex := Seq r (Star r).

(** ** Language *)

Inductive lang : regex → string → Prop :=
| lang_eps : lang Eps ""
| lang_class f c : f c = true → lang (Class f) (one c)
| lang_seq r1 r2 s t : lang r1 s → lang r2 t → lang (Seq r1 r2) (s +:+ t)
| lang_alt_l r1 r2 s : lang r1 s → lang (Alt r1 r2) s
| lang_alt_r r1 r2 s : lang r2 s → lang (Alt r1 r2) s
| lang_star_nil r : lang (Star r) ""
| lang_star_cons r s t : lang r s → lang (Star r) t → lang (Star r) (s +:+ t).

(** ** Matching *)

Fixpoint nullable (r : regex) : bool :=
  match r with
  | Never | Class _ => false
  | Eps | Star _ => true
  | Seq r1 r2 => nullable r1 && nullable r2
  | Alt r1 r2 => nullable r1 || nullable r2
  end.

(** Smart constructors keep the derivatives small. *)
Definition mk_seq (r1 r2 : regex) : regex :=
  match r1, r2 with
  | Never, _ | _, Never => Never
  | Eps, _ => r2
  | _, _ => Seq r1 r2
  end.
Definition mk_alt (r1 r2 : regex) : regex :=
  match r1, r2 with
  | Never, _ => r2
  | _, Never => r1
  | _, _ => Alt r1 r2
  end.
Fixpoint deriv (c : char) (r : regex) : regex :=
  match r with
  | Never | Eps => Never
  | Class f => if f c then Eps else Never
  | Seq r1 r2 =>
      let d := mk_seq (deriv c r1) r2 in
      if nullable r1 then mk_alt d (deriv c r2) else d
  | Alt r1 r2 => mk_alt (deriv c r1) (deriv c r2)
  | Star r' => mk_seq (deriv c r') (Star r')
  end.

(** [MatchString] of an expression anchored at both ends. *)
Fixpoint re_match (r : regex) (s : string) : bool :=
  match s with
  | "" => nullable r
  | String c s' => re_match (deriv c r) s'
  end.

(** Leftmost match of an expression all of whose matches have length [n]:
    the text from the match on. *)
Fixpoint find_fixed (r : regex) (n : nat) (s : string) : option string :=
  if (n <=? String.length s)%nat && re_match r (str_take n s) then Some s
  else match s with "" => None | String _ s' => find_fixed r n s' end.

(** ** Lemmas *)

Lemma nullable_lang r : nullable r = true ↔ lang r "".
Proof.
  split.
  - induction r as [| |f|r1 IH1 r2 IH2|r1 IH1 r2 IH2|r IH]; cbn; try done.
    + intros _. constructor.
    + rewrite andb_true_iff. intros [??]. change "" with ("" +:+ ""). by constructor; auto.
    + rewrite orb_true_iff. intros [?|?]; [by apply lang_alt_l; auto|by apply lang_alt_r; auto].
    + intros _. constructor.
  - remember "" as s eqn:Hs. intros H.
    induction H as [|f c Hf|r1 r2 s t H1 IH1 H2 IH2|r1 r2 s H IH|r1 r2 s H IH|r|r s t H1 IH1 H2 IH2];
      cbn; subst; try done.
    + destruct s, t; try done. by rewrite IH1, IH2.
    + by rewrite IH.
    + by rewrite IH, orb_true_r.
Qed.

Lemma lang_never s : ¬ lang Never s.
Proof. inversion 1. Qed.
Lemma lang_seq_inv r1 r2 u :
  lang (Seq r1 r2) u → ∃ s t, u = s +:+ t ∧ lang r1 s ∧ lang r2 t.
Proof. inversion 1; subst. eauto 10. Qed.
Lemma lang_alt_inv r1 r2 u : lang (Alt r1 r2) u ↔ lang r1 u ∨ lang r2 u.
Proof. split; [inversion 1; subst; auto|intros [?|?]; by constructor]. Qed.

Lemma mk_seq_lang r1 r2 s : lang (mk_seq r1 r2) s ↔ lang (Seq r1 r2) s.
Proof.
  assert (∀ r, lang r s ↔ lang (Seq Eps r) s) as Heps.
  { intros r. split.
    - intros H. change s with ("" +:+ s). by constructor; [constructor|].
    - intros (u & t & -> & Hu & Ht)%lang_seq_inv. by inversion Hu. }
  assert (∀ r, ¬ lang (Seq r Never) s) as Hnr.
  { intros r (u & t & -> & _ & Ht)%lang_seq_inv. by apply lang_never in Ht. }
  assert (∀ r, ¬ lang (Seq Never r) s) as Hnl.
  { intros r (u & t & -> & Hu & _)%lang_seq_inv. by apply lang_never in Hu. }
  pose proof (lang_never s).
  destruct r1, r2; cbn; rewrite <-?Heps; naive_solver.
Qed.
Lemma mk_alt_lang r1 r2 s : lang (mk_alt r1 r2) s ↔ lang r1 s ∨ lang r2 s.
Proof.
  pose proof (lang_never s).
  destruct r1, r2; cbn; rewrite ?lang_alt_inv; naive_solver.
Qed.

Lemma deriv_lang c r s : lang (deriv c r) s ↔ lang r (String c s).
Proof.
  revert s. induction r as [| |f|r1 IH1 r2 IH2|r1 IH1 r2 IH2|r IH]; intros s; cbn.
  - split; inversion 1.
  - split; inversion 1.
  - destruct (f c) eqn:Hf; (split; [inversion 1; subst|]).
    + by apply (lang_class f c).
    + inversion 1; subst. constructor.
    + inversion 1; subst. congruence.
  - assert (lang (mk_seq (deriv c r1) r2) s ↔
      ∃ u t, s = u +:+ t ∧ lang r1 (String c u) ∧ lang r2 t) as Hd.
    { rewrite mk_seq_lang. split.
      - intros (u & t & -> & Hu & Ht)%lang_seq_inv. exists u, t. by rewrite <-IH1.
      - intros (u & t & -> & Hu & Ht). constructor; [by apply IH1|done]. }
    assert (lang (Seq r1 r2) (String c s) ↔
      (∃ u t, s = u +:+ t ∧ lang r1 (String c u) ∧ lang r2 t) ∨
      (lang r1 "" ∧ lang r2 (String c s))) as Hs.
    { split.
      - intros (u & t & Heq & Hu & Ht)%lang_seq_inv. destruct u as [|a u].
        + right. by rewrite app_str_nil_l in Heq; subst.
        + left. rewrite app_str_cons in Heq. simplify_eq. eauto.
      - intros [(u & t & -> & Hu & Ht)|[Hu Ht]].
        + rewrite <-app_str_cons. by constructor.
        + change (String c s) with ("" +:+ String c s). by constructor. }
    rewrite Hs. destruct (nullable r1) eqn:Hn.
    + rewrite mk_alt_lang, Hd, IH2. apply nullable_lang in Hn. naive_solver.
    + rewrite Hd. assert (¬ lang r1 "") by (rewrite <-nullable_lang; congruence). naive_solver.
  - by rewrite mk_alt_lang, IH1, IH2, lang_alt_inv.
  - rewrite mk_seq_lang. split.
    + intros (u & t & -> & Hu & Ht)%lang_seq_inv. rewrite <-app_str_cons.
      constructor; [by apply IH|done].
    + remember (Star r) as r' eqn:Hr'. remember (String c s) as v eqn:Hv. intros H.
      induction H as [| | | | | |r0 u t Hu _ Ht IHt]; simplify_eq.
      destruct u as [|a u].
      * rewrite app_str_nil_l in Hv. subst. by apply IHt.
      * rewrite app_str_cons in Hv. simplify_eq. constructor; [by apply IH|done].
Qed.

(** The matcher decides the language. *)
Lemma re_match_lang r s : re_match r s = true ↔ lang r s.
Proof.
  revert r. induction s as [|c s IH]; intros r; cbn.
  - apply nullable_lang.
  - by rewrite IH, deriv_lang.
Qed.

(** Inversion lemmas for the shapes the patterns use. *)
Lemma lang_lit s t : lang (lit s) t ↔ t = s.
Proof.
  revert t. induction s as [|c s IH]; intros t; cbn.
  - split; [by inversion 1|intros ->; constructor].
  - split.
    + intros (u & v & -> & Hu & Hv)%lang_seq_inv. apply IH in Hv as ->.
      inversion Hu as [|? a Ha| | | | |]; subst. by apply bool_decide_eq_true in Ha as ->.
    + intros ->. change (String c s) with (one c +:+ s). constructor; [|by apply IH].
      constructor. by apply bool_decide_eq_true.
Qed.
Lemma lang_star_class f t : lang (Star (Class f)) t ↔ Forall (λ c, f c = true) (bytes t).
Proof.
  split.
  - remember (Star (Class f)) as r eqn:Hr. intros H.
    induction H as [| | | | | |r0 u t Hu _ Ht IHt]; simplify_eq; [constructor|].
    inversion Hu; subst. cbn. constructor; auto.
  - induction t as [|c t IH]; cbn; intros Hf; [constructor|]. inversion Hf; subst.
    change (String c t) with (one c +:+ t). constructor; [by constructor|auto].
Qed.
Lemma lang_plus_class f t :
  lang (plus (Class f)) t ↔ t ≠ "" ∧ Forall (λ c, f c = true) (bytes t).
Proof.
  split.
  - intros (u & v & -> & Hu & Hv%lang_star_class)%lang_seq_inv. inversion Hu; subst.
    cbn. split; [done|]. by constructor.
  - intros [Hne Hf]. destruct t as [|c t]; [done|]. cbn in Hf. inversion Hf; subst.
    change (String c t) with (one c +:+ t). constructor; [by constructor|].
    by apply lang_star_class.
Qed.
Lemma lang_seq_iff r1 r2 u :
  lang (Seq r1 r2) u ↔ ∃ s t, u = s +:+ t ∧ lang r1 s ∧ lang r2 t.
Proof. split; [apply lang_seq_inv|]. intros (s & t & -> & ? & ?). by constructor. Qed.

(** What [find_fixed] finds: the leftmost place where the pattern matches. *)
Lemma find_fixed_spec r n s :
  match find_fixed r n s with
  | Some t => ∃ pre, s = pre +:+ t ∧ (n ≤ String.length t)%nat ∧ lang r (str_take n t) ∧
      ∀ pre' t', s = pre' +:+ t' → (n ≤ String.length t')%nat → lang r (str_take n t') →
        (String.length pre ≤ String.length pre')%nat
  | None => ∀ pre t, s = pre +:+ t → (n ≤ String.length t)%nat → ¬ lang r (str_take n t)
  end.
Proof.
  induction s as [|c s IH]; cbn [find_fixed]; destruct (_ && _) eqn:E.
  1, 3: apply andb_true_iff in E as [Hn%Nat.leb_le Hm%re_match_lang]; exists ""; split_and!; [done..|];
    intros; cbn; lia.
  - intros pre t Ht Hn Hm. destruct pre as [|c pre]; [|done]. rewrite app_str_nil_l in Ht. subst t.
    apply andb_false_iff in E as [E|E]; [by apply Nat.leb_gt in E; lia|]. apply re_match_lang in Hm. congruence.
  - assert (Hno : (n ≤ String.length (String c s))%nat → ¬ lang r (str_take n (String c s))).
    { intros Hn Hm. apply andb_false_iff in E as [E|E]; [apply Nat.leb_gt in E; lia|]. apply re_match_lang in Hm. congruence. }
    destruct (find_fixed r n s) as [t|].
    + destruct IH as (pre & -> & Hn & Hm & Hmin). exists (String c pre). split_and!; [done..|].
      intros pre' t' Ht' Hn' Hm'. destruct pre' as [|c' pre']; [rewrite app_str_nil_l in Ht'; by subst; destruct (Hno Hn')|].
      rewrite app_str_cons in Ht'. injection Ht' as -> Ht'. cbn. apply le_n_S. by eapply Hmin.
    + intros pre t Ht Hn Hm. destruct pre as [|c' pre]; [rewrite app_str_nil_l in Ht; by subst; destruct (Hno Hn)|].
      rewrite app_str_cons in Ht. injection Ht as -> Ht. by eapply IH.
Qed.
