(* ===== verification/Credentials.v ===== *)
(** * internal/googlecredentials: the workload identity configuration

    The provider name is checked against its pattern and split into project
    number and pool; [NewToken] builds the external account configuration of
    an exchange.  The exchange itself (golang.org/x/oauth2) is an argument. *)

From Stdlib Require Import Ascii.
From S2P Require Import Prelude GoStrings GoTime Regex.
Open Scope string_scope.

Record Config : Type := { WorkloadIdentityProvider : string }.

(** [\d] and [[^/]] *)
Definition not_slash (c : char) : bool := negb (bool_decide (c = slash)).
Definition workloadIdentityProviderRegex : regex :=
  Seq (lit "projects/") (Seq (plus (Class is_digit))
    (Seq (lit "/locations/global/workloadIdentityPools/") (Seq (plus (Class not_slash))
      (Seq (lit "/providers/") (plus (Class not_slash)))))).
Definition workloadIdentityProviderPattern : string :=
  "^projects/(\d+)/locations/global/workloadIdentityPools/([^/]+)/providers/[^/]+$".

Definition AccessScopes : list string :=
  ["https://www.googleapis.com/auth/cloud-platform";
   "https://www.googleapis.com/auth/userinfo.email"].

(** FindStringSubmatch on a matching string: neither group contains a slash,
    so the groups are the second and the sixth slash-separated field. *)
Definition submatch (s : string) : option (string * string) :=
  if re_match workloadIdentityProviderRegex s then
    match split slash s with
    | [_; number; _; _; _; pool; _; _] => Some (number, pool)
    | _ => None
    end
  else None.

Definition NewConfig (provider : string) : result (Config * string * string) :=
  match submatch provider with
  | None => Err (EMsg ("workload identity provider name does not match pattern: "
                       +:+ workloadIdentityProviderPattern))
  | Some (numericProjectID, workloadIdentityPool) =>
      Ok ({| WorkloadIdentityProvider := provider |}, numericProjectID, workloadIdentityPool)
  end.

Definition WorkloadIdentityProviderAudience (c : Config) : string :=
  "//iam.googleapis.com/" +:+ WorkloadIdentityProvider c.

(** externalaccount.Config, and the oauth2.Token of an exchange. *)
Record ExternalAccountConfig : Type := {
  UniverseDomain : string;
  Audience : string;
  SubjectTokenType : string;
  TokenURL : string;
  Scopes : list string;
  SubjectToken : string;
  ServiceAccountImpersonationURL : string;
  TokenInfoURL : string;
}.
Record Token : Type := { AccessToken : string; Expiry : Time }.

Definition external_config (c : Config) (subjectToken : string)
    (googleServiceAccountEmail : option string) (scopes : list string) : ExternalAccountConfig :=
  {| UniverseDomain := "googleapis.com";
     Audience := WorkloadIdentityProviderAudience c;
     SubjectTokenType := "urn:ietf:params:oauth:token-type:jwt";
     TokenURL := "https://sts.googleapis.com/v1/token";
     Scopes := if bool_decide (scopes = []) then AccessScopes else scopes;
     SubjectToken := subjectToken;
     ServiceAccountImpersonationURL :=
       match googleServiceAccountEmail with
       | Some email => "https://iamcredentials.googleapis.com/v1/projects/-/serviceAccounts/"
                         +:+ email +:+ ":generateAccessToken"
       | None => ""
       end;
     TokenInfoURL :=
       match googleServiceAccountEmail with
       | Some _ => ""
       | None => "https://sts.googleapis.com/v1/introspect"
       end |}.

Definition NewToken {W} (exchange : ExternalAccountConfig → ST W (result Token)) (c : Config)
    (subjectToken : string) (googleServiceAccountEmail : option string) (scopes : list string)
    : ST W (result Token) :=
  exchange (external_config c subjectToken googleServiceAccountEmail scopes).

(** ** Theorems *)

Lemma chars_no (c : char) (f : char → bool) s :
  f c = false → Forall (λ a, f a = true) (bytes s) → ¬ str_in c s.
Proof. intros Hf Hall Hin. unfold str_in in Hin. rewrite Forall_forall in Hall. specialize (Hall c Hin). congruence. Qed.

Lemma not_slash_iff s : Forall (λ c, not_slash c = true) (bytes s) ↔ ¬ str_in slash s.
Proof.
  unfold str_in, not_slash. rewrite Forall_forall. split.
  - intros H Hin. apply H in Hin. by rewrite bool_decide_eq_true_2 in Hin.
  - intros H c Hin. rewrite bool_decide_eq_false_2; [done|]. by intros ->.
Qed.

(** The name of a provider, by its parts. *)
Definition provider_name (number pool name : string) : string :=
  "projects/" +:+ number +:+ "/locations/global/workloadIdentityPools/" +:+ pool
    +:+ "/providers/" +:+ name.
Definition valid_parts (number pool name : string) : Prop :=
  number ≠ "" ∧ pool ≠ "" ∧ name ≠ "" ∧ Forall (λ c, is_digit c = true) (bytes number) ∧
  ¬ str_in slash pool ∧ ¬ str_in slash name.

Lemma provider_lang p :
  lang workloadIdentityProviderRegex p ↔
  ∃ number pool name, p = provider_name number pool name ∧ valid_parts number pool name.
Proof.
  unfold workloadIdentityProviderRegex, provider_name, valid_parts. split.
  - intros (? & r & -> & ->%lang_lit & Hr)%lang_seq_inv.
    apply lang_seq_inv in Hr as (n & r2 & -> & [Hn Fn]%lang_plus_class & Hr).
    apply lang_seq_inv in Hr as (? & r3 & -> & ->%lang_lit & Hr).
    apply lang_seq_inv in Hr as (q & r4 & -> & [Hq Fq]%lang_plus_class & Hr).
    apply lang_seq_inv in Hr as (? & r5 & -> & ->%lang_lit & [H5 F5]%lang_plus_class).
    apply not_slash_iff in Fq, F5. exists n, q, r5. by split_and!.
  - intros (n & q & m & -> & Hn & Hq & Hm & Fn & Fq%not_slash_iff & Fm%not_slash_iff).
    repeat constructor; try apply lang_lit; try apply lang_plus_class; auto.
Qed.

Lemma split_provider_name number pool name :
  valid_parts number pool name →
  split slash (provider_name number pool name) =
    ["projects"; number; "locations"; "global"; "workloadIdentityPools"; pool; "providers"; name].
Proof.
  intros (_ & _ & _ & Hn & Hp & Hm).
  change (provider_name number pool name) with (join (one slash)
    ["projects"; number; "locations"; "global"; "workloadIdentityPools"; pool; "providers"; name]).
  apply split_join; [done|]. rewrite !Forall_cons.
  pose proof (chars_no slash is_digit number eq_refl Hn). split_and!; try done.
  all: by apply (bool_decide_unpack _); vm_compute.
Qed.

(** NewConfig accepts exactly the names
    projects/<digits>/locations/global/workloadIdentityPools/<pool>/providers/<name>
    with non-empty slash-free pool and name, and returns the project number
    and the pool they contain; every other name is an error. *)
Theorem NewConfig_spec (provider : string) :
  (∀ number pool name, valid_parts number pool name →
     provider = provider_name number pool name →
     NewConfig provider = Ok ({| WorkloadIdentityProvider := provider |}, number, pool))
  ∧ (∀ c number pool, NewConfig provider = Ok (c, number, pool) →
     WorkloadIdentityProviderAudience c = "//iam.googleapis.com/" +:+ provider ∧
     ∃ name, valid_parts number pool name ∧ provider = provider_name number pool name)
  ∧ ((∀ number pool name, valid_parts number pool name →
        provider ≠ provider_name number pool name) →
     ∃ e, NewConfig provider = Err e).
Proof.
  unfold NewConfig, submatch. split_and!.
  - intros number pool name Hv ->.
    rewrite (proj2 (re_match_lang _ _)) by (apply provider_lang; eauto 10).
    by rewrite split_provider_name.
  - intros c number pool. destruct (re_match _ provider) eqn:Hm; [|done].
    apply re_match_lang, provider_lang in Hm as (n & q & m & -> & Hv).
    rewrite split_provider_name by done. intros [= <- <- <-]. split; [done|]. eauto.
  - intros Hno. destruct (re_match _ provider) eqn:Hm; [|eauto].
    apply re_match_lang, provider_lang in Hm as (n & q & m & -> & Hv).
    by destruct (Hno n q m).
Qed.
Lemma NewConfig_spec_witness :
  NewConfig "projects/12/locations/global/workloadIdentityPools/kind/providers/test" =
    Ok ({| WorkloadIdentityProvider :=
             "projects/12/locations/global/workloadIdentityPools/kind/providers/test" |}, "12", "kind").
Proof.
  apply (proj1 (NewConfig_spec _) "12" "kind" "test"); [|reflexivity].
  unfold valid_parts. split_and!; try done.
  1: by repeat constructor.
  all: by apply (bool_decide_unpack _); vm_compute.
Defined.
