(* ===== verification/Api.v ===== *)
(** * api/api.go and the Kubernetes objects the program reads

    The constants of the api package, and the fields of the Kubernetes API
    objects (corev1.ServiceAccount, corev1.Pod, corev1.Node) that the code
    looks at: those types belong to k8s.io/api, only their data is kept. *)

From S2P Require Import Prelude GoStrings.
Open Scope string_scope.

Definition GroupCore : string := "gke-metadata-server.matheuscscp.io".
Definition GroupNode : string := "node." +:+ GroupCore.
Definition GroupGKE : string := "iam.gke.io".
Definition AnnotationRoutingMode : string := GroupNode +:+ "/routingMode".
Definition RoutingModeBPF : string := "eBPF".
Definition RoutingModeLoopback : string := "Loopback".
Definition RoutingModeNone : string := "None".
Definition RoutingModeDefault : string := RoutingModeBPF.
Definition GKEAnnotationServiceAccount : string := GroupGKE +:+ "/gcp-service-account".
Definition GKELabelNodeEnabled : string := GroupGKE +:+ "/gke-metadata-server-enabled".

(** ** Kubernetes objects *)

Module Kube.
(** corev1.NamespaceAll *)
Definition NamespaceAll : string := "".
Record ServiceAccount : Type := {
sa_Name : string;
sa_Namespace : string;
sa_Annotations : gmap string string;
}.

Inductive PodPhase : Type :=
| PodPending | PodRunning | PodSucceeded | PodFailed | PodUnknown.
#[export] Instance PodPhase_eq_dec : EqDecision PodPhase.
Proof. solve_decision. Defined.

Record Pod : Type := {
pod_Name : string;
pod_Namespace : string;
pod_UID : string;
pod_DeletionTimestamp : option Z;
pod_ServiceAccountName : string;
pod_NodeName : string;
pod_HostNetwork : bool;
pod_PodIP : string;
pod_Phase : PodPhase;
}.
#[export] Instance Pod_eq_dec : EqDecision Pod.
Proof. solve_decision. Defined.

Record Taint : Type := { taint_Key : string; taint_Value : string; taint_Effect : string }.
#[export] Instance Taint_eq_dec : EqDecision Taint.
Proof. solve_decision. Defined.

Record Node : Type := {
node_Name : string;
node_Annotations : gmap string string;
node_Labels : gmap string string;
node_Taints : list Taint;
}.
End Kube.
