(* ===== verification/ServiceAccounts.v ===== *)
(** * internal/serviceaccounts: references, the GKE annotation, providers

    [Helpers] models helpers.go; [Provider] is the interface of provider.go,
    implemented by [GetProvider] (get/provider.go, the Kubernetes API) and
    [WatchProvider] (watch/provider.go, an informer cache in front of a
    fallback).  The Kubernetes client, the informer store, the metrics and the
    JWT parser are arguments. *)

From Stdlib Require Import Ascii.
From S2P Require Import Prelude GoStrings Regex Api.
Open Scope string_scope.

(** ** helpers.go *)

Record Reference : Type := { Name : string; Namespace : string }.
#[export] Instance Reference_eq_dec : EqDecision Reference.
Proof. solve_decision. Defined.
#[export] Instance Reference_countable : Countable Reference.
Proof.
  refine (inj_countable' (λ r, (Name r, Namespace r)) (λ p, {| Name := p.1; Namespace := p.2 |}) _).
  by intros [].
Defined.

Definition quote : string := one (chr 34).
Definition GKEAnnotationInvalid : error :=
  ESentinel ErrGKEAnnotationInvalid
    ("gke annotation " +:+ quote +:+ GKEAnnotationServiceAccount +:+ quote
       +:+ " has invalid google service account email").

(** [[a-zA-Z0-9-]] *)
Definition email_char (c : char) : bool :=
  is_lower c || is_upper c || is_digit c || bool_decide (c = "-"%char).
Definition googleEmailRegex : regex :=
  Seq (plus (Class email_char)) (Seq (lit "@")
    (Seq (plus (Class email_char)) (lit ".iam.gserviceaccount.com"))).

Definition ReferenceFromObject (sa : Kube.ServiceAccount) : Reference :=
  {| Name := Kube.sa_Name sa; Namespace := Kube.sa_Namespace sa |}.
Definition ReferenceFromPod (pod : Kube.Pod) : Reference :=
  {| Name := Kube.pod_ServiceAccountName pod; Namespace := Kube.pod_Namespace pod |}.

(** [jwt_Subject token] is the subject claim of the parsed token, the empty
    string when there is none; [None] when the parser returns a nil token. *)
Definition ReferenceFromToken (jwt_Subject : string → option string) (token : string)
    : outcome Reference :=
  match jwt_Subject token with
  | None => Panic "invalid memory address or nil pointer dereference"
  | Some sub =>
      let s := split colon sub in
      match s !! 2%nat, s !! 3%nat with
      | Some ns, Some name => Ret {| Namespace := ns; Name := name |}
      | _, _ => Panic "index out of range"
      end
  end.

Definition GoogleServiceAccountEmail (sa : Kube.ServiceAccount) : result (option string) :=
  match Kube.sa_Annotations sa !! GKEAnnotationServiceAccount with
  | None => Ok None
  | Some v => if re_match googleEmailRegex v then Ok (Some v) else Err GKEAnnotationInvalid
  end.

(** ** provider.go *)

Record Provider (W : Type) : Type := {
  Get : Reference → ST W (result Kube.ServiceAccount);
}.
Arguments Get {W} _ _.

(** ** get/provider.go *)

(** The Kubernetes API client's Get, by namespace and name. *)
Definition GetProvider {W} (kube_Get : string → string → ST W (result Kube.ServiceAccount))
    : Provider W :=
  {| Get ref := kube_Get (Namespace ref) (Name ref) |}.

(** ** watch/provider.go *)

Module WatchProvider.
Record Listener (W : Type) : Type := {
UpdateServiceAccount : Reference → ST W unit;
DeleteServiceAccount : Reference → ST W unit;
}.
Arguments UpdateServiceAccount {W} _ _.
Arguments DeleteServiceAccount {W} _ _.

(** The provider: its options, its metrics, the informer's store and its listeners. *)
Record State (W : Type) : Type := {
FallbackSource : option (Provider W);
store_GetByKey : string → ST W (result (option Kube.ServiceAccount));
numServiceAccounts_Add : Z → ST W unit;
cacheMisses_Inc : ST W unit;
listeners : list (Listener W);
}.
Arguments FallbackSource {W} _.
Arguments store_GetByKey {W} _ _.
Arguments numServiceAccounts_Add {W} _ _.
Arguments cacheMisses_Inc {W} _.
Arguments listeners {W} _.

(** NewProvider: its informer watches the service accounts of every namespace. *)
Record ProviderOptions (W : Type) : Type := {
opt_FallbackSource : option (Provider W);
opt_ResyncPeriod : Z;
}.
Arguments opt_FallbackSource {W} _.
Arguments opt_ResyncPeriod {W} _.
Record Informer : Type := { inf_Namespace : string; inf_ResyncPeriod : Z }.
Definition informer {W} (opts : ProviderOptions W) : Informer :=
{| inf_Namespace := Kube.NamespaceAll; inf_ResyncPeriod := opt_ResyncPeriod opts |}.
Definition NewProvider {W} (NewServiceAccountInformer : Informer → string → ST W (result (option Kube.ServiceAccount)))
(numServiceAccounts_Add : Z → ST W unit) (cacheMisses_Inc : ST W unit) (opts : ProviderOptions W) : State W :=
{| FallbackSource := opt_FallbackSource opts; store_GetByKey := NewServiceAccountInformer (informer opts);
   numServiceAccounts_Add := numServiceAccounts_Add; cacheMisses_Inc := cacheMisses_Inc; listeners := [] |}.

Section WatchProvider.
Context {W : Type} (p : State W).

(** Calling every listener in order. *)
Fixpoint notify (call : Listener W → ST W unit) (ls : list (Listener W)) : ST W unit :=
match ls with
| [] => mret tt
| l :: ls' => _ ← call l; notify call ls'
end.

(** The informer's event handlers. *)
Definition AddFunc (sa : Kube.ServiceAccount) : ST W unit :=
_ ← numServiceAccounts_Add p 1%Z;
notify (λ l, UpdateServiceAccount l (ReferenceFromObject sa)) (listeners p).
Definition UpdateFunc (old new : Kube.ServiceAccount) : ST W unit :=
notify (λ l, UpdateServiceAccount l (ReferenceFromObject new)) (listeners p).
Definition DeleteFunc (sa : Kube.ServiceAccount) : ST W unit :=
_ ← numServiceAccounts_Add p (-1)%Z;
notify (λ l, DeleteServiceAccount l (ReferenceFromObject sa)) (listeners p).

Definition get (namespace name : string) : ST W (result Kube.ServiceAccount) :=
v ←? store_GetByKey p (namespace +:+ "/" +:+ name);
match v with
| Some sa => ok sa
| None => err (EMsg "service account not present in cache")
end.

Definition watch_Get (ref : Reference) : ST W (result Kube.ServiceAccount) :=
r ← get (Namespace ref) (Name ref);
match r with
| Ok sa => ok sa
| Err e =>
  match FallbackSource p with
  | None => err (EWrap ("error getting service account " +:+ Namespace ref +:+ "/"
                        +:+ Name ref +:+ " from cache: ") e "")
  | Some fallback =>
      sa ←? Get fallback ref;
      _ ← cacheMisses_Inc p;
      ok sa
  end
end.

Definition AddListener (l : Listener W) : State W :=
{| FallbackSource := FallbackSource p; store_GetByKey := store_GetByKey p;
 numServiceAccounts_Add := numServiceAccounts_Add p;
 cacheMisses_Inc := cacheMisses_Inc p; listeners := (listeners p ++ [l])%list |}.
End WatchProvider.

(** The watch provider as a [Provider]. *)
Definition provider {W} (p : State W) : Provider W := {| Get := watch_Get p |}.
End WatchProvider.

(** ** Theorems *)

Lemma email_lang v :
  lang googleEmailRegex v ↔
  ∃ user project, v = user +:+ "@" +:+ project +:+ ".iam.gserviceaccount.com" ∧
    user ≠ "" ∧ project ≠ "" ∧
    Forall (λ c, email_char c = true) (bytes user ++ bytes project)%list.
Proof.
  split.
  - intros (u & ? & -> & [Hu Fu]%lang_plus_class & Hr)%lang_seq_inv.
    apply lang_seq_inv in Hr as (? & ? & -> & ->%lang_lit & Hr).
    apply lang_seq_inv in Hr as (p & ? & -> & [Hp Fp]%lang_plus_class & ->%lang_lit).
    exists u, p. rewrite Forall_app. auto.
  - intros (u & p & -> & Hu & Hp & [Fu Fp]%Forall_app).
    repeat constructor; try apply lang_lit; try apply lang_plus_class; auto.
Qed.

(** The annotation decides the Google service account email: none without
    the annotation; the annotation's value when it has the exact form
    user@project.iam.gserviceaccount.com over [a-zA-Z0-9-]; the invalid
    annotation error otherwise. *)
Theorem GoogleServiceAccountEmail_spec (sa : Kube.ServiceAccount) :
  match Kube.sa_Annotations sa !! GKEAnnotationServiceAccount with
  | None => GoogleServiceAccountEmail sa = Ok None
  | Some v =>
      (∃ user project, v = user +:+ "@" +:+ project +:+ ".iam.gserviceaccount.com" ∧
         user ≠ "" ∧ project ≠ "" ∧
         Forall (λ c, email_char c = true) (bytes user ++ bytes project)%list ∧
         GoogleServiceAccountEmail sa = Ok (Some v)) ∨
      ((∀ user project, v = user +:+ "@" +:+ project +:+ ".iam.gserviceaccount.com" →
         user ≠ "" → project ≠ "" →
         ¬ Forall (λ c, email_char c = true) (bytes user ++ bytes project)%list) ∧
       GoogleServiceAccountEmail sa = Err GKEAnnotationInvalid ∧
       errors_Is GKEAnnotationInvalid ErrGKEAnnotationInvalid = true)
  end.
Proof.
  unfold GoogleServiceAccountEmail.
  destruct (Kube.sa_Annotations sa !! _) as [v|]; [|done].
  destruct (re_match googleEmailRegex v) eqn:Hm.
  - left. apply re_match_lang, email_lang in Hm as (u & p & ?). exists u, p. naive_solver.
  - right. split; [|done]. intros u p Hv Hu Hp Hf.
    assert (re_match googleEmailRegex v = true); [|congruence].
    apply re_match_lang, email_lang. eauto 10.
Qed.

Lemma annotation_email sa email :
  GoogleServiceAccountEmail sa = Ok email → Kube.sa_Annotations sa !! GKEAnnotationServiceAccount = email.
Proof.
  unfold GoogleServiceAccountEmail. destruct (Kube.sa_Annotations sa !! _) as [v|]; [|by intros [= <-]].
  destruct (re_match _ v); [|done]. by intros [= <-].
Qed.

(** The reference read back from a service account token is the one its
    subject names; a token whose subject has fewer than four fields, or which
    does not parse, makes the call panic. *)
Theorem ReferenceFromToken_spec (jwt_Subject : string → option string) (token : string) :
  (∀ ns name, ¬ str_in colon ns → ¬ str_in colon name →
     jwt_Subject token = Some ("system:serviceaccount:" +:+ ns +:+ ":" +:+ name) →
     ReferenceFromToken jwt_Subject token = Ret {| Namespace := ns; Name := name |})
  ∧ (∀ sub, jwt_Subject token = Some sub → (length (split colon sub) < 4)%nat →
     ReferenceFromToken jwt_Subject token = Panic "index out of range")
  ∧ (jwt_Subject token = None → ∃ msg, ReferenceFromToken jwt_Subject token = Panic msg).
Proof.
  unfold ReferenceFromToken. split; [|split].
  - intros ns name Hns Hname ->.
    change ("system:serviceaccount:" +:+ ns +:+ ":" +:+ name)
      with (join (one colon) ["system"; "serviceaccount"; ns; name]).
    rewrite split_join; [done|done|]. rewrite !Forall_cons. split_and!; try done.
    all: by apply (bool_decide_unpack _); vm_compute.
  - intros sub -> Hlen. destruct (split colon sub) as [|? [|? [|? [|? ?]]]]; cbn in *; try done; lia.
  - intros ->. eauto.
Qed.

Definition example_sub (token : string) : option string :=
  if bool_decide (token = "") then None else Some "system:serviceaccount:default:test".
Lemma ReferenceFromToken_spec_witness :
  ReferenceFromToken example_sub "jwt" = Ret {| Namespace := "default"; Name := "test" |} ∧
  (∃ msg, ReferenceFromToken example_sub "" = Panic msg).
Proof.
  split.
  - apply (proj1 (ReferenceFromToken_spec example_sub "jwt")); [| |reflexivity].
    all: by apply (bool_decide_unpack _); vm_compute.
  - by apply (proj2 (proj2 (ReferenceFromToken_spec example_sub ""))).
Defined.
