(* ===== verification/Pods.v ===== *)
(** * internal/pods: finding the pod behind a connection

    [Provider] is the interface of provider.go, with the filter on running
    pods; [ListProvider] (list/provider.go) asks the Kubernetes API each time,
    [WatchProvider] (watch/provider.go) an informer cache indexed by IP and by
    UID, with an optional fallback.  The Kubernetes client, the informer's
    indexer and the metrics are arguments. *)

From Stdlib Require Import Permutation.
From S2P Require Import Prelude GoStrings Api ServiceAccounts.
Import Kube.
Open Scope string_scope.

(** ** provider.go *)

Record Provider (W : Type) : Type := {
  GetByIP : string → ST W (result Pod);
  GetByUID : string → ST W (result Pod);
}.
Arguments GetByIP {W} _ _.
Arguments GetByUID {W} _ _.

Definition isPodRunning (pod : Pod) : bool :=
  match pod_DeletionTimestamp pod with
  | Some _ => false
  | None => negb (bool_decide (pod_Phase pod = PodSucceeded))
            && negb (bool_decide (pod_Phase pod = PodFailed))
  end.
Definition FilterPods (pods : list Pod) : list Pod := filter (λ p, isPodRunning p = true) pods.

Definition pod_ref (pod : Pod) : string := pod_Namespace pod +:+ "/" +:+ pod_Name pod.

(** ** list/provider.go *)

Module ListProvider.
Section ListProvider.
(** The API server's pod list for a field selector. *)
Context {W : Type} (NodeName : string) (kube_List : string → ST W (result (list Pod))).

Definition list_GetByIP (ipAddr : string) : ST W (result Pod) :=
let fieldSelector := join "," ["spec.nodeName=" +:+ NodeName; "spec.hostNetwork=false";
                             "status.podIP=" +:+ ipAddr] in
r ← kube_List fieldSelector;
match r with
| Err e => err (EWrap ("error listing pods in the node matching cluster ip "
                     +:+ ipAddr +:+ ": ") e "")
| Ok items =>
  match FilterPods items with
  | [] => err (EMsg ("no pods found in the node matching cluster ip " +:+ ipAddr))
  | [pod] => ok pod
  | l => err (EMsg ("multiple pods found in the node matching cluster ip " +:+ ipAddr
              +:+ " (" +:+ pretty (length l) +:+ " pods): " +:+ join ", " (map pod_ref l)))
  end
end.

Definition list_GetByUID (uid : string) : ST W (result Pod) :=
r ← kube_List ("spec.nodeName=" +:+ NodeName);
match r with
| Err e => err (EWrap ("error listing pods in the node matching uid " +:+ uid +:+ ": ") e "")
| Ok items =>
  match List.find (λ p, bool_decide (pod_UID p = uid)) (FilterPods items) with
  | Some pod => ok pod
  | None => err (EMsg ("no pods found in the node matching uid " +:+ uid))
  end
end.

Definition provider : Provider W := {| GetByIP := list_GetByIP; GetByUID := list_GetByUID |}.
End ListProvider.
End ListProvider.

(** ** watch/provider.go *)

Module WatchProvider.
(** The informer's index functions. *)
Definition ipIndex (pod : Pod) : list string :=
if pod_HostNetwork pod then []
else if bool_decide (pod_PodIP pod = "") then [] else [pod_PodIP pod].
Definition uidIndex (pod : Pod) : list string :=
if bool_decide (pod_UID pod = "") then [] else [pod_UID pod].

Record Listener (W : Type) : Type := {
AddPodServiceAccount : Reference → ST W unit;
DeletePodServiceAccount : Reference → ST W unit;
}.
Arguments AddPodServiceAccount {W} _ _.
Arguments DeletePodServiceAccount {W} _ _.

(** [indexer_Index f obj]: the cached pods that share an index value with [obj]. *)
Record State (W : Type) : Type := {
FallbackSource : option (Provider W);
indexer_Index : (Pod → list string) → Pod → ST W (result (list Pod));
numPods_Add : Z → ST W unit;
cacheMisses_Inc : ST W unit;
listeners : list (Listener W);
}.
Arguments FallbackSource {W} _.
Arguments indexer_Index {W} _ _ _.
Arguments numPods_Add {W} _ _.
Arguments cacheMisses_Inc {W} _.
Arguments listeners {W} _.

(** NewProvider: the informer it makes, of the pods of one node, with the two
  indexes; the informer's index by function and object is client-go's. *)
Record ProviderOptions (W : Type) : Type := {
opt_NodeName : string;
opt_FallbackSource : option (Provider W);
opt_ResyncPeriod : Z;
}.
Arguments opt_NodeName {W} _.
Arguments opt_FallbackSource {W} _.
Arguments opt_ResyncPeriod {W} _.
Record Informer : Type := {
inf_Namespace : string;
inf_ResyncPeriod : Z;
inf_Indexers : list (string * (Pod → list string));
inf_FieldSelector : string;
}.
Definition informer {W} (opts : ProviderOptions W) : Informer :=
{| inf_Namespace := NamespaceAll; inf_ResyncPeriod := opt_ResyncPeriod opts;
   inf_Indexers := [("ip", ipIndex); ("uid", uidIndex)];
   inf_FieldSelector := "spec.nodeName=" +:+ opt_NodeName opts |}.
Definition NewProvider {W} (NewFilteredPodInformer : Informer → (Pod → list string) → Pod → ST W (result (list Pod)))
(numPods_Add : Z → ST W unit) (cacheMisses_Inc : ST W unit) (opts : ProviderOptions W) : State W :=
{| FallbackSource := opt_FallbackSource opts; indexer_Index := NewFilteredPodInformer (informer opts);
   numPods_Add := numPods_Add; cacheMisses_Inc := cacheMisses_Inc; listeners := [] |}.

(** The probe objects of the two lookups: only one field is set. *)
Definition probe (uid ip : string) : Pod :=
{| pod_Name := ""; pod_Namespace := ""; pod_UID := uid; pod_DeletionTimestamp := None;
   pod_ServiceAccountName := ""; pod_NodeName := ""; pod_HostNetwork := false;
   pod_PodIP := ip; pod_Phase := PodUnknown |}.

Section WatchProvider.
Context {W : Type} (p : State W).

Fixpoint notify (call : Listener W → ST W unit) (ls : list (Listener W)) : ST W unit :=
match ls with
| [] => mret tt
| l :: ls' => _ ← call l; notify call ls'
end.
Definition AddFunc (pod : Pod) : ST W unit :=
_ ← numPods_Add p 1%Z;
notify (λ l, AddPodServiceAccount l (ReferenceFromPod pod)) (listeners p).
Definition DeleteFunc (pod : Pod) : ST W unit :=
_ ← numPods_Add p (-1)%Z;
notify (λ l, DeletePodServiceAccount l (ReferenceFromPod pod)) (listeners p).

(** The part getByIP and getByUID share: filter, and exactly one pod. *)
Definition unique_pod (matching : string) (l : list Pod) : result Pod :=
match FilterPods l with
| [] => Err (EMsg ("cache: no pods found in the node matching " +:+ matching))
| [pod] => Ok pod
| l => Err (EMsg ("cache: multiple pods found in the node matching " +:+ matching
          +:+ " (" +:+ pretty (length l) +:+ " pods): " +:+ join ", " (map pod_ref l)))
end.

Definition getByIP (ipAddr : string) : ST W (result Pod) :=
let matching := "cluster ip " +:+ ipAddr in
r ← indexer_Index p ipIndex (probe "" ipAddr);
match r with
| Err e => err (EWrap ("cache: error listing pods in the node matching " +:+ matching +:+ ": ") e "")
| Ok l => mret (unique_pod matching l)
end.
Definition getByUID (uid : string) : ST W (result Pod) :=
let matching := "uid " +:+ uid in
r ← indexer_Index p uidIndex (probe uid "");
match r with
| Err e => err (EWrap ("cache: error listing pods in the node matching " +:+ matching +:+ ": ") e "")
| Ok l => mret (unique_pod matching l)
end.

Definition with_fallback (cached : ST W (result Pod)) (what : string)
(fallback : Provider W → ST W (result Pod)) : ST W (result Pod) :=
r ← cached;
match r with
| Ok pod => ok pod
| Err e =>
  match FallbackSource p with
  | None => err (EWrap ("error getting pod with " +:+ what +:+ " from cache: ") e "")
  | Some f =>
      pod ←? fallback f;
      _ ← cacheMisses_Inc p;
      ok pod
  end
end.
Definition watch_GetByIP (ipAddr : string) : ST W (result Pod) :=
with_fallback (getByIP ipAddr) ("cluster ip " +:+ ipAddr) (λ f, GetByIP f ipAddr).
Definition watch_GetByUID (uid : string) : ST W (result Pod) :=
with_fallback (getByUID uid) ("uid " +:+ uid) (λ f, GetByUID f uid).

Definition AddListener (l : Listener W) : State W :=
{| FallbackSource := FallbackSource p; indexer_Index := indexer_Index p;
 numPods_Add := numPods_Add p; cacheMisses_Inc := cacheMisses_Inc p;
 listeners := (listeners p ++ [l])%list |}.
End WatchProvider.

Definition provider {W} (p : State W) : Provider W :=
{| GetByIP := watch_GetByIP p; GetByUID := watch_GetByUID p |}.
End WatchProvider.

(** ** Lemmas *)

Lemma FilterPods_spec pods pod :
  pod ∈ FilterPods pods ↔ pod ∈ pods ∧ isPodRunning pod = true.
Proof. unfold FilterPods. rewrite list_elem_of_filter. tauto. Qed.

Lemma unique_pod_Ok matching l pod :
  WatchProvider.unique_pod matching l = Ok pod ↔ FilterPods l = [pod].
Proof. unfold WatchProvider.unique_pod. destruct (FilterPods l) as [|? [|? ?]]; naive_solver. Qed.

(** A non-retryable lookup failure, by its text. *)
Definition names_pod_count (e : error) : Prop :=
  contains "no pods found" (error_text e) = true ∨
  contains "multiple pods found" (error_text e) = true.

(** ** The contract of a provider *)

(** What a caller of [Provider] relies on: a pod that is returned is one the
    API server reported for this node ([known]), is running, and has the IP
    (on the pod network) or the UID asked for. *)
Class Lawful {W} (known : Pod → Prop) (P : Provider W) : Prop := {
  byIP_sound ip w pod w' :
    GetByIP P ip w = (Ret (Ok pod), w') →
    known pod ∧ isPodRunning pod = true ∧ pod_HostNetwork pod = false ∧ pod_PodIP pod = ip;
  byUID_sound uid w pod w' :
    GetByUID P uid w = (Ret (Ok pod), w') →
    known pod ∧ isPodRunning pod = true ∧ pod_UID pod = uid;
}.

(** ** Theorems: the list provider *)

Section List_theorems.
Context {W : Type} (NodeName : string) (kube_List : string → ST W (result (list Pod))).
Context (known : Pod → Prop).
(** The API server applies the field selectors. *)
Context (List_node : ∀ w items w',
kube_List ("spec.nodeName=" +:+ NodeName) w = (Ret (Ok items), w') → Forall known items).
Context (List_ip : ∀ ip w items w',
kube_List (join "," ["spec.nodeName=" +:+ NodeName; "spec.hostNetwork=false";
                     "status.podIP=" +:+ ip]) w = (Ret (Ok items), w') →
Forall (λ pod, known pod ∧ pod_HostNetwork pod = false ∧ pod_PodIP pod = ip) items).

#[export] Instance list_lawful : Lawful known (ListProvider.provider NodeName kube_List).
Proof.
split.
- intros ip w pod w'. cbn. unfold ListProvider.list_GetByIP. st_simpl.
  destruct (kube_List _ w) as [[[items|e]|m] w1] eqn:HL; try done.
  apply List_ip in HL. destruct (FilterPods items) as [|q [|q2 l]] eqn:HF; try done.
  intros [= -> ->]. assert (pod ∈ FilterPods items) as [Hin Hrun]%FilterPods_spec
    by (rewrite HF; set_solver).
  rewrite Forall_forall in HL. destruct (HL pod Hin) as (? & ? & ?). done.
- intros uid w pod w'. cbn. unfold ListProvider.list_GetByUID. st_simpl.
  destruct (kube_List _ w) as [[[items|e]|m] w1] eqn:HL; try done.
  apply List_node in HL. destruct (List.find _ _) as [q|] eqn:HF; try done.
  intros [= -> ->]. apply List.find_some in HF as [Hin Huid%bool_decide_eq_true].
  apply list_elem_of_In, FilterPods_spec in Hin as [Hin Hrun].
  rewrite Forall_forall in HL. split_and!; auto.
Qed.

End List_theorems.

(** ** Theorems: the watch provider *)

Section Watch_theorems.
Context {W : Type} (p : WatchProvider.State W) (store : W → list Pod).
(** client-go's indexer returns the stored objects whose index values meet
  those of the given object, in some order. *)
Context (Index_spec : ∀ f obj w l w',
WatchProvider.indexer_Index p f obj w = (Ret (Ok l), w') →
l ≡ₚ filter (λ pod, Exists (λ x, x ∈ f pod) (f obj)) (store w)).

Definition ip_candidate (ip : string) (pod : Pod) : Prop :=
isPodRunning pod = true ∧ pod_HostNetwork pod = false ∧ pod_PodIP pod = ip.
Definition uid_candidate (uid : string) (pod : Pod) : Prop :=
isPodRunning pod = true ∧ pod_UID pod = uid.
#[local] Instance ip_candidate_dec ip pod : Decision (ip_candidate ip pod).
Proof. unfold ip_candidate. apply _. Defined.
#[local] Instance uid_candidate_dec uid pod : Decision (uid_candidate uid pod).
Proof. unfold uid_candidate. apply _. Defined.

Lemma ipIndex_meets ip pod :
ip ≠ "" → Exists (λ x, x ∈ WatchProvider.ipIndex pod) (WatchProvider.ipIndex (WatchProvider.probe "" ip))
  ↔ pod_HostNetwork pod = false ∧ pod_PodIP pod = ip.
Proof.
intros Hip. unfold WatchProvider.ipIndex. cbn. rewrite (bool_decide_eq_false_2 (ip = "")) by done.
rewrite Exists_cons, Exists_nil. destruct (pod_HostNetwork pod); [set_solver|].
case_bool_decide; set_solver.
Qed.
Lemma uidIndex_meets uid pod :
uid ≠ "" → Exists (λ x, x ∈ WatchProvider.uidIndex pod) (WatchProvider.uidIndex (WatchProvider.probe uid ""))
  ↔ pod_UID pod = uid.
Proof.
intros Huid. unfold WatchProvider.uidIndex. cbn. rewrite (bool_decide_eq_false_2 (uid = "")) by done.
rewrite Exists_cons, Exists_nil. case_bool_decide; set_solver.
Qed.

Lemma FilterPods_filter (P : Pod → Prop) `{!∀ x, Decision (P x)} (Q : Pod → Prop)
  `{!∀ x, Decision (Q x)} l l' :
(∀ pod, Q pod ↔ isPodRunning pod = true ∧ P pod) →
l ≡ₚ filter P l' → FilterPods l ≡ₚ filter Q l'.
Proof.
intros HQ Hl. unfold FilterPods. rewrite Hl, list_filter_filter.
apply Permutation_refl', list_filter_iff. intros pod. rewrite HQ. tauto.
Qed.

(** Both lookups filter the index result down to the candidates. *)
Lemma getByIP_candidates ip w l w' :
ip ≠ "" → WatchProvider.indexer_Index p WatchProvider.ipIndex (WatchProvider.probe "" ip) w
  = (Ret (Ok l), w') →
FilterPods l ≡ₚ filter (ip_candidate ip) (store w).
Proof.
intros Hip HI%Index_spec. eapply FilterPods_filter; [|done]. intros pod. cbn beta.
by rewrite ipIndex_meets.
Qed.
Lemma getByUID_candidates uid w l w' :
uid ≠ "" → WatchProvider.indexer_Index p WatchProvider.uidIndex (WatchProvider.probe uid "") w
  = (Ret (Ok l), w') →
FilterPods l ≡ₚ filter (uid_candidate uid) (store w).
Proof.
intros Huid HI%Index_spec. eapply FilterPods_filter; [|done]. intros pod. cbn beta.
by rewrite uidIndex_meets.
Qed.
Lemma unique_pod_candidates matching l cands :
FilterPods l ≡ₚ cands →
(∀ pod, WatchProvider.unique_pod matching l = Ok pod ↔ cands = [pod]) ∧
((∀ pod, cands ≠ [pod]) →
  ∃ e, WatchProvider.unique_pod matching l = Err e ∧ names_pod_count e).
Proof.
intros Hc. split.
- intros pod. rewrite unique_pod_Ok. split; intros Heq; rewrite Heq in Hc.
  + by apply Permutation_singleton_l in Hc.
  + by apply Permutation_singleton_r in Hc.
- intros Hne. unfold WatchProvider.unique_pod, names_pod_count.
  destruct (FilterPods l) as [|q [|q2 r]].
  + eexists. split; [done|]. left. cbn [error_text].
    by apply (contains_app _ "cache: " "no pods found").
  + destruct (Hne q). by apply Permutation_singleton_l in Hc.
  + eexists. split; [done|]. right. cbn [error_text].
    by apply (contains_app _ "cache: " "multiple pods found").
Qed.

(** The cached lookups answer with a pod exactly when it is the one
  running candidate of the informer's store: by IP among the pods that are
  not on the host network, by UID among all; with no candidate or several
  they fail with an error that says so. *)
Theorem cached_lookup_unique w :
(∀ ip l w', ip ≠ "" →
   WatchProvider.indexer_Index p WatchProvider.ipIndex (WatchProvider.probe "" ip) w
     = (Ret (Ok l), w') →
   (∀ pod, WatchProvider.getByIP p ip w = (Ret (Ok pod), w') ↔
      filter (ip_candidate ip) (store w) = [pod]) ∧
   ((∀ pod, filter (ip_candidate ip) (store w) ≠ [pod]) →
      ∃ e, WatchProvider.getByIP p ip w = (Ret (Err e), w') ∧ names_pod_count e)) ∧
(∀ uid l w', uid ≠ "" →
   WatchProvider.indexer_Index p WatchProvider.uidIndex (WatchProvider.probe uid "") w
     = (Ret (Ok l), w') →
   (∀ pod, WatchProvider.getByUID p uid w = (Ret (Ok pod), w') ↔
      filter (uid_candidate uid) (store w) = [pod]) ∧
   ((∀ pod, filter (uid_candidate uid) (store w) ≠ [pod]) →
      ∃ e, WatchProvider.getByUID p uid w = (Ret (Err e), w') ∧ names_pod_count e)).
Proof.
split.
- intros ip l w' Hip HI. pose proof (getByIP_candidates _ _ _ _ Hip HI) as Hc.
  unfold WatchProvider.getByIP. st_simpl. rewrite HI.
  destruct (unique_pod_candidates ("cluster ip " +:+ ip) _ _ Hc) as [Hok Herr]. split.
  + intros pod. rewrite <-Hok. split; [by intros [= ->]|by intros ->].
  + intros Hne. destruct (Herr Hne) as (e & -> & ?). eauto.
- intros uid l w' Huid HI. pose proof (getByUID_candidates _ _ _ _ Huid HI) as Hc.
  unfold WatchProvider.getByUID. st_simpl. rewrite HI.
  destruct (unique_pod_candidates ("uid " +:+ uid) _ _ Hc) as [Hok Herr]. split.
  + intros pod. rewrite <-Hok. split; [by intros [= ->]|by intros ->].
  + intros Hne. destruct (Herr Hne) as (e & -> & ?). eauto.
Qed.

Context (known : Pod → Prop) (Hstore : ∀ w, Forall known (store w)).
Context (Hfallback : ∀ f, WatchProvider.FallbackSource p = Some f → Lawful known f).

Lemma unique_pod_sound matching f obj w l w' pod :
WatchProvider.indexer_Index p f obj w = (Ret (Ok l), w') →
WatchProvider.unique_pod matching l = Ok pod →
known pod ∧ isPodRunning pod = true ∧ Exists (λ x, x ∈ f pod) (f obj).
Proof.
intros HI%Index_spec Hu%unique_pod_Ok.
assert (pod ∈ FilterPods l) as [Hin ?]%FilterPods_spec by (rewrite Hu; set_solver).
rewrite HI in Hin. apply list_elem_of_filter in Hin as [? Hin].
specialize (Hstore w). rewrite Forall_forall in Hstore. auto.
Qed.

(** A lookup with fallback answers from the cache or from the fallback. *)
Lemma with_fallback_Ok cached what fb w pod w' :
WatchProvider.with_fallback p cached what fb w = (Ret (Ok pod), w') →
cached w = (Ret (Ok pod), w') ∨
∃ f w1 w2, WatchProvider.FallbackSource p = Some f ∧ fb f w1 = (Ret (Ok pod), w2).
Proof.
unfold WatchProvider.with_fallback. st_simpl.
destruct (cached w) as [[[q|e]|m] w1]; try done; [by left|].
destruct (WatchProvider.FallbackSource p) as [f|] eqn:Hf; try done.
destruct (fb f w1) as [[[q|e2]|m] w2] eqn:E; try done.
destruct (WatchProvider.cacheMisses_Inc p w2) as [[u|m] w3]; try done.
intros [= -> ->]. right. eauto.
Qed.

#[export] Instance watch_lawful : Lawful known (WatchProvider.provider p).
Proof.
split.
- intros ip w pod w' [Hc|(f & w1 & w2 & Hf & Hc)]%with_fallback_Ok.
  + unfold WatchProvider.getByIP in Hc. revert Hc. st_simpl.
    destruct (WatchProvider.indexer_Index _ _ _ w) as [[[l|e]|m] w1] eqn:HI; try done.
    intros [= Hu ->]. destruct (unique_pod_sound _ _ _ _ _ _ _ HI Hu) as (? & ? & Hx).
    destruct (decide (ip = "")) as [->|Hip]; [by apply Exists_nil in Hx|].
    apply ipIndex_meets in Hx as [??]; done.
  + by eapply (byIP_sound (Lawful := Hfallback f Hf)).
- intros uid w pod w' [Hc|(f & w1 & w2 & Hf & Hc)]%with_fallback_Ok.
  + unfold WatchProvider.getByUID in Hc. revert Hc. st_simpl.
    destruct (WatchProvider.indexer_Index _ _ _ w) as [[[l|e]|m] w1] eqn:HI; try done.
    intros [= Hu ->]. destruct (unique_pod_sound _ _ _ _ _ _ _ HI Hu) as (? & ? & Hx).
    destruct (decide (uid = "")) as [->|Hid]; [by apply Exists_nil in Hx|].
    apply uidIndex_meets in Hx as ?; done.
  + by eapply (byUID_sound (Lawful := Hfallback f Hf)).
Qed.
End Watch_theorems.

(** ** Theorems: the providers together *)

(** C11: the provider the program runs with, the informer cache in front of the
    API server, returns only running pods of its node: by IP a pod that owns
    the IP and is not on the host network, by UID the pod with that UID; and
    so does the API server provider alone. *)
Theorem providers_lawful {W} (NodeName : string)
    (kube_List : string → ST W (result (list Pod))) (known : Pod → Prop)
    (p : WatchProvider.State W) (store : W → list Pod) :
  (∀ w items w', kube_List ("spec.nodeName=" +:+ NodeName) w = (Ret (Ok items), w') →
     Forall known items) →
  (∀ ip w items w',
     kube_List (join "," ["spec.nodeName=" +:+ NodeName; "spec.hostNetwork=false";
                          "status.podIP=" +:+ ip]) w = (Ret (Ok items), w') →
     Forall (λ pod, known pod ∧ pod_HostNetwork pod = false ∧ pod_PodIP pod = ip) items) →
  (∀ f obj w l w', WatchProvider.indexer_Index p f obj w = (Ret (Ok l), w') →
     l ≡ₚ filter (λ pod, Exists (λ x, x ∈ f pod) (f obj)) (store w)) →
  (∀ w, Forall known (store w)) →
  WatchProvider.FallbackSource p = None ∨
  WatchProvider.FallbackSource p = Some (ListProvider.provider NodeName kube_List) →
  Lawful known (WatchProvider.provider p) ∧ Lawful known (ListProvider.provider NodeName kube_List).
Proof.
  intros Hnode Hip Hidx Hstore Hf.
  assert (Lawful known (ListProvider.provider NodeName kube_List)) by by apply list_lawful.
  split; [|done]. apply (watch_lawful p store Hidx known Hstore).
  intros f Hf'. destruct Hf; congruence.
Qed.

(** Witness data: one pod on the pod network, one on the host network. *)
Module Example.
Definition mk (name uid ip : string) (host : bool) : Pod :=
{| pod_Name := name; pod_Namespace := "default"; pod_UID := uid;
   pod_DeletionTimestamp := None; pod_ServiceAccountName := "test"; pod_NodeName := "n1";
   pod_HostNetwork := host; pod_PodIP := ip; pod_Phase := PodRunning |}.
Definition cluster : list Pod :=
[mk "a" "uid-a" "10.0.0.5" false; mk "h" "uid-h" "192.168.0.2" true].
Definition known (pod : Pod) : Prop := pod ∈ cluster.
Definition by_ip (ip : string) (pod : Pod) : Prop :=
pod_HostNetwork pod = false ∧ pod_PodIP pod = ip.
#[export] Instance by_ip_dec ip pod : Decision (by_ip ip pod).
Proof. unfold by_ip. apply _. Defined.

(** An API server that understands the two selectors. *)
Definition ip_prefix : string := "spec.nodeName=n1,spec.hostNetwork=false,status.podIP=".
Definition kube_List (sel : string) : ST unit (result (list Pod)) :=
mret (Ok (if has_prefix ip_prefix sel
          then filter (by_ip (str_drop (String.length ip_prefix) sel)) cluster
          else cluster)).
Definition state : WatchProvider.State unit := {|
WatchProvider.FallbackSource := Some (ListProvider.provider "n1" kube_List);
WatchProvider.indexer_Index f obj :=
  mret (Ok (filter (λ pod, Exists (λ x, x ∈ f pod) (f obj)) cluster));
WatchProvider.numPods_Add _ := mret tt;
WatchProvider.cacheMisses_Inc := mret tt;
WatchProvider.listeners := [] |}.
Lemma cluster_known : Forall known cluster.
Proof. by apply Forall_forall. Qed.
Lemma kube_List_ip ip items :
kube_List (join "," ["spec.nodeName=n1"; "spec.hostNetwork=false"; "status.podIP=" +:+ ip]) tt
  = (Ret (Ok items), tt) →
Forall (λ pod, known pod ∧ pod_HostNetwork pod = false ∧ pod_PodIP pod = ip) items.
Proof.
change (join _ _) with (ip_prefix +:+ ip). unfold kube_List.
rewrite has_prefix_app, str_drop_app. intros [= <-].
apply Forall_forall. intros pod [[??] Hin]%list_elem_of_filter. done.
Qed.
End Example.

Lemma cached_lookup_unique_witness :
  WatchProvider.getByIP Example.state "10.0.0.5" tt =
    (Ret (Ok (Example.mk "a" "uid-a" "10.0.0.5" false)), tt).
Proof.
  apply (proj1 (proj1 (cached_lookup_unique Example.state (λ _, Example.cluster)
    ltac:(by intros f obj [] l [] [= <-]) tt) "10.0.0.5"
    [Example.mk "a" "uid-a" "10.0.0.5" false] tt ltac:(done) eq_refl)).
  reflexivity.
Defined.
Lemma providers_lawful_witness :
  Lawful Example.known (WatchProvider.provider Example.state) ∧
  GetByIP (WatchProvider.provider Example.state) "10.0.0.5" tt =
    (Ret (Ok (Example.mk "a" "uid-a" "10.0.0.5" false)), tt).
Proof.
  split; [|reflexivity].
  apply (providers_lawful "n1" Example.kube_List Example.known Example.state (λ _, Example.cluster)).
  - intros w items w' [= <- _]. apply Example.cluster_known.
  - intros ip [] items []. apply Example.kube_List_ip.
  - by intros f obj [] l [] [= <-].
  - intros _. apply Example.cluster_known.
  - by right.
Defined.
