(* ===== verification/Informers.v ===== *)
(** * client-go's informers, by their notifications

    The watching providers register handlers with an informer.  The library
    itself is an argument of the providers; this file states what its
    documentation promises of the calls to the handlers: they tell how the
    informer's store changes, one object at a time. *)

From S2P Require Import Prelude.
Open Scope Z_scope.

(** What a delete handler is called with: the object, or what is left of one
    whose delete the watch missed. *)
Inductive deleted_object (A : Type) : Type :=
| FinalState (a : A)
| DeletedFinalStateUnknown (key : string) (last : A).
Arguments FinalState {A} a.
Arguments DeletedFinalStateUnknown {A} key last.
Inductive notification (A : Type) : Type :=
| Added (a : A)
| Updated (old new : A)
| Deleted (obj : deleted_object A).
Arguments Added {A} a.
Arguments Updated {A} old new.
Arguments Deleted {A} obj.

(** Calling the handlers for one notification after the other. *)
Fixpoint notify_all {W A} (handle : notification A → ST W unit) (ns : list (notification A)) : ST W unit :=
  match ns with [] => mret tt | n :: ns' => _ ← handle n; notify_all handle ns' end.

Section Informer.
Context `{Countable K} {A : Type} (key : A → K).
(** What no update changes of an object. *)
Context (unchanged : A → A → Prop).
Implicit Type m : gmap K A.

(** How an informer's store changes with what it tells.  A delete that the
  watch missed is told with what the store had last under the key. *)
Inductive informs : gmap K A → list (notification A) → gmap K A → Prop :=
| inf_nil m : informs m [] m
| inf_added m a ns m' : m !! key a = None → informs (<[key a := a]> m) ns m' → informs m (Added a :: ns) m'
| inf_updated m old new ns m' :
    m !! key old = Some old → key new = key old → unchanged old new →
    informs (<[key new := new]> m) ns m' → informs m (Updated old new :: ns) m'
| inf_deleted m old a ns m' :
    m !! key a = Some old → unchanged old a → informs (delete (key a) m) ns m' →
    informs m (Deleted (FinalState a) :: ns) m'
| inf_missed m text last ns m' :
    m !! key last = Some last → informs (delete (key last) m) ns m' →
    informs m (Deleted (DeletedFinalStateUnknown text last) :: ns) m'.

(** ** A gauge and a log of what the handlers do *)

Definition gauge_delta (n : notification A) : Z :=
match n with Added _ => 1 | Updated _ _ => 0 | Deleted _ => -1 end.
Definition final (n : notification A) : bool :=
match n with Deleted (DeletedFinalStateUnknown _ _) => false | _ => true end.
Definition misses (ns : list (notification A)) : Prop :=
∃ text last, Deleted (DeletedFinalStateUnknown text last) ∈ ns.

(** Handlers that count additions and deletions and cannot handle a missed
  delete: they fail at the first one, and otherwise keep the gauge at the size
  of the store. *)
Context {L : Type} (handle : notification A → ST (Z * list L) unit) (heard : notification A → list L).
Context (Hfinal : ∀ n g c, final n = true → handle n (g, c) = (Ret tt, (g + gauge_delta n, (c ++ heard n)%list))).
Context (Hmissed : ∀ n g c, final n = false → ∃ msg, handle n (g, c) = (Panic msg, (g - 1, c))).

Lemma notify_all_run m ns m' g c :
informs m ns m' → Forall (λ n, final n = true) ns →
notify_all handle ns (g, c) =
  (Ret tt, (g + Z.of_nat (size m') - Z.of_nat (size m), (c ++ concat (map heard ns))%list)).
Proof.
intros Hi. revert g c.
induction Hi as [m|m a ns m' Hk _ IH|m old new ns m' Hk Hn _ _ IH|m old a ns m' Hk _ _ IH|m text last ns m' Hk _ IH];
  intros g c; cbn [notify_all map concat]; [intros _|intros [Hf Hns]%Forall_cons..].
5: done.
2, 3, 4: st_simpl; rewrite Hfinal by done; rewrite IH, <- app_assoc by done; cbn [gauge_delta].
- rewrite app_nil_r. st_simpl. by replace (g + _ - _) with g by lia.
- rewrite map_size_insert_None by done. do 2 f_equal. lia.
- rewrite map_size_insert. rewrite Hn, Hk. cbn. do 2 f_equal. lia.
- rewrite map_size_delete, Hk. cbn.
  assert (size m ≠ 0%nat) by (intros E%map_size_empty_inv; by rewrite E, lookup_empty in Hk).
  do 2 f_equal. lia.
Qed.
Lemma notify_all_missed ns g c : misses ns → ∃ msg x, notify_all handle ns (g, c) = (Panic msg, x).
Proof.
revert g c. induction ns as [|n ns IH]; intros g c (text & last & Hin); [by apply elem_of_nil in Hin|].
cbn [notify_all]. st_simpl. destruct (final n) eqn:Hn.
- rewrite Hfinal by done. apply IH. apply elem_of_cons in Hin as [<-|Hin]; [done|by exists text, last].
- destruct (Hmissed n g c Hn) as [msg ->]. by eexists _, _.
Qed.
Lemma missed_or_final ns : misses ns ∨ Forall (λ n, final n = true) ns.
Proof.
destruct (decide (Forall (λ n, final n = true) ns)) as [|(n & Hin & Hn)%not_Forall_Exists%Exists_exists]; [by right| |apply _].
left. destruct n as [a|old new|[a|text last]]; [by destruct Hn..|]. by exists text, last.
Qed.
(** They end in a panic exactly when a delete was missed. *)
Lemma notify_all_panics m ns m' g c :
informs m ns m' → (∃ msg x, notify_all handle ns (g, c) = (Panic msg, x)) ↔ misses ns.
Proof.
intros Hi. split; [|by apply notify_all_missed]. intros (msg & x & Hx).
destruct (missed_or_final ns) as [|Hf]; [done|]. by rewrite (notify_all_run m ns m') in Hx.
Qed.
Lemma notify_all_returns m ns m' g c x :
informs m ns m' → notify_all handle ns (g, c) = (Ret tt, x) →
x = (g + Z.of_nat (size m') - Z.of_nat (size m), (c ++ concat (map heard ns))%list).
Proof.
intros Hi Hx. destruct (missed_or_final ns) as [Hm|Hf].
- destruct (notify_all_missed ns g c Hm) as (msg & y & Hy). congruence.
- rewrite (notify_all_run m ns m') in Hx by done. congruence.
Qed.
End Informer.
