(* ===== verification/HTTP.v ===== *)
(** * internal/http/response.go: requests, response writers and responses

    A request keeps what the handlers read: the method, the decoded path, the
    query and header values, the peer address, and the values stashed in its
    context.  A response writer records the headers, the status line sent (the
    first [WriteHeader] wins), the body chunks, and the request observations
    (metric and log line) made by [observeRequest].  JSON bodies are kept as
    the value given to json.Marshal.  ResponseLog.v adds the observed latency,
    the log fields and the writes that fail, and shows that what is here is
    what remains of them. *)

From S2P Require Import Prelude GoStrings NetIP Retry ServiceAccounts.
Open Scope string_scope.
Open Scope Z_scope.

(** ** Values *)

(** Go's [any], as far as metadata handlers produce it.  [AOther] is a value
    of another dynamic type, which json.Marshal may refuse. *)
Inductive any : Type :=
| ANil
| AString (s : string)
| AStrings (l : list string)
| AInt (z : Z)
| AMap (m : list (string * any))
| APtr (v : any)
| AOther (ty : string) (marshals : bool).

(** [m[k] = v] on a Go map. *)
Fixpoint map_set {A} (k : string) (v : A) (m : list (string * A)) : list (string * A) :=
  match m with
  | [] => [(k, v)]
  | (k', v') :: m' => if decide (k' = k) then (k, v) :: m' else (k', v') :: map_set k v m'
  end.
Fixpoint assoc {A} (k : string) (m : list (string * A)) : option A :=
  match m with
  | [] => None
  | (k', v) :: m' => if decide (k' = k) then Some v else assoc k m'
  end.

(** Whether json.Marshal encodes the value; [None] means it does. *)
Fixpoint marshal_error (v : any) : option string :=
  match v with
  | ANil | AString _ | AStrings _ | AInt _ => None
  | AMap m =>
      (fix go (m : list (string * any)) :=
         match m with
         | [] => None
         | (_, v') :: m' => match marshal_error v' with Some e => Some e | None => go m' end
         end) m
  | APtr v' => marshal_error v'
  | AOther ty b => if b then None else Some ("json: unsupported type: " +:+ ty)
  end.

(** ** Requests *)

Record Request : Type := {
  rq_Method : string;
  rq_Path : string;
  rq_Query : list (string * string);
  rq_Header : list (string * string);
  rq_RemoteAddr : string;
  ctx_localAddr : option TCPAddr;
  ctx_saRef : option Reference;
  ctx_googleEmail : option (option string);
  ctx_observability : bool;
}.
Definition Query_Get (k : string) (r : Request) : string := default "" (assoc k (rq_Query r)).
Definition Header_Get (k : string) (r : Request) : string := default "" (assoc k (rq_Header r)).

(** InitRequest stores the observability value in the request context. *)
Definition InitRequest (r : Request) : Request :=
  {| rq_Method := rq_Method r; rq_Path := rq_Path r; rq_Query := rq_Query r;
     rq_Header := rq_Header r; rq_RemoteAddr := rq_RemoteAddr r;
     ctx_localAddr := ctx_localAddr r; ctx_saRef := ctx_saRef r;
     ctx_googleEmail := ctx_googleEmail r; ctx_observability := true |}.

(** ** Response writers *)

Inductive chunk : Type :=
| CText (s : string)
| CJson (v : any)
| CRedirect (url : string).

Inductive level : Type := LDebug | LInfo | LError.
Record observation : Type := {
  ob_status : Z;
  ob_level : level;
  ob_message : string;
  ob_err : option error;
}.

Record ResponseWriter : Type := {
  rw_header : gmap string string;
  rw_sent : option (Z * gmap string string);
  rw_body : list chunk;
  rw_observed : list observation;
}.
Definition fresh_writer : ResponseWriter :=
  {| rw_header := ∅; rw_sent := None; rw_body := []; rw_observed := [] |}.

(** Handlers run on the rest of the world [W] and the response writer. *)
Abbreviation HM W := (ST (W * ResponseWriter)).

Section Writer.
Context {W : Type}.

Definition lift {A} (m : ST W A) : HM W A := zoom fst (λ w s, (w, s.2)) m.
Definition modify_writer (f : ResponseWriter → ResponseWriter) : HM W unit :=
st_modify (λ s, (s.1, f s.2)).

(** [w.Header().Set]. *)
Definition Header_Set (k v : string) : HM W unit :=
modify_writer (λ w, {| rw_header := <[k := v]> (rw_header w); rw_sent := rw_sent w;
                       rw_body := rw_body w; rw_observed := rw_observed w |}).

(** [w.WriteHeader]: the first call sends the status and the headers set so
  far; an informational status sends nothing final; a status outside
  100..999 panics. *)
Definition WriteHeader (code : Z) : HM W unit :=
s ← st_get;
let w := s.2 in
if bool_decide (is_Some (rw_sent w)) then mret tt
else if (code <? 100) || (999 <? code) then panic "invalid WriteHeader code"
else if (code <? 200) && negb (code =? 101) then mret tt
else modify_writer (λ w, {| rw_header := rw_header w;
       rw_sent := Some (code, rw_header w);
       rw_body := rw_body w; rw_observed := rw_observed w |}).

(** [w.Write]. *)
Definition Write (c : chunk) : HM W unit :=
_ ← WriteHeader 200;
modify_writer (λ w, {| rw_header := rw_header w; rw_sent := rw_sent w;
                       rw_body := (rw_body w ++ [c])%list; rw_observed := rw_observed w |}).

(** [http.Redirect], recorded by its target and status. *)
Definition Redirect (url : string) (code : Z) : HM W unit :=
_ ← WriteHeader code; Write (CRedirect url).
End Writer.

(** ** Responses *)

Definition MetadataFlavorHeader : string := "Metadata-Flavor".
Definition MetadataFlavorGoogle : string := "Google".

(** [http.StatusText]. *)
Definition StatusText (code : Z) : string :=
  default "" (snd <$> List.find (λ p, (p.1 =? code)%Z)
   [(100, "Continue"); (101, "Switching Protocols"); (102, "Processing"); (103, "Early Hints");
    (200, "OK"); (201, "Created"); (202, "Accepted"); (203, "Non-Authoritative Information");
    (204, "No Content"); (205, "Reset Content"); (206, "Partial Content");
    (207, "Multi-Status"); (208, "Already Reported"); (226, "IM Used");
    (300, "Multiple Choices"); (301, "Moved Permanently"); (302, "Found"); (303, "See Other");
    (304, "Not Modified"); (305, "Use Proxy"); (307, "Temporary Redirect");
    (308, "Permanent Redirect"); (400, "Bad Request"); (401, "Unauthorized");
    (402, "Payment Required"); (403, "Forbidden"); (404, "Not Found");
    (405, "Method Not Allowed"); (406, "Not Acceptable");
    (407, "Proxy Authentication Required"); (408, "Request Timeout"); (409, "Conflict");
    (410, "Gone"); (411, "Length Required"); (412, "Precondition Failed");
    (413, "Request Entity Too Large"); (414, "Request URI Too Long");
    (415, "Unsupported Media Type"); (416, "Requested Range Not Satisfiable");
    (417, "Expectation Failed"); (418, "I'm a teapot"); (421, "Misdirected Request");
    (422, "Unprocessable Entity"); (423, "Locked"); (424, "Failed Dependency");
    (425, "Too Early"); (426, "Upgrade Required"); (428, "Precondition Required");
    (429, "Too Many Requests"); (431, "Request Header Fields Too Large");
    (451, "Unavailable For Legal Reasons"); (500, "Internal Server Error");
    (501, "Not Implemented"); (502, "Bad Gateway"); (503, "Service Unavailable");
    (504, "Gateway Timeout"); (505, "HTTP Version Not Supported");
    (506, "Variant Also Negotiates"); (507, "Insufficient Storage"); (508, "Loop Detected");
    (510, "Not Extended"); (511, "Network Authentication Required")]).

(** responseLogFields: the [http_response] object. *)
Definition responseLogFields (statusCode : Z) (errResp : list any) : any :=
  let status := if (statusCode =? StatusClientClosedRequest)%Z
                then "Client Closed Request" else StatusText statusCode in
  let f := [("status", AString status); ("status_code", AInt statusCode)] in
  AMap (match errResp with [] => f | d :: _ => map_set "data" d f end).

(** The level and message of the log line of observeRequest. *)
Definition observe_level (path : string) (statusCode : Z) : level * string :=
  if (statusCode <? 400)%Z then
    (if has_suffix "/token" path || has_suffix "/identity" path then LInfo else LDebug, "request")
  else if (statusCode <? 500)%Z then (LInfo, "client error")
  else (LError, "server error").

Section Respond.
Context {W : Type}.

Definition observeRequest (r : Request) (statusCode : Z) (e : option error) : HM W unit :=
if ctx_observability r then
  let '(lvl, msg) := observe_level (rq_Path r) statusCode in
  modify_writer (λ w, {| rw_header := rw_header w; rw_sent := rw_sent w;
    rw_body := rw_body w;
    rw_observed := (rw_observed w ++ [{| ob_status := statusCode; ob_level := lvl;
                                         ob_message := msg; ob_err := e |}])%list |})
else panic "interface conversion: interface {} is nil, not pkghttp.requestObservability".

Definition setGKEMetadataServerHeaders (contentType : string) (statusCode : Z) : HM W unit :=
_ ← Header_Set "Content-Type" contentType;
if (200 <=? statusCode)%Z && (statusCode <? 300)%Z then
  _ ← Header_Set MetadataFlavorHeader MetadataFlavorGoogle;
  Header_Set "Server" "GKE Metadata Server"
else mret tt.

Definition RespondNotFound : HM W unit := WriteHeader 404.

(** RespondJSON after json.Marshal succeeded. *)
Definition respondMarshaled (r : Request) (statusCode : Z) (obj : any) (e : option error)
  : HM W unit :=
_ ← setGKEMetadataServerHeaders "application/json" statusCode;
_ ← WriteHeader statusCode;
_ ← Write (CJson obj);
observeRequest r statusCode e.

Definition errorObject (statusCode : Z) (e : error) (errResp : list any) : any :=
AMap [("error", AString (error_text e)); ("http_response", responseLogFields statusCode errResp)].

(** When json.Marshal fails, RespondErrorf responds with an error object
  without response data, which always marshals ([errorObject_marshals]). *)
Definition RespondJSON (r : Request) (statusCode : Z) (obj : any) (e : option error)
  : HM W unit :=
match marshal_error obj with
| Some m =>
    let e' := EWrap "error marshaling json response: " (EMsg m) "" in
    respondMarshaled r 500 (errorObject 500 e' []) (Some e')
| None => respondMarshaled r statusCode obj e
end.

Definition RespondError (r : Request) (statusCode : Z) (e : error) (errResp : list any)
  : HM W unit :=
RespondJSON r statusCode (errorObject statusCode e errResp) (Some e).

(** The formatted error is built by the caller. *)
Definition RespondErrorf (r : Request) (statusCode : Z) (e : error) : HM W unit :=
RespondError r statusCode e [].

Definition RespondText (r : Request) (statusCode : Z) (text : string) : HM W unit :=
_ ← setGKEMetadataServerHeaders "application/text" statusCode;
_ ← WriteHeader statusCode;
_ ← Write (CText text);
observeRequest r statusCode None.
End Respond.

(** ** Lemmas *)

Lemma errorObject_marshals code e : marshal_error (errorObject code e []) = None.
Proof. done. Qed.
Lemma errorObject_marshals_data code e d :
  marshal_error d = None → marshal_error (errorObject code e [d]) = None.
Proof.
  intros Hd. unfold errorObject, responseLogFields. cbn [map_set].
  rewrite !decide_False by done. cbn. by rewrite Hd.
Qed.

(** The headers of a response with the given content type and status. *)
Definition gke_headers (contentType : string) (code : Z) (h : gmap string string)
    : gmap string string :=
  let h' := <["Content-Type" := contentType]> h in
  if (200 <=? code)%Z && (code <? 300)%Z
  then <["Server" := "GKE Metadata Server"]> (<[MetadataFlavorHeader := MetadataFlavorGoogle]> h')
  else h'.

(** What a final response leaves in a writer on which nothing was sent. *)
Definition responded (w : ResponseWriter) (r : Request) (contentType : string) (code : Z)
    (c : chunk) (e : option error) : ResponseWriter :=
  {| rw_header := gke_headers contentType code (rw_header w);
     rw_sent := Some (code, gke_headers contentType code (rw_header w));
     rw_body := (rw_body w ++ [c])%list;
     rw_observed := (rw_observed w ++ [{| ob_status := code;
       ob_level := (observe_level (rq_Path r) code).1;
       ob_message := (observe_level (rq_Path r) code).2; ob_err := e |}])%list |}.

Definition final_status (code : Z) : Prop := 200 ≤ code ≤ 999.

Lemma WriteHeader_final {W} (x : W) w code :
  rw_sent w = None → final_status code →
  WriteHeader code (x, w) = (Ret tt, (x, {| rw_header := rw_header w;
    rw_sent := Some (code, rw_header w); rw_body := rw_body w; rw_observed := rw_observed w |})).
Proof.
  intros Hw Hc. unfold final_status in Hc. unfold WriteHeader. st_simpl. rewrite Hw. cbn.
  destruct (Z.ltb_spec code 100), (Z.ltb_spec 999 code), (Z.ltb_spec code 200); try lia. done.
Qed.

Lemma setHeaders_run {W} (x : W) w ct code :
  setGKEMetadataServerHeaders ct code (x, w) =
    (Ret tt, (x, {| rw_header := gke_headers ct code (rw_header w); rw_sent := rw_sent w;
                    rw_body := rw_body w; rw_observed := rw_observed w |})).
Proof.
  unfold setGKEMetadataServerHeaders, gke_headers. st_simpl. by case_match.
Qed.

Lemma respondMarshaled_run {W} (x : W) w r code obj e :
  rw_sent w = None → final_status code → ctx_observability r = true →
  respondMarshaled r code obj e (x, w) =
    (Ret tt, (x, responded w r "application/json" code (CJson obj) e)).
Proof.
  intros Hw Hc Hr. unfold respondMarshaled. st_simpl. rewrite setHeaders_run.
  rewrite WriteHeader_final by done. unfold observeRequest. rewrite Hr. cbn.
  unfold responded. by destruct (observe_level _ _).
Qed.
Lemma RespondText_run {W} (x : W) w r code text :
  rw_sent w = None → final_status code → ctx_observability r = true →
  RespondText r code text (x, w) =
    (Ret tt, (x, responded w r "application/text" code (CText text) None)).
Proof.
  intros Hw Hc Hr. unfold RespondText. st_simpl. rewrite setHeaders_run.
  rewrite WriteHeader_final by done. unfold observeRequest. rewrite Hr. cbn.
  unfold responded. by destruct (observe_level _ _).
Qed.
Lemma RespondError_run {W} (x : W) w r code e :
  rw_sent w = None → final_status code → ctx_observability r = true →
  RespondErrorf r code e (x, w) =
    (Ret tt, (x, responded w r "application/json" code (CJson (errorObject code e [])) (Some e))).
Proof. intros. unfold RespondErrorf, RespondError, RespondJSON.
  rewrite errorObject_marshals. by rewrite respondMarshaled_run.
Qed.

(** ** Theorems *)

Lemma gke_headers_flavor ct code h :
  h !! MetadataFlavorHeader = None →
  (gke_headers ct code h !! MetadataFlavorHeader = Some MetadataFlavorGoogle ↔ 200 ≤ code < 300)
  ∧ gke_headers ct code h !! "Content-Type" = Some ct.
Proof.
  intros Hh. unfold gke_headers, MetadataFlavorHeader in *.
  destruct (Z.leb_spec 200 code), (Z.ltb_spec code 300); cbn; simplify_map_eq.
  all: split; [|done]; split; intros; simplify_map_eq; try done; lia.
Qed.

(** Every JSON, error or text response to an observed request sends
    exactly the requested status with its body; it carries the header
    Metadata-Flavor: Google, by which clients recognise the metadata server,
    if and only if the status is 2xx; and the request is observed exactly once
    with that status. *)
Theorem respond_once {W} (x : W) (w : ResponseWriter) (r : Request) (code : Z)
    (respond : HM W unit) (ct : string) (c : chunk) (e : option error) :
  (∃ text, respond = RespondText r code text ∧ ct = "application/text" ∧
     c = CText text ∧ e = None) ∨
  (∃ obj, respond = RespondJSON r code obj e ∧ marshal_error obj = None ∧
     ct = "application/json" ∧ c = CJson obj) ∨
  (∃ er, respond = RespondErrorf r code er ∧ e = Some er ∧
     ct = "application/json" ∧ c = CJson (errorObject code er [])) →
  rw_sent w = None → rw_header w !! MetadataFlavorHeader = None →
  final_status code → ctx_observability r = true →
  ∃ w' h, respond (x, w) = (Ret tt, (x, w')) ∧
    rw_sent w' = Some (code, h) ∧ rw_body w' = (rw_body w ++ [c])%list ∧
    h !! "Content-Type" = Some ct ∧
    (h !! MetadataFlavorHeader = Some MetadataFlavorGoogle ↔ 200 ≤ code < 300) ∧
    ∃ o, rw_observed w' = (rw_observed w ++ [o])%list ∧ ob_status o = code ∧ ob_err o = e.
Proof.
  intros Hrespond Hw Hh Hc Hr.
  assert (respond (x, w) = (Ret tt, (x, responded w r ct code c e))) as ->.
  { destruct Hrespond as [(t & -> & -> & -> & ->)|[(o & -> & Hm & -> & ->)|(er & -> & -> & -> & ->)]].
    - by rewrite RespondText_run.
    - unfold RespondJSON. rewrite Hm. by rewrite respondMarshaled_run.
    - by rewrite RespondError_run. }
  destruct (gke_headers_flavor ct code (rw_header w) Hh).
  eexists _, _. split; [done|]. split_and!; [done..|]. by eexists.
Qed.
Lemma respond_once_witness :
  let r := {| rq_Method := "GET"; rq_Path := "/"; rq_Query := []; rq_Header := [];
              rq_RemoteAddr := "10.0.0.1:1234"; ctx_localAddr := None; ctx_saRef := None;
              ctx_googleEmail := None; ctx_observability := true |} in
  ∃ w' h, RespondText r 200 "node" (tt, fresh_writer) = (Ret tt, (tt, w')) ∧
    rw_sent w' = Some (200, h) ∧ rw_body w' = [CText "node"] ∧
    h !! "Content-Type" = Some "application/text" ∧
    (h !! MetadataFlavorHeader = Some MetadataFlavorGoogle ↔ 200 ≤ 200 < 300) ∧
    ∃ o, rw_observed w' = [o] ∧ ob_status o = 200 ∧ ob_err o = None.
Proof.
  intros r. apply (respond_once tt fresh_writer r 200 (RespondText r 200 "node")
    "application/text" (CText "node") None); try done.
  left. by exists "node".
Defined.
