(* ===== verification/ResponseLog.v ===== *)
(** * internal/http/response.go in detail: latencies, log lines and writes that fail

    HTTP.v keeps of a response what the client and the tests see.  Here
    RespondJSON and RespondText are written out with the rest: the latency
    given to the observer, the lines that are logged with their fields, and
    what the connection makes of the bytes.  The detailed functions refine
    those of HTTP.v: whatever the connection does, they end in the same way
    with the same response, so that theorems about responses need only the
    latter.  The clock, json.Marshal's text, the connection's Write and
    time.Duration's String are arguments. *)

From S2P Require Import Prelude GoStrings GoTime HTTP.
Open Scope string_scope.
Open Scope Z_scope.

(** A line of the request's logger, with the fields added to it. *)
Record log_line : Type := {
  lg_level : level;
  lg_message : string;
  lg_fields : list (string * any);
  lg_err : option error;
}.
(** The world, the response writer, what the latency observer was given (the
    status and milliseconds) and what was logged. *)
Record Detail (W : Type) : Type := {
  d_world : W;
  d_writer : ResponseWriter;
  d_latencies : list (Z * Z);
  d_log : list log_line;
}.
Arguments d_world {W} _.
Arguments d_writer {W} _.
Arguments d_latencies {W} _.
Arguments d_log {W} _.

Section Detail.
Context {W : Type} (Now : W → Time) (json_text : any → string) (Duration_String : Z → string).
(** [w.Write(b)]: the number of bytes written and the error, if any. *)
Context (conn_Write : string → ST W (Z * option error)).
Local Abbreviation DM := (ST (Detail W)).

Definition on_writer {A} (m : HM W A) : DM A :=
zoom (λ d, (d_world d, d_writer d))
  (λ s d, {| d_world := s.1; d_writer := s.2; d_latencies := d_latencies d; d_log := d_log d |}) m.
Definition on_world {A} (m : ST W A) : DM A :=
zoom d_world (λ w d, {| d_world := w; d_writer := d_writer d; d_latencies := d_latencies d; d_log := d_log d |}) m.
Definition log (l : log_line) : DM unit :=
st_modify (λ d, {| d_world := d_world d; d_writer := d_writer d; d_latencies := d_latencies d;
                   d_log := (d_log d ++ [l])%list |}).
Definition observeLatencyMillis (statusCode latencyMs : Z) : DM unit :=
st_modify (λ d, {| d_world := d_world d; d_writer := d_writer d;
                   d_latencies := (d_latencies d ++ [(statusCode, latencyMs)])%list; d_log := d_log d |}).

(** The write of a response, and what is logged of it. *)
Definition write_response (c : chunk) (b : string) : DM unit :=
_ ← on_writer (Write c);
' (n, e) ← on_world (conn_Write b);
match e with
| Some _ => log {| lg_level := LError; lg_message := "error writing response"; lg_fields := []; lg_err := e |}
| None =>
    let payloadLen := Z.of_nat (String.length b) in
    if n <? payloadLen then
      log {| lg_level := LError; lg_message := "less response bytes written than expected";
             lg_fields := [("bytes_written", AInt n); ("bytes_expected", AInt payloadLen)]; lg_err := None |}
    else mret tt
end.

(** [startTime] is the observability value of InitRequest, if there is one. *)
Definition observeRequest (r : Request) (startTime : option Time) (statusCode : Z) (e : option error)
  (errResp : list any) : DM unit :=
match startTime with
| None => panic "interface conversion: interface {} is nil, not pkghttp.requestObservability"
| Some start =>
    d ← st_get;
    let latency := Sub (Now (d_world d)) start in
    _ ← observeLatencyMillis statusCode (Z.quot latency Millisecond);
    let '(lvl, msg) := observe_level (rq_Path r) statusCode in
    _ ← log {| lg_level := lvl; lg_message := msg;
               lg_fields := [("http_response", responseLogFields statusCode errResp);
                             ("latency", AMap [("string", AString (Duration_String latency)); ("nanos", AInt latency)])];
               lg_err := e |};
    on_writer (HTTP.observeRequest r statusCode e)
end.

Definition respondMarshaled (r : Request) (startTime : option Time) (statusCode : Z) (obj : any) (e : option error)
  (errResp : list any) : DM unit :=
_ ← on_writer (setGKEMetadataServerHeaders "application/json" statusCode);
_ ← on_writer (WriteHeader statusCode);
_ ← write_response (CJson obj) (json_text obj);
observeRequest r startTime statusCode e errResp.
Definition RespondJSON (r : Request) (startTime : option Time) (statusCode : Z) (obj : any) (e : option error)
  (errResp : list any) : DM unit :=
match marshal_error obj with
| Some m =>
    let e' := EWrap "error marshaling json response: " (EMsg m) "" in
    respondMarshaled r startTime 500 (errorObject 500 e' []) (Some e') []
| None => respondMarshaled r startTime statusCode obj e errResp
end.
Definition RespondError (r : Request) (startTime : option Time) (statusCode : Z) (e : error) (errResp : list any)
  : DM unit :=
RespondJSON r startTime statusCode (errorObject statusCode e errResp) (Some e) errResp.
Definition RespondText (r : Request) (startTime : option Time) (statusCode : Z) (text : string) : DM unit :=
_ ← on_writer (setGKEMetadataServerHeaders "application/text" statusCode);
_ ← on_writer (WriteHeader statusCode);
_ ← write_response (CText text) text;
observeRequest r startTime statusCode None [].

(** ** Refinement *)

(** [m'] ends like [m] from the same writer, with the same writer, whatever
  happens to the world. *)
Definition refines {A} (m : HM W A) (m' : DM A) : Prop := ∀ d x,
∃ d', m' d = ((m (x, d_writer d)).1, d') ∧ m (x, d_writer d) = ((m (x, d_writer d)).1, (x, d_writer d')).
(** A call that neither reads nor changes the world. *)
Definition worldless {A} (m : HM W A) : Prop := ∀ x y w,
m (x, w) = ((m (y, w)).1, (x, (m (y, w)).2.2)).

Lemma refines_on_writer {A} (m : HM W A) : worldless m → refines m (on_writer m).
Proof.
intros Hm d x. unfold on_writer, zoom.
pose proof (Hm (d_world d) x (d_writer d)) as E1. pose proof (Hm x x (d_writer d)) as E2.
rewrite E1. eexists. split; [reflexivity|]. cbn. exact E2.
Qed.
Lemma refines_bind {A B} (m : HM W A) m' (k : A → HM W B) k' :
refines m m' → (∀ a, refines (k a) (k' a)) → refines (m ≫= k) (m' ≫= k').
Proof.
intros Hm Hk d x. destruct (Hm d x) as (d1 & E1 & F1). unfold mbind, st_bind. rewrite E1, F1. cbn.
destruct (m (x, d_writer d)) as [[a|e] s]; cbn in *; [|by exists d1]. apply Hk.
Qed.
(** Steps of the detail alone. *)
Lemma refines_silent {A} (m : HM W A) (m0 : DM unit) m' :
(∀ d, ∃ d', m0 d = (Ret tt, d') ∧ d_writer d' = d_writer d) → refines m m' → refines m (_ ← m0; m').
Proof.
intros H0 Hm d x. destruct (H0 d) as (d1 & E1 & W1). unfold mbind, st_bind. rewrite E1.
rewrite <- W1. apply Hm.
Qed.

Lemma worldless_ret {A} (a : A) : worldless (mret a).
Proof. done. Qed.
Lemma worldless_panic {A} msg : worldless (panic msg : HM W A).
Proof. done. Qed.
Lemma worldless_modify f : worldless (modify_writer f).
Proof. done. Qed.
Lemma worldless_bind {A B} (m : HM W A) (k : A → HM W B) :
worldless m → (∀ a, worldless (k a)) → worldless (m ≫= k).
Proof.
intros Hm Hk x y w. unfold mbind, st_bind. rewrite (Hm x y w).
destruct (m (y, w)) as [[a|e] [y' w']] eqn:E; cbn; [|done].
pose proof (Hm y y w) as E'. rewrite E in E'. injection E' as ->. apply Hk.
Qed.
Lemma worldless_WriteHeader code : worldless (WriteHeader code).
Proof.
intros x y w. unfold WriteHeader. st_simpl. destruct (bool_decide (is_Some (rw_sent w))); [done|].
destruct ((code <? 100) || (999 <? code)); [done|]. by destruct ((code <? 200) && negb (code =? 101)).
Qed.
Lemma worldless_Write c : worldless (Write c).
Proof. apply worldless_bind; [apply worldless_WriteHeader|done]. Qed.
Lemma worldless_headers ct code : worldless (setGKEMetadataServerHeaders ct code).
Proof.
apply worldless_bind; [apply worldless_modify|]. intros _. case_match; [|apply worldless_ret].
apply worldless_bind; intros; apply worldless_modify.
Qed.
Lemma worldless_observe r code e : worldless (HTTP.observeRequest r code e).
Proof.
unfold HTTP.observeRequest. destruct (ctx_observability r); [|apply worldless_panic].
destruct (observe_level _ _). apply worldless_modify.
Qed.

Context (conn_total : ∀ b, total (conn_Write b)).
Definition silent (m : DM unit) : Prop := ∀ d, ∃ d', m d = (Ret tt, d') ∧ d_writer d' = d_writer d.
Lemma silent_log l : silent (log l).
Proof. intros d. by eexists. Qed.
Lemma refines_then {m : HM W unit} {m'} (m0 : DM unit) : refines m m' → silent m0 → refines m (_ ← m'; m0).
Proof.
intros Hm H0 d x. destruct (Hm d x) as (d1 & E1 & F1). destruct (H0 d1) as (d2 & E2 & F2).
unfold mbind, st_bind. rewrite E1. destruct (m (x, d_writer d)) as [[[]|e] s]; cbn in *.
- rewrite E2. exists d2. by rewrite F2.
- by exists d1.
Qed.
Lemma refines_write c b : refines (Write c) (write_response c b).
Proof.
apply refines_then; [apply refines_on_writer, worldless_Write|]. intros d.
destruct (conn_total b (d_world d)) as ([n e] & w' & E). unfold on_world, zoom, mbind, st_bind. rewrite E.
destruct e as [e|]; [by eexists|]. case_match; by eexists.
Qed.
Lemma refines_observe r start code e errResp :
ctx_observability r = bool_decide (is_Some start) →
refines (HTTP.observeRequest r code e) (observeRequest r start code e errResp).
Proof.
intros Hr. unfold observeRequest. destruct start as [start|].
- intros d x. change ((st_get ≫= ?k) d) with (k d d).
  destruct (observe_level (rq_Path r) code) as [lvl msg].
  revert d x. intros d x. eapply refines_silent; [intros d1; by eexists|].
  apply refines_silent; [apply silent_log|]. apply refines_on_writer, worldless_observe.
- intros d x. exists d. unfold HTTP.observeRequest. by rewrite Hr.
Qed.
Lemma refines_marshaled r start code obj e errResp :
ctx_observability r = bool_decide (is_Some start) →
refines (HTTP.respondMarshaled r code obj e) (respondMarshaled r start code obj e errResp).
Proof.
intros Hr. apply refines_bind; [apply refines_on_writer, worldless_headers|]. intros _.
apply refines_bind; [apply refines_on_writer, worldless_WriteHeader|]. intros _.
apply refines_bind; [apply refines_write|]. intros _. by apply refines_observe.
Qed.

(** The detailed responses refine those of HTTP.v.  Whether the connection takes
  all the bytes, some of them or fails, and whatever the clock says, a JSON
  response, an error and a text end as there, with the same status, headers,
  body, observation and panics: a failed write is logged, and nothing else
  comes of it. *)
Theorem responses_refine r start code obj e errResp text :
ctx_observability r = bool_decide (is_Some start) →
refines (HTTP.RespondJSON r code obj e) (RespondJSON r start code obj e errResp) ∧
(∀ err, refines (HTTP.RespondError r code err errResp) (RespondError r start code err errResp)) ∧
refines (HTTP.RespondText r code text) (RespondText r start code text).
Proof.
intros Hr.
assert (HJ : ∀ code obj e errResp, refines (HTTP.RespondJSON r code obj e) (RespondJSON r start code obj e errResp)).
{ intros c o e' er. unfold HTTP.RespondJSON, RespondJSON. destruct (marshal_error o); by apply refines_marshaled. }
split_and!; [apply HJ|intros err; apply HJ|].
apply refines_bind; [apply refines_on_writer, worldless_headers|]. intros _.
apply refines_bind; [apply refines_on_writer, worldless_WriteHeader|]. intros _.
apply refines_bind; [apply refines_write|]. intros _. by apply refines_observe.
Qed.

(** Nothing but observeRequest observes a latency. *)
Definition unobserved {A} (m : DM A) : Prop := ∀ d a d', m d = (Ret a, d') → d_latencies d' = d_latencies d.
Lemma unobserved_on_writer {A} (m : HM W A) : unobserved (on_writer m).
Proof. intros d a d'. unfold on_writer, zoom. destruct (m _) as [o s]. by intros [= _ <-]. Qed.
Lemma unobserved_write c b : unobserved (write_response c b).
Proof.
intros d u d' ([] & d1 & H1%unobserved_on_writer & H)%bind_ret. apply bind_ret in H as ([n e] & d2 & H2 & H).
rewrite <- H1. assert (H2' : d_latencies d2 = d_latencies d1).
{ unfold on_world, zoom in H2. destruct (conn_Write b _). by injection H2 as _ <-. }
rewrite <- H2'. destruct e as [e|]; [by injection H as _ <-|]. cbv zeta in H. by destruct (n <? _); injection H as _ <-.
Qed.
Lemma observed_once r start code e errResp d d' :
observeRequest r (Some start) code e errResp d = (Ret tt, d') →
d_latencies d' =
  (d_latencies d ++ [(code, Z.quot (Sub (Now (d_world d)) start) Millisecond)])%list.
Proof.
unfold observeRequest. change ((st_get ≫= ?k) d) with (k d d). destruct (observe_level _ _).
intros ([] & d1 & [= <-] & H)%bind_ret. apply bind_ret in H as ([] & d2 & [= <-] & H).
by apply unobserved_on_writer in H.
Qed.
(** Every response to an observed request has its latency observed once, with
  the status it was sent with, in whole milliseconds cut towards zero. *)
Theorem latency_observed r start code obj e errResp text d d' :
(RespondText r (Some start) code text d = (Ret tt, d') ∨
 marshal_error obj = None ∧ RespondJSON r (Some start) code obj e errResp d = (Ret tt, d')) →
∃ w, d_latencies d' = (d_latencies d ++ [(code, Z.quot (Sub (Now w) start) Millisecond)])%list.
Proof.
intros [H|[Hm H]]; [|unfold RespondJSON in H; rewrite Hm in H];
  apply bind_ret in H as ([] & d1 & H1%unobserved_on_writer & H);
  apply bind_ret in H as ([] & d2 & H2%unobserved_on_writer & H);
  apply bind_ret in H as ([] & d3 & H3%unobserved_write & H%observed_once);
  exists (d_world d3); by rewrite H, H3, H2, H1.
Qed.
End Detail.
