(* ===== verification/ServeMux.v ===== *)
(** * net/http: the ServeMux

    The handlers and the request multiplexer that server.go and
    proxytest/upstream.go register their endpoints with: of net/http's pattern
    language, the patterns these files use (a path, or a path ending in a
    slash that stands for everything below it). *)

From S2P Require Import Prelude GoStrings HTTP.
Open Scope string_scope.
Open Scope Z_scope.

(** path.Clean of a rooted path, keeping a final slash: cleanPath of ServeMux. *)
Definition cleanPath (p : string) : string :=
  let np := "/" +:+ join "/" (foldl clean_step [] (split slash p)) in
  if has_suffix "/" p && negb (bool_decide (np = "/")) then np +:+ "/" else np.

Section Mux.
Context {W : Type}.
Definition Handler : Type := Request → HM W unit.

(** A pattern that ends in a slash stands for the paths below it. *)
Definition pattern_matches (pattern path : string) : bool :=
if has_suffix "/" pattern then has_prefix pattern path else bool_decide (pattern = path).
(** The longest pattern that matches. *)
Definition mux_match (m : list (string * Handler)) (path : string) : option (string * Handler) :=
foldl (λ best p, if pattern_matches p.1 path
                 then match best with
                      | Some q => if (String.length q.1 <? String.length p.1)%nat then Some p else best
                      | None => Some p
                      end
                 else best) None m.
(** http.NotFound *)
Definition NotFound : HM W unit :=
_ ← Header_Set "Content-Type" "text/plain; charset=utf-8";
_ ← Header_Set "X-Content-Type-Options" "nosniff";
_ ← WriteHeader 404;
Write (CText ("404 page not found" +:+ one newline)).
(** What becomes of a request whose path is not clean (a redirection, unless
  its method is CONNECT) is an argument. *)
Definition mux_ServeHTTP (unclean : Handler) (m : list (string * Handler)) : Handler := λ r,
if bool_decide (cleanPath (rq_Path r) = rq_Path r) then
  match mux_match m (rq_Path r) with
  | Some (_, h) => h r
  | None => NotFound
  end
else unclean r.

Lemma NotFound_run (x : W) :
∃ w, NotFound (x, fresh_writer) = (Ret tt, (x, w)) ∧ (∃ h, rw_sent w = Some (404, h)) ∧
  rw_body w = [CText ("404 page not found" +:+ one newline)].
Proof. eexists. split; [vm_compute; reflexivity|]. split; [by eexists|done]. Qed.
End Mux.
Arguments Handler W : clear implicits.
