(* ===== verification/Directory.v ===== *)
(** * internal/http/directory_handler.go: the metadata directory

    A tree of static directories and path parameters.  Registration
    ([HandleDirectory], [HandleMetadata]) edits the tree and panics on
    conflicts; [DirectoryHandler_ServeHTTP] walks a request path down the tree
    and lists a directory, redirects to it, builds it recursively as JSON, or
    serves the metadata of a handler.  Edge names are ASCII. *)

From Stdlib Require Import Ascii.
From S2P Require Import Prelude GoStrings NetIP Retry ServiceAccounts HTTP.
Open Scope string_scope.
Open Scope Z_scope.

(** ** Paths *)

Definition splitPathPieces (path : string) : list string :=
  filter (λ s, s ≠ "") (map trim_space (split slash path)).

(** [prev] is the byte before the current one. *)
Fixpoint camelCase_from (prev : option char) (s : string) : string :=
  match s with
  | "" => ""
  | String c s' =>
      if decide (c = "-"%char) then camelCase_from (Some c) s'
      else String (if decide (prev = Some "-"%char) then to_upper_char c else c)
                  (camelCase_from (Some c) s')
  end.
Definition camelCaseFromKebab (s : string) : string := camelCase_from None s.

Section Directory.
Context {W : Type}.

(** ** Handlers and the tree *)

Inductive MetadataHandler : Type :=
| MetadataHandlerFunc (f : Request → HM W (result any))
| TokenHandler (h : MetadataHandler).

Fixpoint GetMetadata (h : MetadataHandler) : Request → HM W (result any) :=
match h with
| MetadataHandlerFunc f => f
| TokenHandler h' => GetMetadata h'
end.

Definition DirectoryLister : Type := Request → HM W (result (list string * Request)).

(** [directoryNode], [directoryEdge] and the [any] value of an edge: nil, a
  handler or a pointer to a node. *)
Inductive directoryNode : Type :=
| Node (children : list directoryEdge) (pathParam : option directoryEdge)
  (dirLister : option DirectoryLister)
with directoryEdge : Type :=
| Edge (name : string) (v : value)
with value : Type :=
| VNil
| VHandler (h : MetadataHandler)
| VDir (n : directoryNode).

Definition children (n : directoryNode) := let 'Node cs _ _ := n in cs.
Definition pathParam (n : directoryNode) := let 'Node _ p _ := n in p.
Definition dirLister (n : directoryNode) := let 'Node _ _ l := n in l.
Definition edge_name (e : directoryEdge) : string := let 'Edge nm _ := e in nm.
Definition edge_value (e : directoryEdge) : value := let 'Edge _ v := e in v.
Definition empty_node : directoryNode := Node [] None None.

Definition is_dir (v : value) : bool := match v with VDir _ => true | _ => false end.
Definition is_VNil (v : value) : bool := match v with VNil => true | _ => false end.

(** The value of the first child with the given name. *)
Fixpoint find_child (piece : string) (cs : list directoryEdge) : option value :=
match cs with
| [] => None
| Edge nm v :: cs' => if decide (nm = piece) then Some v else find_child piece cs'
end.
(** Writing the value of that child, through its pointer. *)
Fixpoint set_child (piece : string) (v : value) (cs : list directoryEdge)
  : list directoryEdge :=
match cs with
| [] => []
| Edge nm v' :: cs' =>
    if decide (nm = piece) then Edge nm v :: cs' else Edge nm v' :: set_child piece v cs'
end.

(** ** Registration *)

Inductive registration : Type :=
| RegMetadata (h : MetadataHandler)
| RegDirectory (l : DirectoryLister).

Definition is_param (piece : string) : bool := has_prefix "$" piece.

(** Find or create the edge of [piece]: the node with that edge, and its value. *)
Definition find_or_create_edge (prefix panicPrefix panicPath piece : string)
  (n : directoryNode) : outcome (directoryNode * value) :=
let 'Node cs pp l := n in
if is_param piece then
  match pp with
  | None =>
      if bool_decide (cs = []) then Ret (Node cs (Some (Edge piece VNil)) l, VNil)
      else Panic ("conflicting static directory and parameterized directory: "
             +:+ panicPrefix +:+ " with children {"
             +:+ join ", " (map edge_name cs) +:+ "} and " +:+ panicPath)
  | Some (Edge nm v) =>
      if decide (nm = piece) then Ret (n, v)
      else Panic ("conflicting parameterized directories: " +:+ prefix +:+ "/" +:+ nm
             +:+ " and " +:+ panicPath)
  end
else
  match pp with
  | Some (Edge nm _) =>
      Panic ("conflicting parameterized directory and static directory: "
             +:+ prefix +:+ "/" +:+ nm +:+ " and " +:+ panicPath)
  | None =>
      match find_child piece cs with
      | Some v => Ret (n, v)
      | None => Ret (Node (cs ++ [Edge piece VNil])%list pp l, VNil)
      end
  end.

(** [edge.value = v], for the edge of [piece]. *)
Definition set_edge_value (piece : string) (v : value) (n : directoryNode) : directoryNode :=
let 'Node cs pp l := n in
if is_param piece then Node cs (Some (Edge piece v)) l
else Node (set_child piece v cs) pp l.

Fixpoint handle (prefix : string) (path : list string) (reg : registration)
  (n : directoryNode) : outcome unit * directoryNode :=
match path with
| [] => (Panic "index out of range", n)
| piece :: rest =>
    let panicPrefix := if bool_decide (prefix = "") then "/" else prefix in
    let panicPath := join "/" (prefix :: path) in
    match find_or_create_edge prefix panicPrefix panicPath piece n with
    | Panic msg => (Panic msg, n)
    | Ret (n1, v) =>
        if bool_decide (rest = []) then
          match reg with
          | RegDirectory l =>
              let 'Node cs pp dl := n1 in
              if dl then (Panic ("conflicting directory listers: " +:+ panicPrefix), n1)
              else if pp then (Ret tt, Node cs pp (Some l))
              else (Panic ("directory lister with no path parameter: " +:+ panicPrefix), n1)
          | RegMetadata h =>
              if is_VNil v then (Ret tt, set_edge_value piece (VHandler h) n1)
              else (Panic ("conflicting handlers: " +:+ prefix +:+ "/" +:+ piece), n1)
          end
        else
          match v with
          | VNil =>
              let '(o, child) := handle (prefix +:+ "/" +:+ piece) rest reg empty_node in
              (o, set_edge_value piece (VDir child) n1)
          | VDir child =>
              let '(o, child') := handle (prefix +:+ "/" +:+ piece) rest reg child in
              (o, set_edge_value piece (VDir child') n1)
          | VHandler _ =>
              (Panic ("conflicting handlers: " +:+ prefix +:+ "/" +:+ piece
                 +:+ " and " +:+ panicPath), n1)
          end
    end
end.

Definition HandleDirectory (pattern : string) (l : DirectoryLister)
  : ST directoryNode unit := λ n,
let path := splitPathPieces pattern in
if bool_decide (path = []) then (Panic "cannot handle directory on empty path", n)
else handle "" path (RegDirectory l) n.

Definition HandleMetadata (pattern : string) (h : MetadataHandler)
  : ST directoryNode unit := λ n,
let path := splitPathPieces pattern in
if bool_decide (path = []) then (Panic "cannot handle empty path", n)
else handle "" path (RegMetadata h) n.

(** ** Serving *)

Fixpoint buildValueRecursive (r : Request) (v : value) : HM W (result (option any)) :=
match v with
| VNil => ok (Some ANil)
| VHandler (TokenHandler _) => ok None
| VHandler (MetadataHandlerFunc f) => x ←? f r; ok (Some x)
| VDir n => m ←? buildRecursive r n; ok (Some (AMap m))
end
with buildRecursive (r : Request) (n : directoryNode)
  : HM W (result (list (string * any))) :=
match n with
| Node cs pp dl =>
    m ←? (fix go (cs : list directoryEdge) (m : list (string * any)) :=
            match cs with
            | [] => ok m
            | Edge nm v :: cs' =>
                md ←? buildValueRecursive r v;
                go cs' match md with
                       | Some x => map_set (camelCaseFromKebab nm) x m
                       | None => m
                       end
            end) cs [];
    match dl with
    | None => ok m
    | Some lister =>
        '(dirEntries, r') ←? lister r;
        match pp with
        | None =>
            if bool_decide (dirEntries = []) then ok m
            else panic "invalid memory address or nil pointer dereference"
        | Some (Edge _ v) =>
            (fix go (es : list string) (m : list (string * any)) :=
               match es with
               | [] => ok m
               | entry :: es' =>
                   md ←? buildValueRecursive r' v;
                   go es' match md with
                          | Some x => map_set entry (APtr x) m
                          | None => m
                          end
               end) dirEntries m
        end
    end
end.

Definition dir_entry (name : string) (v : value) : string :=
if is_dir v then name +:+ "/" else name.

(** [directoryNode.ServeHTTP]. *)
Definition directoryNode_ServeHTTP (n : directoryNode) (r : Request) : HM W unit :=
let p := rq_Path r in
if negb (has_suffix "/" p) then Redirect (p +:+ "/") 301 else
if has_prefix "/computeMetadata/v1" p
   && bool_decide (to_lower (Query_Get "recursive" r) = "true") then
  m ← buildRecursive r n;
  match m with
  | Err _ => mret tt
  | Ok m => RespondJSON r 200 (AMap m) None
  end
else
  let entries := map (λ e, dir_entry (edge_name e) (edge_value e)) (children n) in
  match dirLister n with
  | None => RespondText r 200 (join (one newline) entries +:+ one newline)
  | Some lister =>
      more ← lister r;
      match more with
      | Err _ => mret tt
      | Ok (moreDirEntries, r') =>
          match pathParam n with
          | None =>
              if bool_decide (moreDirEntries = []) then
                RespondText r' 200 (join (one newline) entries +:+ one newline)
              else panic "invalid memory address or nil pointer dereference"
          | Some (Edge _ v) =>
              RespondText r' 200
                (join (one newline) (entries ++ map (λ e, dir_entry e v) moreDirEntries)%list
                   +:+ one newline)
          end
      end
  end.

Definition serveMetadata (r : Request) (h : MetadataHandler) : HM W unit :=
v ← GetMetadata h r;
match v with
| Err _ => mret tt
| Ok (AString s) => RespondText r 200 s
| Ok (AStrings l) => RespondText r 200 (join (one newline) l +:+ one newline)
| Ok (AMap m) => RespondJSON r 200 (AMap m) None
| Ok v =>
    let ty := match v with
              | ANil => "<nil>"
              | AInt _ => "int"
              | APtr _ => "*interface {}"
              | AOther ty _ => ty
              | _ => ""
              end in
    RespondErrorf r 500 (EMsg ("unsupported metadata type: " +:+ ty))
end.

(** The loop over the path pieces of [DirectoryHandler.ServeHTTP]. *)
Fixpoint serve_pieces (u : directoryNode) (pieces : list string) (r : Request)
  : HM W unit :=
match pieces with
| [] => mret tt
| piece :: rest =>
    let follow (v : value) (r : Request) : HM W unit :=
      if negb (bool_decide (rest = [])) then
        match v with
        | VDir u' => serve_pieces u' rest r
        | _ => RespondNotFound
        end
      else
        match v with
        | VDir d => directoryNode_ServeHTTP d r
        | VHandler h => serveMetadata r h
        | VNil => panic "interface conversion: interface is nil, not pkghttp.MetadataHandler"
        end in
    match pathParam u with
    | Some (Edge _ v) =>
        match dirLister u with
        | None => panic "invalid memory address or nil pointer dereference"
        | Some lister =>
            res ← lister r;
            match res with
            | Err _ => mret tt
            | Ok (entries, r') =>
                if bool_decide (piece ∈ entries) then follow v r' else RespondNotFound
            end
        end
    | None =>
        match find_child piece (children u) with
        | Some v => follow v r
        | None => RespondNotFound
        end
    end
end.

Definition flavor_missing_msg : string :=
let q s := quote +:+ s +:+ quote in
"Missing required header " +:+ q MetadataFlavorHeader +:+ ": "
  +:+ q MetadataFlavorGoogle +:+ one newline.

(** [DirectoryHandler.ServeHTTP]. *)
Definition DirectoryHandler_ServeHTTP (h : directoryNode) (r : Request) : HM W unit :=
if has_prefix "/computeMetadata/v1" (rq_Path r)
   && negb (bool_decide (Header_Get MetadataFlavorHeader r = MetadataFlavorGoogle)) then
  _ ← WriteHeader 403;
  Write (CText flavor_missing_msg)
else
  let pieces := splitPathPieces (rq_Path r) in
  if bool_decide (pieces = []) then directoryNode_ServeHTTP h r
  else serve_pieces h pieces r.
(** ** Printing the tree *)

(** What MarshalJSON prints of the value of an edge, and of a node: an object
  with its children and then its parameter; handlers are given by type. *)
Fixpoint MarshalJSON (n : directoryNode) : any :=
match n with
| Node cs p _ =>
    let m := (fix go (cs : list directoryEdge) (m : list (string * any)) :=
      match cs with
      | [] => m
      | Edge nm v :: cs' => go cs' (map_set (camelCaseFromKebab nm) (edge_json v) m)
      end) cs [] in
    AMap (match p with
          | None => m
          | Some (Edge nm v) => map_set nm (edge_json v) m
          end)
end
with edge_json (v : value) : any :=
match v with
| VNil => AString "<nil>"
| VHandler (MetadataHandlerFunc _) => AString "pkghttp.MetadataHandlerFunc"
| VHandler (TokenHandler _) => AString "pkghttp.TokenHandler"
| VDir n => MarshalJSON n
end.
End Directory.
Arguments MetadataHandler : clear implicits.
Arguments DirectoryLister : clear implicits.
Arguments directoryNode : clear implicits.
Arguments directoryEdge : clear implicits.
Arguments value : clear implicits.
Arguments registration : clear implicits.
Arguments empty_node {W}.
#[global] Arguments is_param : simpl never.

(** ** Lemmas: paths *)

(** What [splitPathPieces] produces: non-empty, trimmed, slash-free pieces. *)
Definition path_piece (p : string) : Prop := p ≠ "" ∧ ¬ str_in slash p ∧ trim_space p = p.

Lemma splitPathPieces_pieces path : Forall path_piece (splitPathPieces path).
Proof.
  unfold splitPathPieces. apply Forall_forall. intros p [Hne Hin]%list_elem_of_filter.
  apply list_elem_of_fmap in Hin as (q & -> & Hq).
  pose proof (split_pieces_no_sep slash path) as Hs. rewrite Forall_forall in Hs.
  split_and!; [done| |apply trim_space_idem].
  intros Hin%trim_space_in. by apply (Hs q).
Qed.

Lemma filter_trim_id l :
  Forall path_piece l → filter (λ s, s ≠ "") (map trim_space l) = l.
Proof.
  induction 1 as [|p l (Hne & _ & Ht) Hl IH]; [done|].
  cbn [map]. rewrite filter_cons_True by congruence. by rewrite Ht, IH.
Qed.

(** Leading and trailing slashes do not change the pieces. *)
Lemma splitPathPieces_app s t :
  splitPathPieces (s +:+ "/" +:+ t) = (splitPathPieces s ++ splitPathPieces t)%list.
Proof.
  unfold splitPathPieces. change ("/" +:+ t) with (String slash t).
  by rewrite split_app_sep, map_app, filter_app.
Qed.
Lemma splitPathPieces_lead s : splitPathPieces ("/" +:+ s) = splitPathPieces s.
Proof. apply (splitPathPieces_app "" s). Qed.
Lemma splitPathPieces_trail s : splitPathPieces (s +:+ "/") = splitPathPieces s.
Proof.
  change "/" with ("/" +:+ ""). rewrite splitPathPieces_app. apply app_nil_r.
Qed.

(** ** Lemmas: edges *)

Section Edges.
Context {W : Type}.
Implicit Types (n : directoryNode W) (v : value W) (cs : list (directoryEdge W)).

(** The edge a pattern piece selects. *)
Definition find_edge (piece : string) n : option (value W) :=
if is_param piece then
  match pathParam n with
  | Some (Edge nm v) => if decide (nm = piece) then Some v else None
  | None => None
  end
else find_child piece (children n).

(** The handler registered under a pattern. *)
Fixpoint registered (path : list string) n : option (MetadataHandler W) :=
match path with
| [] => None
| piece :: rest =>
    match find_edge piece n with
    | Some (VHandler h) => if decide (rest = []) then Some h else None
    | Some (VDir c) => registered rest c
    | _ => None
    end
end.

Lemma find_child_set piece piece' v cs :
is_Some (find_child piece cs) →
find_child piece' (set_child piece v cs) =
  if decide (piece' = piece) then Some v else find_child piece' cs.
Proof.
induction cs as [|[nm v0] cs IH]; cbn; [by intros []|].
destruct (decide (nm = piece)) as [->|Hne]; cbn.
- intros _. destruct (decide (piece = piece')), (decide (piece' = piece)); congruence.
- intros Hs. rewrite IH by done.
  destruct (decide (nm = piece')), (decide (piece' = piece)); congruence.
Qed.
Lemma find_child_app piece piece' v cs :
find_child piece cs = None →
find_child piece' (cs ++ [Edge piece v]) =
  if decide (piece' = piece) then Some v else find_child piece' cs.
Proof.
induction cs as [|[nm v0] cs IH]; cbn.
- intros _. destruct (decide (piece = piece')), (decide (piece' = piece)); congruence.
- destruct (decide (nm = piece)) as [->|Hne]; [done|]. intros Hn. rewrite IH by done.
  destruct (decide (nm = piece')), (decide (piece' = piece)); congruence.
Qed.

(** Finding or creating an edge changes no other edge. *)
Lemma find_or_create_edge_spec prefix pp ppath piece n n1 v :
find_or_create_edge prefix pp ppath piece n = Ret (n1, v) →
find_edge piece n1 = Some v ∧ dirLister n1 = dirLister n ∧
v = default VNil (find_edge piece n) ∧
∀ piece', piece' ≠ piece → find_edge piece' n1 = find_edge piece' n.
Proof.
destruct n as [cs [[nm v0]|] l]; unfold find_or_create_edge, find_edge; cbn.
- destruct (is_param piece) eqn:Hp; [|done].
  destruct (decide (nm = piece)) as [->|]; [|done]. intros [= <- <-]. cbn.
  rewrite decide_True by done. by split_and!.
- destruct (is_param piece) eqn:Hp.
  + case_bool_decide; [|done]. intros [= <- <-]. cbn. rewrite decide_True by done.
    split_and!; try done. intros piece' Hne. destruct (is_param piece'); [|done].
    by rewrite decide_False.
  + destruct (find_child piece cs) as [v1|] eqn:Hf; intros [= <- <-]; cbn.
    { by rewrite Hf. }
    rewrite find_child_app, decide_True by done. split_and!; try done.
    intros piece' Hne. destruct (is_param piece'); [done|].
    by rewrite find_child_app, decide_False.
Qed.

Lemma find_edge_set piece piece' v n :
is_Some (find_edge piece n) →
find_edge piece' (set_edge_value piece v n) =
  if decide (piece' = piece) then Some v else find_edge piece' n.
Proof.
destruct n as [cs pp l]. unfold find_edge, set_edge_value. cbn.
destruct (is_param piece) eqn:Hp; cbn.
- destruct pp as [[nm v0]|]; [|by intros []].
  destruct (decide (nm = piece)) as [->|]; [|by intros []]. intros _.
  destruct (is_param piece') eqn:Hp'.
  + destruct (decide (piece = piece')), (decide (piece' = piece)); congruence.
  + rewrite decide_False by congruence. done.
- intros Hs. destruct (is_param piece') eqn:Hp'.
  + rewrite decide_False by congruence. done.
  + by apply find_child_set.
Qed.

Lemma registered_edge path n n' :
(∀ piece, find_edge piece n = find_edge piece n') → registered path n = registered path n'.
Proof. intros H. destruct path as [|piece rest]; cbn; [done|]. by rewrite H. Qed.
End Edges.

(** ** Theorems: paths and registration *)

(** Splitting a path and joining the pieces again normalises it: every
    piece is non-empty, slash-free and trimmed, and a path made of such pieces
    splits back into exactly them. *)
Theorem splitPathPieces_roundtrip (path : string) :
  let pieces := splitPathPieces path in
  Forall path_piece pieces ∧
  splitPathPieces ("/" +:+ join "/" pieces) = pieces ∧
  splitPathPieces ("/" +:+ join "/" pieces +:+ "/") = pieces.
Proof.
  intros pieces. pose proof (splitPathPieces_pieces path) as Hp. fold pieces in Hp.
  assert (Forall (λ p, ¬ str_in slash p) pieces) as Hns.
  { eapply Forall_impl; [done|]. by intros p (_ & ? & _). }
  assert (splitPathPieces (join "/" pieces) = pieces) as Hjoin.
  { destruct (decide (pieces = [])) as [->|Hne]; [done|].
    unfold splitPathPieces. change "/" with (one slash). rewrite split_join by done.
    by apply filter_trim_id. }
  split_and!; [done|by rewrite splitPathPieces_lead|].
  by rewrite splitPathPieces_lead, splitPathPieces_trail.
Qed.

Section Registration.
Context {W : Type}.
Implicit Types (n : directoryNode W) (reg : registration W).

Definition register_result (o : outcome unit) reg (path path' : list string) n
  : option (MetadataHandler W) :=
match o, reg with
| Ret _, RegMetadata h => if decide (path' = path) then Some h else registered path' n
| _, _ => registered path' n
end.

Lemma registered_empty path : registered path (empty_node (W:=W)) = None.
Proof. destruct path as [|piece rest]; [done|]. cbn. unfold find_edge. by destruct (is_param piece). Qed.

Lemma register_below (o : outcome unit) reg piece rest path' n n1 child' (base : directoryNode W) :
rest ≠ [] →
(∀ p, find_edge p n1 = if decide (p = piece) then find_edge piece n1 else find_edge p n) →
is_Some (find_edge piece n1) →
(∀ p, registered p child' = register_result o reg rest p base) →
(∀ p, registered (piece :: p) n = registered p base) →
registered path' (set_edge_value piece (VDir child') n1) =
  register_result o reg (piece :: rest) path' n.
Proof.
intros Hrest Hn1 Hs Hchild Hbase.
assert (registered [] (set_edge_value piece (VDir child') n1) = None) by done.
destruct path' as [|p path']; [by unfold register_result; repeat case_match; simplify_eq|].
cbn [registered]. rewrite find_edge_set by done.
destruct (decide (p = piece)) as [->|Hne].
- rewrite Hchild. unfold register_result. rewrite Hbase.
  repeat case_match; simplify_eq; try done; congruence.
- rewrite Hn1, decide_False by done. unfold register_result.
  destruct o, reg; try done. by rewrite decide_False by congruence.
Qed.

Lemma handle_registered reg (path : list string) :
∀ prefix n o n', handle prefix path reg n = (o, n') →
∀ path', registered path' n' = register_result o reg path path' n.
Proof.
induction path as [|piece rest IH]; intros prefix n o n'; cbn [handle].
{ by intros [= <- <-] path'. }
destruct (find_or_create_edge _ _ _ piece n) as [[n1 v]|msg] eqn:Hf;
  [|by intros [= <- <-] path'].
apply find_or_create_edge_spec in Hf as (Hv & _ & Hnew & Hother).
assert (∀ p, find_edge p n1 = if decide (p = piece) then find_edge piece n1 else find_edge p n)
  as Hn1.
{ intros p. destruct (decide (p = piece)) as [->|]; [done|]. by apply Hother. }
assert (∀ path', registered path' n1 = registered path' n) as Hsame.
{ intros [|p path']; [done|]. cbn. rewrite Hn1. destruct (decide (p = piece)) as [->|]; [|done].
  rewrite Hv, Hnew. by destruct (find_edge piece n) as [[]|]. }
case_bool_decide as Hrest.
- subst rest. destruct reg as [h|l].
  + destruct v as [|h'|c]; intros [= <- <-] path'; try by apply Hsame.
    destruct path' as [|p ps]; [done|]. cbn [registered]. rewrite find_edge_set by eauto.
    cbn [register_result]. destruct (decide (p = piece)) as [->|Hne].
    * destruct (decide (ps = [])) as [->|]; [by rewrite decide_True|].
      rewrite decide_False by congruence. cbn.
      destruct (find_edge piece n) as [[]|]; simplify_eq/=; done.
    * rewrite decide_False by congruence. cbn. by rewrite Hn1, decide_False.
  + destruct n1 as [cs pp [l'|]]; [by intros [= <- <-] path'; apply Hsame|].
    destruct pp as [pp|]; intros [= <- <-] path'; [|by apply Hsame].
    unfold register_result. rewrite <-Hsame. by apply registered_edge.
- destruct v as [|h|child].
  + destruct (handle _ rest reg empty_node) as [o1 c1] eqn:Hh. intros [= <- <-] path'.
    eapply (register_below o1 reg piece rest path' n n1 c1 empty_node); eauto.
    intros p. rewrite registered_empty. cbn.
    destruct (find_edge piece n) as [[]|]; simplify_eq/=; done.
  + intros [= <- <-] path'. apply Hsame.
  + destruct (handle _ rest reg child) as [o1 c1] eqn:Hh. intros [= <- <-] path'.
    eapply (register_below o1 reg piece rest path' n n1 c1 child); eauto.
    intros p. cbn. destruct (find_edge piece n) as [[]|]; by simplify_eq/=.
Qed.
(** *** The shape of a directory *)

(** Child names are distinct and static; a node has a path parameter or
  children, never both; and so down the tree. *)
Inductive wf : directoryNode W → Prop :=
| wf_Node cs pp l :
  NoDup (map edge_name cs) →
  Forall (λ e, is_param (edge_name e) = false) cs →
  (∀ e, pp = Some e → is_param (edge_name e) = true ∧ cs = []) →
  (∀ piece c, find_edge piece (Node cs pp l) = Some (VDir c) → wf c) →
  wf (Node cs pp l).

Lemma wf_empty : wf empty_node.
Proof.
constructor; [constructor|constructor|done|].
intros piece c. unfold find_edge. by destruct (is_param piece).
Qed.

Lemma find_child_None piece cs :
find_child (W:=W) piece cs = None → piece ∉ map edge_name cs.
Proof.
induction cs as [|[nm v] cs IH]; cbn; [set_solver|].
destruct (decide (nm = piece)); [done|]. set_solver.
Qed.
Lemma set_child_names piece v cs :
map edge_name (set_child (W:=W) piece v cs) = map edge_name cs.
Proof.
induction cs as [|[nm v'] cs IH]; cbn; [done|].
destruct (decide _); cbn; [done|]. by rewrite IH.
Qed.
Lemma Forall_names (P : string → Prop) (cs : list (directoryEdge W)) :
Forall (λ e, P (edge_name e)) cs ↔ Forall P (map edge_name cs).
Proof. by rewrite Forall_map. Qed.

Lemma wf_find_or_create prefix pp ppath piece n n1 v :
wf n → find_or_create_edge prefix pp ppath piece n = Ret (n1, v) → wf n1.
Proof.
intros Hwf Hf. pose proof (find_or_create_edge_spec _ _ _ _ _ _ _ Hf) as (Hv & _ & Hnew & Hother).
destruct Hwf as [cs p l Hnd Hst Hpp Hsub].
assert (∀ q c, find_edge q n1 = Some (VDir c) → wf c) as Hsub1.
{ intros q c Hq. apply (Hsub q). destruct (decide (q = piece)) as [->|Hne].
  - rewrite Hv in Hq. by destruct (find_edge piece (Node cs p l)) as [[]|]; simplify_eq/=.
  - by rewrite <-Hother. }
unfold find_or_create_edge in Hf. destruct (is_param piece) eqn:Hp.
- destruct p as [[nm v0]|].
  + destruct (decide _); simplify_eq. by constructor.
  + case_bool_decide; simplify_eq. constructor; try done. by intros e [= <-].
- destruct p as [[nm v0]|]; [done|]. destruct (find_child piece cs) eqn:Hc; simplify_eq.
  { by constructor. }
  constructor; [..|done].
  + rewrite map_app. cbn. apply NoDup_app. split_and!; [done| |apply NoDup_singleton].
    apply find_child_None in Hc. set_solver.
  + apply Forall_app. split; [done|]. by repeat constructor.
  + done.
Qed.

Lemma wf_set_edge piece v n :
wf n → is_Some (find_edge piece n) → (∀ c, v = VDir c → wf c) →
wf (set_edge_value piece v n).
Proof.
intros Hwf Hs Hv.
assert (∀ q c, find_edge q (set_edge_value piece v n) = Some (VDir c) → wf c) as Hsub'.
{ intros q c. rewrite find_edge_set by done. destruct (decide (q = piece)).
  - intros [= ->]. by apply Hv.
  - destruct Hwf as [cs p l ? ? ? Hsub]. apply Hsub. }
destruct Hwf as [cs p l Hnd Hst Hpp Hsub]. unfold set_edge_value in *.
unfold find_edge in Hs. cbn in Hs.
destruct (is_param piece) eqn:Hp; constructor; try done.
- intros e [= <-]. destruct p as [[nm v0]|]; [|by destruct Hs]. by destruct (Hpp _ eq_refl).
- by rewrite set_child_names.
- apply (Forall_names (λ s, is_param s = false)). rewrite set_child_names.
  by apply Forall_names.
- intros e ->. destruct (Hpp e eq_refl) as [? ->]. done.
Qed.

Lemma wf_set_lister cs p l l' : wf (Node cs p l) → wf (Node cs p l').
Proof. inversion 1; subst. by constructor. Qed.

Lemma handle_wf reg (path : list string) :
∀ prefix n o n', wf n → handle prefix path reg n = (o, n') → wf n'.
Proof.
induction path as [|piece rest IH]; intros prefix n o n' Hwf; cbn [handle].
{ by intros [= <- <-]. }
destruct (find_or_create_edge _ _ _ piece n) as [[n1 v]|msg] eqn:Hf; [|by intros [= <- <-]].
pose proof (wf_find_or_create _ _ _ _ _ _ _ Hwf Hf) as Hwf1.
apply find_or_create_edge_spec in Hf as (Hv & _).
case_bool_decide.
- destruct reg as [h|l].
  + destruct (is_VNil v); intros [= <- <-]; [|done]. apply wf_set_edge; eauto. done.
  + destruct n1 as [cs p [l'|]]; [by intros [= <- <-]|].
    destruct p; intros [= <- <-]; [|done]. by eapply wf_set_lister.
- destruct v as [|h|child].
  + destruct (handle _ rest reg empty_node) as [o1 c1] eqn:Hh. intros [= <- <-].
    apply wf_set_edge; eauto. intros c [= <-]. eapply IH; [apply wf_empty|done].
  + by intros [= <- <-].
  + destruct (handle _ rest reg child) as [o1 c1] eqn:Hh. intros [= <- <-].
    apply wf_set_edge; eauto. intros c [= <-]. eapply IH; [|done].
    destruct Hwf1 as [? ? ? ? ? ? Hsub]. by eapply Hsub.
Qed.

(** Registration is an insertion.  When HandleMetadata returns, the
  handler is found under exactly the registered pattern and every other
  pattern keeps its handler; registering a directory lister, or a
  registration that panics, changes no handler. *)
Theorem registration_inserts pattern n :
(∀ h o n', HandleMetadata pattern h n = (o, n') → ∀ path',
   registered path' n' =
     match o with
     | Ret _ => if decide (path' = splitPathPieces pattern) then Some h else registered path' n
     | Panic _ => registered path' n
     end)
∧ (∀ l o n', HandleDirectory pattern l n = (o, n') → ∀ path',
     registered path' n' = registered path' n).
Proof.
unfold HandleMetadata, HandleDirectory. split.
- intros h o n'. case_bool_decide; [by intros [= <- <-]|]. intros Hh path'.
  by rewrite (handle_registered _ _ _ _ _ _ Hh).
- intros l o n'. case_bool_decide; [by intros [= <- <-]|]. intros Hh path'.
  rewrite (handle_registered _ _ _ _ _ _ Hh). by destruct o.
Qed.

(** C39: registration keeps the directory well formed, panic or not: static
  and parameterized entries never mix in one directory, names stay distinct. *)
Theorem registration_wf pattern n :
wf n →
(∀ h o n', HandleMetadata pattern h n = (o, n') → wf n')
∧ (∀ l o n', HandleDirectory pattern l n = (o, n') → wf n').
Proof.
intros Hwf. unfold HandleMetadata, HandleDirectory.
split; intros ? o n'; (case_bool_decide; [by intros [= <- <-]|by apply handle_wf]).
Qed.

(** A pattern that already has a handler cannot be registered again: the
  registration panics and the directory is unchanged for every pattern. *)
Theorem handle_duplicate_panics h h' (path : list string) :
∀ prefix n, registered path n = Some h →
∃ msg n', handle prefix path (RegMetadata h') n = (Panic msg, n') ∧
  ∀ path', registered path' n' = registered path' n.
Proof.
intros prefix n Hreg.
assert (∃ msg n', handle prefix path (RegMetadata h') n = (Panic msg, n')) as (msg & n' & Hh).
{ revert prefix n Hreg. induction path as [|piece rest IH]; intros prefix n; cbn [registered handle]; [done|].
  destruct (find_or_create_edge _ _ _ piece n) as [[n1 v]|msg] eqn:Hf; [|eauto].
  apply find_or_create_edge_spec in Hf as (_ & _ & -> & _).
  destruct (find_edge piece n) as [[|h0|c]|] eqn:He; cbn; try done.
  - destruct (decide (rest = [])) as [->|]; [|done]. intros [= ->]. cbn. eauto.
  - intros Hc. rewrite bool_decide_eq_false_2 by by intros ->.
    destruct (IH (prefix +:+ "/" +:+ piece) c Hc) as (msg & n' & ->). eauto. }
exists msg, n'. split; [done|]. intros path'.
by rewrite (handle_registered _ _ _ _ _ _ Hh).
Qed.
End Registration.

(** ** Theorems: serving *)

(** Witness data: a request and a directory with one static handler. *)
Definition example_request (path : string) : Request :=
  {| rq_Method := "GET"; rq_Path := path; rq_Query := []; rq_Header := [];
     rq_RemoteAddr := "10.0.0.1:1234"; ctx_localAddr := None; ctx_saRef := None;
     ctx_googleEmail := None; ctx_observability := true |}.
Definition name_handler : MetadataHandler unit := MetadataHandlerFunc (λ _, ok (AString "node-1")).
Definition name_directory : directoryNode unit :=
  (handle "" ["computeMetadata"; "v1"; "instance"; "name"] (RegMetadata name_handler) empty_node).2.

Section Serving.
Context {W : Type}.
Implicit Types (n u : directoryNode W) (v : value W) (r : Request).

(** C10: a request under /computeMetadata/v1 without the header
  Metadata-Flavor: Google is refused with 403 before any lister or
  handler runs: the rest of the world is untouched, whatever the
  directory holds. *)
Theorem flavor_required n r (x : W) (w : ResponseWriter) :
has_prefix "/computeMetadata/v1" (rq_Path r) = true →
Header_Get MetadataFlavorHeader r ≠ MetadataFlavorGoogle →
rw_sent w = None →
DirectoryHandler_ServeHTTP n r (x, w) =
  (Ret tt, (x, {| rw_header := rw_header w; rw_sent := Some (403, rw_header w);
                  rw_body := (rw_body w ++ [CText flavor_missing_msg])%list;
                  rw_observed := rw_observed w |})).
Proof.
intros Hp Hh Hw. unfold DirectoryHandler_ServeHTTP.
rewrite Hp, bool_decide_eq_false_2 by done. cbn [andb negb].
unfold mbind, st_bind. rewrite WriteHeader_final by (done || by vm_compute).
unfold Write. by st_simpl.
Qed.

(** The header check compares the text of the path, while dispatch goes
  by its pieces: with a doubled slash before v1 the same handlers run
  without any header. *)
Theorem flavor_check_bypass n r rest :
rq_Path r = "/computeMetadata//v1" +:+ rest →
has_prefix "/computeMetadata/v1" (rq_Path r) = false ∧
splitPathPieces (rq_Path r) = splitPathPieces ("/computeMetadata/v1" +:+ rest) ∧
DirectoryHandler_ServeHTTP n r =
  serve_pieces n (splitPathPieces ("/computeMetadata/v1" +:+ rest)) r.
Proof.
intros Hp.
assert (splitPathPieces (rq_Path r) = splitPathPieces ("/computeMetadata/v1" +:+ rest)) as Hs.
{ rewrite Hp. etransitivity; [apply (splitPathPieces_app "/computeMetadata" ("/v1" +:+ rest))|].
  etransitivity; [|symmetry; apply (splitPathPieces_app "/computeMetadata" ("v1" +:+ rest))].
  done. }
assert (has_prefix "/computeMetadata/v1" (rq_Path r) = false) as Hpre by by rewrite Hp.
split_and!; [done..|].
unfold DirectoryHandler_ServeHTTP. rewrite Hpre, Hs. cbn [andb].
rewrite bool_decide_eq_false_2; [done|].
intros Hnil.
pose proof (splitPathPieces_app "/computeMetadata" ("v1" +:+ rest)) as Happ.
change ("/computeMetadata" +:+ "/" +:+ "v1" +:+ rest) with ("/computeMetadata/v1" +:+ rest) in Happ.
rewrite Hnil in Happ. done.
Qed.

(** *** Which handler serves a path *)

(** A path has the shape of a pattern: a piece of the pattern that is a
  parameter stands for any piece, any other for itself. *)
Definition matches (pattern pieces : list string) : Prop :=
Forall2 (λ p piece, is_param p = true ∨ piece = p) pattern pieces.

(** The lister registered for the directory under a pattern. *)
Fixpoint lister_at (path : list string) n : option (DirectoryLister W) :=
match path with
| [] => dirLister n
| piece :: rest => match find_edge piece n with Some (VDir c) => lister_at rest c | _ => None end
end.

(** HandleDirectory registers the lister of the directory that the parameter,
  the last piece of its pattern, stands in. *)
Lemma handle_lister l (path : list string) :
∀ prefix n n', handle prefix path (RegDirectory l) n = (Ret tt, n') → lister_at (removelast path) n' = Some l.
Proof.
induction path as [|piece rest IH]; intros prefix n n'; cbn [handle]; [done|].
destruct (find_or_create_edge _ _ _ piece n) as [[n1 v]|msg] eqn:Hf; [|done].
apply find_or_create_edge_spec in Hf as (Hv & _). case_bool_decide as Hrest.
- subst rest. destruct n1 as [cs [pp|] [l'|]]; [done|by intros [= <-]|done..].
- assert (Hgo : ∀ c c', handle (prefix +:+ "/" +:+ piece) rest (RegDirectory l) c = (Ret tt, c') →
    lister_at (removelast (piece :: rest)) (set_edge_value piece (VDir c') n1) = Some l).
  { intros c c' H. destruct rest as [|q rest]; [done|]. change (removelast (piece :: q :: rest))
      with (piece :: removelast (q :: rest)). cbn [lister_at].
    rewrite find_edge_set, decide_True by eauto. by eapply IH. }
  destruct v as [|h|child]; [|done|];
    (destruct (handle _ rest (RegDirectory l) _) as [o1 c1] eqn:Hh; intros [= -> <-]; by eapply Hgo).
Qed.
Lemma directory_lister pattern l n n' :
HandleDirectory pattern l n = (Ret tt, n') → lister_at (removelast (splitPathPieces pattern)) n' = Some l.
Proof. unfold HandleDirectory. case_bool_decide; [done|]. apply handle_lister. Qed.

(** The parameters of a pattern: for each, the lister of the directory that it
  stands in, given by that directory's pattern, and the piece it stands for. *)
Fixpoint parameters (lister : list string → option (DirectoryLister W)) (pattern pieces : list string)
  : list (option (DirectoryLister W) * string) :=
match pattern, pieces with
| p :: pattern, piece :: pieces =>
    ((if is_param p then [(lister [], piece)] else []) ++
     parameters (λ before, lister (p :: before)) pattern pieces)%list
| _, _ => []
end.

(** Each lister in turn must list its piece, and hands its request on; an error
  has been responded already. *)
Fixpoint admitted (ps : list (option (DirectoryLister W) * string)) (r : Request) (serve : Request → HM W unit)
  : HM W unit :=
match ps with
| [] => serve r
| (None, _) :: _ => panic "invalid memory address or nil pointer dereference"
| (Some lister, piece) :: ps =>
    listing ← lister r;
    match listing with
    | Err _ => mret tt
    | Ok (entries, r') => if bool_decide (piece ∈ entries) then admitted ps r' serve else RespondNotFound
    end
end.

Lemma parameters_ext l1 l2 pattern : (∀ q, l1 q = l2 q) →
∀ pieces, parameters l1 pattern pieces = parameters l2 pattern pieces.
Proof.
revert l1 l2. induction pattern as [|p pattern IH]; intros l1 l2 H [|x pieces]; cbn; [done..|].
by rewrite H, (IH (λ b, l1 (p :: b)) (λ b, l2 (p :: b))).
Qed.
(** A well-formed node has the edge of a piece as its parameter or among its
  children, as the piece says. *)
Lemma wf_edge n p piece v :
wf n → find_edge p n = Some v → is_param p = true ∨ piece = p →
if is_param p then pathParam n = Some (Edge p v) else pathParam n = None ∧ find_child piece (children n) = Some v.
Proof.
intros [cs pp l _ Hst Hpp _]. unfold find_edge. cbn. destruct (is_param p) eqn:Hp.
- destruct pp as [[nm v']|]; [|done]. by destruct (decide (nm = p)) as [->|]; intros [= ->].
- intros He [? | ->]; [done|]. split; [|done]. destruct pp as [e|]; [|done].
  destruct (Hpp e eq_refl) as [_ ->]. done.
Qed.
(** Below an edge, the listers are those of the directory that it leads to. *)
Lemma parameters_below n p c pattern pieces :
find_edge p n = Some (VDir c) →
parameters (λ before, lister_at (p :: before) n) pattern pieces = parameters (λ q, lister_at q c) pattern pieces.
Proof. intros He. apply parameters_ext. intros q. cbn. by rewrite He. Qed.

Lemma serve_pieces_registered pattern h :
∀ n pieces r s, wf n → registered pattern n = Some h → matches pattern pieces →
serve_pieces n pieces r s =
  admitted (parameters (λ q, lister_at q n) pattern pieces) r (λ r', serveMetadata r' h) s.
Proof.
induction pattern as [|p pattern IH]; intros n pieces r s Hwf Hreg Hm; [done|].
inversion Hm as [|? piece ? pieces' Hpp Hrest]; subst. cbn [registered] in Hreg.
destruct (find_edge p n) as [v|] eqn:He; [|done].
pose proof (wf_edge n p piece v Hwf He Hpp) as Hedge.
assert (Hgo : ∀ (r' : Request) s',
  (if negb (bool_decide (pieces' = [])) then
     match v with VDir u' => serve_pieces u' pieces' r' | _ => RespondNotFound end
   else match v with
        | VDir d => directoryNode_ServeHTTP d r'
        | VHandler h' => serveMetadata r' h'
        | VNil => panic "interface conversion: interface is nil, not pkghttp.MetadataHandler"
        end) s' =
  admitted (parameters (λ before, lister_at (p :: before) n) pattern pieces') r' (λ r', serveMetadata r' h) s').
{ intros r' s'. destruct v as [|h'|c]; [done| |].
  - destruct (decide (pattern = [])) as [->|]; [|done]. injection Hreg as ->. by inversion Hrest.
  - rewrite (parameters_below _ _ _ _ _ He). destruct pieces' as [|x pieces']; [by inversion Hrest; subst|].
    cbn [bool_decide negb]. apply IH; [|done..].
    destruct Hwf as [? ? ? ? ? ? Hsub]. by eapply Hsub. }
cbn [serve_pieces parameters lister_at]. destruct (is_param p); cbn [app].
- rewrite Hedge. cbn [admitted]. destruct (dirLister n) as [lister|]; [|done].
  unfold mbind, st_bind. destruct (lister r s) as [[[[entries r']|e]|msg] s']; try done.
  destruct (bool_decide (piece ∈ entries)); [apply Hgo|done].
- destruct Hedge as [-> ->]. apply Hgo.
Qed.

(** C29: the handler registered under a pattern is the one that serves the
  paths of the pattern's shape.  A request with such a path, and with the
  header when the path is under /computeMetadata/v1, is answered by that
  handler's metadata and by nothing else of the directory: each parameter of
  the pattern is first looked up with the lister of its directory, from left
  to right; the handler gets the request that the last lister returned; a
  piece that its lister does not list is not found, and after a lister's
  error nothing more is done.  A path with no parameter goes to its handler
  directly. *)
Theorem serve_registered n pattern h r s :
wf n → registered pattern n = Some h → matches pattern (splitPathPieces (rq_Path r)) →
(has_prefix "/computeMetadata/v1" (rq_Path r) = true → Header_Get MetadataFlavorHeader r = MetadataFlavorGoogle) →
DirectoryHandler_ServeHTTP n r s =
  admitted (parameters (λ q, lister_at q n) pattern (splitPathPieces (rq_Path r))) r (λ r', serveMetadata r' h) s
∧ (Forall (λ p, is_param p = false) pattern → DirectoryHandler_ServeHTTP n r s = serveMetadata r h s).
Proof.
intros Hwf Hreg Hm Hf.
assert (He : DirectoryHandler_ServeHTTP n r s = serve_pieces n (splitPathPieces (rq_Path r)) r s).
{ unfold DirectoryHandler_ServeHTTP. destruct (has_prefix _ _).
  - rewrite bool_decide_eq_true_2 by by apply Hf. cbn [negb andb].
    case_bool_decide as Hnil; [|done]. rewrite Hnil in Hm. by inversion Hm; subst.
  - cbn [andb]. case_bool_decide as Hnil; [|done]. rewrite Hnil in Hm. by inversion Hm; subst. }
rewrite He, (serve_pieces_registered _ h) by done. split; [done|].
intros Hst. generalize (λ q, lister_at q n). clear -Hst Hm. induction Hm as [|p x ps xs _ _ IH]; intros l; [done|].
inversion Hst as [|? ? Hp Hps]; subst. cbn [parameters]. rewrite Hp. by apply IH.
Qed.

(** *** Recursive listings never reach a token handler *)

(** Replacing what the token handlers of a directory do. *)
Fixpoint map_tokens_value (f : MetadataHandler W → MetadataHandler W) v : value W :=
match v with
| VNil => VNil
| VHandler (TokenHandler h) => VHandler (TokenHandler (f h))
| VHandler h => VHandler h
| VDir n => VDir (map_tokens f n)
end
with map_tokens (f : MetadataHandler W → MetadataHandler W) n : directoryNode W :=
match n with
| Node cs pp l =>
    Node ((fix go (cs : list (directoryEdge W)) :=
             match cs with
             | [] => []
             | Edge nm v :: cs' => Edge nm (map_tokens_value f v) :: go cs'
             end) cs)
      match pp with None => None | Some (Edge nm v) => Some (Edge nm (map_tokens_value f v)) end
      l
end.

(** Induction over the nested tree. *)
Section Tree_ind.
Context (P : value W → Prop) (Q : directoryNode W → Prop).
Context (Hnil : P VNil) (Hhandler : ∀ h, P (VHandler h)) (Hdir : ∀ n, Q n → P (VDir n)).
Context (Hnode : ∀ cs pp l, Forall (λ e, P (edge_value e)) cs →
(∀ e, pp = Some e → P (edge_value e)) → Q (Node cs pp l)).

Fixpoint value_tree_ind v : P v :=
match v with
| VNil => Hnil
| VHandler h => Hhandler h
| VDir n => Hdir n (node_tree_ind n)
end
with node_tree_ind n : Q n :=
match n with
| Node cs pp l =>
  Hnode cs pp l
    ((fix go (cs : list (directoryEdge W)) : Forall (λ e, P (edge_value e)) cs :=
        match cs with
        | [] => @List.Forall_nil _ _
        | Edge nm v :: cs' => @List.Forall_cons _ (λ e, P (edge_value e)) (Edge nm v) cs'
                               (value_tree_ind v) (go cs')
        end) cs)
    (match pp as pp' return ∀ e, pp' = Some e → P (edge_value e) with
     | None => λ e H, match H with eq_refl => I end
     | Some (Edge nm v) => λ e H,
         match H in _ = o return match o with Some e => P (edge_value e) | None => True end with
         | eq_refl => value_tree_ind v
         end
     end)
end.
End Tree_ind.

(** The loops of [buildRecursive], by name. *)
Definition build_children r :=
fix go cs (m : list (string * any)) : HM W (result (list (string * any))) :=
  match cs with
  | [] => ok m
  | Edge nm v :: cs' =>
      md ←? buildValueRecursive r v;
      go cs' match md with Some x => map_set (camelCaseFromKebab nm) x m | None => m end
  end.
Definition build_entries r v :=
fix go (es : list string) (m : list (string * any)) : HM W (result (list (string * any))) :=
  match es with
  | [] => ok m
  | entry :: es' =>
      md ←? buildValueRecursive r v;
      go es' match md with Some x => map_set entry (APtr x) m | None => m end
  end.
Lemma buildRecursive_eq r cs pp l :
buildRecursive r (Node cs pp l) =
  (m ←? build_children r cs [];
   match l with
   | None => ok m
   | Some lister =>
       '(dirEntries, r') ←? lister r;
       match pp with
       | None =>
           if bool_decide (dirEntries = []) then ok m
           else panic "invalid memory address or nil pointer dereference"
       | Some (Edge _ v) => build_entries r' v dirEntries m
       end
   end).
Proof. reflexivity. Qed.

Lemma bindR_ext {S A B} (m m' : ST S (result A)) (k k' : A → ST S (result B)) s :
m s = m' s → (∀ a s', k a s' = k' a s') → bindR m k s = bindR m' k' s.
Proof. intros Hm Hk. st_simpl. rewrite Hm. by repeat case_match. Qed.

(** A recursive listing is independent of the token handlers (access
  and identity tokens): replacing what they do changes neither the result
  nor the effects, so no token is issued or disclosed by it. *)
Theorem recursive_ignores_tokens (f : MetadataHandler W → MetadataHandler W) n :
∀ r s, buildRecursive r (map_tokens f n) s = buildRecursive r n s.
Proof.
revert n. apply (node_tree_ind
  (λ v, ∀ r s, buildValueRecursive r (map_tokens_value f v) s = buildValueRecursive r v s)
  (λ n, ∀ r s, buildRecursive r (map_tokens f n) s = buildRecursive r n s)).
- done.
- by intros [g|h].
- intros n IH r s. cbn. by apply bindR_ext.
- intros cs pp l Hcs Hpp r s. cbn [map_tokens]. rewrite !buildRecursive_eq.
  apply bindR_ext.
  + generalize (@nil (string * any)). revert s.
    induction Hcs as [|[nm v] cs Hv Hcs IH]; intros s m; [done|].
    cbn [build_children]. by apply bindR_ext.
  + intros m s'. destruct l as [lister|]; [|done]. apply bindR_ext; [done|].
    intros [es r'] s''. destruct pp as [[nm v]|]; [|done].
    revert m s''. induction es as [|e es IH]; intros m s''; [done|].
    cbn [build_entries]. apply bindR_ext; [|done]. apply (Hpp _ eq_refl).
Qed.
End Serving.

(** ** Witnesses *)

Lemma name_directory_wf : wf name_directory.
Proof.
  exact (handle_wf (RegMetadata name_handler) ["computeMetadata"; "v1"; "instance"; "name"]
    "" empty_node (Ret tt) name_directory wf_empty eq_refl).
Qed.
Lemma registration_inserts_witness :
  registered ["computeMetadata"; "v1"; "instance"; "name"] name_directory = Some name_handler.
Proof.
  exact (proj1 (registration_inserts "/computeMetadata/v1/instance/name" empty_node)
    name_handler (Ret tt) name_directory eq_refl ["computeMetadata"; "v1"; "instance"; "name"]).
Defined.
Lemma registration_wf_witness : wf name_directory.
Proof.
  exact (proj1 (registration_wf "/computeMetadata/v1/instance/name" empty_node wf_empty)
    name_handler (Ret tt) name_directory eq_refl).
Defined.
Lemma handle_duplicate_panics_witness :
  ∃ msg n', handle "" ["computeMetadata"; "v1"; "instance"; "name"] (RegMetadata name_handler)
    name_directory = (Panic msg, n') ∧
    ∀ path', registered path' n' = registered path' name_directory.
Proof. by apply (handle_duplicate_panics name_handler). Defined.
Lemma flavor_required_witness :
  DirectoryHandler_ServeHTTP name_directory
    (example_request "/computeMetadata/v1/instance/name") (tt, fresh_writer) =
  (Ret tt, (tt, {| rw_header := ∅; rw_sent := Some (403, ∅);
                   rw_body := [CText flavor_missing_msg]; rw_observed := [] |})).
Proof. by apply (flavor_required name_directory). Defined.
Lemma flavor_check_bypass_witness :
  DirectoryHandler_ServeHTTP name_directory (example_request "/computeMetadata//v1/instance/name") =
  serve_pieces name_directory ["computeMetadata"; "v1"; "instance"; "name"]
    (example_request "/computeMetadata//v1/instance/name").
Proof.
  exact (proj2 (proj2 (flavor_check_bypass name_directory
    (example_request "/computeMetadata//v1/instance/name") "/instance/name" eq_refl))).
Defined.
(** A directory with a parameter: the lister knows one account, and puts its
    name into the request for the handler. *)
Definition listed (r : Request) : Request :=
  {| rq_Method := "listed"; rq_Path := rq_Path r; rq_Query := rq_Query r; rq_Header := rq_Header r;
     rq_RemoteAddr := rq_RemoteAddr r; ctx_localAddr := ctx_localAddr r; ctx_saRef := ctx_saRef r;
     ctx_googleEmail := ctx_googleEmail r; ctx_observability := ctx_observability r |}.
Definition accounts_lister : DirectoryLister unit := λ r, ok (["default"], listed r).
Definition method_handler : MetadataHandler unit := MetadataHandlerFunc (λ r, ok (AString (rq_Method r))).
Definition accounts_directory : directoryNode unit :=
  (handle "" ["accounts"; "$account"] (RegDirectory accounts_lister)
    (handle "" ["accounts"; "$account"; "email"] (RegMetadata method_handler) empty_node).2).2.
Lemma accounts_directory_wf : wf accounts_directory.
Proof.
  refine (handle_wf (RegDirectory accounts_lister) ["accounts"; "$account"] "" _ _ accounts_directory _
    (surjective_pairing _)).
  refine (handle_wf (RegMetadata method_handler) ["accounts"; "$account"; "email"] "" _ _ _ wf_empty
    (surjective_pairing _)).
Qed.
Lemma serve_registered_witness :
  DirectoryHandler_ServeHTTP accounts_directory (example_request "/accounts/default/email") (tt, fresh_writer) =
  serveMetadata (listed (example_request "/accounts/default/email")) method_handler
    (tt, fresh_writer) ∧
  DirectoryHandler_ServeHTTP accounts_directory (example_request "/accounts/other/email") (tt, fresh_writer) =
  RespondNotFound (tt, fresh_writer).
Proof.
  split; (etransitivity;
    [refine (proj1 (serve_registered accounts_directory ["accounts"; "$account"; "email"] method_handler _ _
       accounts_directory_wf eq_refl _ _)); [|done]|reflexivity]).
  all: repeat (apply List.Forall2_cons; [by (right; reflexivity) || (left; reflexivity)|]).
  all: apply List.Forall2_nil.
Defined.
