(* ===== verification/Tokens.v ===== *)
(** * internal/serviceaccounttokens: the provider interface, the issuing
    provider and the lifetime of a cached token

    [AccessTokens] and [Provider] are provider.go's interface; [CreateProvider]
    is create/provider.go (the Kubernetes token API, the Google token exchange
    and the ID token source are arguments); the rest is cache/tokens.go: how
    long a token issued by the source is kept in the cache. *)

From S2P Require Import Prelude GoStrings GoTime Credentials Api ServiceAccounts.
Open Scope string_scope.
Open Scope Z_scope.

(** ** provider.go *)

Record AccessTokens : Type := { DirectAccess : string; Impersonated : string }.
#[export] Instance AccessTokens_eq_dec : EqDecision AccessTokens.
Proof. solve_decision. Defined.

Record Provider (W : Type) : Type := {
  GetServiceAccountToken : Reference → ST W (result (string * Time));
  GetGoogleAccessTokens :
    string → option string → list string → ST W (result (AccessTokens * Time));
  GetGoogleIdentityToken :
    Reference → string → string → string → ST W (result (string * Time));
}.
Arguments GetServiceAccountToken {W} _ _.
Arguments GetGoogleAccessTokens {W} _ _ _ _.
Arguments GetGoogleIdentityToken {W} _ _ _ _ _.

(** What a caller relies on, for given readings of what a token is for: a
    service account token stands for the account asked for, access tokens for
    the token, email and scopes they were asked with, an identity token for
    the account, access token, email and audience. *)
Class Issues {W} (sa_token : Reference → string → Prop)
    (access : string → option string → list string → AccessTokens → Prop)
    (identity : Reference → string → string → string → string → Prop) (P : Provider W) : Prop := {
  issues_sa ref w t e w' : GetServiceAccountToken P ref w = (Ret (Ok (t, e)), w') → sa_token ref t;
  issues_access t email scopes w toks e w' :
    GetGoogleAccessTokens P t email scopes w = (Ret (Ok (toks, e)), w') → access t email scopes toks;
  issues_identity ref a email aud w t e w' :
    GetGoogleIdentityToken P ref a email aud w = (Ret (Ok (t, e)), w') → identity ref a email aud t;
}.

(** ** create/provider.go *)

Module CreateProvider.
(** impersonate.IDTokenConfig, as far as it is set. *)
Record IDTokenConfig : Type :=
{ idc_Audience : string; idc_TargetPrincipal : string; idc_IncludeEmail : bool }.

Section CreateProvider.
(** The clock; the token subresource of the Kubernetes API (namespace,
name, audiences); the token exchange; the ID token source made from an
access token, and its Token call. *)
Context {W Src : Type}.
Context (Now : ST W Time).
Context (kube_CreateToken : string → string → list string → ST W (result (string * Time))).
Context (exchange : ExternalAccountConfig → ST W (result Token)).
Context (IDTokenSource : IDTokenConfig → string → ST W (result Src)).
Context (src_Token : Src → ST W (result Token)).
Context (GoogleCredentialsConfig : Config).

Definition create_GetServiceAccountToken (ref : Reference) : ST W (result (string * Time)) :=
' (tok, exp) ←? kube_CreateToken (Namespace ref) (Name ref)
                [WorkloadIdentityProviderAudience GoogleCredentialsConfig];
ok (tok, exp).

Definition create_GetGoogleAccessTokens (saToken : string) (googleEmail : option string)
(scopes : list string) : ST W (result (AccessTokens * Time)) :=
now ← Now;
let expiration := Add now (365 * 24 * Hour) in
let skip_direct := bool_decide (is_Some googleEmail) && negb (Nat.eqb (length scopes) 0) in
' (directAccess, expiration) ←?
(if negb skip_direct then
   token ←? NewToken exchange GoogleCredentialsConfig saToken None scopes;
   ok (AccessToken token, Expiry token)
 else ok ("", expiration));
' (impersonated, expiration) ←?
(match googleEmail with
 | Some _ =>
     token ←? NewToken exchange GoogleCredentialsConfig saToken googleEmail scopes;
     ok (AccessToken token,
         if Before (Expiry token) expiration then Expiry token else expiration)
 | None => ok ("", expiration)
 end);
ok ({| DirectAccess := directAccess; Impersonated := impersonated |}, expiration).

Definition create_GetGoogleIdentityToken (ref : Reference)
(accessToken googleEmail audience : string) : ST W (result (string * Time)) :=
let conf := {| idc_Audience := audience; idc_TargetPrincipal := googleEmail;
             idc_IncludeEmail := true |} in
idTokenSource ←? IDTokenSource conf accessToken;
idToken ←? src_Token idTokenSource;
ok (AccessToken idToken, Expiry idToken).

Definition provider : Provider W :=
{| GetServiceAccountToken := create_GetServiceAccountToken;
 GetGoogleAccessTokens := create_GetGoogleAccessTokens;
 GetGoogleIdentityToken := create_GetGoogleIdentityToken |}.
End CreateProvider.
End CreateProvider.

(** ** cache/tokens.go *)

Record tokenAndExpiration (T : Type) : Type := {
  token : T;
  monotonicExpiration : Time;
  wallClockExpiration : Time;
}.
Arguments token {T} _.
Arguments monotonicExpiration {T} _.
Arguments wallClockExpiration {T} _.
#[export] Instance tokenAndExpiration_eq_dec `{EqDecision T} : EqDecision (tokenAndExpiration T).
Proof. solve_decision. Defined.

Record tokens : Type := {
  serviceAccountToken : tokenAndExpiration string;
  googleAccessTokens : tokenAndExpiration AccessTokens;
}.
#[export] Instance tokens_eq_dec : EqDecision tokens.
Proof. solve_decision. Defined.

(** How long newToken keeps a token that is valid for another [duration]. *)
Definition effectiveDuration (duration maxTokenDuration : Z) : Z :=
  let effective := Z.quot (wrap64 (duration * 8)) 10 in
  let maxDuration := if Hour <? maxTokenDuration then Hour else maxTokenDuration in
  if (0 <? maxDuration) && (maxDuration <? effective) then maxDuration else effective.

(** [now] is the reading of time.Now(). *)
Definition newToken {T} (now : Time) (tok : T) (monotonicExp : Time) (maxTokenDuration : Z)
    : tokenAndExpiration T :=
  let duration := Sub monotonicExp now in
  let effectiveExpiration := Add now (effectiveDuration duration maxTokenDuration) in
  {| token := tok;
     monotonicExpiration := effectiveExpiration;
     wallClockExpiration := FromUnix (Unix effectiveExpiration) |}.

Definition expiration {T} (now : Time) (t : tokenAndExpiration T) : Time :=
  if Until now (monotonicExpiration t) <? Until now (wallClockExpiration t)
  then monotonicExpiration t else wallClockExpiration t.
Definition timeUntilExpiration {T} (now : Time) (t : tokenAndExpiration T) : Z :=
  Until now (expiration now t).
Definition isExpired {T} (now : Time) (t : tokenAndExpiration T) : bool :=
  timeUntilExpiration now t <=? 0.
Definition tokens_timeUntilExpiration (now : Time) (t : tokens) : Z :=
  let d := timeUntilExpiration now (serviceAccountToken t) in
  let google := timeUntilExpiration now (googleAccessTokens t) in
  if google <? d then google else d.

(** ** Lemmas *)

Lemma effectiveDuration_spec d maxd :
  0 ≤ d < 2 ^ 60 →
  effectiveDuration d maxd =
    if 0 <? maxd then Z.min (8 * d / 10) (Z.min maxd Hour) else 8 * d / 10.
Proof.
  intros Hd. change (2 ^ 60) with 1152921504606846976 in Hd.
  unfold effectiveDuration. rewrite wrap64_id.
  2: { unfold in_int64. change (2 ^ 63) with 9223372036854775808. lia. }
  rewrite Z.quot_div_nonneg by lia. replace (d * 8) with (8 * d) by lia.
  unfold Hour, Minute, Second. destruct (Z.ltb_spec (60 * (60 * 1000000000)) maxd);
    repeat (match goal with |- context [Z.ltb ?a ?b] => destruct (Z.ltb_spec a b) end; cbn [andb]); lia.
Qed.

Lemma effectiveDuration_neg d maxd :
  - 2 ^ 60 < d < 0 → - 2 ^ 60 < effectiveDuration d maxd ≤ 0.
Proof.
  intros Hd. change (2 ^ 60) with 1152921504606846976 in *.
  unfold effectiveDuration. rewrite wrap64_id.
  2: { unfold in_int64. change (2 ^ 63) with 9223372036854775808. lia. }
  assert (-1152921504606846976 < Z.quot (d * 8) 10 ≤ 0).
  { replace (d * 8) with (- (- d * 8)) by lia. rewrite Z.quot_opp_l by lia.
    rewrite Z.quot_div_nonneg by lia.
    pose proof (Z.mul_div_le (- d * 8) 10). pose proof (Z.div_pos (- d * 8) 10). lia. }
  destruct (Z.ltb_spec 0 (if Hour <? maxd then Hour else maxd)); cbn [andb]; [|lia].
  destruct (Z.ltb_spec (if Hour <? maxd then Hour else maxd) (Z.quot (d * 8) 10)); lia.
Qed.

(** The smaller of the two remaining times decides. *)
Lemma timeUntilExpiration_min {T} now (t : tokenAndExpiration T) :
  timeUntilExpiration now t =
    Z.min (Until now (monotonicExpiration t)) (Until now (wallClockExpiration t)).
Proof.
  unfold timeUntilExpiration, expiration.
  destruct (Z.ltb_spec (Until now (monotonicExpiration t)) (Until now (wallClockExpiration t))); lia.
Qed.

Lemma isExpired_newToken {T} W M E maxd (tok : T) W' M' :
  isExpired (clock W' M') (newToken (clock W M) tok {| t_wall := E; t_mono := None |} maxd) = true ↔
  M + effectiveDuration (saturate (E - W)) maxd ≤ M' ∨
  (W + effectiveDuration (saturate (E - W)) maxd) / Second * Second ≤ W'.
Proof.
  unfold isExpired. rewrite Z.leb_le, timeUntilExpiration_min.
  unfold newToken, clock, Until, Sub, Add, Unix, FromUnix. cbn.
  set (eff := effectiveDuration _ _).
  pose proof (saturate_le0 (M + eff - M')). pose proof (saturate_le0 ((W + eff) / Second * Second - W')).
  lia.
Qed.

Lemma tokens_timeUntilExpiration_min now (t : tokens) :
  tokens_timeUntilExpiration now t =
    Z.min (timeUntilExpiration now (serviceAccountToken t))
          (timeUntilExpiration now (googleAccessTokens t)).
Proof. unfold tokens_timeUntilExpiration. destruct (Z.ltb_spec (timeUntilExpiration now (googleAccessTokens t)) (timeUntilExpiration now (serviceAccountToken t))); lia. Qed.

(** ** Theorems *)

(** C14: a token that is valid for another [d] nanoseconds of wall clock time
    (0 <= d < 2^60) is kept for 80% of it, capped by the configured maximum
    and by one hour; it counts as expired exactly when the monotonic clock has
    advanced that long or the wall clock has reached that instant, cut to the
    second.  So no token is served from the cache at or after its own expiry,
    whatever the monotonic clock says. *)
Theorem newToken_lifetime {T} (W M E maxd : Z) (tok : T) :
  0 ≤ E - W < 2 ^ 60 →
  let t := newToken (clock W M) tok {| t_wall := E; t_mono := None |} maxd in
  let kept := if 0 <? maxd then Z.min (8 * (E - W) / 10) (Z.min maxd Hour)
              else 8 * (E - W) / 10 in
  (∀ W' M', isExpired (clock W' M') t = true ↔
     M + kept ≤ M' ∨ (W + kept) / Second * Second ≤ W') ∧
  (∀ W' M', E ≤ W' → isExpired (clock W' M') t = true).
Proof.
  intros Hd t kept.
  assert (Hk : effectiveDuration (saturate (E - W)) maxd = kept).
  { rewrite saturate_id, effectiveDuration_spec by (unfold in_int64; lia). done. }
  assert (Hiff : ∀ W' M', isExpired (clock W' M') t = true ↔
    M + kept ≤ M' ∨ (W + kept) / Second * Second ≤ W').
  { intros W' M'. unfold t. rewrite isExpired_newToken, Hk. done. }
  split; [done|]. intros W' M' HW. apply Hiff. right.
  assert (8 * (E - W) / 10 ≤ E - W) by (apply Z.div_le_upper_bound; lia).
  assert (kept ≤ E - W). { unfold kept. destruct (Z.ltb_spec 0 maxd); lia. }
  pose proof (Z.mul_div_le (W + kept) Second). unfold Second in *. lia.
Qed.
Lemma newToken_lifetime_witness :
  isExpired (clock (3700 * Second) 0)
    (newToken (clock 0 0) "t" {| t_wall := 3600 * Second; t_mono := None |} (10 * Minute)) = true ∧
  isExpired (clock (599 * Second) (599 * Second))
    (newToken (clock 0 0) "t" {| t_wall := 3600 * Second; t_mono := None |} (10 * Minute)) = false.
Proof.
  split; [|by vm_compute].
  apply (proj2 (newToken_lifetime 0 0 (3600 * Second) (10 * Minute) "t" ltac:(split; by vm_compute))).
  by vm_compute.
Defined.

(** The multiplication by eight overflows: a token valid for between 2^60
    and 2^61 nanoseconds (about 36.5 to 73 years) is expired as soon as it is
    cached. *)
Theorem newToken_overflow {T} (W M E maxd : Z) (tok : T) :
  2 ^ 60 ≤ E - W < 2 ^ 61 →
  isExpired (clock W M) (newToken (clock W M) tok {| t_wall := E; t_mono := None |} maxd) = true.
Proof.
  intros Hd. apply isExpired_newToken. left.
  change (2 ^ 60) with 1152921504606846976 in Hd. change (2 ^ 61) with 2305843009213693952 in Hd.
  rewrite saturate_id.
  2: { unfold in_int64. change (2 ^ 63) with 9223372036854775808. lia. }
  assert (Hw : wrap64 ((E - W) * 8) = (E - W) * 8 - 18446744073709551616).
  { unfold wrap64. change (2 ^ 63) with 9223372036854775808. change (2 ^ 64) with 18446744073709551616.
    rewrite <- (Z.mod_unique ((E - W) * 8 + 9223372036854775808) 18446744073709551616 1
      ((E - W) * 8 + 9223372036854775808 - 18446744073709551616)); lia. }
  unfold effectiveDuration. rewrite Hw.
  assert (Z.quot ((E - W) * 8 - 18446744073709551616) 10 ≤ 0).
  { replace ((E - W) * 8 - 18446744073709551616) with (- (18446744073709551616 - (E - W) * 8)) by lia.
    rewrite Z.quot_opp_l by lia. rewrite Z.quot_div_nonneg by lia.
    pose proof (Z.div_pos (18446744073709551616 - (E - W) * 8) 10). lia. }
  destruct (Z.ltb_spec 0 (if Hour <? maxd then Hour else maxd)); cbn [andb]; [|lia].
  destruct (Z.ltb_spec (if Hour <? maxd then Hour else maxd)
    (Z.quot ((E - W) * 8 - 18446744073709551616) 10)); lia.
Qed.
Lemma newToken_overflow_witness :
  isExpired (clock 5 7) (newToken (clock 5 7) "t" {| t_wall := 5 + 2 ^ 60; t_mono := None |} 0) = true.
Proof. apply (newToken_overflow 5 7 (5 + 2 ^ 60) 0 "t"). by vm_compute. Defined.

Section Create_theorems.
Context {W Src : Type} (Now : ST W Time).
Context (kube_CreateToken : string → string → list string → ST W (result (string * Time))).
Context (exchange : ExternalAccountConfig → ST W (result Token)).
Context (IDTokenSource : CreateProvider.IDTokenConfig → string → ST W (result Src)).
Context (src_Token : Src → ST W (result Token)).

(** The access tokens the issuing provider returns are the ones it
  exchanged the service account token for: without an email one direct
  token; with an email and custom scopes one impersonated token only; with
  an email and the default scopes both, the direct one first.  The
  returned expiry is the earliest of the issued ones (and, for the
  impersonated token alone, at most 365 days away). *)
Theorem create_access_tokens (c : Config) (saToken : string) (googleEmail : option string)
  (scopes : list string) (w w' : W) (toks : AccessTokens) (exp : Time) :
CreateProvider.create_GetGoogleAccessTokens Now exchange c saToken googleEmail scopes w
  = (Ret (Ok (toks, exp)), w') →
match googleEmail with
| None => ∃ w1 t, exchange (external_config c saToken None scopes) w1 = (Ret (Ok t), w') ∧
    toks = {| DirectAccess := AccessToken t; Impersonated := "" |} ∧ exp = Expiry t
| Some email =>
    let via := external_config c saToken (Some email) scopes in
    (scopes ≠ [] → ∃ w1 t now, exchange via w1 = (Ret (Ok t), w') ∧
       toks = {| DirectAccess := ""; Impersonated := AccessToken t |} ∧
       exp = if Before (Expiry t) (Add now (365 * 24 * Hour)) then Expiry t
             else Add now (365 * 24 * Hour)) ∧
    (scopes = [] → ∃ w1 w2 d t,
       exchange (external_config c saToken None []) w1 = (Ret (Ok d), w2) ∧
       exchange via w2 = (Ret (Ok t), w') ∧
       toks = {| DirectAccess := AccessToken d; Impersonated := AccessToken t |} ∧
       exp = if Before (Expiry t) (Expiry d) then Expiry t else Expiry d)
end.
Proof.
unfold CreateProvider.create_GetGoogleAccessTokens, NewToken. st_simpl.
destruct (Now w) as [[now|m] w0]; [|done].
destruct googleEmail as [email|]; [destruct scopes as [|sc scopes]|]; cbn.
- destruct (exchange _ w0) as [[[d|e]|m] w1] eqn:H1; cbn; [|done..].
  destruct (exchange _ w1) as [[[t|e]|m] w2] eqn:H2; cbn; [|done..].
  intros [= <- <- <-]. split; [done|]. intros _. eauto 10.
- destruct (exchange _ w0) as [[[t|e]|m] w1] eqn:H1; cbn; [|done..].
  intros [= <- <- <-]. split; [|done]. intros _. eauto 10.
- destruct (exchange _ w0) as [[[t|e]|m] w1] eqn:H1; cbn; [|done..].
  intros [= <- <- <-]. eauto 10.
Qed.

(** What the tokens of the issuing provider stand for: what the Kubernetes API
  and the token exchange returned for the request the provider made. *)
Definition kube_issued (c : Config) (ref : Reference) (t : string) : Prop :=
∃ w e w', kube_CreateToken (Namespace ref) (Name ref) [WorkloadIdentityProviderAudience c] w
            = (Ret (Ok (t, e)), w').
Definition exchanged (conf : ExternalAccountConfig) (tok : string) : Prop :=
∃ w t w', exchange conf w = (Ret (Ok t), w') ∧ AccessToken t = tok.
Definition exchanged_access (c : Config) (saToken : string) (email : option string)
  (scopes : list string) (toks : AccessTokens) : Prop :=
(DirectAccess toks = "" ∨ exchanged (external_config c saToken None scopes) (DirectAccess toks)) ∧
(email ≠ None → scopes ≠ [] → DirectAccess toks = "") ∧
match email with
| None => Impersonated toks = ""
| Some e => exchanged (external_config c saToken (Some e) scopes) (Impersonated toks)
end.
Definition id_issued (ref : Reference) (accessToken email audience tok : string) : Prop :=
∃ w w1 w2 src t,
  IDTokenSource {| CreateProvider.idc_Audience := audience;
                   CreateProvider.idc_TargetPrincipal := email;
                   CreateProvider.idc_IncludeEmail := true |} accessToken w = (Ret (Ok src), w1) ∧
  src_Token src w1 = (Ret (Ok t), w2) ∧ AccessToken t = tok.

#[export] Instance create_issues (c : Config) :
  Issues (kube_issued c) (exchanged_access c) id_issued
    (CreateProvider.provider Now kube_CreateToken exchange IDTokenSource src_Token c).
Proof.
split; cbn.
- intros ref w t e w'. unfold CreateProvider.create_GetServiceAccountToken. st_simpl.
  destruct (kube_CreateToken _ _ _ w) as [[[[t1 e1]|]|] w1] eqn:E; try done.
  intros [= -> -> ->]. by exists w, e, w'.
- intros t email scopes w toks e w'.
  unfold CreateProvider.create_GetGoogleAccessTokens, NewToken, exchanged_access, exchanged. st_simpl.
  destruct (Now w) as [[now|m] w0]; [|done].
  destruct email as [email|]; [destruct scopes as [|sc scopes]|]; cbn.
  + destruct (exchange _ w0) as [[[d|]|] w1] eqn:H1; cbn; [|done..].
    destruct (exchange _ w1) as [[[t1|]|] w2] eqn:H2; cbn; [|done..].
    intros [= <- <- <-]. cbn. split; [right|split]; eauto 10; done.
  + destruct (exchange _ w0) as [[[t1|]|] w1] eqn:H1; cbn; [|done..].
    intros [= <- <- <-]. cbn. split; [by left|split]; eauto 10; done.
  + destruct (exchange _ w0) as [[[t1|]|] w1] eqn:H1; cbn; [|done..].
    intros [= <- <- <-]. cbn. split; [right|done]; eauto 10.
- intros ref a email aud w t e w'. unfold CreateProvider.create_GetGoogleIdentityToken. st_simpl.
  destruct (IDTokenSource _ _ w) as [[[src|]|] w1] eqn:H1; cbn; [|done..].
  destruct (src_Token src w1) as [[[tk|]|] w2] eqn:H2; cbn; [|done..].
  intros [= <- <- <-]. by exists w, w1, w2, src, tk.
Qed.
End Create_theorems.

Module CreateExample.
(** An exchange that issues one-hour tokens and counts them. *)
Definition exchange (c : ExternalAccountConfig) : ST Z (result Token) :=
λ n, (Ret (Ok {| AccessToken := "tok" +:+ pretty n; Expiry := FromUnix (3600 + n) |}), n + 1).
Definition config : Config := {| WorkloadIdentityProvider := "p" |}.
Definition Now : ST Z Time := mret (clock 0 0).
Definition both : AccessTokens := {| DirectAccess := "tok0"; Impersonated := "tok1" |}.
End CreateExample.

Lemma create_access_tokens_witness :
  ∃ w1 w2 d t, CreateExample.exchange (external_config CreateExample.config "sa" None []) w1 = (Ret (Ok d), w2) ∧
    CreateExample.exchange (external_config CreateExample.config "sa" (Some "e") []) w2 = (Ret (Ok t), 2) ∧
    CreateExample.both = {| DirectAccess := AccessToken d; Impersonated := AccessToken t |} ∧
    FromUnix 3600 = (if Before (Expiry t) (Expiry d) then Expiry t else Expiry d).
Proof.
  apply (proj2 (create_access_tokens CreateExample.Now CreateExample.exchange CreateExample.config
    "sa" (Some "e") [] 0 2 CreateExample.both (FromUnix 3600) ltac:(vm_compute; reflexivity)) eq_refl).
Defined.
