(* ===== verification/TokenCache.v ===== *)
(** * internal/serviceaccounttokens/cache: the token cache as a step machine

    One goroutine per cached service account (cacheTokens) keeps its tokens
    fresh; request goroutines read the cache, or hand the account's goroutine
    a channel and wait; two more maps cache identity tokens and tokens with
    custom scopes.  The shared objects (the maps, the serviceAccount structs
    behind their pointers, the channels, the semaphore) are explicit in
    [State]; every goroutine has a program counter, and [step] runs one
    goroutine up to its next synchronisation, so the interleavings are the
    sequences of labels.  Each mutex section is one step, and so is each
    receive of sendResponse's loop ([Drain]), which other goroutines may fill
    again meanwhile.  The parent's
    context, the informers' events, the requests and the passing of time are
    labels of the environment.  The clock is read once per step. *)

From S2P Require Import Prelude GoStrings GoTime Credentials Api ServiceAccounts Tokens.
Open Scope string_scope.
Open Scope Z_scope.

(** ** Data *)

(** tokensAndError: a nil pointer is [None]. *)
Record tokensAndError : Type := { re_tokens : option tokens; re_err : option error }.
Record googleIDTokenReference : Type :=
  { id_serviceAccountRefernce : Reference; id_email : string; id_audience : string }.
Record googleScopedAccessTokenReference : Type :=
  { sc_serviceAccountRefernce : Reference; sc_email : string; sc_scopes : string }.

#[export] Instance tokensAndError_eq_dec : EqDecision tokensAndError.
Proof. solve_decision. Defined.
#[export] Instance idref_eq_dec : EqDecision googleIDTokenReference.
Proof. solve_decision. Defined.
#[export] Instance idref_countable : Countable googleIDTokenReference.
Proof.
  refine (inj_countable'
    (λ r, (id_serviceAccountRefernce r, id_email r, id_audience r))
    (λ p, {| id_serviceAccountRefernce := p.1.1; id_email := p.1.2; id_audience := p.2 |}) _).
  by intros [].
Defined.
#[export] Instance scref_eq_dec : EqDecision googleScopedAccessTokenReference.
Proof. solve_decision. Defined.
#[export] Instance scref_countable : Countable googleScopedAccessTokenReference.
Proof.
  refine (inj_countable'
    (λ r, (sc_serviceAccountRefernce r, sc_email r, sc_scopes r))
    (λ p, {| sc_serviceAccountRefernce := p.1.1; sc_email := p.1.2; sc_scopes := p.2 |}) _).
  by intros [].
Defined.

(** The struct behind a pointer of the map; the channel holds at most one
    request, the nil one ([None]) being a wake-up. *)
Record serviceAccount : Type := {
  sa_Reference : Reference;
  podCount : Z;
  deleted : bool;
  sa_tokens : option tokens;
  externalRequests : list (option nat);
}.

(** Where a cacheTokens goroutine is, with the local variables it still needs. *)
Inductive gpc : Type :=
| GCheck
| GAcquire
| GCreate
| GRelease (r : result tokens)
| GCheckAgain (r : result tokens)
| GHandle (r : result tokens)
| GStore (t : option tokens) (sleepDuration : Z)
| GSleep (deadline : Z)
| GReturn (retErr : error)
| GDone.
Record goroutine : Type := {
  g_pc : gpc;
  g_requests : list (option nat);
  g_retries : Z;
}.

(** The calls of the provider's interface, and their results. *)
Inductive call : Type :=
| CallServiceAccountToken (ref : Reference)
| CallGoogleAccessTokens (saToken : string) (googleEmail : option string) (scopes : list string)
| CallGoogleIdentityToken (saRef : Reference) (accessToken googleEmail audience : string).
Inductive response : Type :=
| RToken (tok : string) (exp : Time)
| RAccess (toks : AccessTokens) (exp : Time).

(** A key of one of the two caches of tokens that depend on the input. *)
Inductive cacheKey : Type :=
| KID (ref : googleIDTokenReference)
| KScoped (ref : googleScopedAccessTokenReference).

(** Where a request goroutine is. *)
Inductive cpc : Type :=
| CGet (ref : Reference)
| CRead (g : nat)
| CDispatch (g : nat)
| CWait (g : nat)
| CLookup (k : cacheKey)
| CAcquire (k : cacheKey)
| CCall (k : cacheKey)
| CRelease (k : cacheKey) (r : result (string * Time))
| CInsert (k : cacheKey) (tok : string) (exp : Time)
| CDone (o : outcome (result response)).
(** [c_reply] is the buffer of the request's own channel. *)
Record client : Type := {
  c_call : call;
  c_pc : cpc;
  c_ctxErr : option error;
  c_reply : option tokensAndError;
}.

(** Which case of a select is taken. *)
Inductive branch : Type := BGo | BTimer | BRecv | BReqDone | BCtxDone.
#[export] Instance branch_eq_dec : EqDecision branch.
Proof. solve_decision. Defined.

Definition errServiceAccountDeleted : error :=
  ESentinel ErrServiceAccountDeleted "service account was deleted".
Definition canceled : error := EMsg "context canceled".
Definition nil_deref : string := "invalid memory address or nil pointer dereference".

Inductive label (W : Type) : Type :=
| Env (w : W)
| Close
| AddPod (ref : Reference)
| DeletePod (ref : Reference)
| UpdateSA (ref : Reference)
| DeleteSA (ref : Reference)
| Call (c : nat) (r : call)
| CancelRequest (c : nat) (e : error)
| RunGoroutine (g : nat) (b : branch)
| RunClient (c : nat) (b : branch)
| CollectIDTokens
| CollectScopedTokens
| Drain (g : nat).
Arguments Env {W} w.
Arguments Close {W}.
Arguments AddPod {W} ref.
Arguments DeletePod {W} ref.
Arguments UpdateSA {W} ref.
Arguments DeleteSA {W} ref.
Arguments Call {W} c r.
Arguments CancelRequest {W} c e.
Arguments RunGoroutine {W} g b.
Arguments RunClient {W} c b.
Arguments CollectIDTokens {W}.
Arguments CollectScopedTokens {W}.
Arguments Drain {W} g.

(** The provider's fields, the goroutines and the external world.  [fault] is
    set when a background goroutine panics, which ends the process. *)
Record State (W : Type) : Type := mkState {
  world : W;
  serviceAccounts : gmap Reference nat;
  heap : gmap nat serviceAccount;
  goroutines : gmap nat goroutine;
  next : nat;
  numTokens : Z;
  cacheMisses : Z;
  googleIDTokens : gmap googleIDTokenReference (tokenAndExpiration string);
  googleScopedAccessTokens : gmap googleScopedAccessTokenReference (tokenAndExpiration string);
  semaphore : nat;
  ctxDone : bool;
  clients : gmap nat client;
  fault : option string;
}.
Arguments mkState {W}.
Arguments world {W} s : rename.
Arguments serviceAccounts {W} s : rename.
Arguments heap {W} s : rename.
Arguments goroutines {W} s : rename.
Arguments next {W} s : rename.
Arguments numTokens {W} s : rename.
Arguments cacheMisses {W} s : rename.
Arguments googleIDTokens {W} s : rename.
Arguments googleScopedAccessTokens {W} s : rename.
Arguments semaphore {W} s : rename.
Arguments ctxDone {W} s : rename.
Arguments clients {W} s : rename.
Arguments fault {W} s : rename.

(** Assignments. *)
Section Setters.
Context {W : Type}.
Implicit Type s : State W.
Definition set_world (v : W) s : State W :=
mkState v (serviceAccounts s) (heap s) (goroutines s) (next s) (numTokens s)
  (cacheMisses s) (googleIDTokens s) (googleScopedAccessTokens s) (semaphore s) (ctxDone s)
  (clients s) (fault s).
Definition set_serviceAccounts (v : gmap Reference nat) s : State W :=
mkState (world s) v (heap s) (goroutines s) (next s) (numTokens s) (cacheMisses s)
  (googleIDTokens s) (googleScopedAccessTokens s) (semaphore s) (ctxDone s) (clients s)
  (fault s).
Definition set_heap (v : gmap nat serviceAccount) s : State W :=
mkState (world s) (serviceAccounts s) v (goroutines s) (next s) (numTokens s)
  (cacheMisses s) (googleIDTokens s) (googleScopedAccessTokens s) (semaphore s) (ctxDone s)
  (clients s) (fault s).
Definition set_goroutines (v : gmap nat goroutine) s : State W :=
mkState (world s) (serviceAccounts s) (heap s) v (next s) (numTokens s) (cacheMisses s)
  (googleIDTokens s) (googleScopedAccessTokens s) (semaphore s) (ctxDone s) (clients s)
  (fault s).
Definition set_next (v : nat) s : State W :=
mkState (world s) (serviceAccounts s) (heap s) (goroutines s) v (numTokens s)
  (cacheMisses s) (googleIDTokens s) (googleScopedAccessTokens s) (semaphore s) (ctxDone s)
  (clients s) (fault s).
Definition set_numTokens (v : Z) s : State W :=
mkState (world s) (serviceAccounts s) (heap s) (goroutines s) (next s) v (cacheMisses s)
  (googleIDTokens s) (googleScopedAccessTokens s) (semaphore s) (ctxDone s) (clients s)
  (fault s).
Definition set_cacheMisses (v : Z) s : State W :=
mkState (world s) (serviceAccounts s) (heap s) (goroutines s) (next s) (numTokens s) v
  (googleIDTokens s) (googleScopedAccessTokens s) (semaphore s) (ctxDone s) (clients s)
  (fault s).
Definition set_googleIDTokens (v : gmap googleIDTokenReference (tokenAndExpiration string)) s : State W :=
mkState (world s) (serviceAccounts s) (heap s) (goroutines s) (next s) (numTokens s)
  (cacheMisses s) v (googleScopedAccessTokens s) (semaphore s) (ctxDone s) (clients s)
  (fault s).
Definition set_googleScopedAccessTokens (v : gmap googleScopedAccessTokenReference (tokenAndExpiration string)) s : State W :=
mkState (world s) (serviceAccounts s) (heap s) (goroutines s) (next s) (numTokens s)
  (cacheMisses s) (googleIDTokens s) v (semaphore s) (ctxDone s) (clients s) (fault s).
Definition set_semaphore (v : nat) s : State W :=
mkState (world s) (serviceAccounts s) (heap s) (goroutines s) (next s) (numTokens s)
  (cacheMisses s) (googleIDTokens s) (googleScopedAccessTokens s) v (ctxDone s) (clients s)
  (fault s).
Definition set_ctxDone (v : bool) s : State W :=
mkState (world s) (serviceAccounts s) (heap s) (goroutines s) (next s) (numTokens s)
  (cacheMisses s) (googleIDTokens s) (googleScopedAccessTokens s) (semaphore s) v
  (clients s) (fault s).
Definition set_clients (v : gmap nat client) s : State W :=
mkState (world s) (serviceAccounts s) (heap s) (goroutines s) (next s) (numTokens s)
  (cacheMisses s) (googleIDTokens s) (googleScopedAccessTokens s) (semaphore s) (ctxDone s)
  v (fault s).
Definition set_fault (v : option string) s : State W :=
mkState (world s) (serviceAccounts s) (heap s) (goroutines s) (next s) (numTokens s)
  (cacheMisses s) (googleIDTokens s) (googleScopedAccessTokens s) (semaphore s) (ctxDone s)
  (clients s) v.
Definition upd_sa (g : nat) (f : serviceAccount → serviceAccount) s : State W :=
set_heap (alter f g (heap s)) s.
Definition upd_go (g : nat) (f : goroutine → goroutine) s : State W :=
set_goroutines (alter f g (goroutines s)) s.
Definition upd_cl (c : nat) (f : client → client) s : State W :=
set_clients (alter f c (clients s)) s.
End Setters.

(** Updates of one field of a struct. *)
Definition set_podCount (v : Z) (a : serviceAccount) : serviceAccount :=
  {| sa_Reference := sa_Reference a; podCount := v; deleted := deleted a;
     sa_tokens := sa_tokens a; externalRequests := externalRequests a |}.
Definition set_deleted (v : bool) (a : serviceAccount) : serviceAccount :=
  {| sa_Reference := sa_Reference a; podCount := podCount a; deleted := v;
     sa_tokens := sa_tokens a; externalRequests := externalRequests a |}.
Definition set_tokens (v : option tokens) (a : serviceAccount) : serviceAccount :=
  {| sa_Reference := sa_Reference a; podCount := podCount a; deleted := deleted a;
     sa_tokens := v; externalRequests := externalRequests a |}.
Definition set_chan (v : list (option nat)) (a : serviceAccount) : serviceAccount :=
  {| sa_Reference := sa_Reference a; podCount := podCount a; deleted := deleted a;
     sa_tokens := sa_tokens a; externalRequests := v |}.
Definition set_gpc (v : gpc) (g : goroutine) : goroutine :=
  {| g_pc := v; g_requests := g_requests g; g_retries := g_retries g |}.
Definition set_requests (v : list (option nat)) (g : goroutine) : goroutine :=
  {| g_pc := g_pc g; g_requests := v; g_retries := g_retries g |}.
Definition set_retries (v : Z) (g : goroutine) : goroutine :=
  {| g_pc := g_pc g; g_requests := g_requests g; g_retries := v |}.
Definition set_cpc (v : cpc) (c : client) : client :=
  {| c_call := c_call c; c_pc := v; c_ctxErr := c_ctxErr c; c_reply := c_reply c |}.
Definition set_ctxErr (v : option error) (c : client) : client :=
  {| c_call := c_call c; c_pc := c_pc c; c_ctxErr := v; c_reply := c_reply c |}.
Definition set_reply (v : option tokensAndError) (c : client) : client :=
  {| c_call := c_call c; c_pc := c_pc c; c_ctxErr := c_ctxErr c; c_reply := v |}.

Definition goto {W} (g : nat) (pc : gpc) (s : State W) : State W := upd_go g (set_gpc pc) s.
Definition cgoto {W} (c : nat) (pc : cpc) (s : State W) : State W := upd_cl c (set_cpc pc) s.

Section Cache.
Context {W : Type}.
(** time.Now(), the issuing provider, the service account provider, the JWT
  parser, and the two options. *)
Context (Now : W → Time) (Source : Tokens.Provider W).
Context (ServiceAccounts : ServiceAccounts.Provider W).
Context (jwt_Subject : string → option string).
Context (Concurrency : nat) (MaxTokenDuration : Z).
Implicit Type s : State W.

(** ** tokens.go: createTokens *)

Definition wrap_err {A} (pre : string) (m : ST W (result A)) : ST W (result A) :=
r ← m; match r with Ok a => ok a | Err e => err (EWrap pre e "") end.

Definition createTokens (saRef : Reference) : ST W (result (tokens * option string)) :=
sa ←? wrap_err "error getting kubernetes service account: "
        (ServiceAccounts.Get ServiceAccounts saRef);
email ←? wrap_err
  "error getting google service account email from kubernetes service account: "
  (mret (GoogleServiceAccountEmail sa));
' (saToken, saTokenExpiration) ←? wrap_err
  "error creating token for kubernetes service account: "
  (GetServiceAccountToken Source saRef);
' (accessTokens, accessTokenExpiration) ←? wrap_err "error creating google access token: "
  (GetGoogleAccessTokens Source saToken email []);
w ← st_get;
ok ({| serviceAccountToken := newToken (Now w) saToken saTokenExpiration MaxTokenDuration;
       Tokens.googleAccessTokens :=
         newToken (Now w) accessTokens accessTokenExpiration MaxTokenDuration |}, email).

(** ** service_accounts.go *)

Definition addServiceAccount (ref : Reference) (count : Z) s : State W :=
let g := next s in
let sa := {| sa_Reference := ref; podCount := count; deleted := false;
             sa_tokens := None; externalRequests := [] |} in
let s := set_next (S g) s in
let s := set_heap (<[g := sa]> (heap s)) s in
let s := set_serviceAccounts (<[ref := g]> (serviceAccounts s)) s in
let s := set_numTokens (numTokens s + 1) s in
set_goroutines (<[g := {| g_pc := GCheck; g_requests := []; g_retries := 0 |}]>
                  (goroutines s)) s.

Definition AddPodServiceAccount (ref : Reference) s : State W :=
match serviceAccounts s !! ref with
| Some g => upd_sa g (λ a, set_podCount (podCount a + 1) a) s
| None => addServiceAccount ref 1 s
end.

Definition DeletePodServiceAccount (ref : Reference) s : State W :=
match serviceAccounts s !! ref with
| Some g => upd_sa g (λ a, if 0 <? podCount a then set_podCount (podCount a - 1) a else a) s
| None => s
end.

(** The non-blocking send of a wake-up. *)
Definition wake (a : serviceAccount) : serviceAccount :=
match externalRequests a with [] => set_chan [None] a | _ => a end.

Definition UpdateServiceAccount (ref : Reference) s : State W :=
match serviceAccounts s !! ref with
| Some g => upd_sa g (λ a, wake (set_deleted false a)) s
| None => s
end.
Definition DeleteServiceAccount (ref : Reference) s : State W :=
match serviceAccounts s !! ref with
| Some g => upd_sa g (λ a, wake (set_deleted true a)) s
| None => s
end.

Definition checkIfMustDeleteAndDelete (g : nat) s : bool * State W :=
match heap s !! g with
| Some a =>
    if (podCount a =? 0) || deleted a then
      (true, set_numTokens (numTokens s - 1)
               (set_serviceAccounts (delete (sa_Reference a) (serviceAccounts s)) s))
    else (false, s)
| None => (false, s)
end.

(** ** provider.go: cacheTokens *)

(** A send on a request's channel, of capacity one, then its close. *)
Definition deliver (resp : tokensAndError) (r : option nat) s : State W :=
match r with
| None => s
| Some c =>
    match clients s !! c with
    | Some cl =>
        match c_reply cl with
        | None => upd_cl c (set_reply (Some resp)) s
        | Some _ => set_fault (Some "send on closed channel") s
        end
    | None => s
    end
end.

(** Taking a request from the channel. *)
Definition receive (g : nat) (req : option nat) (rest : list (option nat)) s : State W :=
upd_go g (λ go, set_requests (g_requests go ++ [req])%list go) (upd_sa g (set_chan rest) s).
(** Before it answers, the goroutine empties its channel, one request at a
  time; meanwhile senders that were blocked on the full channel, and new
  ones, get their turns. *)
Definition drains (pc : gpc) : bool :=
match pc with
| GHandle (Ok _) | GReturn _ => true
| GHandle (Err e) => errors_Is e ErrGKEAnnotationInvalid
| _ => false
end.
Definition drain_step (g : nat) s : option (State W) :=
go ← goroutines s !! g;
a ← heap s !! g;
match externalRequests a with
| req :: rest => if drains (g_pc go) then Some (receive g req rest s) else None
| [] => None
end.
(** The end of it: what is left in the channel is taken, and all are told. *)
Definition sendResponse (g : nat) (resp : tokensAndError) s : State W :=
match goroutines s !! g, heap s !! g with
| Some go, Some a =>
    let reqs := (g_requests go ++ externalRequests a)%list in
    let s := upd_sa g (set_chan []) s in
    let s := upd_go g (set_requests []) s in
    foldl (λ s r, deliver resp r s) s reqs
| _, _ => s
end.

Definition infinite : Z := 10 * 365 * 24 * Hour.
(** [(1 << retries) * time.Second] *)
Definition backoff (retries : Z) : Z := wrap64 (Z.shiftl 1 retries * Second).
Definition refresh_sleep (now : Time) (t : tokens) : Z :=
let d := tokens_timeUntilExpiration now t in
if Minute <=? d then d - Minute else d.

(** One step of the goroutine of the struct [g]. *)
Definition cacheTokens_step (g : nat) (b : branch) s : option (State W) :=
go ← goroutines s !! g;
a ← heap s !! g;
match g_pc go, b with
| GCheck, BGo =>
    let '(del, s) := checkIfMustDeleteAndDelete g s in
    Some (goto g (if del then GReturn errServiceAccountDeleted else GAcquire) s)
| GAcquire, BGo =>
    if (semaphore s <? Concurrency)%nat
    then Some (goto g GCreate (set_semaphore (S (semaphore s)) s)) else None
| GAcquire, BCtxDone =>
    if ctxDone s
    then Some (goto g (GReturn (EWrap "context done while acquiring semaphore: " canceled "")) s)
    else None
| GCreate, BGo =>
    let '(o, w) := createTokens (sa_Reference a) (world s) in
    let s := set_world w s in
    match o with
    | Ret (Ok (t, _)) => Some (goto g (GRelease (Ok t)) s)
    | Ret (Err e) => Some (goto g (GRelease (Err e)) s)
    | Panic m => Some (set_fault (Some m) s)
    end
| GRelease r, BGo => Some (goto g (GCheckAgain r) (set_semaphore (pred (semaphore s)) s))
| GCheckAgain r, BGo =>
    let '(del, s) := checkIfMustDeleteAndDelete g s in
    Some (goto g (if del then GReturn errServiceAccountDeleted else GHandle r) s)
| GHandle (Err e), BGo =>
    if errors_Is e ErrGKEAnnotationInvalid then
      let s := upd_go g (set_retries 0) s in
      let s := sendResponse g {| re_tokens := None; re_err := Some e |} s in
      Some (goto g (GStore None infinite) s)
    else
      let n := g_retries go in
      let s := upd_go g (set_retries (if n <? 5 then n + 1 else n)) s in
      Some (goto g (GStore None (backoff n)) s)
| GHandle (Ok t), BGo =>
    let d := refresh_sleep (Now (world s)) t in
    let s := upd_go g (set_retries 0) s in
    let s := sendResponse g {| re_tokens := Some t; re_err := None |} s in
    Some (goto g (GStore (Some t) d) s)
| GStore t d, BGo =>
    let s := upd_sa g (set_tokens t) s in
    Some (goto g (GSleep (default 0 (t_mono (Now (world s))) + d)) s)
| GSleep deadline, BTimer =>
    if deadline <=? default 0 (t_mono (Now (world s))) then Some (goto g GCheck s) else None
| GSleep _, BRecv =>
    match externalRequests a with
    | r :: rest => Some (goto g GCheck (receive g r rest s))
    | [] => None
    end
| GSleep _, BCtxDone =>
    if ctxDone s
    then Some (goto g (GReturn (EWrap "context done while waiting for next token refresh: "
                                  canceled "")) s)
    else None
| GReturn _, BGo =>
    (* the deferred call: its argument was evaluated when retErr was nil *)
    Some (goto g GDone (sendResponse g {| re_tokens := None; re_err := None |} s))
| _, _ => None
end.

(** ** provider.go: the calls of the interface *)

(** The end of GetServiceAccountToken and of the call without scopes, on the
  result of getTokens. *)
Definition finish (r : call) (now : Time) (res : result (option tokens)) : outcome (result response) :=
match res with
| Err e => Ret (Err e)
| Ok None => Panic nil_deref
| Ok (Some t) =>
    match r with
    | CallServiceAccountToken _ =>
        Ret (Ok (RToken (token (serviceAccountToken t)) (expiration now (serviceAccountToken t))))
    | _ => Ret (Ok (RAccess (token (Tokens.googleAccessTokens t))
                            (expiration now (Tokens.googleAccessTokens t))))
    end
end.
(** The response made of a token of the two other caches. *)
Definition key_response (k : cacheKey) (now : Time) (t : tokenAndExpiration string) : response :=
match k with
| KID _ => RToken (token t) (expiration now t)
| KScoped _ => RAccess {| DirectAccess := token t; Impersonated := "" |} (expiration now t)
end.
Definition cache_lookup (k : cacheKey) s : option (tokenAndExpiration string) :=
match k with
| KID r => googleIDTokens s !! r
| KScoped r => googleScopedAccessTokens s !! r
end.
Definition cache_insert (k : cacheKey) (t : tokenAndExpiration string) s : State W :=
match k with
| KID r => set_googleIDTokens (<[r := t]> (googleIDTokens s)) s
| KScoped r => set_googleScopedAccessTokens (<[r := t]> (googleScopedAccessTokens s)) s
end.

(** The first steps of a call, before any shared state is touched. *)
Definition start (r : call) : cpc :=
match r with
| CallServiceAccountToken ref => CGet ref
| CallGoogleAccessTokens saToken googleEmail scopes =>
    match ReferenceFromToken jwt_Subject saToken with
    | Panic m => CDone (Panic m)
    | Ret saRef =>
        match scopes with
        | [] => CGet saRef
        | _ => CLookup (KScoped {| sc_serviceAccountRefernce := saRef;
                                   sc_email := default "" googleEmail;
                                   sc_scopes := join "," scopes |})
        end
    end
| CallGoogleIdentityToken saRef accessToken googleEmail audience =>
    CLookup (KID {| id_serviceAccountRefernce := saRef; id_email := googleEmail;
                    id_audience := audience |})
end.

(** The call of the source on a miss. *)
Definition source_call (r : call) : ST W (result (string * Time)) :=
match r with
| CallServiceAccountToken ref => GetServiceAccountToken Source ref
| CallGoogleAccessTokens saToken googleEmail scopes =>
    ' (toks, exp) ←? GetGoogleAccessTokens Source saToken googleEmail scopes;
    ok (if bool_decide (DirectAccess toks = "") then Impersonated toks else DirectAccess toks, exp)
| CallGoogleIdentityToken saRef accessToken googleEmail audience =>
    GetGoogleIdentityToken Source saRef accessToken googleEmail audience
end.

Definition done_err (pre : string) (e : error) : cpc := CDone (Ret (Err (EWrap pre e ""))).

(** One step of the request goroutine [c]: getTokens, requestTokens and the
  two calls with their own caches. *)
Definition client_step (c : nat) (b : branch) s : option (State W) :=
cl ← clients s !! c;
let now := Now (world s) in
match c_pc cl, b with
| CGet ref, BGo =>
    match serviceAccounts s !! ref with
    | None => Some (cgoto c (CRead (next s)) (addServiceAccount ref 0 s))
    | Some g =>
        if default false (deleted <$> heap s !! g)
        then Some (cgoto c (CDone (Ret (Err errServiceAccountDeleted))) s)
        else Some (cgoto c (CRead g) s)
    end
| CRead g, BGo =>
    a ← heap s !! g;
    match sa_tokens a with
    | Some t =>
        if isExpired now (serviceAccountToken t) || isExpired now (Tokens.googleAccessTokens t)
        then Some (cgoto c (CDispatch g) (set_cacheMisses (cacheMisses s + 1) s))
        else Some (cgoto c (CDone (finish (c_call cl) now (Ok (Some t)))) s)
    | None => Some (cgoto c (CDispatch g) (set_cacheMisses (cacheMisses s + 1) s))
    end
| CDispatch g, BGo =>
    a ← heap s !! g;
    match externalRequests a with
    | [] => Some (cgoto c (CWait g) (upd_sa g (set_chan [Some c]) s))
    | _ => None
    end
| CDispatch _, BReqDone =>
    e ← c_ctxErr cl;
    Some (cgoto c (done_err
      "request context done while dispatching request for service account tokens: " e) s)
| CDispatch _, BCtxDone =>
    if ctxDone s then Some (cgoto c (done_err
      "process terminated while dispatching request for service account tokens: " canceled) s)
    else None
| CWait _, BRecv =>
    resp ← c_reply cl;
    let res := match re_err resp with Some e => Err e | None => Ok (re_tokens resp) end in
    Some (cgoto c (CDone (finish (c_call cl) now res)) s)
| CWait _, BReqDone =>
    e ← c_ctxErr cl;
    Some (cgoto c (done_err
      "request context done while waiting response with service account tokens: " e) s)
| CWait _, BCtxDone =>
    if ctxDone s then Some (cgoto c (done_err
      "process terminated while waiting response with service account tokens: " canceled) s)
    else None
| CLookup k, BGo =>
    match cache_lookup k s with
    | Some t =>
        if isExpired now t then Some (cgoto c (CAcquire k) s)
        else Some (cgoto c (CDone (Ret (Ok (key_response k now t)))) s)
    | None => Some (cgoto c (CAcquire k) s)
    end
| CAcquire k, BGo =>
    if (semaphore s <? Concurrency)%nat
    then Some (cgoto c (CCall k) (set_semaphore (S (semaphore s)) s)) else None
| CAcquire _, BReqDone =>
    e ← c_ctxErr cl;
    Some (cgoto c (done_err "request context done while acquiring semaphore: " e) s)
| CAcquire _, BCtxDone =>
    if ctxDone s
    then Some (cgoto c (done_err "process terminated while acquiring semaphore: " canceled) s)
    else None
| CCall k, BGo =>
    let '(o, w) := source_call (c_call cl) (world s) in
    let s := set_world w s in
    match o with
    | Ret r => Some (cgoto c (CRelease k r) s)
    | Panic m => Some (cgoto c (CDone (Panic m)) s)
    end
| CRelease k r, BGo =>
    let s := set_semaphore (pred (semaphore s)) s in
    match r with
    | Err e => Some (cgoto c (CDone (Ret (Err e))) s)
    | Ok (tok, exp) => Some (cgoto c (CInsert k tok exp) s)
    end
| CInsert k tok exp, BGo =>
    let t := newToken now tok exp MaxTokenDuration in
    Some (cgoto c (CDone (Ret (Ok (key_response k now t)))) (cache_insert k t s))
| _, _ => None
end.

(** ** The machine *)

Definition keep_fresh {K} `{Countable K} (now : Time) (m : gmap K (tokenAndExpiration string)) :=
filter (λ kv, isExpired now kv.2 = false) m.

Definition step (l : label W) s : option (State W) :=
match fault s with
| Some _ => None
| None =>
    match l with
    | Env w => Some (set_world w s)
    | Close => Some (set_ctxDone true s)
    | AddPod ref => Some (AddPodServiceAccount ref s)
    | DeletePod ref => Some (DeletePodServiceAccount ref s)
    | UpdateSA ref => Some (UpdateServiceAccount ref s)
    | DeleteSA ref => Some (DeleteServiceAccount ref s)
    | Call c r =>
        match clients s !! c with
        | Some _ => None
        | None => Some (set_clients (<[c := {| c_call := r; c_pc := start r;
                                               c_ctxErr := None; c_reply := None |}]>
                                       (clients s)) s)
        end
    | CancelRequest c e => Some (upd_cl c (set_ctxErr (Some e)) s)
    | RunGoroutine g b => cacheTokens_step g b s
    | RunClient c b => client_step c b s
    | CollectIDTokens =>
        Some (set_googleIDTokens (keep_fresh (Now (world s)) (googleIDTokens s)) s)
    | CollectScopedTokens =>
        Some (set_googleScopedAccessTokens
                (keep_fresh (Now (world s)) (googleScopedAccessTokens s)) s)
    | Drain g => drain_step g s
    end
end.

(** NewProvider. *)
Definition NewProvider (w : W) : State W :=
mkState w ∅ ∅ ∅ 0 0 0 ∅ ∅ 0 false ∅ None.

Fixpoint run (ls : list (label W)) s : option (State W) :=
match ls with
| [] => Some s
| l :: ls' => s' ← step l s; run ls' s'
end.

Inductive reachable : State W → Prop :=
| reach_init w : reachable (NewProvider w)
| reach_step s l s' : reachable s → step l s = Some s' → reachable s'.
End Cache.
