(* ===== verification/TokenCacheProofs.v ===== *)
(** * The token cache: invariants

    Invariants of the machine of TokenCache.v, by induction over its steps:
    the map, its goroutines and its gauge; the semaphore; the pending
    requests; whose tokens are where. *)

From S2P Require Import Prelude GoStrings GoTime Credentials Api ServiceAccounts Tokens TokenCache.
Open Scope string_scope.
Open Scope Z_scope.

Create HintDb cache.
#[local] Arguments Nat.ltb : simpl never.

(** Case analysis on a step: the hypothesis [H : ... = Some s'] is split
    along the code's branches. *)
Ltac step_cases H :=
  cbn in H; repeat (simplify_option_eq; try case_match); simplify_eq; try done.

(** ** Structure of the cache *)

(** A goroutine that still serves its account. *)
Definition active (pc : gpc) : Prop :=
  match pc with GReturn _ | GDone => False | _ => True end.
Definition sa_ok (a : serviceAccount) : Prop :=
  0 ≤ podCount a ∧ (length (externalRequests a) ≤ 1)%nat.

Record StructInv {W} (s : State W) : Prop := {
  st_map ref g : serviceAccounts s !! ref = Some g → ∃ a go,
    heap s !! g = Some a ∧ sa_Reference a = ref ∧ goroutines s !! g = Some go ∧
    (active (g_pc go) ∨ ctxDone s = true);
  st_active g go : goroutines s !! g = Some go → active (g_pc go) →
    ∃ a, heap s !! g = Some a ∧ serviceAccounts s !! sa_Reference a = Some g;
  st_dom g : is_Some (heap s !! g) ↔ is_Some (goroutines s !! g);
  st_next g : is_Some (heap s !! g) → (g < next s)%nat;
  st_gauge : numTokens s = Z.of_nat (size (serviceAccounts s));
  st_sa g a : heap s !! g = Some a → sa_ok a;
}.

Section Struct.
Context {W : Type}.
Implicit Type s : State W.

Lemma struct_frame s s' :
serviceAccounts s' = serviceAccounts s → heap s' = heap s → goroutines s' = goroutines s →
next s' = next s → numTokens s' = numTokens s →
(ctxDone s = true → ctxDone s' = true) → StructInv s → StructInv s'.
Proof.
intros E1 E2 E3 E4 E5 Hc [].
split; rewrite ?E1, ?E2, ?E3, ?E4, ?E5; try done.
intros ref g Hg. destruct (st_map0 ref g Hg) as (a & go & ? & ? & ? & [?|?]); exists a, go; auto 10.
Qed.

Lemma struct_upd_sa g f s :
(∀ a, sa_Reference (f a) = sa_Reference a) → (∀ a, sa_ok a → sa_ok (f a)) →
StructInv s → StructInv (upd_sa g f s).
Proof.
intros Href Hok [Hmap Hact Hdom Hnext Hga Hsa]. split; cbn.
- intros ref h Hh. destruct (Hmap ref h Hh) as (a & go & Ha & Hr & Hgo & Hor).
  destruct (decide (g = h)) as [->|].
  + exists (f a), go. rewrite lookup_alter_eq, Ha. cbn. rewrite Href. auto.
  + exists a, go. rewrite lookup_alter_ne by done. auto.
- intros h go Hgo Ha. destruct (Hact h go Hgo Ha) as (a & Hh & Hm).
  destruct (decide (g = h)) as [->|].
  + exists (f a). rewrite lookup_alter_eq, Hh, Href. auto.
  + exists a. rewrite lookup_alter_ne by done. auto.
- intros h. rewrite lookup_alter_is_Some. apply Hdom.
- intros h. rewrite lookup_alter_is_Some. apply Hnext.
- done.
- intros h a. rewrite lookup_alter_Some. intros [(<- & a' & Ha & ->)|[_ Ha]]; eauto.
Qed.

Lemma struct_upd_go g f s :
(∀ go, goroutines s !! g = Some go →
   (active (g_pc (f go)) → active (g_pc go)) ∧
   (active (g_pc go) → active (g_pc (f go)) ∨ ctxDone s = true)) →
StructInv s → StructInv (upd_go g f s).
Proof.
intros Hf [Hmap Hact Hdom Hnext Hga Hsa]. split; cbn; try done.
- intros ref h Hh. destruct (Hmap ref h Hh) as (a & go & Ha & Hr & Hgo & Hor).
  destruct (decide (g = h)) as [->|].
  + exists a, (f go). rewrite lookup_alter_eq, Hgo. cbn. destruct (Hf _ Hgo). naive_solver.
  + exists a, go. rewrite lookup_alter_ne by done. auto.
- intros h go. rewrite lookup_alter_Some. intros [(<- & go' & Hgo & ->)|[_ Hgo]] Ha; eauto.
  destruct (Hf _ Hgo). eauto.
- intros h. rewrite lookup_alter_is_Some. apply Hdom.
Qed.

(** Moving: a serving goroutine keeps serving, or the context is done. *)
Lemma struct_goto g pc s go :
goroutines s !! g = Some go → (active pc → active (g_pc go)) →
(active (g_pc go) → active pc ∨ ctxDone s = true) →
StructInv s → StructInv (goto g pc s).
Proof. intros Hg Ha Hp. apply struct_upd_go. intros go' Hgo'. simplify_eq. cbn. auto. Qed.

Lemma struct_add ref n s :
serviceAccounts s !! ref = None → 0 ≤ n → StructInv s → StructInv (addServiceAccount ref n s).
Proof.
intros Hnone Hn [Hmap Hact Hdom Hnext Hga Hsa].
assert (Hfresh : heap s !! next s = None).
{ apply eq_None_not_Some. intros H%Hnext. lia. }
assert (Hfreshg : goroutines s !! next s = None).
{ apply eq_None_not_Some. rewrite <- Hdom, Hfresh. by intros []. }
split; cbn.
- intros r h. rewrite lookup_insert_Some. intros [[<- <-]|[Hne Hh]].
  + eexists _, _. rewrite !lookup_insert_eq. split_and!; eauto. by left.
  + destruct (Hmap r h Hh) as (a & go & Ha & ? & Hgo & ?).
    assert (next s ≠ h) by (intros <-; congruence).
    exists a, go. rewrite !lookup_insert_ne by done. auto.
- intros h go. rewrite lookup_insert_Some. intros [[<- <-]|[Hne Hh]] Ha.
  + eexists. rewrite lookup_insert_eq. split; [done|]. cbn. by rewrite lookup_insert_eq.
  + destruct (Hact h go Hh Ha) as (a & Ha' & Hm). exists a.
    assert (next s ≠ h) by (intros <-; congruence).
    rewrite lookup_insert_ne by done. split; [done|].
    rewrite lookup_insert_ne; [done|]. intros E. rewrite <- E in Hm. congruence.
- intros h. rewrite !lookup_insert_is_Some. rewrite Hdom. done.
- intros h. rewrite lookup_insert_is_Some. intros [<-|[_ H%Hnext]]; lia.
- rewrite map_size_insert_None by done. lia.
- intros h a. rewrite lookup_insert_Some. intros [[<- <-]|[_ Ha]]; [|eauto].
  split; cbn; lia.
Qed.

(** Taking a request from the channel: the goroutine and the account of before,
  with one request less in the channel and one more in hand. *)
Lemma drain_inv g s s' :
drain_step g s = Some s' → ∃ go a req rest, goroutines s !! g = Some go ∧ heap s !! g = Some a ∧
  externalRequests a = req :: rest ∧ drains (g_pc go) = true ∧ s' = receive g req rest s.
Proof.
unfold drain_step. destruct (goroutines s !! g) as [go|]; [|done]. destruct (heap s !! g) as [a|]; [|done]. cbn.
destruct (externalRequests a) as [|req rest] eqn:E; [done|]. destruct (drains (g_pc go)) eqn:Ed; [|done].
intros [= <-]. by exists go, a, req, rest.
Qed.
Lemma struct_receive g a req rest s :
heap s !! g = Some a → externalRequests a = req :: rest → StructInv s → StructInv (receive g req rest s).
Proof.
intros Ha E HI. apply struct_upd_go; [cbn; tauto|]. apply struct_upd_sa; [done| |done].
intros a' [Hp Hl]. split; [done|]. cbn. destruct (st_sa _ HI _ _ Ha) as [_ Hlen]. rewrite E in Hlen. cbn in Hlen. lia.
Qed.

(** checkIfMustDeleteAndDelete, then the move that follows it. *)
Lemma struct_check g pc e s go :
goroutines s !! g = Some go → active (g_pc go) → active pc → StructInv s →
StructInv (let '(del, s') := checkIfMustDeleteAndDelete g s in
           goto g (if del then GReturn e else pc) s').
Proof.
intros Hgo Ha Hp HI. unfold checkIfMustDeleteAndDelete.
destruct (st_active _ HI _ _ Hgo Ha) as (a & Hh & Hm). rewrite Hh.
destruct (_ || _); [|eapply struct_goto; eauto].
destruct HI as [Hmap Hact Hdom Hnext Hga Hsa]. split; cbn; try done.
- intros r h. rewrite lookup_delete_Some. intros [Hne Hr].
  destruct (Hmap r h Hr) as (a' & go' & Ha' & Hr' & Hgo' & ?).
  assert (g ≠ h) by (intros ->; congruence).
  exists a', go'. rewrite lookup_alter_ne by done. auto.
- intros h go'. rewrite lookup_alter_Some. intros [(<- & ? & ? & ->)|[Hne Hgo']]; [done|].
  intros Ha'. destruct (Hact h go' Hgo' Ha') as (a' & Hh' & Hm').
  exists a'. rewrite lookup_delete_ne by (intros E; congruence). done.
- intros h. rewrite lookup_alter_is_Some. apply Hdom.
- rewrite map_size_delete_Some by eauto.
  assert (size (serviceAccounts s) ≠ 0%nat); [|lia].
  intros E%map_size_empty_inv. rewrite E in Hm. by rewrite lookup_empty in Hm.
Qed.

Lemma deliver_all_frame resp reqs s :
∃ cls f, foldl (λ s r, deliver resp r s) s reqs = set_clients cls (set_fault f s).
Proof.
revert s. induction reqs as [|r reqs IH]; intros s; cbn.
- exists (clients s), (fault s). by destruct s.
- assert (∃ cls f, deliver resp r s = set_clients cls (set_fault f s)) as (cls & f & ->).
  { unfold deliver. destruct r as [c|]; [destruct (clients s !! c) as [cl|];
      [destruct (c_reply cl)|]|].
    - exists (clients s), (Some "send on closed channel"). by destruct s.
    - exists (alter (set_reply (Some resp)) c (clients s)), (fault s). by destruct s.
    - exists (clients s), (fault s). by destruct s.
    - exists (clients s), (fault s). by destruct s. }
  destruct (IH (set_clients cls (set_fault f s))) as (cls' & f' & ->).
  exists cls', f'. by destruct s.
Qed.

Lemma struct_send g resp s : StructInv s → StructInv (sendResponse g resp s).
Proof.
intros HI. unfold sendResponse. destruct (goroutines s !! g) as [go|]; [|done].
destruct (heap s !! g) as [a|]; [|done].
destruct (deliver_all_frame resp (g_requests go ++ externalRequests a)
  (upd_go g (set_requests []) (upd_sa g (set_chan []) s))) as (cls & f & ->).
eapply (struct_frame (upd_go g (set_requests []) (upd_sa g (set_chan []) s))); try done.
apply struct_upd_go; [cbn; tauto|]. apply struct_upd_sa; [done| |done].
intros a' []. split; cbn; [done|lia].
Qed.

Lemma sa_ok_wake d a : sa_ok a → sa_ok (wake (set_deleted d a)).
Proof.
intros [Hp Hl]. unfold wake. cbn. destruct (externalRequests a) as [|r l] eqn:E;
  (split; [done|]); cbn; [lia|]. by rewrite E.
Qed.
Lemma wake_Reference d a : sa_Reference (wake (set_deleted d a)) = sa_Reference a.
Proof. unfold wake. by destruct (externalRequests _). Qed.

Lemma sendResponse_ctx g resp s : ctxDone (sendResponse g resp s) = ctxDone s.
Proof.
unfold sendResponse. repeat case_match; try done.
match goal with |- context [foldl ?f (upd_go ?g ?h ?s) ?r] =>
  destruct (deliver_all_frame resp r (upd_go g h s)) as (? & ? & ->) end. done.
Qed.
Lemma sendResponse_at g resp s go a :
goroutines s !! g = Some go → heap s !! g = Some a →
goroutines (sendResponse g resp s) !! g = Some (set_requests [] go) ∧
heap (sendResponse g resp s) !! g = Some (set_chan [] a) ∧ world (sendResponse g resp s) = world s.
Proof.
intros Hg Ha. unfold sendResponse. rewrite Hg, Ha.
destruct (deliver_all_frame resp (g_requests go ++ externalRequests a)
  (upd_go g (set_requests []) (upd_sa g (set_chan []) s))) as (cls & f & ->). cbn.
by rewrite !lookup_alter_eq, Hg, Ha.
Qed.
Lemma sendResponse_pc g resp s h go :
goroutines s !! h = Some go →
∃ go', goroutines (sendResponse g resp s) !! h = Some go' ∧ g_pc go' = g_pc go.
Proof.
intros Hg. unfold sendResponse. destruct (goroutines s !! g) as [go'|] eqn:Hgg; [|eauto].
destruct (heap s !! g) as [a|]; [|eauto].
destruct (deliver_all_frame resp (g_requests go' ++ externalRequests a)
  (upd_go g (set_requests []) (upd_sa g (set_chan []) s))) as (cls & f & ->). cbn.
destruct (decide (g = h)) as [->|].
- rewrite lookup_alter_eq, Hg. cbn. eauto.
- rewrite lookup_alter_ne by done. eauto.
Qed.
End Struct.
#[export] Hint Resolve struct_send : cache.

Section StructStep.
Context {W : Type} (Now : W → Time) (Source : Tokens.Provider W).
Context (SAs : ServiceAccounts.Provider W) (jwt_Subject : string → option string).
Context (Concurrency : nat) (MaxTokenDuration : Z).
Implicit Type s : State W.

Lemma struct_reply_goto g resp pc s go :
goroutines s !! g = Some go → (active pc → active (g_pc go)) →
(active (g_pc go) → active pc ∨ ctxDone s = true) →
StructInv s → StructInv (goto g pc (sendResponse g resp s)).
Proof.
intros Hg Ha Hp HI. destruct (sendResponse_pc g resp s g go Hg) as (go' & Hg' & E).
eapply struct_goto; [done|by rewrite E| |by apply struct_send]. rewrite E, sendResponse_ctx. done.
Qed.

Lemma struct_cache_step g b s s' :
StructInv s →
cacheTokens_step Now Source SAs Concurrency MaxTokenDuration g b s = Some s' → StructInv s'.
Proof.
intros HI H. unfold cacheTokens_step in H.
destruct (goroutines s !! g) as [go|] eqn:Hgo; [|done].
destruct (heap s !! g) as [a|] eqn:Ha; [|done]. cbn in H.
assert (Hgo_act : ∀ f, goroutines (upd_go g f s) !! g = Some (f go))
  by (intros f; cbn; by rewrite lookup_alter_eq, Hgo).
assert (Hret : ∀ n, StructInv (upd_go g (set_retries n) s))
  by (intros n; apply struct_upd_go; [cbn; tauto|done]).
destruct (g_pc go) as [| | | | |[t|e]| | | |] eqn:Hpc, b; try done.
1: pose proof (struct_check g GAcquire errServiceAccountDeleted s go Hgo
     ltac:(by rewrite Hpc) I HI).
6: pose proof (struct_check g (GHandle r) errServiceAccountDeleted s go Hgo
     ltac:(by rewrite Hpc) I HI).
1, 6: destruct (checkIfMustDeleteAndDelete g s); by simplify_eq.
all: step_cases H.
all: first [by eapply struct_frame; [..|exact HI] |
  eapply struct_reply_goto; [first [exact Hgo|apply Hgo_act]|cbn; rewrite ?Hpc; cbn; tauto..|] |
  eapply struct_goto; [first [exact Hgo|apply Hgo_act]|cbn; rewrite ?Hpc; cbn; tauto..|]].
all: try first [done | apply Hret | by eapply struct_frame; [..|exact HI]].
- apply struct_upd_sa; [done..|done].
- by eapply struct_receive.
Qed.

Lemma struct_client_step c b s s' :
StructInv s →
client_step Now Source Concurrency MaxTokenDuration c b s = Some s' → StructInv s'.
Proof.
intros HI H. unfold client_step in H.
destruct (clients s !! c) as [cl|] eqn:Hcl; [|done]. cbn in H.
destruct (c_pc cl) as [ref|g|g|g|k|k|k|k r|k tok exp|o] eqn:Hpc, b; try done.
all: step_cases H.
all: try (by eapply struct_frame; [..|exact HI]).
- eapply struct_frame; [..|by apply (struct_add ref 0 s)]; done.
- eapply struct_frame; [..|apply (struct_upd_sa g (set_chan [Some c]) s)]; try done.
  intros a' [Hp Hl]. split; cbn; [done|lia].
- destruct k; (by eapply struct_frame; [..|exact HI]).
Qed.

Lemma struct_drain g s s' : StructInv s → drain_step g s = Some s' → StructInv s'.
Proof. intros HI (go & a & req & rest & _ & Ha & E & _ & ->)%drain_inv. by eapply struct_receive. Qed.
Lemma struct_step l s s' :
StructInv s → step Now Source SAs jwt_Subject Concurrency MaxTokenDuration l s = Some s' →
StructInv s'.
Proof.
intros HI H. unfold step in H. destruct (fault s); [done|]. destruct l.
9: by eapply struct_cache_step.
9: by eapply struct_client_step.
11: by eapply struct_drain.
all: step_cases H; try (by eapply struct_frame; [..|exact HI]).
- unfold AddPodServiceAccount. destruct (serviceAccounts s !! ref) eqn:E; [|by apply struct_add].
  apply struct_upd_sa; [done| |done]. intros a []. split; cbn; [lia|done].
- unfold DeletePodServiceAccount. destruct (serviceAccounts s !! ref) eqn:E; [|done].
  apply struct_upd_sa; [| |done]; intros a; destruct (Z.ltb_spec 0 (podCount a)); try done.
  intros []. split; cbn; [lia|done].
- unfold UpdateServiceAccount. destruct (serviceAccounts s !! ref) eqn:E; [|done].
  apply struct_upd_sa; [apply wake_Reference|apply sa_ok_wake|done].
- unfold DeleteServiceAccount. destruct (serviceAccounts s !! ref) eqn:E; [|done].
  apply struct_upd_sa; [apply wake_Reference|apply sa_ok_wake|done].
Qed.

Lemma struct_init (w : W) : StructInv (NewProvider w).
Proof.
split; cbn; intros; rewrite ?lookup_empty in *; try done; split; by intros [].
Qed.
Lemma struct_reachable s :
reachable Now Source SAs jwt_Subject Concurrency MaxTokenDuration s → StructInv s.
Proof. induction 1; eauto using struct_init, struct_step. Qed.
End StructStep.

(** ** The semaphore *)

(** How many values of a map satisfy a predicate. *)
Definition count {A} (P : A → bool) (m : gmap nat A) : nat :=
  map_fold (λ _ x n, (Nat.b2n (P x) + n)%nat) 0%nat m.

Section Count.
Context {A : Type} (P : A → bool).
Implicit Type m : gmap nat A.

Lemma count_insert m k x :
m !! k = None → count P (<[k := x]> m) = (Nat.b2n (P x) + count P m)%nat.
Proof. intros Hk. unfold count.
apply (map_fold_insert_L (λ _ x n, (Nat.b2n (P x) + n)%nat) 0%nat k x m); [intros; lia|done]. Qed.
Lemma count_lookup m k x :
m !! k = Some x → count P m = (Nat.b2n (P x) + count P (delete k m))%nat.
Proof.
intros Hk. rewrite <- (count_insert (delete k m) k x) by apply lookup_delete_eq.
by rewrite insert_delete_eq, insert_id.
Qed.
Lemma count_alter m k f x :
m !! k = Some x →
(count P (alter f k m) + Nat.b2n (P x) = count P m + Nat.b2n (P (f x)))%nat.
Proof.
intros Hk. rewrite (count_lookup m k x Hk), (count_lookup (alter f k m) k (f x)).
2: by rewrite lookup_alter_eq, Hk.
rewrite delete_alter_eq. lia.
Qed.
Lemma count_alter_same m k f :
(∀ x, m !! k = Some x → P (f x) = P x) → count P (alter f k m) = count P m.
Proof.
intros Hf. destruct (m !! k) as [x|] eqn:Hk.
- pose proof (count_alter m k f x Hk). rewrite (Hf x eq_refl) in *. lia.
- f_equal. apply map_eq. intros i. destruct (decide (k = i)) as [->|].
  + by rewrite lookup_alter_eq, Hk.
  + by rewrite lookup_alter_ne.
Qed.
Lemma count_0 m : (∀ k x, m !! k = Some x → P x = false) → count P m = 0%nat.
Proof.
induction m as [|k x m Hk IH] using map_ind; intros Hm; [done|].
rewrite count_insert by done. rewrite (Hm k x) by apply lookup_insert_eq.
rewrite IH; [done|]. intros k' x' Hk'. apply (Hm k').
rewrite lookup_insert_ne; [done|]. intros ->. congruence.
Qed.
End Count.

(** Who is between acquiring and releasing the semaphore. *)
Definition g_holds (go : goroutine) : bool :=
  match g_pc go with GCreate | GRelease _ => true | _ => false end.
Definition c_holds (cl : client) : bool :=
  match c_pc cl with CCall _ | CRelease _ _ => true | _ => false end.
Definition holders {W} (s : State W) : nat :=
  (count g_holds (goroutines s) + count c_holds (clients s))%nat.

Section Semaphore.
Context {W : Type} (Now : W → Time) (Source : Tokens.Provider W).
Context (SAs : ServiceAccounts.Provider W) (jwt_Subject : string → option string).
Context (Concurrency : nat) (MaxTokenDuration : Z).
Context (source_total : ∀ r, total (source_call Source r)).
Implicit Type s : State W.

Definition SemInv s : Prop := semaphore s = holders s ∧ (semaphore s ≤ Concurrency)%nat.

Lemma deliver_holders resp r s : holders (deliver resp r s) = holders s.
Proof.
unfold deliver, holders. repeat case_match; try done. cbn.
by rewrite (count_alter_same c_holds).
Qed.
Lemma sendResponse_holders g resp s : holders (sendResponse g resp s) = holders s.
Proof.
unfold sendResponse. repeat case_match; try done.
assert (Hf : ∀ reqs s, holders (foldl (λ s r, deliver resp r s) s reqs) = holders s).
{ induction reqs as [|r reqs IH]; intros s1; [done|]. cbn. by rewrite IH, deliver_holders. }
rewrite Hf. unfold holders. cbn. by rewrite (count_alter_same g_holds).
Qed.
Lemma sendResponse_semaphore g resp s : semaphore (sendResponse g resp s) = semaphore s.
Proof.
unfold sendResponse. repeat case_match; try done.
match goal with |- context [foldl ?f (upd_go ?g ?h ?s) ?r] =>
  destruct (deliver_all_frame resp r (upd_go g h s)) as (? & ? & ->) end. done.
Qed.

(** A goroutine's move changes the number of holders by its own share. *)
Lemma goto_holders g pc s go :
goroutines s !! g = Some go →
(holders (goto g pc s) + Nat.b2n (g_holds go) =
 holders s + Nat.b2n (g_holds (set_gpc pc go)))%nat.
Proof.
intros Hg. unfold holders, goto. cbn.
pose proof (count_alter g_holds _ _ (set_gpc pc) _ Hg). lia.
Qed.
Lemma cgoto_holders c pc s cl :
clients s !! c = Some cl →
(holders (cgoto c pc s) + Nat.b2n (c_holds cl) =
 holders s + Nat.b2n (c_holds (set_cpc pc cl)))%nat.
Proof.
intros Hg. unfold holders, cgoto. cbn.
pose proof (count_alter c_holds _ _ (set_cpc pc) _ Hg). lia.
Qed.
Lemma upd_go_holders g f s :
(∀ go, g_pc (f go) = g_pc go) → holders (upd_go g f s) = holders s.
Proof.
intros Hf. unfold holders. cbn. rewrite (count_alter_same g_holds); [done|].
intros go _. unfold g_holds. by rewrite Hf.
Qed.
Lemma addServiceAccount_holders ref n s :
StructInv s → holders (addServiceAccount ref n s) = holders s.
Proof.
intros HI. unfold holders. cbn. rewrite count_insert; [done|].
apply eq_None_not_Some. rewrite <- (st_dom _ HI). intros H%(st_next _ HI). lia.
Qed.

Lemma sem_goto g pc s s1 go :
SemInv s → goroutines s1 !! g = Some go → holders s1 = holders s →
(semaphore s1 + Nat.b2n (g_holds go) = semaphore s + Nat.b2n (g_holds (set_gpc pc go)))%nat →
(semaphore s1 ≤ Concurrency)%nat → SemInv (goto g pc s1).
Proof.
intros [H1 H2] Hg Hh Hs Hle. pose proof (goto_holders g pc s1 go Hg).
split; [|done]. change (semaphore (goto g pc s1)) with (semaphore s1). lia.
Qed.
Lemma sem_cgoto c pc s s1 cl :
SemInv s → clients s1 !! c = Some cl → holders s1 = holders s →
(semaphore s1 + Nat.b2n (c_holds cl) = semaphore s + Nat.b2n (c_holds (set_cpc pc cl)))%nat →
(semaphore s1 ≤ Concurrency)%nat → SemInv (cgoto c pc s1).
Proof.
intros [H1 H2] Hg Hh Hs Hle. pose proof (cgoto_holders c pc s1 cl Hg).
split; [|done]. change (semaphore (cgoto c pc s1)) with (semaphore s1). lia.
Qed.
Lemma sem_frame s s' :
semaphore s' = semaphore s → holders s' = holders s → SemInv s → SemInv s'.
Proof. unfold SemInv. congruence. Qed.

Lemma sem_reply g resp pc s s1 go :
SemInv s → goroutines s1 !! g = Some go → holders s1 = holders s →
semaphore s1 = semaphore s → g_holds go = g_holds (set_gpc pc go) →
SemInv (goto g pc (sendResponse g resp s1)).
Proof.
intros HI Hg Hh Hs Hp. destruct (sendResponse_pc g resp s1 g go Hg) as (go' & Hg' & E).
assert (g_holds go' = g_holds go) as E' by (unfold g_holds; by rewrite E).
eapply (sem_goto _ _ s); [done|done|by rewrite sendResponse_holders| |].
- rewrite sendResponse_semaphore, Hs, E', Hp. done.
- rewrite sendResponse_semaphore, Hs. apply HI.
Qed.

Lemma g_holder_pos s g go :
goroutines s !! g = Some go → g_holds go = true → (1 ≤ holders s)%nat.
Proof. intros Hg Hh. unfold holders. rewrite (count_lookup _ _ _ _ Hg), Hh. cbn. lia. Qed.
Lemma c_holder_pos s c cl :
clients s !! c = Some cl → c_holds cl = true → (1 ≤ holders s)%nat.
Proof. intros Hg Hh. unfold holders. rewrite (count_lookup _ _ _ _ Hg), Hh. cbn. lia. Qed.

Lemma check_holders g s :
holders (checkIfMustDeleteAndDelete g s).2 = holders s ∧
semaphore (checkIfMustDeleteAndDelete g s).2 = semaphore s ∧
goroutines (checkIfMustDeleteAndDelete g s).2 = goroutines s.
Proof. unfold checkIfMustDeleteAndDelete. by repeat case_match. Qed.

Lemma receive_holders g req rest s : holders (receive g req rest s) = holders s.
Proof. unfold receive. by rewrite upd_go_holders. Qed.

Lemma sem_cache_step g b s s' :
SemInv s →
cacheTokens_step Now Source SAs Concurrency MaxTokenDuration g b s = Some s' → SemInv s'.
Proof.
intros HI H. unfold cacheTokens_step in H. pose proof HI as [HI1 HI2].
destruct (goroutines s !! g) as [go|] eqn:Hgo; [|done].
destruct (heap s !! g) as [a|] eqn:Ha; [|done]. cbn in H.
assert (Hgo_act : ∀ f, goroutines (upd_go g f s) !! g = Some (f go))
  by (intros f; cbn; by rewrite lookup_alter_eq, Hgo).
assert (Hgh : g_holds go = match g_pc go with GCreate | GRelease _ => true | _ => false end)
  by done.
destruct (g_pc go) as [| | | | |[t|e]| | | |] eqn:Hpc, b; try done.
1, 6: pose proof (check_holders g s) as (Hh & Hs & Hgos);
  destruct (checkIfMustDeleteAndDelete g s) as [del s1]; cbn in *; simplify_eq;
  rewrite <- Hgos in Hgo; eapply (sem_goto _ _ s); [done..| |by rewrite Hs];
  rewrite Hgh, Hs; by destruct del.
all: step_cases H.
all: try (by apply HI).
all: try match goal with Hc : (_ <? _)%nat = true |- _ => apply Nat.ltb_lt in Hc end.
all: first [eapply (sem_reply _ _ _ s);
    [done|first [exact Hgo|apply Hgo_act]|by rewrite ?upd_go_holders|done|done]
  |eapply (sem_goto _ _ s);
    [done|first [exact Hgo|apply Hgo_act]|by rewrite ?receive_holders, ?upd_go_holders|
     rewrite ?Hgh; unfold g_holds, set_gpc, set_retries; cbn; rewrite ?Hpc; cbn; try lia|
     cbn; lia]|idtac].
pose proof (g_holder_pos s g go Hgo Hgh). lia.
Qed.

Lemma sem_client_step c b s s' :
StructInv s → SemInv s →
client_step Now Source Concurrency MaxTokenDuration c b s = Some s' → SemInv s'.
Proof.
intros HA HI H. unfold client_step in H. pose proof HI as [HI1 HI2].
destruct (clients s !! c) as [cl|] eqn:Hcl; [|done]. cbn in H.
assert (Hch : c_holds cl = match c_pc cl with CCall _ | CRelease _ _ => true | _ => false end)
  by done.
destruct (c_pc cl) as [ref|g|g|g|k|k|k|k r|k tok exp|o] eqn:Hpc, b; try done.
all: try (destruct (source_total (c_call cl) (world s)) as (r & w & Hr); rewrite Hr in H).
all: step_cases H.
all: try match goal with Hc : (_ <? _)%nat = true |- _ => apply Nat.ltb_lt in Hc end.
all: try (eapply (sem_cgoto _ _ s); [done|exact Hcl|done|
  rewrite Hch; unfold c_holds, set_cpc; cbn; try lia|cbn; lia]).
- eapply (sem_cgoto _ _ s); [done|exact Hcl|by apply addServiceAccount_holders|
    rewrite Hch; cbn; lia|done].
- pose proof (c_holder_pos s c cl Hcl Hch). lia.
- pose proof (c_holder_pos s c cl Hcl Hch). lia.
- eapply (sem_cgoto _ _ s); [done|..]; destruct k; try done; rewrite Hch; cbn; lia.
Qed.

Lemma sem_step l s s' :
StructInv s → SemInv s →
step Now Source SAs jwt_Subject Concurrency MaxTokenDuration l s = Some s' → SemInv s'.
Proof.
intros HA HI H. unfold step in H. destruct (fault s); [done|]. destruct l.
9: by eapply sem_cache_step.
9: by eapply sem_client_step.
11: { apply drain_inv in H as (go & a & req & rest & _ & _ & _ & _ & ->).
  eapply sem_frame; [..|exact HI]; [done|apply receive_holders]. }
all: step_cases H; try (by eapply sem_frame; [..|exact HI]).
- unfold AddPodServiceAccount. destruct (serviceAccounts s !! ref) eqn:E;
    [by eapply sem_frame; [..|exact HI]|].
  eapply sem_frame; [..|exact HI]; [done|by apply addServiceAccount_holders].
- eapply sem_frame; [..|exact HI]; unfold DeletePodServiceAccount; by case_match.
- eapply sem_frame; [..|exact HI]; unfold UpdateServiceAccount; by case_match.
- eapply sem_frame; [..|exact HI]; unfold DeleteServiceAccount; by case_match.
- eapply sem_frame; [..|exact HI]; [done|]. unfold holders. cbn.
  rewrite count_insert by done. unfold c_holds, start. cbn. by repeat case_match.
- eapply sem_frame; [..|exact HI]; [done|]. unfold holders. cbn.
  by rewrite (count_alter_same c_holds).
Qed.

Lemma sem_reachable s :
reachable Now Source SAs jwt_Subject Concurrency MaxTokenDuration s → SemInv s.
Proof.
induction 1 as [w|s l s' Hr IH Hs].
- split; cbn; [|lia]. unfold holders. cbn. unfold count. by rewrite !map_fold_empty.
- eapply sem_step; [by eapply struct_reachable|done|done].
Qed.
End Semaphore.

(** ** Pending requests *)

(** The requests handed to the goroutine of [g] that have no reply yet: the
    ones it has taken, then the one in its channel. *)
Definition pend {W} (s : State W) (g : nat) : list nat :=
  match goroutines s !! g, heap s !! g with
  | Some go, Some a => omap id (g_requests go ++ externalRequests a)%list
  | _, _ => []
  end.
Definition waiting (g : nat) (cl : client) : Prop :=
  c_pc cl = CWait g ∨ ∃ o, c_pc cl = CDone o.

Record PendInv {W} (s : State W) : Prop := {
  pe_nodup g : NoDup (pend s g);
  pe_open g c : c ∈ pend s g →
    ∃ cl, clients s !! c = Some cl ∧ c_reply cl = None ∧ waiting g cl;
  pe_unique g h c : c ∈ pend s g → c ∈ pend s h → g = h;
  pe_reply c cl resp : clients s !! c = Some cl → c_reply cl = Some resp → ∃ g, waiting g cl;
  pe_fault : fault s = None;
}.

Section Pending.
Context {W : Type}.
Implicit Type s : State W.

Lemma pend_frame s s' :
(∀ g, pend s' g = pend s g) → fault s' = fault s →
(∀ c cl g, clients s !! c = Some cl → c_reply cl = None → waiting g cl →
   ∃ cl', clients s' !! c = Some cl' ∧ c_reply cl' = None ∧ waiting g cl') →
(∀ c cl' resp, clients s' !! c = Some cl' → c_reply cl' = Some resp →
   ∃ cl, clients s !! c = Some cl ∧ c_reply cl = Some resp ∧
         ∀ g, waiting g cl → waiting g cl') →
PendInv s → PendInv s'.
Proof.
intros Hp Hf Hc Hr []. split; intros; rewrite ?Hp in *; rewrite ?Hf; eauto.
- destruct (pe_open0 g c) as (cl & ? & ? & ?); eauto.
- destruct (Hr c cl resp) as (cl' & ? & ? & ?); [done..|].
  destruct (pe_reply0 c cl' resp) as [g ?]; eauto.
Qed.

Lemma pend_upd_sa g f s h :
(∀ a, omap id (externalRequests (f a)) = omap id (externalRequests a)) →
pend (upd_sa g f s) h = pend s h.
Proof.
intros Hf. unfold pend. cbn. destruct (goroutines s !! h) as [go|]; [|done].
destruct (decide (g = h)) as [->|]; [|by rewrite lookup_alter_ne].
rewrite lookup_alter_eq. destruct (heap s !! h) as [a|]; [|done]. cbn.
by rewrite !omap_app, Hf.
Qed.
Lemma pend_upd_go g f s h :
(∀ go, g_requests (f go) = g_requests go) → pend (upd_go g f s) h = pend s h.
Proof.
intros Hf. unfold pend. cbn. destruct (decide (g = h)) as [->|]; [|by rewrite lookup_alter_ne].
rewrite lookup_alter_eq. destruct (goroutines s !! h) as [go|]; [|done]. cbn. by rewrite Hf.
Qed.
Lemma pend_add ref n s h : StructInv s → pend (addServiceAccount ref n s) h = pend s h.
Proof.
intros HA. unfold pend. cbn. destruct (decide (next s = h)) as [<-|].
- rewrite !lookup_insert_eq. cbn. destruct (heap s !! next s) as [a|] eqn:E.
  + assert (next s < next s)%nat by (apply (st_next _ HA); eauto). lia.
  + by destruct (goroutines s !! next s).
- by rewrite !lookup_insert_ne.
Qed.

Lemma deliver_all_clients resp reqs s :
NoDup (omap id reqs) →
(∀ c, c ∈ omap id reqs → ∃ cl, clients s !! c = Some cl ∧ c_reply cl = None) →
let s' := foldl (λ s r, deliver resp r s) s reqs in
fault s' = fault s ∧
∀ c, clients s' !! c = if decide (c ∈ omap id reqs)
                       then set_reply (Some resp) <$> clients s !! c else clients s !! c.
Proof.
revert s. induction reqs as [|[c|] reqs IH]; intros s Hnd Hopen s'.
- split; [done|]. intros c. rewrite decide_False; [done|]. cbn. set_solver.
- change (omap id (Some c :: reqs)) with (c :: omap id reqs) in *.
  apply NoDup_cons in Hnd as [Hnin Hnd].
  destruct (Hopen c) as (cl & Hcl & Hrep); [set_solver|].
  subst s'. cbn [foldl]. unfold deliver at 2 4. rewrite Hcl, Hrep.
  destruct (IH (upd_cl c (set_reply (Some resp)) s)) as [Hf Hc]; [done| |].
  { intros c' Hc'. cbn. rewrite lookup_alter_ne by set_solver. apply Hopen. set_solver. }
  split; [done|]. intros c'. rewrite Hc. cbn.
  destruct (decide (c = c')) as [<-|Hne].
  + rewrite (decide_False (P := c ∈ _)) by done. rewrite decide_True by set_solver.
    by rewrite lookup_alter_eq.
  + rewrite lookup_alter_ne by done.
    destruct (decide (c' ∈ omap id reqs)).
    * by rewrite decide_True by set_solver.
    * by rewrite decide_False by set_solver.
- apply (IH s Hnd Hopen).
Qed.

(** What sendResponse does: every pending request gets the response once. *)
Lemma sendResponse_spec g resp s :
PendInv s →
let s' := sendResponse g resp s in
fault s' = fault s ∧
(∀ c, clients s' !! c = if decide (c ∈ pend s g)
                        then set_reply (Some resp) <$> clients s !! c else clients s !! c) ∧
(∀ h, pend s' h = if decide (h = g) then [] else pend s h).
Proof.
intros HP s'. subst s'. pose proof (pe_nodup _ HP g) as Hnd.
pose proof (λ c, pe_open _ HP g c) as Hopen.
assert (Hnone : pend s g = [] → ∀ c, clients s !! c =
  if decide (c ∈ pend s g) then set_reply (Some resp) <$> clients s !! c else clients s !! c).
{ intros E c. rewrite decide_False; [done|]. rewrite E. set_solver. }
assert (Hself : pend s g = [] → ∀ h, pend s h = if decide (h = g) then [] else pend s h).
{ intros E h. by case_decide; subst. }
unfold sendResponse. destruct (goroutines s !! g) as [go|] eqn:Hgo; [destruct (heap s !! g) as [a|] eqn:Ha|].
2, 3: assert (E : pend s g = []) by (unfold pend; by rewrite Hgo, ?Ha); auto.
assert (E : pend s g = omap id (g_requests go ++ externalRequests a)%list)
  by (unfold pend; by rewrite Hgo, Ha).
rewrite E in Hnd, Hopen. rewrite E.
destruct (deliver_all_clients resp (g_requests go ++ externalRequests a)
  (upd_go g (set_requests []) (upd_sa g (set_chan []) s))) as [Hf Hc]; [done| |].
{ intros c Hin. destruct (Hopen c Hin) as (cl & ? & ? & _). eauto. }
split_and!; [done|done|]. intros h.
destruct (deliver_all_frame resp (g_requests go ++ externalRequests a)%list
  (upd_go g (set_requests []) (upd_sa g (set_chan []) s))) as (cls & f & ->).
unfold pend. cbn. destruct (decide (h = g)) as [->|].
- rewrite !lookup_alter_eq, Hgo, Ha. done.
- rewrite !lookup_alter_ne by done. done.
Qed.

Lemma pend_reply g resp s : PendInv s → PendInv (sendResponse g resp s).
Proof.
intros HP. destruct (sendResponse_spec g resp s HP) as (Hf & Hc & Hp). destruct HP as [H1 H2 H3 H4 H5].
split.
- intros h. rewrite Hp. case_decide; [constructor|done].
- intros h c. rewrite Hp. case_decide; [set_solver|]. intros Hin.
  destruct (H2 h c Hin) as (cl & Hcl & ? & ?). exists cl.
  rewrite Hc, decide_False; [done|]. intros Hin'. by destruct (H3 g h c Hin' Hin).
- intros h h' c. rewrite !Hp. repeat case_decide; [set_solver..|]. apply H3.
- intros c cl r. rewrite Hc. case_decide as Hin; [|apply H4].
  destruct (H2 g c Hin) as (cl' & -> & _ & Hw). intros [= <-] _. by exists g.
- congruence.
Qed.
Lemma pend_goto g pc s : PendInv s → PendInv (goto g pc s).
Proof. apply pend_frame; [by intros; apply pend_upd_go|done|eauto..]. Qed.
Lemma pend_cgoto c pc s cl :
clients s !! c = Some cl → (∀ g, waiting g cl → waiting g (set_cpc pc cl)) →
PendInv s → PendInv (cgoto c pc s).
Proof.
intros Hcl Hw. apply pend_frame; [done|done|..].
- intros c' cl' g Hcl' Hr Hw'. cbn. destruct (decide (c = c')) as [->|].
  + rewrite lookup_alter_eq, Hcl. simplify_eq. cbn. eauto.
  + rewrite lookup_alter_ne by done. eauto.
- intros c' cl' resp. cbn. rewrite lookup_alter_Some.
  intros [(<- & x & Hx & ->)|[_ Hx]] Hr; simplify_eq; eauto.
Qed.
(** A new request enters the channel. *)
Lemma pend_push c g a s cl :
StructInv s → clients s !! c = Some cl → c_pc cl = CDispatch g → c_reply cl = None →
heap s !! g = Some a → externalRequests a = [] → PendInv s →
PendInv (cgoto c (CWait g) (upd_sa g (set_chan [Some c]) s)).
Proof.
intros HA Hcl Hpc Hrep Ha Hch [H1 H2 H3 H4 H5].
destruct (proj1 (st_dom _ HA g)) as [go Hgo]; [by eauto|].
assert (Hno : ∀ h, c ∉ pend s h).
{ intros h Hin. destruct (H2 h c Hin) as (cl' & ? & ? & [?|[o ?]]); congruence. }
assert (Hp : ∀ h, pend (cgoto c (CWait g) (upd_sa g (set_chan [Some c]) s)) h =
  if decide (h = g) then (pend s g ++ [c])%list else pend s h).
{ intros h. unfold pend. cbn. destruct (decide (h = g)) as [->|].
  - rewrite lookup_alter_eq, Hgo, Ha. cbn. rewrite Hch, !omap_app. cbn.
    by rewrite app_nil_r.
  - by rewrite lookup_alter_ne. }
split.
- intros h. rewrite Hp. case_decide; [|done]. apply NoDup_app.
  split_and!; [done| |apply NoDup_singleton]. intros x Hx ->%list_elem_of_singleton. by apply (Hno g).
- intros h c'. rewrite Hp. cbn. destruct (decide (c = c')) as [->|Hne].
  + intros Hin. rewrite lookup_alter_eq, Hcl. eexists. split_and!; [done..|].
    left. cbn. case_decide; [congruence|]. by apply Hno in Hin.
  + rewrite lookup_alter_ne by done. case_decide; [subst|apply H2].
    rewrite elem_of_app, list_elem_of_singleton. intros [Hin| ->]; [eauto|done].
- intros h h' c'. rewrite !Hp. repeat case_decide; subst; try done.
  + rewrite elem_of_app, list_elem_of_singleton. intros [Hin| ->] Hin'; [eauto|]. by apply Hno in Hin'.
  + rewrite elem_of_app, list_elem_of_singleton. intros Hin' [Hin| ->]; [eauto|]. by apply Hno in Hin'.
  + apply H3.
- intros c' cl' r. cbn. rewrite lookup_alter_Some.
  intros [(<- & x & Hx & ->)|[_ Hx]] Hr; [|eauto]. exists g. by left.
- done.
Qed.
End Pending.

Section PendingStep.
Context {W : Type} (Now : W → Time) (Source : Tokens.Provider W).
Context (SAs : ServiceAccounts.Provider W) (jwt_Subject : string → option string).
Context (Concurrency : nat) (MaxTokenDuration : Z).
Context (create_total : ∀ ref, total (createTokens Now Source SAs MaxTokenDuration ref)).
Implicit Type s : State W.

Lemma pend_same s s' :
goroutines s' = goroutines s → heap s' = heap s → clients s' = clients s → fault s' = fault s →
PendInv s → PendInv s'.
Proof.
intros E1 E2 E3 E4. apply pend_frame; [|done|rewrite E3; eauto..].
intros g. unfold pend. by rewrite E1, E2.
Qed.
Lemma pend_set_go g f s :
(∀ go, g_requests (f go) = g_requests go) → PendInv s → PendInv (upd_go g f s).
Proof. intros Hf. apply pend_frame; [by intros; apply pend_upd_go|done|eauto..]. Qed.
Lemma pend_set_sa g f s :
(∀ a, omap id (externalRequests (f a)) = omap id (externalRequests a)) →
PendInv s → PendInv (upd_sa g f s).
Proof. intros Hf. apply pend_frame; [by intros; apply pend_upd_sa|done|eauto..]. Qed.
Lemma pend_set_add ref n s : StructInv s → PendInv s → PendInv (addServiceAccount ref n s).
Proof. intros HA. apply pend_frame; [by intros; apply pend_add|done|eauto..]. Qed.

Lemma receive_pend g go a req rest s h :
goroutines s !! g = Some go → heap s !! g = Some a → externalRequests a = req :: rest →
pend (receive g req rest s) h = pend s h.
Proof.
intros Hgo Ha E. unfold pend, receive. cbn. destruct (decide (g = h)) as [<-|]; [|by rewrite !lookup_alter_ne].
rewrite !lookup_alter_eq, Hgo, Ha. cbn. by rewrite E, <- app_assoc.
Qed.
Lemma pend_receive g go a req rest s :
goroutines s !! g = Some go → heap s !! g = Some a → externalRequests a = req :: rest →
PendInv s → PendInv (receive g req rest s).
Proof. intros Hgo Ha E. apply pend_frame; [intros h; by eapply receive_pend|done|eauto..]. Qed.

Lemma pend_cache_step g b s s' :
StructInv s → PendInv s →
cacheTokens_step Now Source SAs Concurrency MaxTokenDuration g b s = Some s' → PendInv s'.
Proof.
intros HA HI H. unfold cacheTokens_step in H.
destruct (goroutines s !! g) as [go|] eqn:Hgo; [|done].
destruct (heap s !! g) as [a|] eqn:Ha; [|done]. cbn in H.
destruct (g_pc go) as [| | | | |[t|e]| | | |] eqn:Hpc, b; try done.
all: try (unfold checkIfMustDeleteAndDelete in H; rewrite Ha in H).
all: try (destruct (create_total (sa_Reference a) (world s)) as (r & w & Hr); rewrite Hr in H).
all: step_cases H.
all: apply pend_goto; try apply pend_reply.
all: try first [by eapply pend_same; [..|exact HI] | by apply pend_set_go | by apply pend_set_sa].
by eapply pend_receive.
Qed.

Lemma pend_client_step c b s s' :
StructInv s → PendInv s →
client_step Now Source Concurrency MaxTokenDuration c b s = Some s' → PendInv s'.
Proof.
intros HA HI H. unfold client_step in H.
destruct (clients s !! c) as [cl|] eqn:Hcl; [|done]. cbn in H.
assert (Hnw : ∀ pc', (match c_pc cl with CWait _ | CDone _ => False | _ => True end) →
  ∀ g, waiting g cl → waiting g (set_cpc pc' cl)).
{ intros pc' Hpc g [E|[o E]]; by rewrite E in Hpc. }
assert (Hd : ∀ o g, waiting g cl → waiting g (set_cpc (CDone o) cl)) by (intros; right; cbn; eauto).
destruct (c_pc cl) as [ref|g|g|g|k|k|k|k r|k tok exp|o] eqn:Hpc, b; try done.
all: step_cases H.
all: try (eapply pend_push; eauto; destruct (c_reply cl) eqn:E; [|done];
  destruct (pe_reply _ HI c cl _ Hcl E) as [? [?|[? ?]]]; congruence).
all: try (eapply pend_cgoto; [exact Hcl|first [by apply Hnw | by apply Hd]|];
  by first [exact HI | apply pend_set_add | eapply pend_same; [..|exact HI]]).
destruct k; (eapply pend_cgoto; [exact Hcl|by apply Hd|]; by eapply pend_same; [..|exact HI]).
Qed.

Lemma pend_step l s s' :
StructInv s → PendInv s →
step Now Source SAs jwt_Subject Concurrency MaxTokenDuration l s = Some s' → PendInv s'.
Proof.
intros HA HI H. unfold step in H. destruct (fault s); [done|]. destruct l.
9: by eapply pend_cache_step.
9: by eapply pend_client_step.
11: { apply drain_inv in H as (go & a & req & rest & ? & ? & ? & _ & ->). by eapply pend_receive. }
all: step_cases H; try (by eapply pend_same; [..|exact HI]).
- unfold AddPodServiceAccount. case_match; [by apply pend_set_sa|by apply pend_set_add].
- unfold DeletePodServiceAccount. case_match; [|done]. apply pend_set_sa; [|done].
  intros a. by case_match.
- unfold UpdateServiceAccount. case_match; [|done]. apply pend_set_sa; [|done].
  intros a. unfold wake. cbn. by destruct (externalRequests a) eqn:E; cbn; rewrite ?E.
- unfold DeleteServiceAccount. case_match; [|done]. apply pend_set_sa; [|done].
  intros a. unfold wake. cbn. by destruct (externalRequests a) eqn:E; cbn; rewrite ?E.
- revert HI. apply pend_frame; [done|done|..]; cbn.
  + intros c' cl g Hcl. rewrite lookup_insert_ne by congruence. eauto.
  + intros c' cl' resp. rewrite lookup_insert_Some. intros [[<- <-]|[_ Hx]] ?; [done|eauto].
- revert HI. apply pend_frame; [done|done|..]; cbn.
  + intros c' cl g Hcl. destruct (decide (c = c')) as [<-|].
    * rewrite lookup_alter_eq, Hcl. cbn. eauto.
    * rewrite lookup_alter_ne by done. eauto.
  + intros c' cl' resp. rewrite lookup_alter_Some.
    intros [(<- & x & Hx & ->)|[_ Hx]] ?; eauto.
Qed.

Lemma pend_reachable s :
reachable Now Source SAs jwt_Subject Concurrency MaxTokenDuration s → PendInv s.
Proof.
induction 1 as [w|s l s' Hr IH Hs].
- assert (Hn : ∀ g, pend (NewProvider w) g = []) by done.
  split; intros; rewrite ?Hn in *; try done; [constructor|set_solver..].
- eapply pend_step; [by eapply struct_reachable|done|done].
Qed.
End PendingStep.

(** ** Whose tokens are where *)

Section Tokens.
Context {W : Type} (Now : W → Time) (Source : Tokens.Provider W).
Context (SAs : ServiceAccounts.Provider W) (jwt_Subject : string → option string).
Context (Concurrency : nat) (MaxTokenDuration : Z).
Implicit Type s : State W.

(** The service account, or the key, a call is about. *)
Definition ref_of (r : call) : option Reference :=
match start jwt_Subject r with CGet ref => Some ref | _ => None end.
Definition key_of (r : call) : option cacheKey :=
match start jwt_Subject r with CLookup k => Some k | _ => None end.

(** Tokens created for a service account; below, a token the source issued to
  a call with a given key. *)
Definition issued (ref : Reference) (t : tokens) : Prop :=
∃ w w' email, createTokens Now Source SAs MaxTokenDuration ref w = (Ret (Ok (t, email)), w').
(** What the outside granted: a token of the Kubernetes service account, and
  access tokens without scopes for a Kubernetes token of the account and the
  Google account that its object was annotated with. *)
Definition kube_granted (ref : Reference) (t : tokenAndExpiration string) : Prop :=
∃ saToken exp now w w', GetServiceAccountToken Source ref w = (Ret (Ok (saToken, exp)), w') ∧
  t = newToken now saToken exp MaxTokenDuration.
Definition google_granted (ref : Reference) (t : tokenAndExpiration AccessTokens) : Prop :=
∃ sa email saToken saExp toks exp now w w',
  (∃ w0 w1, ServiceAccounts.Get SAs ref w0 = (Ret (Ok sa), w1)) ∧ GoogleServiceAccountEmail sa = Ok email ∧
  (∃ w0 w1, GetServiceAccountToken Source ref w0 = (Ret (Ok (saToken, saExp)), w1)) ∧
  GetGoogleAccessTokens Source saToken email [] w = (Ret (Ok (toks, exp)), w') ∧
  t = newToken now toks exp MaxTokenDuration.

Lemma wrap_err_ok {A} pre (m : ST W (result A)) w a w' :
wrap_err pre m w = (Ret (Ok a), w') → m w = (Ret (Ok a), w').
Proof. intros ([b|e] & s1 & Hm & H)%bind_ret; [|done]. by injection H as <- <-. Qed.
Lemma issued_granted ref t :
issued ref t → kube_granted ref (serviceAccountToken t) ∧ google_granted ref (Tokens.googleAccessTokens t).
Proof.
intros (w & w' & em & H). unfold createTokens in H.
apply bindR_ok in H as (sa & w1 & Hsa%wrap_err_ok & H).
apply bindR_ok in H as (email & w2 & [= Hem <-]%wrap_err_ok & H).
apply bindR_ok in H as ([saToken e1] & w3 & Htok%wrap_err_ok & H).
apply bindR_ok in H as ([toks e2] & w4 & Hacc%wrap_err_ok & H).
apply bind_ret in H as (w5 & w6 & _ & H). injection H as <- _ _. split.
- by exists saToken, e1, (Now w5), w1, w3.
- exists sa, email, saToken, e1, toks, e2, (Now w5), w3, w4. split_and!; eauto.
Qed.

Definition sourced (k : cacheKey) (tok : string) (exp : Time) : Prop :=
∃ r w w', key_of r = Some k ∧ source_call Source r w = (Ret (Ok (tok, exp)), w').
Definition cached_ok (k : cacheKey) (t : tokenAndExpiration string) : Prop :=
∃ tok exp now, sourced k tok exp ∧ t = newToken now tok exp MaxTokenDuration.

(** A successful answer carries tokens of the caller's own account or key. *)
Definition answered (r : call) (v : response) : Prop :=
(∃ ref t now, ref_of r = Some ref ∧ issued ref t ∧ finish r now (Ok (Some t)) = Ret (Ok v)) ∨
(∃ k t now, key_of r = Some k ∧ cached_ok k t ∧ v = key_response k now t).

Definition pc_tokens (pc : gpc) : option tokens :=
match pc with
| GRelease (Ok t) | GCheckAgain (Ok t) | GHandle (Ok t) => Some t
| GStore t _ => t
| _ => None
end.
Definition at_account s (g : nat) (cl : client) (P : Reference → Prop) : Prop :=
∃ a, heap s !! g = Some a ∧ ref_of (c_call cl) = Some (sa_Reference a) ∧ P (sa_Reference a).
Definition client_ok s (cl : client) : Prop :=
match c_pc cl with
| CGet ref => ref_of (c_call cl) = Some ref
| CRead g | CDispatch g => at_account s g cl (λ _, True)
| CWait g => at_account s g cl (λ ref, ∀ resp t,
    c_reply cl = Some resp → re_tokens resp = Some t → issued ref t)
| CLookup k | CAcquire k | CCall k => key_of (c_call cl) = Some k
| CRelease k r => key_of (c_call cl) = Some k ∧ ∀ tok exp, r = Ok (tok, exp) → sourced k tok exp
| CInsert k tok exp => key_of (c_call cl) = Some k ∧ sourced k tok exp
| CDone (Ret (Ok v)) => answered (c_call cl) v
| CDone _ => True
end.

Record TokInv s : Prop := {
to_heap g a t : heap s !! g = Some a → sa_tokens a = Some t → issued (sa_Reference a) t;
to_go g a go t : heap s !! g = Some a → goroutines s !! g = Some go →
  pc_tokens (g_pc go) = Some t → issued (sa_Reference a) t;
to_cl c cl : clients s !! c = Some cl → client_ok s cl;
to_cache k t : cache_lookup k s = Some t → cached_ok k t;
}.

Definition same_refs s s' : Prop :=
∀ g a, heap s !! g = Some a → ∃ a', heap s' !! g = Some a' ∧ sa_Reference a' = sa_Reference a.
Lemma at_account_mono s s' g cl P : same_refs s s' → at_account s g cl P → at_account s' g cl P.
Proof.
intros Hs (a & Ha & Hr & HP). destruct (Hs g a Ha) as (a' & Ha' & E).
exists a'. by rewrite E.
Qed.
Lemma client_ok_mono s s' cl : same_refs s s' → client_ok s cl → client_ok s' cl.
Proof. intros Hs. unfold client_ok. destruct (c_pc cl); eauto using at_account_mono. Qed.
Lemma same_refs_refl s s' : heap s' = heap s → same_refs s s'.
Proof. intros E g a. rewrite E. eauto. Qed.
#[local] Hint Resolve same_refs_refl : core.

Lemma tok_same s s' :
heap s' = heap s → goroutines s' = goroutines s → clients s' = clients s →
googleIDTokens s' = googleIDTokens s →
googleScopedAccessTokens s' = googleScopedAccessTokens s → TokInv s → TokInv s'.
Proof.
intros E1 E2 E3 E4 E5 [H1 H2 H3 H4]. split; rewrite ?E1, ?E2, ?E3; eauto.
- intros c cl Hc. eapply client_ok_mono; [by apply same_refs_refl|eauto].
- intros k t. unfold cache_lookup. rewrite E4, E5. apply H4.
Qed.
Lemma tok_upd_sa g f s :
(∀ a, sa_Reference (f a) = sa_Reference a) →
(∀ a t, heap s !! g = Some a → sa_tokens (f a) = Some t →
   sa_tokens a = Some t ∨ issued (sa_Reference a) t) →
TokInv s → TokInv (upd_sa g f s).
Proof.
intros Hr Ht [H1 H2 H3 H4]. split; cbn; try done.
- intros h a t. rewrite lookup_alter_Some. intros [(<- & a' & Ha & ->)|[_ Ha]] Hs; [|eauto].
  rewrite Hr. destruct (Ht a' t Ha Hs); eauto.
- intros h a go t. rewrite lookup_alter_Some. intros [(<- & a' & Ha & ->)|[_ Ha]]; [|eauto].
  rewrite Hr. eauto.
- intros c cl Hc. apply (client_ok_mono s); [|eauto]. intros h a Ha. cbn.
  destruct (decide (g = h)) as [->|]; [|rewrite lookup_alter_ne by done; eauto].
  rewrite lookup_alter_eq, Ha. cbn. eauto.
Qed.
Lemma tok_upd_go g f s :
(∀ go a t, goroutines s !! g = Some go → heap s !! g = Some a →
   pc_tokens (g_pc (f go)) = Some t → issued (sa_Reference a) t) →
TokInv s → TokInv (upd_go g f s).
Proof.
intros Hf [H1 H2 H3 H4]. split; cbn; try done.
intros h a go t Ha. rewrite lookup_alter_Some. intros [(<- & go' & Hg & ->)|[_ Hg]]; eauto.
Qed.
Lemma tok_retries g f s :
(∀ go, g_pc (f go) = g_pc go) → TokInv s → TokInv (upd_go g f s).
Proof.
intros Hf HI. apply tok_upd_go; [|done]. intros go a t Hg Ha. rewrite Hf. by eapply to_go.
Qed.
Lemma tok_goto g pc s a :
heap s !! g = Some a → (∀ t, pc_tokens pc = Some t → issued (sa_Reference a) t) →
TokInv s → TokInv (goto g pc s).
Proof. intros Ha Hp. apply tok_upd_go. intros go a' t _ Ha'. simplify_eq. apply Hp. Qed.
Lemma tok_cgoto c pc s cl :
clients s !! c = Some cl → client_ok s (set_cpc pc cl) → TokInv s → TokInv (cgoto c pc s).
Proof.
intros Hc Hok [H1 H2 H3 H4]. split; cbn; try done.
intros c' cl'. rewrite lookup_alter_Some. intros [(<- & x & Hx & ->)|[_ Hx]].
- simplify_eq. by eapply client_ok_mono; [apply same_refs_refl|].
- eapply client_ok_mono; [by apply same_refs_refl|]. eauto.
Qed.
Lemma tok_add ref n s : StructInv s → TokInv s → TokInv (addServiceAccount ref n s).
Proof.
intros HA [H1 H2 H3 H4].
assert (Hf : heap s !! next s = None) by (apply eq_None_not_Some; intros ?%(st_next _ HA); lia).
split; cbn; try done.
- intros h a t. rewrite lookup_insert_Some. intros [[<- <-]|[_ Ha]]; [done|eauto].
- intros h a go t. rewrite !lookup_insert_Some.
  intros [[<- <-]|[Hne Ha]] [[? <-]|[? Hg]]; try done; eauto.
- intros c cl Hc. apply (client_ok_mono s); [|eauto]. intros h a Ha. cbn.
  rewrite lookup_insert_ne by congruence. eauto.
Qed.
Lemma tok_send g resp s a :
PendInv s → heap s !! g = Some a →
(∀ t, re_tokens resp = Some t → issued (sa_Reference a) t) →
TokInv s → TokInv (sendResponse g resp s).
Proof.
intros HP Ha Hresp HT. destruct (sendResponse_spec g resp s HP) as (_ & Hc & _).
assert (HT' : ∀ go, goroutines s !! g = Some go →
  TokInv (upd_go g (set_requests []) (upd_sa g (set_chan []) s))).
{ intros go Hgo. apply tok_retries; [done|]. apply tok_upd_sa; [done|by left|done]. }
revert Hc. unfold sendResponse. rewrite Ha.
destruct (goroutines s !! g) as [go|] eqn:Hgo; [|done].
destruct (deliver_all_frame resp (g_requests go ++ externalRequests a)%list
  (upd_go g (set_requests []) (upd_sa g (set_chan []) s))) as (cls & f & ->).
intros Hc. destruct (HT' go eq_refl) as [H1 H2 H3 H4]. split; try done.
intros c cl. rewrite Hc. intros Hcl.
eapply client_ok_mono; [by apply same_refs_refl|]. case_decide as Hin; [|by apply (H3 c)].
destruct (pe_open _ HP g c Hin) as (cl' & Hcl' & _ & Hw). rewrite Hcl' in Hcl.
cbn in Hcl. simplify_eq. pose proof (H3 c cl' Hcl') as Hok. unfold client_ok in *. cbn.
destruct Hw as [E|[o E]]; rewrite E in *; [|done].
destruct Hok as (a' & Ha' & Hr & _). exists a'. split_and!; [done..|].
cbn in Ha'. rewrite lookup_alter_eq, Ha in Ha'. cbn in Ha'. simplify_eq. cbn.
intros r t [= <-]. apply Hresp.
Qed.

Lemma tok_check g s :
TokInv s → TokInv (checkIfMustDeleteAndDelete g s).2 ∧
heap (checkIfMustDeleteAndDelete g s).2 = heap s.
Proof.
intros HI. unfold checkIfMustDeleteAndDelete. repeat case_match; try done.
split; [|done]. by eapply tok_same; [..|exact HI].
Qed.

Lemma sendResponse_refs g resp s : same_refs s (sendResponse g resp s).
Proof.
intros h a Ha. unfold sendResponse. repeat case_match; eauto.
match goal with |- context [foldl ?f (upd_go ?g ?h ?s) ?r] =>
  destruct (deliver_all_frame resp r (upd_go g h s)) as (? & ? & ->) end. cbn.
destruct (decide (g = h)) as [->|]; [|rewrite lookup_alter_ne by done; eauto].
rewrite lookup_alter_eq, Ha. cbn. eauto.
Qed.
Lemma tok_reply g resp pc s a :
PendInv s → heap s !! g = Some a →
(∀ t, re_tokens resp = Some t → issued (sa_Reference a) t) →
(∀ t, pc_tokens pc = Some t → issued (sa_Reference a) t) →
TokInv s → TokInv (goto g pc (sendResponse g resp s)).
Proof.
intros HP Ha Hr Hp HT. destruct (sendResponse_refs g resp s g a Ha) as (a' & Ha' & E).
eapply tok_goto; [done|by rewrite E|]. by eapply tok_send.
Qed.

Lemma tok_receive g req rest s : TokInv s → TokInv (receive g req rest s).
Proof. intros HI. apply tok_retries; [done|]. apply tok_upd_sa; [done|by left|done]. Qed.
Lemma tok_cache_step g b s s' :
PendInv s → TokInv s →
cacheTokens_step Now Source SAs Concurrency MaxTokenDuration g b s = Some s' → TokInv s'.
Proof.
intros HP HI H. unfold cacheTokens_step in H.
destruct (goroutines s !! g) as [go|] eqn:Hgo; [|done].
destruct (heap s !! g) as [a|] eqn:Ha; [|done]. cbn in H.
pose proof (λ t, to_go _ HI g a go t Ha Hgo) as Hpt.
destruct (g_pc go) as [| | | |r|[t|e]| | | |] eqn:Hpc, b; try done.
4: { destruct (createTokens _ _ _ _ _ _) as [o w] eqn:Hcr.
     assert (HI' : TokInv (set_world w s)) by (by eapply tok_same; [..|exact HI]).
     step_cases H; first [eapply tok_goto; [exact Ha| |done]; cbn; intros ? [= <-]; red; eauto
       | eapply tok_goto; [exact Ha|done|done] | by eapply tok_same; [..|exact HI]]. }
1, 5: destruct (tok_check g s HI) as [HI' Hh];
  destruct (checkIfMustDeleteAndDelete g s) as [del s1]; cbn in *; simplify_eq;
  eapply tok_goto; [by rewrite Hh| |done]; destruct del; cbn; try done.
all: step_cases H.
all: try (eapply tok_goto; [first [exact Ha | cbn; by rewrite ?lookup_alter_eq, Ha]|
  first [done | intros ? ?; by apply Hpt]|];
  first [exact HI | by eapply tok_same; [..|exact HI] | by apply tok_retries]).
- eapply tok_reply; [by apply pend_set_go|exact Ha|done|done|by apply tok_retries].
- eapply tok_reply; [by apply pend_set_go|exact Ha|done|done|by apply tok_retries].
- eapply tok_goto; [cbn; by rewrite lookup_alter_eq, Ha|done|].
  apply tok_upd_sa; [done| |done]. intros a' t' Ha' Ht. simplify_eq. right. by apply Hpt.
- eapply tok_goto; [cbn; by rewrite lookup_alter_eq, Ha|done|by apply tok_receive].
- by eapply tok_reply.
Qed.

#[local] Arguments finish : simpl never.
Lemma finish_ok s cl now res :
(∀ t, res = Ok (Some t) → ∃ ref, ref_of (c_call cl) = Some ref ∧ issued ref t) →
client_ok s (set_cpc (CDone (finish (c_call cl) now res)) cl).
Proof.
intros Hres. unfold client_ok. cbn. destruct (finish _ _ _) as [[v|e]|m] eqn:Hf; try done.
destruct res as [[t|]|e]; [|done..]. destruct (Hres t eq_refl) as (ref & Hr & Ht).
left. by exists ref, t, now.
Qed.

Lemma tok_client_step c b s s' :
StructInv s → PendInv s → TokInv s →
client_step Now Source Concurrency MaxTokenDuration c b s = Some s' → TokInv s'.
Proof.
intros HA HP HI H. unfold client_step in H.
destruct (clients s !! c) as [cl|] eqn:Hcl; [|done]. cbn in H.
pose proof (to_cl _ HI c cl Hcl) as Hok. unfold client_ok in Hok.
destruct (c_pc cl) as [ref|g|g|g|k|k|k|k r|k tok exp|o] eqn:Hpc, b; try done.
3: { step_cases H. eapply tok_cgoto; [exact Hcl| |apply tok_upd_sa; [done|by left|done]].
     destruct Hok as (a & Ha & Hr & _). exists (set_chan [Some c] a).
     cbn. rewrite lookup_alter_eq, Ha. cbn. split_and!; [done..|].
     intros resp t Hrep _. destruct (pe_reply _ HP c cl _ Hcl Hrep) as [? [?|[? ?]]]; congruence. }
12: { destruct (source_call _ _ _) as [o w] eqn:Hsrc. step_cases H;
      (eapply tok_cgoto; [exact Hcl| |by eapply tok_same; [..|exact HI]]);
      unfold client_ok; cbn; [|done]. split; [done|]. intros tok exp ->. by exists (c_call cl), (world s), w. }
all: step_cases H.
all: try (eapply tok_cgoto; [exact Hcl| |by first [exact HI | eapply tok_same; [..|exact HI]]]).
all: try (first [apply (finish_ok s cl) | unfold client_ok; cbn; try done; try tauto]).
- destruct (st_map _ HA ref _ ltac:(eassumption)) as (a & go & Ha & Hr & _).
  exists a. rewrite Hr. done.
- eapply tok_cgoto; [exact Hcl| |by apply tok_add]. eexists. cbn. rewrite lookup_insert_eq.
  split_and!; [done|done|done].
- intros t' [= <-]. destruct Hok as (a & Ha & Hr & _). simplify_eq.
  eexists. split; [done|]. by eapply to_heap.
- done.
- intros t' Ht. destruct Hok as (a & Ha & Hr & Ht'). exists (sa_Reference a).
  split; [done|]. injection Ht as Ht. by eapply Ht'.
- right. eexists k, _, _. split_and!; [done| |done]. by eapply to_cache.
- destruct Hok as [Hk Hs]. split; [done|]. by apply Hs.
- destruct Hok as [Hk Hs].
  eapply tok_cgoto; [by destruct k| |].
  + unfold client_ok. cbn. right. eexists k, _, _. split_and!; [done| |done]. by eexists _, _, _.
  + destruct HI as [H1 H2 H3 H4].
    assert (Hc : cached_ok k (newToken (Now (world s)) tok exp MaxTokenDuration))
      by (by eexists _, _, _).
    split; [by destruct k|by destruct k| |].
    * intros c' cl' Hc'. apply (client_ok_mono s); [apply same_refs_refl; by destruct k|].
      apply (H3 c'). by destruct k.
    * intros k' t Ht. destruct k as [r|r], k' as [r'|r']; cbn in Ht;
        try (by apply (H4 (KID r')) in Ht); try (by apply (H4 (KScoped r')) in Ht);
        rewrite lookup_insert_Some in Ht; destruct Ht as [[<- <-]|[_ Ht]]; try done;
        first [by apply (H4 (KID r')) in Ht | by apply (H4 (KScoped r')) in Ht].
Qed.

Lemma purge_cache {K} `{Countable K} now (m : gmap K (tokenAndExpiration string)) k t :
keep_fresh now m !! k = Some t → m !! k = Some t.
Proof. unfold keep_fresh. rewrite map_lookup_filter_Some. by intros [? _]. Qed.

Lemma tok_step l s s' :
StructInv s → PendInv s → TokInv s →
step Now Source SAs jwt_Subject Concurrency MaxTokenDuration l s = Some s' → TokInv s'.
Proof.
intros HA HP HI H. unfold step in H. destruct (fault s); [done|]. destruct l.
9: by eapply tok_cache_step.
9: by eapply tok_client_step.
11: { apply drain_inv in H as (go & a & req & rest & _ & _ & _ & _ & ->). by apply tok_receive. }
all: step_cases H; try (by eapply tok_same; [..|exact HI]).
- unfold AddPodServiceAccount. case_match; [by apply tok_upd_sa; [done|by left|]|by apply tok_add].
- unfold DeletePodServiceAccount. case_match; [|done].
  apply tok_upd_sa; [|left|done]; intros; by case_match.
- unfold UpdateServiceAccount. case_match; [|done]. apply tok_upd_sa; [apply wake_Reference| |done].
  intros a t Ha. unfold wake. cbn. destruct (externalRequests a); by left.
- unfold DeleteServiceAccount. case_match; [|done]. apply tok_upd_sa; [apply wake_Reference| |done].
  intros a t Ha. unfold wake. cbn. destruct (externalRequests a); by left.
- destruct HI as [H1 H2 H3 H4]. split; try done. intros c' cl. cbn.
  rewrite lookup_insert_Some. intros [[<- <-]|[_ Hx]].
  + unfold client_ok, ref_of, key_of. cbn. unfold start. by repeat case_match; simplify_eq.
  + eapply client_ok_mono; [by apply same_refs_refl|eauto].
- destruct HI as [H1 H2 H3 H4]. split; try done. intros c' cl. cbn.
  rewrite lookup_alter_Some. intros [(<- & x & Hx & ->)|[_ Hx]].
  + apply H3 in Hx. exact Hx.
  + apply H3 in Hx. exact Hx.
- destruct HI as [H1 H2 H3 H4]. split; try done. intros [r|r] t; cbn.
  + intros Ht%purge_cache. by apply (H4 (KID r)).
  + apply (H4 (KScoped r)).
- destruct HI as [H1 H2 H3 H4]. split; try done. intros [r|r] t; cbn.
  + apply (H4 (KID r)).
  + intros Ht%purge_cache. by apply (H4 (KScoped r)).
Qed.

Lemma tok_reachable s :
(∀ ref, total (createTokens Now Source SAs MaxTokenDuration ref)) →
reachable Now Source SAs jwt_Subject Concurrency MaxTokenDuration s → TokInv s.
Proof.
intros Ht. induction 1 as [w|s l s' Hr IH Hs].
- split; cbn; intros; rewrite ?lookup_empty in *; try done. by destruct k; cbn in *.
- eapply tok_step; [by eapply struct_reachable|by eapply pend_reachable|done|done].
Qed.
End Tokens.

(** ** Retries *)

Definition RetryInv {W} (s : State W) : Prop :=
  ∀ g go, goroutines s !! g = Some go → 0 ≤ g_retries go ≤ 5.

Section Retries.
Context {W : Type} (Now : W → Time) (Source : Tokens.Provider W).
Context (SAs : ServiceAccounts.Provider W) (jwt_Subject : string → option string).
Context (Concurrency : nat) (MaxTokenDuration : Z).
Implicit Type s : State W.

Lemma retry_upd_go g f s :
(∀ go, goroutines s !! g = Some go → 0 ≤ g_retries go ≤ 5 → 0 ≤ g_retries (f go) ≤ 5) →
RetryInv s → RetryInv (upd_go g f s).
Proof.
intros Hf HI h go. cbn. rewrite lookup_alter_Some.
intros [(<- & go' & Hg & ->)|[_ Hg]]; [|by eapply HI]. apply Hf; [done|by eapply HI].
Qed.
Lemma retry_goto g pc s : RetryInv s → RetryInv (goto g pc s).
Proof. by apply retry_upd_go. Qed.
Lemma retry_send g resp s : RetryInv s → RetryInv (sendResponse g resp s).
Proof.
intros HI. unfold sendResponse. repeat case_match; try done.
match goal with |- context [foldl ?f (upd_go ?g ?h ?s) ?r] =>
  destruct (deliver_all_frame resp r (upd_go g h s)) as (? & ? & ->) end.
by apply (retry_upd_go g (set_requests []) s).
Qed.
Lemma retry_same s s' : goroutines s' = goroutines s → RetryInv s → RetryInv s'.
Proof. unfold RetryInv. by intros ->. Qed.
Lemma retry_add ref n s : RetryInv s → RetryInv (addServiceAccount ref n s).
Proof.
intros HI h go. cbn. rewrite lookup_insert_Some. intros [[<- <-]|[_ Hg]]; [cbn; lia|by eapply HI].
Qed.

Lemma retry_step l s s' :
RetryInv s → step Now Source SAs jwt_Subject Concurrency MaxTokenDuration l s = Some s' →
RetryInv s'.
Proof.
intros HI H. unfold step in H. destruct (fault s); [done|]. destruct l.
9: { unfold cacheTokens_step in H. destruct (goroutines s !! g) as [go|] eqn:Hgo; [|done].
     destruct (heap s !! g) as [a|] eqn:Ha; [|done]. cbn in H.
     pose proof (HI g go Hgo) as Hn.
     destruct (g_pc go) as [| | | | |[t|e]| | | |] eqn:Hpc, b; try done.
     all: try (unfold checkIfMustDeleteAndDelete in H; rewrite Ha in H).
     4: destruct (createTokens _ _ _ _ _ _) as [o w].
     all: step_cases H; try apply retry_goto; try apply retry_send.
     all: try (by eapply retry_same; [..|exact HI]).
     all: apply retry_upd_go; try done; cbn; intros; lia. }
9: { unfold client_step in H. destruct (clients s !! c) as [cl|] eqn:Hcl; [|done]. cbn in H.
     destruct (c_pc cl) as [ref|g|g|g|k|k|k|k r|k tok exp|o] eqn:Hpc, b; try done.
     all: try destruct (source_call _ _ _) as [o w].
     all: step_cases H; try (by eapply retry_same; [..|exact HI]).
     - by eapply retry_same; [|apply retry_add].
     - destruct k; (by eapply retry_same; [..|exact HI]). }
11: { apply drain_inv in H as (go & a & req & rest & _ & _ & _ & _ & ->). by apply retry_upd_go. }
all: step_cases H; try (by eapply retry_same; [..|exact HI]).
- unfold AddPodServiceAccount. case_match; [by eapply retry_same; [..|exact HI]|by apply retry_add].
- unfold DeletePodServiceAccount. case_match; [|done]. by eapply retry_same; [..|exact HI].
- unfold UpdateServiceAccount. case_match; [|done]. by eapply retry_same; [..|exact HI].
- unfold DeleteServiceAccount. case_match; [|done]. by eapply retry_same; [..|exact HI].
Qed.
Lemma retry_reachable s :
reachable Now Source SAs jwt_Subject Concurrency MaxTokenDuration s → RetryInv s.
Proof. induction 1; [by intros g go|by eapply retry_step]. Qed.
End Retries.

Lemma backoff_value n : 0 ≤ n ≤ 5 → backoff n = 2 ^ n * Second ∧ Second ≤ backoff n ≤ 32 * Second.
Proof.
  intros Hn. assert (n = 0 ∨ n = 1 ∨ n = 2 ∨ n = 3 ∨ n = 4 ∨ n = 5) as Hc by lia.
  destruct Hc as [-> | [-> | [-> | [-> | [-> | ->]]]]]; by vm_compute.
Qed.

(** ** Requests handed to a goroutine that is gone *)

(** [c] waits, without a reply, in the channel of a goroutine that returned. *)
Definition stranded {W} (s : State W) (g c : nat) : Prop :=
  (∃ go, goroutines s !! g = Some go ∧ g_pc go = GDone) ∧ c ∈ pend s g ∧
  (∃ cl, clients s !! c = Some cl ∧ c_pc cl = CWait g ∧ c_ctxErr cl = None) ∧
  ctxDone s = false.

Section Stranded.
Context {W : Type} (Now : W → Time) (Source : Tokens.Provider W).
Context (SAs : ServiceAccounts.Provider W) (jwt_Subject : string → option string).
Context (Concurrency : nat) (MaxTokenDuration : Z).
Implicit Type s : State W.

(** A step elsewhere: the goroutine and the client stay, and the channel only
  changes when it was empty. *)
Record elsewhere (g c : nat) s s' : Prop := {
el_go : goroutines s' !! g = goroutines s !! g;
el_heap a : heap s !! g = Some a → ∃ a', heap s' !! g = Some a' ∧
  (externalRequests a' = externalRequests a ∨ externalRequests a = []);
el_client : clients s' !! c = clients s !! c;
el_ctx : ctxDone s' = ctxDone s;
}.
Lemma elsewhere_stranded g c s s' : elsewhere g c s s' → stranded s g c → stranded s' g c.
Proof.
intros [Hg Hh Hc Hx] ((go & Hgo & Hpc) & Hin & Hcl & Hd). unfold stranded.
rewrite Hg, Hc, Hx. split_and!; eauto. revert Hin. unfold pend. rewrite Hg, Hgo.
destruct (heap s !! g) as [a|] eqn:Ha; [|set_solver].
destruct (Hh a eq_refl) as (a' & -> & [->|E]); [done|]. rewrite E, app_nil_r, omap_app. set_solver.
Qed.
Lemma elsewhere_same g c s s' :
goroutines s' !! g = goroutines s !! g → heap s' !! g = heap s !! g →
clients s' !! c = clients s !! c → ctxDone s' = ctxDone s → elsewhere g c s s'.
Proof. intros E1 E2 E3 E4. split; try done. rewrite E2. eauto. Qed.

Lemma sendResponse_elsewhere g c h resp s :
PendInv s → h ≠ g → c ∈ pend s g →
elsewhere g c s (sendResponse h resp s).
Proof.
intros HP Hne Hin. destruct (sendResponse_spec h resp s HP) as (_ & Hc & _).
apply elsewhere_same; [| | |apply sendResponse_ctx].
3: { rewrite Hc, decide_False; [done|]. intros Hin'. by eapply Hne, pe_unique. }
all: clear Hc; unfold sendResponse; repeat case_match; try done;
  match goal with |- context [foldl ?f (upd_go ?g ?h ?s) ?r] =>
    destruct (deliver_all_frame resp r (upd_go g h s)) as (? & ? & ->) end;
  cbn; by rewrite lookup_alter_ne.
Qed.

Lemma cache_step_stranded h b s s' g c :
PendInv s → cacheTokens_step Now Source SAs Concurrency MaxTokenDuration h b s = Some s' →
stranded s g c → stranded s' g c.
Proof.
intros HP H HS. pose proof HS as ((go & Hgo & Hpc) & Hin & _ & _).
unfold cacheTokens_step in H.
destruct (decide (h = g)) as [->|Hne].
{ rewrite Hgo in H. destruct (heap s !! g); [|done]. cbn in H. rewrite Hpc in H. by destruct b. }
destruct (goroutines s !! h) as [ho|] eqn:Hho; [|done].
destruct (heap s !! h) as [a|] eqn:Ha; [|done]. cbn in H.
destruct (g_pc ho) as [| | | | |[t|e]| | | |] eqn:Hpch, b; try done.
all: try (unfold checkIfMustDeleteAndDelete in H; rewrite Ha in H).
4: destruct (createTokens _ _ _ _ _ _) as [o w].
all: step_cases H.
all: try (revert HS; apply elsewhere_stranded, elsewhere_same; cbn;
  by rewrite ?lookup_alter_ne by done).
all: assert (Hgoto : ∀ pc s1, stranded s1 g c → stranded (goto h pc s1) g c) by
  (intros pc s1; apply elsewhere_stranded, elsewhere_same; cbn; by rewrite ?lookup_alter_ne by done).
all: apply Hgoto; revert HS; try (by apply elsewhere_stranded, sendResponse_elsewhere).
all: intros HS; eapply elsewhere_stranded;
  [apply sendResponse_elsewhere; [by apply pend_set_go|done|by rewrite pend_upd_go]|];
  revert HS; apply elsewhere_stranded, elsewhere_same; cbn; by rewrite ?lookup_alter_ne by done.
Qed.

Lemma client_step_stranded d b s s' g c :
StructInv s → PendInv s → client_step Now Source Concurrency MaxTokenDuration d b s = Some s' →
stranded s g c → stranded s' g c.
Proof.
intros HA HP H HS. pose proof HS as ((go & Hgo & Hpc) & Hin & (cl & Hcl & Hw & He) & Hx).
destruct (pe_open _ HP g c Hin) as (cl' & Hcl' & Hrep & _). simplify_eq.
unfold client_step in H. destruct (decide (d = c)) as [->|Hne].
{ rewrite Hcl in H. cbn in H. rewrite Hw in H. destruct b; try done; cbn in H.
  - by rewrite Hrep in H.
  - by rewrite He in H.
  - by rewrite Hx in H. }
destruct (clients s !! d) as [dl|] eqn:Hdl; [|done]. cbn in H.
destruct (c_pc dl) as [ref|i|i|i|k|k|k|k r|k tok exp|o] eqn:Hpcd, b; try done.
all: try destruct (source_call _ _ _) as [o w].
all: step_cases H; revert HS; apply elsewhere_stranded.
all: try (apply elsewhere_same; cbn; by rewrite ?lookup_alter_ne by done).
- assert (next s ≠ g).
  { intros <-. assert (next s < next s)%nat; [|lia]. apply (st_next _ HA), (st_dom _ HA). eauto. }
  apply elsewhere_same; cbn; by rewrite ?lookup_alter_ne, ?lookup_insert_ne by done.
- split; cbn; try done; [|by rewrite lookup_alter_ne]. intros a Ha.
  destruct (decide (i = g)) as [->|]; [|rewrite lookup_alter_ne by done; eauto].
  rewrite lookup_alter_eq, Ha. eexists. split; [done|]. simplify_eq. by right.
- apply elsewhere_same; cbn; rewrite ?lookup_alter_ne by done; by destruct k.
Qed.

Lemma step_stranded l s s' g c :
StructInv s → PendInv s →
step Now Source SAs jwt_Subject Concurrency MaxTokenDuration l s = Some s' →
l ≠ Close → (∀ e, l ≠ CancelRequest c e) → stranded s g c → stranded s' g c.
Proof.
intros HA HP H Hl1 Hl2 HS. unfold step in H. destruct (fault s); [done|].
pose proof HS as ((go & Hgo & Hpc) & Hin & (cl & Hcl & Hw & He) & Hx).
assert (Hsa : ∀ h f, (∀ a, externalRequests (f a) = externalRequests a ∨ externalRequests a = []) →
  stranded (upd_sa h f s) g c).
{ intros h f Hf. revert HS. apply elsewhere_stranded. split; cbn; try done. intros a Ha.
  destruct (decide (h = g)) as [->|]; [|rewrite lookup_alter_ne by done; eauto].
  rewrite lookup_alter_eq, Ha. eexists. by split. }
assert (Hwk : ∀ d a, externalRequests (wake (set_deleted d a)) = externalRequests a ∨
                     externalRequests a = []).
{ intros d a. unfold wake. cbn. destruct (externalRequests a) eqn:E; [by right|left]. cbn. by rewrite ?E. }
destruct l; try done.
8: by eapply cache_step_stranded.
8: by eapply client_step_stranded.
10: { apply drain_inv in H as (ho & a & req & rest & Hho & _ & _ & Hd & ->).
  destruct (decide (g0 = g)) as [->|Hne]; [simplify_eq; by rewrite Hpc in Hd|].
  revert HS; apply elsewhere_stranded, elsewhere_same; cbn; by rewrite ?lookup_alter_ne by done. }
all: step_cases H; try (revert HS; apply elsewhere_stranded, elsewhere_same; by cbn).
- unfold AddPodServiceAccount. case_match; [apply Hsa; by left|].
  assert (next s ≠ g).
  { intros <-. assert (next s < next s)%nat; [|lia]. apply (st_next _ HA), (st_dom _ HA). eauto. }
  revert HS; apply elsewhere_stranded, elsewhere_same; cbn; by rewrite ?lookup_insert_ne by done.
- unfold DeletePodServiceAccount. case_match; [|done]. apply Hsa. intros a. left. by case_match.
- unfold UpdateServiceAccount. case_match; [|done]. apply Hsa, Hwk.
- unfold DeleteServiceAccount. case_match; [|done]. apply Hsa, Hwk.
- revert HS; apply elsewhere_stranded, elsewhere_same; cbn; try done.
  rewrite lookup_insert_ne; [done|]. intros ->. congruence.
- revert HS; apply elsewhere_stranded, elsewhere_same; cbn; try done.
  rewrite lookup_alter_ne; [done|]. intros ->. by apply (Hl2 e).
Qed.
End Stranded.
