(* ===== verification/TokenCacheTheorems.v ===== *)
(** * The token cache: what it guarantees, and where it fails

    The properties of the machine of TokenCache.v in terms of its reachable
    states, with executions of an example provider as witnesses. *)

From S2P Require Import Prelude GoStrings GoTime Credentials Api ServiceAccounts Tokens.
From S2P Require Import TokenCache TokenCacheProofs.
Open Scope string_scope.
Open Scope Z_scope.

(** ** An example provider *)

(** The world is a clock; tokens last one hour. *)
Module CacheExample.
Definition Now (w : Z) : Time := clock w w.
Definition Source : Tokens.Provider Z :=
{| GetServiceAccountToken ref :=
     λ w, (Ret (Ok ("system:serviceaccount:" +:+ Namespace ref +:+ ":" +:+ Name ref,
                    {| t_wall := w + Hour; t_mono := None |})), w);
   GetGoogleAccessTokens saToken email scopes :=
     λ w, (Ret (Ok ({| DirectAccess := saToken +:+ "/" +:+ join "," scopes;
                       Impersonated := default "" email |},
                    {| t_wall := w + Hour; t_mono := None |})), w);
   GetGoogleIdentityToken ref accessToken email audience :=
     λ w, (Ret (Ok (email +:+ "/" +:+ audience, {| t_wall := w + Hour; t_mono := None |})), w) |}.
Definition SAs : ServiceAccounts.Provider Z :=
{| Get ref := λ w, (Ret (Ok {| Kube.sa_Name := Name ref; Kube.sa_Namespace := Namespace ref;
                               Kube.sa_Annotations := ∅ |}), w) |}.
Definition jwt (token : string) : option string := Some token.
Definition ref : Reference := {| Name := "app"; Namespace := "default" |}.
Definition go (g : nat) : label Z := RunGoroutine g BGo.
Definition cl (c : nat) : label Z := RunClient c BGo.
Definition run := TokenCache.run Now Source SAs jwt 1 0.
Definition reachable := TokenCache.reachable Now Source SAs jwt 1 0.

Lemma create_total r : total (createTokens Now Source SAs 0 r).
Proof. intros w. eexists _, _. reflexivity. Qed.
Lemma source_total r : total (source_call Source r).
Proof. intros w. by destruct r; eexists _, _. Qed.

(** The state after an execution from the initial state. *)
Definition after (ls : list (label Z)) : State Z := default (NewProvider 0) (run ls (NewProvider 0)).
Lemma run_reachable ls s s' : reachable s → run ls s = Some s' → reachable s'.
Proof.
revert s. induction ls as [|l ls IH]; intros s Hr; cbn; [by intros [= <-]|].
destruct (step _ _ _ _ _ _ _ _) eqn:E; cbn; [|done].
apply IH. by eapply reach_step.
Qed.
Lemma after_reachable ls : reachable (after ls).
Proof.
unfold after. destruct (run ls (NewProvider 0)) eqn:E; cbn; [|apply reach_init].
eapply run_reachable; [apply reach_init|done].
Qed.

(** A request that waits for the first tokens of an account with one pod. *)
Definition served : list (label Z) :=
[AddPod ref; Call 0 (CallServiceAccountToken ref); cl 0; cl 0; cl 0;
 go 0; go 0; go 0; go 0; go 0; go 0; RunClient 0 BRecv].
End CacheExample.

#[local] Arguments join : simpl never.

Section Theorems.
Context {W : Type} (Now : W → Time) (Source : Tokens.Provider W).
Context (SAs : ServiceAccounts.Provider W) (jwt_Subject : string → option string).
Context (Concurrency : nat) (MaxTokenDuration : Z).
#[local] Abbreviation reachable :=
(TokenCache.reachable Now Source SAs jwt_Subject Concurrency MaxTokenDuration).
#[local] Abbreviation step :=
(TokenCache.step Now Source SAs jwt_Subject Concurrency MaxTokenDuration).
Implicit Type s : State W.

(** C2: tokens never cross accounts.  In every reachable state, under every
  interleaving, what an answered request got was granted outside to its own
  account.  A service account token is one that the source issued for the
  service account asked about.  Access tokens without scopes were issued for
  a service account token of the same account and for the Google account in
  the annotation of its object, whatever email the call came with; access
  tokens with scopes for a token of the same account, with the same email and
  the same scopes; an identity token for the same account, email and
  audience. *)
Theorem cache_isolation s c cl v :
(∀ ref, total (createTokens Now Source SAs MaxTokenDuration ref)) →
reachable s → clients s !! c = Some cl → c_pc cl = CDone (Ret (Ok v)) →
match c_call cl with
| CallServiceAccountToken ref => ∃ saToken exp now0 now w w',
    GetServiceAccountToken Source ref w = (Ret (Ok (saToken, exp)), w') ∧
    v = RToken saToken (expiration now (newToken now0 saToken exp MaxTokenDuration))
| CallGoogleAccessTokens saToken email scopes =>
    ∃ ref, ReferenceFromToken jwt_Subject saToken = Ret ref ∧
    (scopes = [] → ∃ sa saToken' saExp toks exp now0 now w w',
       (∃ w0 w1, ServiceAccounts.Get SAs ref w0 = (Ret (Ok sa), w1)) ∧
       (∃ w0 w1, GetServiceAccountToken Source ref w0 = (Ret (Ok (saToken', saExp)), w1)) ∧
       GetGoogleAccessTokens Source saToken' (Kube.sa_Annotations sa !! GKEAnnotationServiceAccount) [] w =
         (Ret (Ok (toks, exp)), w') ∧
       v = RAccess toks (expiration now (newToken now0 toks exp MaxTokenDuration))) ∧
    (scopes ≠ [] → ∃ saToken' email' scopes' w w' toks exp now0 now,
       ReferenceFromToken jwt_Subject saToken' = Ret ref ∧
       default "" email' = default "" email ∧
       (Forall (λ x, ¬ str_in comma x) (scopes ++ scopes')%list → scopes' = scopes) ∧
       GetGoogleAccessTokens Source saToken' email' scopes' w = (Ret (Ok (toks, exp)), w') ∧
       let tok := if bool_decide (DirectAccess toks = "") then Impersonated toks
                  else DirectAccess toks in
       v = RAccess {| DirectAccess := tok; Impersonated := "" |}
                   (expiration now (newToken now0 tok exp MaxTokenDuration)))
| CallGoogleIdentityToken ref at_ email aud =>
    ∃ at' w w' tok exp now0 now,
      GetGoogleIdentityToken Source ref at' email aud w = (Ret (Ok (tok, exp)), w') ∧
      v = RToken tok (expiration now (newToken now0 tok exp MaxTokenDuration))
end.
Proof.
intros Ht Hr Hcl Hpc.
pose proof (to_cl _ _ _ _ _ _ (tok_reachable _ _ _ _ _ _ s Ht Hr) c cl Hcl) as Hok.
unfold client_ok in Hok. rewrite Hpc in Hok. clear Hpc Hcl. unfold answered in Hok.
destruct (c_call cl) as [ref|saToken email scopes|ref at_ email aud]; unfold ref_of, key_of in Hok; cbn in Hok.
- destruct Hok as [(r & t & now & [= <-] & [Hk _]%issued_granted & [= <-])|(k & t & now & [=] & _)].
  destruct Hk as (saToken & exp & now0 & w & w' & Hs & ->). by exists saToken, exp, now0, now, w, w'.
- destruct (ReferenceFromToken jwt_Subject saToken) as [ref|m] eqn:Href; [|naive_solver].
  exists ref. split; [done|]. destruct scopes as [|sc scopes].
  + destruct Hok as [(r & t & now & [= <-] & [_ Hg]%issued_granted & [= <-])|(k & t & now & [=] & _)].
    split; [intros _|done]. destruct Hg as (sa & em & st & e & toks & exp & now0 & w & w' & Hsa & Hem & Hst & Hg & ->).
    exists sa, st, e, toks, exp, now0, now, w, w'. rewrite (annotation_email sa em Hem). by split_and!.
  + destruct Hok as [(r & t & now & [=] & _)|(k & t & now & [= <-] & Hc & ->)]. split; [done|]. intros _.
    destruct Hc as (tok & exp & now0 & (r' & w & w' & Hk & Hs) & ->).
    destruct r' as [?|saToken' email' scopes'|? ? ? ?]; unfold key_of in Hk; cbn in Hk; try done.
    destruct (ReferenceFromToken jwt_Subject saToken') as [ref'|m] eqn:Href'; [|done].
    destruct scopes' as [|sc' scopes']; [done|]. injection Hk as -> He Hj.
    cbn [source_call] in Hs. apply bindR_ok in Hs as ([toks exp'] & w1 & HG & Hs). injection Hs as <- <- ->.
    eexists saToken', email', _, w, w', toks, _, now0, now. split_and!; [done|done| |done|done].
    intros [Hf Hf']%Forall_app. change "," with (one comma) in Hj.
    rewrite <- (split_join comma (sc' :: scopes')), Hj by done. by apply split_join.
- destruct Hok as [(r & t & now & [=] & _)|(k & t & now & [= <-] & Hc & ->)].
  destruct Hc as (tok & exp & now0 & (r' & w & w' & Hk & Hs) & ->).
  destruct r' as [?|saToken' email' scopes'|ref' at' email' aud']; unfold key_of in Hk; cbn in Hk; try done.
  + by destruct (ReferenceFromToken _ _); [destruct scopes'|].
  + simplify_eq. cbn in Hs. eauto 10.
Qed.

(** C12: one refresher per account.  Two goroutines that still serve never
  share a service account; each is the one the map names; while the
  provider is open every entry of the map has one; the gauge counts the
  entries; pod counts never go negative. *)
Theorem single_refresher s :
reachable s →
(∀ g h go ho a b, goroutines s !! g = Some go → goroutines s !! h = Some ho →
   active (g_pc go) → active (g_pc ho) → heap s !! g = Some a → heap s !! h = Some b →
   sa_Reference a = sa_Reference b → g = h) ∧
(∀ ref g, ctxDone s = false → serviceAccounts s !! ref = Some g →
   ∃ a go, heap s !! g = Some a ∧ sa_Reference a = ref ∧
           goroutines s !! g = Some go ∧ active (g_pc go)) ∧
numTokens s = Z.of_nat (size (serviceAccounts s)) ∧
(∀ g a, heap s !! g = Some a → 0 ≤ podCount a).
Proof.
intros Hr%struct_reachable. split_and!.
- intros g h go ho a b Hg Hh Hag Hah Ha Hb E.
  destruct (st_active _ Hr g go Hg Hag) as (a' & Ha' & Hm).
  destruct (st_active _ Hr h ho Hh Hah) as (b' & Hb' & Hm'). congruence.
- intros ref g Hc Hm. destruct (st_map _ Hr ref g Hm) as (a & go & ? & ? & ? & [?|?]); [|congruence].
  eauto 10.
- apply (st_gauge _ Hr).
- intros g a Ha. apply (st_sa _ Hr g a Ha).
Qed.

(** C25: the semaphore counts exactly the goroutines that are issuing tokens,
  and there are never more of them than the configured concurrency. *)
Theorem issuing_bounded s :
(∀ r, total (source_call Source r)) → reachable s →
semaphore s = holders s ∧ (holders s ≤ Concurrency)%nat.
Proof. intros Ht [H1 H2]%sem_reachable; [|done]. lia. Qed.

(** No background goroutine ever sends twice on a request's channel (a
  send on a closed channel would end the process): every request waits in
  one place only, and has no reply there. *)
Theorem replies_once s :
(∀ ref, total (createTokens Now Source SAs MaxTokenDuration ref)) → reachable s →
fault s = None ∧
∀ g c, c ∈ pend s g →
  (∃ cl, clients s !! c = Some cl ∧ c_reply cl = None) ∧
  (∀ h, c ∈ pend s h → h = g) ∧ NoDup (pend s g).
Proof.
intros Ht Hr%pend_reachable; [|done]. split; [apply Hr|]. intros g c Hin. split_and!.
- destruct (pe_open _ Hr g c Hin) as (cl & ? & ? & _). eauto.
- intros h Hh. by eapply pe_unique.
- apply (pe_nodup _ Hr).
Qed.

#[local] Abbreviation RunG g := (RunGoroutine g BGo).
Lemma goroutine_heap s g go : StructInv s → goroutines s !! g = Some go → ∃ a, heap s !! g = Some a.
Proof. intros HA Hg. destruct (proj2 (st_dom _ HA g)); eauto. Qed.

(** How long the goroutine sleeps after a refresh, the tokens it keeps, its
  count of retries, and whether it answers, with what. *)
Definition sleep_after (now : Time) (retries : Z) (r : result tokens) : Z :=
match r with
| Ok t => let d := tokens_timeUntilExpiration now t in if Minute <=? d then d - Minute else d
| Err e => if errors_Is e ErrGKEAnnotationInvalid then infinite else 2 ^ retries * Second
end.
Definition tokens_after (r : result tokens) : option tokens := match r with Ok t => Some t | Err _ => None end.
Definition answers (r : result tokens) : bool :=
match r with Ok _ => true | Err e => errors_Is e ErrGKEAnnotationInvalid end.
Definition retries_after (retries : Z) (r : result tokens) : Z :=
if answers r then 0 else Z.min 5 (retries + 1).
Definition reply_after (r : result tokens) : tokensAndError :=
{| re_tokens := tokens_after r; re_err := match r with Ok _ => None | Err e => Some e end |}.

(** A refresh that is answered: everybody is told, nobody is left. *)
Lemma answer_step s g go a resp pc :
PendInv s → goroutines s !! g = Some go → heap s !! g = Some a →
let s' := goto g pc (sendResponse g resp (upd_go g (set_retries 0) s)) in
world s' = world s ∧ fault s' = fault s ∧ is_Some (heap s' !! g) ∧
(∃ go', goroutines s' !! g = Some go' ∧ g_pc go' = pc ∧ g_retries go' = 0) ∧ pend s' g = [] ∧
∀ c, c ∈ pend s g → ∃ cl, clients s' !! c = Some cl ∧ c_reply cl = Some resp.
Proof.
intros HP Hg Ha s'. pose proof (pend_set_go g (set_retries 0) s ltac:(done) HP) as HP0.
destruct (sendResponse_spec g resp _ HP0) as (Hf & Hc & Hp).
assert (Hg0 : goroutines (upd_go g (set_retries 0) s) !! g = Some (set_retries 0 go))
  by (cbn; by rewrite lookup_alter_eq, Hg).
destruct (sendResponse_at g resp _ _ a Hg0 Ha) as (Hgo & Hh & Hw). subst s'. split_and!.
- done.
- exact Hf.
- unfold goto. cbn. by rewrite Hh.
- exists (set_gpc pc (set_requests [] (set_retries 0 go))). cbn. by rewrite lookup_alter_eq, Hgo.
- unfold goto. rewrite pend_upd_go, Hp by done. by case_decide.
- intros c Hin. destruct (pe_open _ HP g c Hin) as (cl & Hcl & _).
  exists (set_reply (Some resp) cl). split; [|done]. cbn. rewrite Hc.
  rewrite decide_True by (by rewrite pend_upd_go). cbn. by rewrite Hcl.
Qed.

(** The two steps after the refresh: what is told, and what is stored. *)
Lemma handle_step s g go r :
PendInv s → StructInv s → 0 ≤ g_retries go ≤ 5 → goroutines s !! g = Some go → g_pc go = GHandle r →
∃ s', step (RunG g) s = Some s' ∧ world s' = world s ∧ fault s' = None ∧ is_Some (heap s' !! g) ∧
  (∃ go', goroutines s' !! g = Some go' ∧
     g_pc go' = GStore (tokens_after r) (sleep_after (Now (world s)) (g_retries go) r) ∧
     g_retries go' = retries_after (g_retries go) r) ∧
  (if answers r
   then pend s' g = [] ∧
     ∀ c, c ∈ pend s g → ∃ cl, clients s' !! c = Some cl ∧ c_reply cl = Some (reply_after r)
   else clients s' = clients s ∧ pend s' g = pend s g).
Proof.
intros HP HA Hn Hg Hpc. destruct (goroutine_heap s g go HA Hg) as [a Ha]. pose proof (pe_fault _ HP) as Hf.
destruct (answer_step s g go a (reply_after r) (GStore (tokens_after r) (sleep_after (Now (world s)) (g_retries go) r))
  HP Hg Ha) as (Hw & Hf' & Hh & Hgo & Hp & Hc). rewrite Hf in Hf'.
unfold TokenCache.step, cacheTokens_step. rewrite Hf, Hg, Ha. cbn. rewrite Hpc.
unfold retries_after. destruct r as [t|e]; cbn [answers].
- by eexists.
- destruct (errors_Is e ErrGKEAnnotationInvalid) eqn:He.
  + eexists. split; [done|]. unfold reply_after, tokens_after, sleep_after in Hw, Hf', Hh, Hgo, Hp, Hc.
    unfold sleep_after. rewrite He in *. by split_and!.
  + eexists. split; [done|]. unfold sleep_after. rewrite He. cbn. rewrite Ha. split_and!; [done|done|by eexists| |done|].
    * eexists. rewrite !lookup_alter_eq, Hg. split_and!; [done| |].
      -- cbn. by destruct (backoff_value (g_retries go) Hn) as [-> _].
      -- cbn. destruct (Z.ltb_spec (g_retries go) 5); lia.
    * unfold goto. by rewrite !pend_upd_go.
Qed.
Lemma store_step s g go t d :
fault s = None → goroutines s !! g = Some go → is_Some (heap s !! g) → g_pc go = GStore t d →
∃ s2, step (RunG g) s = Some s2 ∧
  goroutines s2 !! g = Some (set_gpc (GSleep (default 0 (t_mono (Now (world s))) + d)) go) ∧
  sa_tokens <$> heap s2 !! g = Some t.
Proof.
intros Hf Hg [a Ha] Hpc. eexists. split.
- unfold TokenCache.step, cacheTokens_step. rewrite Hf, Hg, Ha. cbn. by rewrite Hpc.
- cbn. by rewrite !lookup_alter_eq, Hg, Ha.
Qed.

(** C26: what a refresh leads to.  Tokens go to every pending request at
  once, and the next refresh is one minute before they expire (or at their
  expiry when they live for less); the retries start again at zero.  An
  invalid GKE annotation is reported to every pending request, and the
  account is left alone for ten years.  Any other error is reported to nobody:
  the goroutine sleeps between 1 and 32 seconds, two to the number of retries,
  which then grows by one up to five, and the requests keep waiting.  In all
  cases the account has the new tokens, or none, while the goroutine sleeps. *)
Theorem refresh_outcome s g go r :
(∀ ref, total (createTokens Now Source SAs MaxTokenDuration ref)) → reachable s →
goroutines s !! g = Some go → g_pc go = GHandle r →
∃ s' s2, step (RunG g) s = Some s' ∧ step (RunG g) s' = Some s2 ∧
  (if answers r
   then pend s' g = [] ∧
     ∀ c, c ∈ pend s g → ∃ cl, clients s' !! c = Some cl ∧ c_reply cl = Some (reply_after r)
   else Second ≤ sleep_after (Now (world s)) (g_retries go) r ≤ 32 * Second ∧
     clients s' = clients s ∧ pend s' g = pend s g) ∧
  sa_tokens <$> heap s2 !! g = Some (tokens_after r) ∧
  ∃ go2, goroutines s2 !! g = Some go2 ∧
    g_pc go2 = GSleep (default 0 (t_mono (Now (world s))) + sleep_after (Now (world s)) (g_retries go) r) ∧
    g_retries go2 = retries_after (g_retries go) r.
Proof.
intros Ht Hr Hg Hpc. pose proof (retry_reachable _ _ _ _ _ _ s Hr g go Hg) as Hn.
destruct (handle_step s g go r (pend_reachable _ _ _ _ _ _ Ht s Hr) (struct_reachable _ _ _ _ _ _ s Hr) Hn Hg Hpc)
  as (s' & Hs & Hw & Hf & Hh & (go' & Hg' & Hpc' & Hn') & Hout).
destruct (store_step s' g go' _ _ Hf Hg' Hh Hpc') as (s2 & Hs2 & Hg2 & Ht2). rewrite Hw in Hg2.
exists s', s2. do 2 (split; [done|]). split_and!; [|done|by eexists].
destruct (answers r) eqn:E; [done|]. split; [|done].
destruct r as [t|e]; [done|]. cbn in *. rewrite E. destruct (backoff_value (g_retries go) Hn) as [<- ?]. done.
Qed.

(** C36: a request that is pending when the goroutine of its account returns
  (because the account has no pods left, was deleted, or the process is
  closing) is not told the error: the deferred call was given the value
  retErr had at the start, nil, so the request receives neither tokens nor
  an error and its goroutine panics on the nil tokens. *)
Theorem return_replies_nil s g go e c cl :
(∀ ref, total (createTokens Now Source SAs MaxTokenDuration ref)) → reachable s →
goroutines s !! g = Some go → g_pc go = GReturn e → c ∈ pend s g →
clients s !! c = Some cl → c_pc cl = CWait g →
∃ s', run Now Source SAs jwt_Subject Concurrency MaxTokenDuration
        [RunG g; RunClient c BRecv] s = Some s' ∧
      c_pc <$> clients s' !! c = Some (CDone (Panic nil_deref)).
Proof.
intros Ht Hr Hg Hpc Hin Hcl Hw. pose proof (struct_reachable _ _ _ _ _ _ s Hr) as HA.
pose proof (pend_reachable _ _ _ _ _ _ Ht s Hr) as HP.
destruct (goroutine_heap s g go HA Hg) as [a Ha].
set (resp := {| re_tokens := None; re_err := None |}).
destruct (sendResponse_spec g resp s HP) as (Hf & Hc & _).
set (s1 := goto g GDone (sendResponse g resp s)).
assert (E1 : step (RunG g) s = Some s1).
{ unfold TokenCache.step, cacheTokens_step. rewrite (pe_fault _ HP), Hg, Ha. cbn. by rewrite Hpc. }
assert (Hcl1 : clients s1 !! c = Some (set_reply (Some resp) cl)).
{ unfold s1, goto. cbn. rewrite Hc, decide_True by done. by rewrite Hcl. }
assert (Hf1 : fault s1 = None) by (unfold s1, goto; cbn; by rewrite Hf, (pe_fault _ HP)).
clearbody s1. exists (cgoto c (CDone (Panic nil_deref)) s1). split.
- cbn [run]. rewrite E1. cbn. unfold TokenCache.step. rewrite Hf1.
  cbn. unfold client_step. rewrite Hcl1. cbn. by rewrite Hw.
- unfold cgoto. cbn [clients upd_cl set_clients]. by rewrite lookup_alter_eq, Hcl1.
Qed.

Lemma run_stays_reachable ls s s' :
reachable s → run Now Source SAs jwt_Subject Concurrency MaxTokenDuration ls s = Some s' → reachable s'.
Proof.
revert s. induction ls as [|l ls IH]; intros s Hr; cbn; [by intros [= <-]|].
destruct (step l s) as [s1|] eqn:E; cbn; [|done]. apply IH. by eapply reach_step.
Qed.
Lemma run_stranded ls s s' g c :
(∀ ref, total (createTokens Now Source SAs MaxTokenDuration ref)) → reachable s →
run Now Source SAs jwt_Subject Concurrency MaxTokenDuration ls s = Some s' →
Close ∉ ls → (∀ e, CancelRequest c e ∉ ls) → stranded s g c → stranded s' g c.
Proof.
intros Ht. revert s. induction ls as [|l ls IH]; intros s Hr; cbn; [by intros [= <-]|].
destruct (step l s) as [s1|] eqn:E; cbn; [|done]. intros Hrun Hl1 Hl2 HS.
apply (IH s1); [by eapply reach_step|done|set_solver|set_solver|].
eapply step_stranded; [by eapply struct_reachable|by eapply pend_reachable|exact E|..|exact HS];
  set_solver.
Qed.

(** C37: a request that reaches the channel of its account's goroutine after
  that goroutine has returned is never answered: whatever the rest of the
  process does, it waits until its own context, or the provider's, is
  done. *)
Theorem stranded_request_waits s g c ls s' :
(∀ ref, total (createTokens Now Source SAs MaxTokenDuration ref)) → reachable s →
stranded s g c →
run Now Source SAs jwt_Subject Concurrency MaxTokenDuration ls s = Some s' →
Close ∉ ls → (∀ e, CancelRequest c e ∉ ls) →
∃ cl, clients s' !! c = Some cl ∧ c_pc cl = CWait g ∧ c_reply cl = None.
Proof.
intros Ht Hr HS Hrun H1 H2. pose proof (run_stranded ls s s' g c Ht Hr Hrun H1 H2 HS) as HS'.
pose proof (run_stays_reachable ls s s' Hr Hrun) as Hr'.
destruct HS' as (_ & Hin & (cl & Hcl & Hw & _) & _).
destruct (pe_open _ (pend_reachable _ _ _ _ _ _ Ht s' Hr') g c Hin) as (cl' & ? & ? & _).
exists cl. by simplify_eq.
Qed.
End Theorems.

(** ** Witnesses *)

Module CacheRuns.
Import CacheExample.
Definition created : tokens :=
match createTokens Now Source SAs 0 ref 0 with
| (Ret (Ok (t, _)), _) => t
| _ => {| serviceAccountToken := newToken (Now 0) "" (Now 0) 0;
          Tokens.googleAccessTokens :=
            newToken (Now 0) {| DirectAccess := ""; Impersonated := "" |} (Now 0) 0 |}
end.
Definition answered_client : client :=
default {| c_call := CallServiceAccountToken ref; c_pc := CGet ref; c_ctxErr := None;
           c_reply := None |} (clients (after served) !! 0%nat).
(** The goroutine has the result of its first refresh. *)
Definition refreshed : State Z :=
after [AddPod ref; Call 0 (CallServiceAccountToken ref); cl 0; cl 0; cl 0;
       go 0; go 0; go 0; go 0; go 0].
(** The fourth refresh of an account that the API server does not know. *)
Definition unknown_SAs : ServiceAccounts.Provider Z := {| Get _ := λ w, (Ret (Err (EMsg "not found")), w) |}.
Definition boom : error := EWrap "error getting kubernetes service account: " (EMsg "not found") "".
Definition attempt : list (label Z) := [go 0; go 0; go 0; go 0; go 0].
Definition failed : State Z :=
default (NewProvider 0) (TokenCache.run Now Source unknown_SAs jwt 1 0
  (AddPod ref :: concat (map (λ i, attempt ++ [go 0; go 0; Env (i * 100 * Second); RunGoroutine 0 BTimer])%list [1; 2; 3])
   ++ attempt)%list (NewProvider 0)).
Lemma unknown_total r : total (createTokens Now Source unknown_SAs 0 r).
Proof. intros w. eexists _, _. reflexivity. Qed.
Lemma failed_reachable : TokenCache.reachable Now Source unknown_SAs jwt 1 0 failed.
Proof.
unfold failed. generalize (AddPod ref :: concat (map (λ i, attempt ++ [go 0; go 0; Env (i * 100 * Second);
  RunGoroutine 0 BTimer])%list [1; 2; 3]) ++ attempt)%list. intros ls.
destruct (TokenCache.run _ _ _ _ _ _ ls _) as [s|] eqn:E; cbn; [|apply reach_init].
eapply run_stays_reachable; [apply reach_init|exact E].
Qed.
(** An account nobody runs: its goroutine returns with a request pending. *)
Definition no_pods : State Z :=
after [Call 0 (CallServiceAccountToken ref); cl 0; cl 0; cl 0; go 0].
(** The same, the request arriving after the goroutine has returned. *)
Definition late : State Z :=
after [Call 0 (CallServiceAccountToken ref); cl 0; go 0; go 0; cl 0; cl 0].
Definition waiting_client : client :=
{| c_call := CallServiceAccountToken ref; c_pc := CWait 0; c_ctxErr := None; c_reply := None |}.
Definition more : list (label Z) := [Env (10 * Hour); AddPod ref; CollectIDTokens; go 1].
End CacheRuns.

Section Witnesses.
Import CacheExample CacheRuns.

Lemma cache_isolation_witness :
∃ saToken exp now0 now w w',
  GetServiceAccountToken Source ref w = (Ret (Ok (saToken, exp)), w') ∧
  RToken "system:serviceaccount:default:app" (FromUnix 2880) =
  RToken saToken (expiration now (newToken now0 saToken exp 0)).
Proof.
apply (cache_isolation Now Source SAs jwt 1 0 (after served) 0 answered_client _
  create_total (after_reachable _)); vm_compute; reflexivity.
Defined.
Lemma single_refresher_witness :
numTokens (after served) = 1 ∧ numTokens (after served) = Z.of_nat (size (serviceAccounts (after served))).
Proof.
split; [by vm_compute|].
apply (single_refresher Now Source SAs jwt 1 0 (after served) (after_reachable _)).
Defined.
Lemma issuing_bounded_witness :
let s := after [AddPod ref; go 0; go 0] in
holders s = 1%nat ∧ semaphore s = holders s ∧ (holders s ≤ 1)%nat.
Proof.
intros s. split; [by vm_compute|].
apply (issuing_bounded Now Source SAs jwt 1 0 s source_total (after_reachable _)).
Defined.
Lemma replies_once_witness :
pend refreshed 0 = [0%nat] ∧ fault refreshed = None.
Proof.
split; [by vm_compute|].
apply (replies_once Now Source SAs jwt 1 0 refreshed create_total (after_reachable _)).
Defined.
Lemma refresh_outcome_witness :
∃ s' s2, step Now Source unknown_SAs jwt 1 0 (go 0) failed = Some s' ∧
  step Now Source unknown_SAs jwt 1 0 (go 0) s' = Some s2 ∧
  g_retries <$> goroutines s2 !! 0%nat = Some 4 ∧ g_pc <$> goroutines s2 !! 0%nat = Some (GSleep (308 * Second)).
Proof.
destruct (refresh_outcome Now Source unknown_SAs jwt 1 0 failed 0
  {| g_pc := GHandle (Err boom); g_requests := []; g_retries := 3 |} (Err boom)
  unknown_total failed_reachable ltac:(vm_compute; reflexivity) eq_refl)
  as (s' & s2 & H1 & H2 & _ & _ & go2 & H3 & H4 & H5).
exists s', s2. do 2 (split; [assumption|]). rewrite H3. cbn [fmap option_fmap option_map]. rewrite H4, H5.
split; vm_compute; reflexivity.
Defined.
Lemma return_replies_nil_witness :
∃ s', run [go 0; RunClient 0 BRecv] no_pods = Some s' ∧
      c_pc <$> clients s' !! 0%nat = Some (CDone (Panic nil_deref)).
Proof.
apply (return_replies_nil Now Source SAs jwt 1 0 no_pods 0
  {| g_pc := GReturn errServiceAccountDeleted; g_requests := []; g_retries := 0 |}
  errServiceAccountDeleted 0 waiting_client create_total (after_reachable _));
  try (vm_compute; reflexivity).
apply (bool_decide_unpack _). by vm_compute.
Defined.
Lemma stranded_request_waits_witness :
∃ cl, clients (default late (run more late)) !! 0%nat = Some cl ∧ c_pc cl = CWait 0 ∧
      c_reply cl = None.
Proof.
apply (stranded_request_waits Now Source SAs jwt 1 0 late 0 0 more _ create_total (after_reachable _)).
- split_and!.
  + exists {| g_pc := GDone; g_requests := []; g_retries := 0 |}. by vm_compute.
  + apply (bool_decide_unpack _). by vm_compute.
  + exists waiting_client. by vm_compute.
  + by vm_compute.
- by vm_compute.
- unfold more. set_solver.
- unfold more. set_solver.
Defined.
End Witnesses.
