(* ===== verification/TokenCacheUnwatched.v ===== *)
(** * The token cache without the pod watcher, and without concurrency

    main.go adds the token cache to the pod watcher's listeners only when
    --watch-pods is given, while --cache-tokens alone turns the cache on.  This
    file follows the cache when no pod is ever reported to it: every service
    account keeps a pod count of zero, so every goroutine deletes its account
    at its first check, and no request for tokens succeeds.  Nor does any when
    --cache-tokens-concurrency is zero: the semaphore is then a channel on
    which nobody receives, and no token is ever issued. *)

From S2P Require Import Prelude GoStrings GoTime Credentials Api ServiceAccounts Tokens.
From S2P Require Import TokenCache TokenCacheProofs TokenCacheTheorems.
Open Scope string_scope.
Open Scope Z_scope.

(** ** Maps all of whose values satisfy a predicate *)

Lemma Forall_alter {A} (P : A → Prop) (f : A → A) (g : nat) (m : gmap nat A) :
  (∀ a, m !! g = Some a → P a → P (f a)) → map_Forall (λ _, P) m → map_Forall (λ _, P) (alter f g m).
Proof.
  intros Hf Hm h a. rewrite lookup_alter. case_decide as E; [|by apply Hm]. subst h.
  destruct (m !! g) as [b|] eqn:Hb; cbn; intros [= <-]. apply Hf; [done|]. by apply (Hm g).
Qed.
Lemma Forall_insert {A} (P : A → Prop) (g : nat) a (m : gmap nat A) :
  P a → map_Forall (λ _, P) m → map_Forall (λ _, P) (<[g := a]> m).
Proof. intros. by apply (map_Forall_insert_2 (λ _, P)). Qed.

Section Unwatched.
Context {W : Type} (Now : W → Time) (Source : Tokens.Provider W).
Context (SAs : ServiceAccounts.Provider W) (jwt_Subject : string → option string).
Context (Concurrency : nat) (MaxTokenDuration : Z).
Implicit Type s : State W.

Local Abbreviation step := (TokenCache.step Now Source SAs jwt_Subject Concurrency MaxTokenDuration).
Local Abbreviation run := (TokenCache.run Now Source SAs jwt_Subject Concurrency MaxTokenDuration).
Local Abbreviation ref_of := (TokenCacheProofs.ref_of jwt_Subject).

(** No pods (or no concurrency), no tokens; goroutines that check once and
  return, or wait for the semaphore; replies without tokens; and successful
  answers only to calls about input-dependent tokens, if any. *)
Local Abbreviation starved := (Concurrency = 0%nat).
Definition unused (a : serviceAccount) : Prop := (starved ∨ podCount a = 0) ∧ sa_tokens a = None.
Definition idle (go : goroutine) : Prop :=
  match g_pc go with GCheck | GReturn _ | GDone => True | GAcquire => starved | _ => False end.
Definition unanswered (cl : client) : Prop :=
  (∀ resp, c_reply cl = Some resp → re_tokens resp = None) ∧
  match c_pc cl with
  | CLookup _ | CAcquire _ => starved ∨ ref_of (c_call cl) = None
  | CCall _ | CRelease _ _ | CInsert _ _ _ | CDone (Ret (Ok _)) => ¬ starved ∧ ref_of (c_call cl) = None
  | _ => True
  end.
Record UnwatchedInv s : Prop := {
  un_sa : map_Forall (λ _, unused) (heap s);
  un_go : map_Forall (λ _, idle) (goroutines s);
  un_cl : map_Forall (λ _, unanswered) (clients s);
  un_caches : starved → googleIDTokens s = ∅ ∧ googleScopedAccessTokens s = ∅;
}.

Lemma un_start r : unanswered {| c_call := r; c_pc := start jwt_Subject r; c_ctxErr := None; c_reply := None |}.
Proof.
split; [done|]. cbn. unfold TokenCacheProofs.ref_of, start. destruct r; [done| |by right].
destruct (ReferenceFromToken _ _); [|done]. destruct scopes; [done|by right].
Qed.

Lemma un_upd_sa g f s : (∀ a, unused a → unused (f a)) → UnwatchedInv s → UnwatchedInv (upd_sa g f s).
Proof. intros Hf [H1 H2 H3 H4]. split; [|done..]. apply Forall_alter; auto. Qed.
Lemma un_upd_go g f s : (∀ go, idle go → idle (f go)) → UnwatchedInv s → UnwatchedInv (upd_go g f s).
Proof. intros Hf [H1 H2 H3 H4]. split; [done| |done..]. apply Forall_alter; auto. Qed.
Lemma un_upd_cl c f s :
(∀ cl, clients s !! c = Some cl → unanswered cl → unanswered (f cl)) →
UnwatchedInv s → UnwatchedInv (upd_cl c f s).
Proof. intros Hf [H1 H2 H3 H4]. split; [done..| |done]. apply Forall_alter; auto. Qed.
Lemma un_add ref n s : starved ∨ n = 0 → UnwatchedInv s → UnwatchedInv (addServiceAccount ref n s).
Proof. intros Hn [H1 H2 H3 H4]. split; [apply Forall_insert; [by split|done]|by apply Forall_insert|done..]. Qed.
Lemma un_same s s' :
heap s' = heap s → goroutines s' = goroutines s → clients s' = clients s →
(starved → googleIDTokens s = ∅ ∧ googleScopedAccessTokens s = ∅ →
 googleIDTokens s' = ∅ ∧ googleScopedAccessTokens s' = ∅) →
UnwatchedInv s → UnwatchedInv s'.
Proof. intros E1 E2 E3 E4 [H1 H2 H3 H4]. split; [by rewrite E1|by rewrite E2|by rewrite E3|auto]. Qed.

Lemma un_send g s :
UnwatchedInv s → UnwatchedInv (sendResponse g {| re_tokens := None; re_err := None |} s).
Proof.
intros Hs. unfold sendResponse.
destruct (goroutines s !! g) as [go|]; [|exact Hs]. destruct (heap s !! g) as [a|]; [|exact Hs].
generalize (g_requests go ++ externalRequests a)%list. intros l.
assert (Hs' : UnwatchedInv (upd_go g (set_requests []) (upd_sa g (set_chan []) s))).
{ apply un_upd_go; [done|]. by apply un_upd_sa. }
revert Hs'. generalize (upd_go g (set_requests []) (upd_sa g (set_chan []) s)).
induction l as [|r l IH]; intros s1 Hs1; cbn [foldl]; [done|]. apply IH.
unfold deliver. destruct r as [c|]; [|done]. case_match; [|done].
case_match; [by apply (un_same s1)|]. apply un_upd_cl; [|done].
intros cl _ [_ Hpc]. split; [|done]. by intros ? [= <-].
Qed.

Lemma un_goroutine g b s s' :
UnwatchedInv s →
cacheTokens_step Now Source SAs Concurrency MaxTokenDuration g b s = Some s' → UnwatchedInv s'.
Proof.
intros Hs H. unfold cacheTokens_step in H.
destruct (goroutines s !! g) as [go|] eqn:Hg; [|done].
destruct (heap s !! g) as [a|] eqn:Ha; [|done]. cbn in H.
pose proof (un_go _ Hs g go Hg) as Hi. unfold idle in Hi.
destruct (un_sa _ Hs g a Ha) as [Hp _].
destruct (g_pc go); try done; destruct b; try done; simplify_eq.
- unfold checkIfMustDeleteAndDelete in H. rewrite Ha in H.
  destruct ((podCount a =? 0) || deleted a) eqn:E; injection H as <-.
  + apply un_upd_go; [done|]. by apply (un_same s).
  + apply un_upd_go; [|done]. intros go' _. unfold idle. cbn. destruct Hp as [Hp|Hp]; [done|by rewrite Hp in E].
- rewrite Hi in H. by destruct (Nat.ltb_spec (semaphore s) 0); [lia|].
- destruct (ctxDone s); [|done]. injection H as <-. by apply un_upd_go.
- apply un_upd_go; [done|]. by apply un_send.
Qed.

(** A request moves on without tokens. *)
Lemma un_cgoto c pc cl s :
clients s !! c = Some cl → unanswered (set_cpc pc cl) → UnwatchedInv s → UnwatchedInv (cgoto c pc s).
Proof. intros Hc Hpc Hs. apply un_upd_cl; [|done]. intros cl' Hc' _. by simplify_eq. Qed.

Lemma un_client c b s s' :
UnwatchedInv s →
client_step Now Source Concurrency MaxTokenDuration c b s = Some s' → UnwatchedInv s'.
Proof.
intros Hs H. unfold client_step in H.
destruct (clients s !! c) as [cl|] eqn:Hcl; [|done]. cbn in H.
destruct (un_cl _ Hs c cl Hcl) as [Hre Hpc].
assert (Hgo : ∀ pc s1, clients s1 = clients s → UnwatchedInv s1 →
  unanswered (set_cpc pc cl) → UnwatchedInv (cgoto c pc s1)).
{ intros pc s1 E Hs1 Hok. by apply (un_cgoto c pc cl); [rewrite E|..]. }
destruct (c_pc cl) eqn:Hp; destruct b; try done; cbn in H.
all: try match type of Hp with _ = CRead ?g =>
  destruct (heap s !! g) as [a|] eqn:Ha; [|done]; cbn in H;
  destruct (un_sa _ Hs g a Ha) as [_ Ht]; rewrite Ht in H end.
all: try match type of Hp with _ = CWait _ =>
  destruct (c_reply cl) as [resp|] eqn:Hr; [|done]; pose proof (Hre _ eq_refl) as Ht end.
all: repeat (case_match; try done); simplify_option_eq; repeat (case_match; try done); simplify_eq.
all: try (by apply (un_same s)).
all: try (apply Hgo; [done|first [exact Hs | by apply un_add; [right|] | by apply un_upd_sa | by apply (un_same s)]|by split]).
- apply Hgo; [done|exact Hs|]. split; [cbn; rewrite Hr; exact Hre|done].
- apply Hgo; [done|exact Hs|]. split; [cbn; rewrite Hr; exact Hre|]. cbn. by rewrite Ht.
- apply Hgo; [done|exact Hs|]. split; [exact Hre|]. cbn. cbn in Hpc.
  match goal with H : cache_lookup _ _ = _ |- _ => rename H into Hk end.
  assert (Hn : ¬ starved).
  { intros [Hi Hc]%(un_caches _ Hs). by destruct k; cbn in Hk; [rewrite Hi in Hk|rewrite Hc in Hk]. }
  split; [done|]. by destruct Hpc.
- cbn in Hpc.
  apply Hgo; [done|by apply (un_same s)|]. split; [exact Hre|]. cbn.
  split; [lia|]. destruct Hpc as [Hpc|Hpc]; [lia|exact Hpc].
- cbn in Hpc. destruct Hpc as [Hn Href].
  apply Hgo; [by destruct k|by destruct k; apply (un_same s)|by split; [exact Hre|split]].
Qed.

Lemma un_step l s s' :
starved ∨ (∀ ref, l ≠ AddPod ref) → UnwatchedInv s → step l s = Some s' → UnwatchedInv s'.
Proof.
intros Hl Hs H. unfold TokenCache.step in H. destruct (fault s); [done|].
destruct l; simplify_eq; try (by apply (un_same s)).
- assert (Hst : starved) by by destruct Hl as [?|Hl]; [|destruct (Hl ref)].
  unfold AddPodServiceAccount. case_match; [|by apply un_add; [left|]].
  apply un_upd_sa; [|done]. intros a [_ Ht]. by split; [left|].
- unfold DeletePodServiceAccount. case_match; [|done]. apply un_upd_sa; [|done].
  intros a [Hp Ht]. destruct (0 <? podCount a) eqn:E; [|done]. split; [|done]. left.
  destruct Hp as [|Hp]; [done|by rewrite Hp in E].
- unfold UpdateServiceAccount. case_match; [|done]. apply un_upd_sa; [|done].
  intros a Ha. unfold wake. by case_match.
- unfold DeleteServiceAccount. case_match; [|done]. apply un_upd_sa; [|done].
  intros a Ha. unfold wake. by case_match.
- case_match; [done|]. simplify_eq. destruct Hs as [H1 H2 H3 H4]. split; [done..| |done].
  apply Forall_insert; [|done]. apply un_start.
- apply un_upd_cl; [|done]. by intros cl _ [].
- by eapply un_goroutine.
- by eapply un_client.
- apply (un_same s); [done..| |done]. by intros _ [-> Hc].
- apply (un_same s); [done..| |done]. by intros _ [Hc ->].
- apply drain_inv in H as (go & a & req & rest & _ & _ & _ & _ & ->). apply un_upd_go; [done|]. by apply un_upd_sa.
Qed.

(** The pod watcher reports nothing. *)
Definition no_pods (ls : list (label W)) : Prop := ∀ ref, AddPod ref ∉ ls.

(** C38: as long as no pod is reported to the cache, as when the pod watcher is
  off, no request for the tokens of a service account ever succeeds, whatever
  the order of events: not the service account tokens, and not the access
  tokens without scopes that the identity endpoint also needs.  With a
  concurrency of zero no request of any kind ever does. *)
Theorem unwatched_never_answered w ls s c cl v :
TokenCache.run Now Source SAs jwt_Subject Concurrency MaxTokenDuration ls (NewProvider w) = Some s →
clients s !! c = Some cl →
(no_pods ls ∧ is_Some (TokenCacheProofs.ref_of jwt_Subject (c_call cl))) ∨ Concurrency = 0%nat →
c_pc cl ≠ CDone (Ret (Ok v)).
Proof.
intros Hrun Hcl Hor Hpc.
assert (Hl : starved ∨ no_pods ls) by (destruct Hor as [[]|]; auto).
assert (Hs : UnwatchedInv s).
2: { destruct (un_cl _ Hs c cl Hcl) as [_ Hn]. rewrite Hpc in Hn. destruct Hn as [Hn Href].
     destruct Hor as [[_ [ref Hr]]|]; [congruence|done]. }
assert (H0 : UnwatchedInv (NewProvider w)) by (split; [by apply map_Forall_empty..|done]).
clear Hcl Hor. revert H0 Hrun. generalize (NewProvider w).
induction ls as [|l ls IH]; intros s0 H0; cbn; [by intros [= <-]|].
destruct (step l s0) as [s1|] eqn:E; cbn; [|done].
apply IH; [destruct Hl as [?|Hl]; [by left|right; intros ref' ?; apply (Hl ref'); set_solver]|].
eapply un_step; [|exact H0|exact E]. destruct Hl as [?|Hl]; [by left|right]. intros ref' ->. apply (Hl ref'). set_solver.
Qed.
End Unwatched.

(** A request whose account no pod uses: its goroutine returns, the request is
    answered with neither tokens nor an error. *)
Lemma unwatched_never_answered_witness :
  let ls := [Call 0 (CallServiceAccountToken CacheExample.ref); CacheExample.cl 0;
             CacheExample.cl 0; CacheExample.cl 0; CacheExample.go 0; CacheExample.go 0;
             RunClient 0 BRecv] in
  let c := {| c_call := CallServiceAccountToken CacheExample.ref;
              c_pc := CDone (Panic nil_deref); c_ctxErr := None;
              c_reply := Some {| re_tokens := None; re_err := None |} |} in
  clients (CacheExample.after ls) !! 0%nat = Some c ∧
  c_pc c ≠ CDone (Ret (Ok (RToken "" (FromUnix 0)))).
Proof.
  intros ls c. split; [by vm_compute|].
  apply (unwatched_never_answered CacheExample.Now CacheExample.Source CacheExample.SAs
    CacheExample.jwt 1 0 0 ls (CacheExample.after ls) 0 c); [by vm_compute..|].
  left. split; [intros ?; set_solver|by eexists].
Defined.
