(* ===== verification/Fairness.v ===== *)
(** * Fair executions of a step machine

    The token cache is a set of goroutines that share a state.  This file
    says, for any such machine, what an infinite execution is, when the
    scheduler that chose it is fair, and how progress follows: a process that
    stays able to run until it does run will run, and a measure that its runs
    decrease reaches its goal.  Runs are functions of the step's number;
    splitting on whether something ever happens in one is classical. *)

From Stdlib Require Import Classical.
From S2P Require Import Prelude.

Section Fairness.
Context {S L P : Type} (step : L → S → option S) (runs : P → L → Prop).

(** The process can take a step. *)
Definition enabled (p : P) (s : S) : Prop := ∃ l s', runs p l ∧ step l s = Some s'.

(** The states and the labels of an endless execution. *)
Definition execution (σ : nat → S) (ℓ : nat → L) : Prop :=
  ∀ n, step (ℓ n) (σ n) = Some (σ (Datatypes.S n)).

(** A process that can run again and again does run.  Go's scheduler runs
    every goroutine that is ready, and a channel serves those that wait for
    it in order. *)
Definition fair (σ : nat → S) (ℓ : nat → L) : Prop :=
  ∀ p n, (∀ k, ∃ m, k ≤ m ∧ enabled p (σ m)) → ∃ m, n ≤ m ∧ runs p (ℓ m).

Section Run.
Context (σ : nat → S) (ℓ : nat → L) (Hσ : execution σ ℓ) (Hfair : fair σ ℓ).

(** [Q] holds up to the next step of [p], which comes. *)
Lemma leads (p : P) (Q : S → Prop) n :
  Q (σ n) →
  (∀ m, n ≤ m → Q (σ m) → ¬ runs p (ℓ m) → Q (σ (Datatypes.S m))) →
  ((∀ m, n ≤ m → Q (σ m)) → ∀ k, n ≤ k → ∃ m, k ≤ m ∧ enabled p (σ m)) →
  ∃ m, n ≤ m ∧ Q (σ m) ∧ runs p (ℓ m).
Proof.
  intros HQ Hstay Hen. apply NNPP. intros Hno.
  assert (Hall : ∀ m, n ≤ m → Q (σ m)).
  { intros m Hm. induction Hm as [|m Hm IH]; [done|]. apply Hstay; [done..|].
    intros Hr. apply Hno. eauto. }
  destruct (Hfair p n) as (m & Hm & Hr); [|eauto 10].
  intros k. destruct (Hen Hall (Nat.max n k)) as (m & ? & ?); [lia|].
  exists m. split; [lia|done].
Qed.

(** When [Q] alone makes [p] able to run. *)
Lemma leads_ready (p : P) (Q : S → Prop) n :
  Q (σ n) →
  (∀ m, n ≤ m → Q (σ m) → ¬ runs p (ℓ m) → Q (σ (Datatypes.S m))) →
  (∀ m, n ≤ m → Q (σ m) → enabled p (σ m)) →
  ∃ m, n ≤ m ∧ Q (σ m) ∧ runs p (ℓ m).
Proof.
  intros HQ Hstay Hen. apply leads; [done..|]. intros Hall k Hk. exists k. eauto.
Qed.

(** A measure of the state that every run of [p] decreases, unless the run
    reaches the goal. *)
Lemma leads_rank (rank : S → nat) (Q : S → Prop) (goal : nat → Prop) n0 n :
  (∀ m, n0 ≤ m → Q (σ m) →
     ∃ k, m ≤ k ∧ (goal k ∨ Q (σ (Datatypes.S k)) ∧ rank (σ (Datatypes.S k)) < rank (σ m))) →
  n0 ≤ n → Q (σ n) → ∃ m, n ≤ m ∧ goal m.
Proof.
  intros Hrun. remember (rank (σ n)) as r eqn:Hr. revert n Hr.
  induction (lt_wf r) as [r _ IH]. intros n -> Hn HQ.
  destruct (Hrun n Hn HQ) as (k & Hk & [Hg|[HQ' Hlt]]); [eauto|].
  destruct (IH _ Hlt (Datatypes.S k)) as (m & ? & ?); [done|lia|done|].
  exists m. split; [lia|done].
Qed.
End Run.
End Fairness.
