(* ===== verification/TokenCacheTurns.v ===== *)
(** * The token cache: one turn of a process

    What a step of one goroutine leaves alone elsewhere, what a turn of a
    refresh goroutine or of a request goroutine leads to, when it can go on,
    and who holds the semaphore: the single-step facts from which
    TokenCacheLiveness.v shows that requests are answered. *)

From S2P Require Import Prelude GoStrings GoTime Credentials Api ServiceAccounts Tokens.
From S2P Require Import TokenCache TokenCacheProofs TokenCacheTheorems Fairness.
From Stdlib Require Import Classical.
Open Scope string_scope.
Open Scope nat_scope.

Section Turns.
Context {W : Type} (Now : W → Time) (Source : Tokens.Provider W).
Context (SAs : ServiceAccounts.Provider W) (jwt_Subject : string → option string).
Context (Concurrency : nat) (MaxTokenDuration : Z).
Implicit Type s : State W.

Local Abbreviation step := (TokenCache.step Now Source SAs jwt_Subject Concurrency MaxTokenDuration).
Local Abbreviation reachable :=
(TokenCache.reachable Now Source SAs jwt_Subject Concurrency MaxTokenDuration).
Local Abbreviation clock s := (default 0%Z (t_mono (Now (world s)))).

(** A process is a refresh goroutine or a request goroutine.  A receive of
    sendResponse's loop is not a turn: it leaves the goroutine where it is, and
    a fair scheduler lets the loop come to its end. *)
Definition process : Type := nat + nat.
Definition runs (p : process) (l : label W) : Prop :=
  match p with
  | inl g => ∃ b, l = RunGoroutine g b
  | inr c => ∃ b, l = RunClient c b
  end.

(** ** What the steps of others leave alone *)

(** The goroutine stays where it is; its account is the same, and what is
  pending stays pending. *)
Definition kept (g : nat) s s' : Prop :=
(∀ go, goroutines s !! g = Some go → ∃ go', goroutines s' !! g = Some go' ∧ g_pc go' = g_pc go) ∧
(∀ a, heap s !! g = Some a → ∃ a', heap s' !! g = Some a' ∧ sa_Reference a' = sa_Reference a) ∧
∀ c, c ∈ pend s g → c ∈ pend s' g.

Lemma pend_at_eq g s s' :
goroutines s' !! g = goroutines s !! g → heap s' !! g = heap s !! g → pend s' g = pend s g.
Proof. intros E1 E2. unfold pend. by rewrite E1, E2. Qed.
Lemma kept_same g s s' :
goroutines s' !! g = goroutines s !! g → heap s' !! g = heap s !! g → kept g s s'.
Proof. intros E1 E2. unfold kept. rewrite E1, E2, (pend_at_eq g s s') by done. split_and!; eauto. Qed.
Lemma kept_upd_sa g h f s :
(∀ a, heap s !! h = Some a → sa_Reference (f a) = sa_Reference a ∧
      (externalRequests (f a) = externalRequests a ∨ externalRequests a = [])) →
kept g s (upd_sa h f s).
Proof.
intros Hf. destruct (decide (h = g)) as [->|]; [|by apply kept_same; cbn; rewrite ?lookup_alter_ne].
split_and!; [by eauto|..].
- intros a Ha. cbn. rewrite lookup_alter_eq, Ha. exists (f a). split; [done|]. by apply Hf.
- intros c. unfold pend. cbn. rewrite lookup_alter_eq.
  destruct (goroutines s !! g) as [go|]; [|done]. destruct (heap s !! g) as [a|]; [|done]. cbn.
  destruct (proj2 (Hf a eq_refl)) as [->| ->]; [done|]. rewrite app_nil_r, omap_app. set_solver.
Qed.
(** A drain leaves even its own goroutine where it is. *)
Lemma drain_kept g h s s' : drain_step h s = Some s' → kept g s s'.
Proof.
intros (go & a & req & rest & Hgo & Ha & E & _ & ->)%drain_inv.
destruct (decide (h = g)) as [->|]; [|by apply kept_same; cbn; rewrite ?lookup_alter_ne].
unfold kept. erewrite receive_pend by done. cbn. rewrite !lookup_alter_eq, Hgo, Ha. cbn.
split_and!; [..|done]; intros ? [= <-]; by eexists.
Qed.
Lemma kept_add g ref n s : StructInv s → is_Some (heap s !! g) → kept g s (addServiceAccount ref n s).
Proof.
intros HA Hg. pose proof (st_next _ HA g Hg).
apply kept_same; cbn; by rewrite lookup_insert_ne by lia.
Qed.
Lemma wake_kept d a :
sa_Reference (wake (set_deleted d a)) = sa_Reference a ∧
(externalRequests (wake (set_deleted d a)) = externalRequests a ∨ externalRequests a = []).
Proof.
split; [apply wake_Reference|]. unfold wake. cbn.
destruct (externalRequests a) eqn:E; [by right|left]. cbn. by rewrite E.
Qed.
Lemma sendResponse_kept g h resp s : h ≠ g → kept g s (sendResponse h resp s).
Proof.
intros Hne. apply kept_same; unfold sendResponse; repeat case_match; try done;
  match goal with |- context [foldl ?f (upd_go ?g ?h ?s) ?r] =>
    destruct (deliver_all_frame resp r (upd_go g h s)) as (? & ? & ->) end;
  cbn; by rewrite lookup_alter_ne.
Qed.
Lemma kept_trans g s1 s2 s3 : goroutines s1 !! g = goroutines s2 !! g →
heap s1 !! g = heap s2 !! g → kept g s2 s3 → kept g s1 s3.
Proof. intros E1 E2. unfold kept. by rewrite E1, E2, (pend_at_eq g s2 s1). Qed.
Lemma kept_trans_r g s1 s2 s3 : goroutines s3 !! g = goroutines s2 !! g →
heap s3 !! g = heap s2 !! g → kept g s1 s2 → kept g s1 s3.
Proof. intros E1 E2. unfold kept. by rewrite E1, E2, (pend_at_eq g s2 s3). Qed.

Lemma cache_step_kept h b s s' g :
h ≠ g → cacheTokens_step Now Source SAs Concurrency MaxTokenDuration h b s = Some s' → kept g s s'.
Proof.
intros Hne H. unfold cacheTokens_step in H.
destruct (goroutines s !! h) as [ho|] eqn:Hho; [|done].
destruct (heap s !! h) as [a|] eqn:Ha; [|done]. cbn in H.
destruct (g_pc ho) as [| | | | |[t|e]| | | |] eqn:Hpch, b; try done.
all: try (unfold checkIfMustDeleteAndDelete in H; rewrite Ha in H).
4: destruct (createTokens _ _ _ _ _ _) as [o w].
all: step_cases H.
all: try (apply kept_same; cbn; by rewrite ?lookup_alter_ne by done).
all: eapply kept_trans_r; [cbn; by rewrite lookup_alter_ne|done|].
all: first [by apply sendResponse_kept | eapply kept_trans; [..|by apply sendResponse_kept]; [|done]].
all: cbn; by rewrite lookup_alter_ne.
Qed.

Lemma client_step_kept d b s s' g :
StructInv s → is_Some (heap s !! g) →
client_step Now Source Concurrency MaxTokenDuration d b s = Some s' → kept g s s'.
Proof.
intros HA Hg H. unfold client_step in H.
destruct (clients s !! d) as [dl|] eqn:Hdl; [|done]. cbn in H.
destruct (c_pc dl) as [ref|i|i|i|k|k|k|k r|k tok exp|o] eqn:Hpcd, b; try done.
all: try destruct (source_call _ _ _) as [o w].
all: step_cases H.
all: try (by apply kept_same).
- eapply kept_trans_r; [..|by apply (kept_add g ref 0 s)]; done.
- eapply (kept_trans_r _ _ (upd_sa i (set_chan [Some d]) s)); [done..|].
  apply kept_upd_sa. intros a' Ha'. simplify_eq. split; [done|by right].
- destruct k; by apply kept_same.
Qed.

Lemma step_kept l s s' g :
StructInv s → is_Some (heap s !! g) → step l s = Some s' → ¬ runs (inl g) l → kept g s s'.
Proof.
intros HA Hg H Hl. unfold TokenCache.step in H. destruct (fault s); [done|]. destruct l.
9: { apply (cache_step_kept g0 b); [|done]. intros ->. apply Hl. cbn. eauto. }
9: by eapply client_step_kept.
11: by eapply drain_kept.
all: step_cases H; try (by apply kept_same).
- unfold AddPodServiceAccount. case_match; [apply kept_upd_sa; auto|by apply kept_add].
- unfold DeletePodServiceAccount. case_match; [|by apply kept_same]. apply kept_upd_sa.
  intros a _. case_match; auto.
- unfold UpdateServiceAccount. case_match; [|by apply kept_same]. apply kept_upd_sa. intros a _. apply wake_kept.
- unfold DeleteServiceAccount. case_match; [|by apply kept_same]. apply kept_upd_sa. intros a _. apply wake_kept.
Qed.

(** The account of a struct never changes. *)
Lemma refs_upd_sa g f s : (∀ a, sa_Reference (f a) = sa_Reference a) → same_refs s (upd_sa g f s).
Proof.
intros Hf h a Ha. cbn. destruct (decide (g = h)) as [->|].
- rewrite lookup_alter_eq, Ha. exists (f a). by rewrite Hf.
- rewrite lookup_alter_ne by done. eauto.
Qed.
Lemma cache_step_refs g b s s' :
cacheTokens_step Now Source SAs Concurrency MaxTokenDuration g b s = Some s' → same_refs s s'.
Proof.
intros H. unfold cacheTokens_step in H.
destruct (goroutines s !! g) as [go|] eqn:Hgo; [|done].
destruct (heap s !! g) as [a|] eqn:Ha; [|done]. cbn in H.
destruct (g_pc go) as [| | | | |[t|e]| | | |] eqn:Hpc, b; try done.
all: try (unfold checkIfMustDeleteAndDelete in H; rewrite Ha in H).
4: destruct (createTokens _ _ _ _ _ _) as [o w].
all: step_cases H.
all: try (by apply same_refs_refl).
all: first [apply (sendResponse_refs g _ s) | apply (sendResponse_refs g _ (upd_go g _ s)) |
            by apply (refs_upd_sa g _ s)].
Qed.
Lemma step_refs l s s' : StructInv s → step l s = Some s' → same_refs s s'.
Proof.
intros HA H g a Ha. destruct (classic (runs (inl g) l)) as [[b ->]|Hl].
- unfold TokenCache.step in H. destruct (fault s); [done|]. by eapply cache_step_refs.
- destruct (step_kept l s s' g HA) as (_ & Hk & _); [eauto|done..|]. by apply Hk.
Qed.

(** ** Accounts that stay *)

(** The map has the account, and it is not to be removed. *)
Definition held (ref : Reference) (g : nat) s : Prop :=
TokenCache.serviceAccounts s !! ref = Some g ∧
∃ a, heap s !! g = Some a ∧ podCount a ≠ 0%Z ∧ deleted a = false.

Lemma check_held ref h g go s :
StructInv s → goroutines s !! g = Some go → active (g_pc go) → held ref h s →
TokenCache.serviceAccounts (checkIfMustDeleteAndDelete g s).2 !! ref = Some h.
Proof.
intros HA Hg Hact (Hm & a & Ha & Hp & Hd). destruct (st_active _ HA g go Hg Hact) as (b & Hb & Hmb).
unfold checkIfMustDeleteAndDelete. rewrite Hb. destruct (_ || _) eqn:E; [|done]. cbn.
destruct (decide (sa_Reference b = ref)) as [<-|]; [|by rewrite lookup_delete_ne].
simplify_eq. apply Z.eqb_neq in Hp. by rewrite Hp, Hd in E.
Qed.
Lemma sendResponse_entries g resp s : TokenCache.serviceAccounts (sendResponse g resp s) = TokenCache.serviceAccounts s.
Proof.
unfold sendResponse. repeat case_match; try done.
match goal with |- context [foldl ?f (upd_go ?g ?h ?s) ?r] =>
  destruct (deliver_all_frame resp r (upd_go g h s)) as (? & ? & ->) end. done.
Qed.
(** Such an account keeps its entry. *)
Lemma step_held l s s' ref h :
StructInv s → step l s = Some s' → held ref h s → TokenCache.serviceAccounts s' !! ref = Some h.
Proof.
intros HA H Hh. pose proof Hh as [Hm _]. unfold TokenCache.step in H. destruct (fault s); [done|].
assert (Hadd : ∀ r n, TokenCache.serviceAccounts s !! r = None →
  TokenCache.serviceAccounts (addServiceAccount r n s) !! ref = Some h)
  by (intros r n Hr; cbn; rewrite lookup_insert_ne by congruence; done).
destruct l.
9: { unfold cacheTokens_step in H. destruct (goroutines s !! g) as [go|] eqn:Hg; [|done].
  destruct (heap s !! g) as [a|] eqn:Ha; [|done]. cbn in H.
  pose proof (check_held ref h g go s HA Hg) as Hc.
  destruct (g_pc go) as [| | | | |[t|e]| | | |] eqn:Hpc, b; try done.
  1, 6: destruct (checkIfMustDeleteAndDelete g s) as [del s1]; injection H as <-; by apply Hc.
  3: destruct (createTokens _ _ _ _ _ _) as [o w].
  all: step_cases H; cbn; by rewrite sendResponse_entries. }
9: { unfold client_step in H. destruct (clients s !! c) as [cl|]; [|done]. cbn in H.
  destruct (c_pc cl) as [r|i|i|i|k|k|k|k r|k tok exp|o], b; try done.
  all: try destruct (source_call _ _ _) as [o w].
  all: step_cases H; first [by apply Hadd|by destruct k]. }
11: by apply drain_inv in H as (go & a & req & rest & _ & _ & _ & _ & ->).
all: step_cases H; unfold AddPodServiceAccount, DeletePodServiceAccount, UpdateServiceAccount, DeleteServiceAccount;
  case_match; first [done|by apply Hadd].
Qed.
(** A request for such an account goes to its goroutine. *)
Definition toward (ref : Reference) (g : nat) (cl : client) : Prop :=
c_pc cl = CGet ref ∨ c_pc cl = CRead g ∨ c_pc cl = CDispatch g ∨ c_pc cl = CWait g ∨ ∃ o, c_pc cl = CDone o.
Lemma client_toward c b s s' cl ref g :
step (RunClient c b) s = Some s' → clients s !! c = Some cl → held ref g s → toward ref g cl →
∃ cl', clients s' !! c = Some cl' ∧ c_call cl' = c_call cl ∧ toward ref g cl'.
Proof.
intros H Hcl (Hm & a & Ha & _ & Hd) Ht. unfold TokenCache.step in H. destruct (fault s); [done|].
unfold client_step in H. rewrite Hcl in H. cbn in H. unfold toward in *.
destruct Ht as [Ht|[Ht|[Ht|[Ht|[o Ht]]]]]; rewrite Ht in H; destruct b; try done.
1: { rewrite Hm, Ha in H. cbn in H. rewrite Hd in H. injection H as <-.
  cbn. rewrite lookup_alter_eq, Hcl. cbn. eexists. split_and!; [done..|]. by eauto. }
all: step_cases H; cbn; rewrite lookup_alter_eq, Hcl; cbn; eexists; (split_and!; [done..|]); cbn; eauto 10.
Qed.

(** A request goroutine stays where it is, and keeps the reply it has. *)
Definition same_client (cl cl' : client) : Prop :=
c_pc cl' = c_pc cl ∧ c_call cl' = c_call cl ∧ ∀ r, c_reply cl = Some r → c_reply cl' = Some r.
Definition client_kept (c : nat) s s' : Prop :=
option_Forall2 same_client (clients s !! c) (clients s' !! c).

#[export] Instance same_client_refl : Reflexive same_client.
Proof. by split. Qed.
#[export] Instance same_client_trans : Transitive same_client.
Proof. intros x y z (? & ? & ?) (? & ? & ?). split_and!; [congruence..|auto]. Qed.

Lemma client_kept_same c s s' : clients s' !! c = clients s !! c → client_kept c s s'.
Proof. unfold client_kept. by intros ->. Qed.
Lemma client_kept_trans c s1 s2 s3 : client_kept c s1 s2 → client_kept c s2 s3 → client_kept c s1 s3.
Proof. unfold client_kept. by intros ->. Qed.
Lemma client_kept_upd c d f s :
(d = c → ∀ cl, clients s !! c = Some cl → same_client cl (f cl)) → client_kept c s (upd_cl d f s).
Proof.
intros Hf. unfold client_kept. cbn. destruct (decide (d = c)) as [->|].
- rewrite lookup_alter_eq. destruct (clients s !! c); constructor. by apply Hf.
- by rewrite lookup_alter_ne.
Qed.
Lemma client_kept_Some c s s' cl : client_kept c s s' → clients s !! c = Some cl →
∃ cl', clients s' !! c = Some cl' ∧ same_client cl cl'.
Proof. unfold client_kept. intros H E. rewrite E in H. inversion H; subst. eauto. Qed.
Lemma client_kept_r c s s' cl' : client_kept c s s' → clients s' !! c = Some cl' →
∃ cl, clients s !! c = Some cl ∧ same_client cl cl'.
Proof. unfold client_kept. intros H E. rewrite E in H. inversion H; subst. eauto. Qed.
Lemma deliver_client_kept c resp r s : client_kept c s (deliver resp r s).
Proof.
unfold deliver. destruct r as [d|]; [|by apply client_kept_same].
destruct (clients s !! d) as [dl|] eqn:Hd; [|by apply client_kept_same].
destruct (c_reply dl) eqn:Hr; [by apply client_kept_same|].
apply client_kept_upd. intros <- cl Hcl. simplify_eq. split_and!; [done..|]. congruence.
Qed.
Lemma send_client_kept c g resp s : client_kept c s (sendResponse g resp s).
Proof.
unfold sendResponse. destruct (goroutines s !! g) as [go|]; [|by apply client_kept_same].
destruct (heap s !! g) as [a|]; [|by apply client_kept_same].
apply (client_kept_trans c s (upd_go g (set_requests []) (upd_sa g (set_chan []) s)));
  [by apply client_kept_same|].
generalize (g_requests go ++ externalRequests a)%list. intros l.
generalize (upd_go g (set_requests []) (upd_sa g (set_chan []) s)).
induction l as [|r l IH]; intros s1; [by apply client_kept_same|].
cbn [foldl]. eapply client_kept_trans; [apply deliver_client_kept|apply IH].
Qed.

Lemma client_kept_goto c g pc s s' : client_kept c s s' → client_kept c s (goto g pc s').
Proof. done. Qed.

Lemma step_client_kept l s s' c :
step l s = Some s' → ¬ runs (inr c) l → (∀ r, l ≠ Call c r) → client_kept c s s'.
Proof.
intros H Hl Hnew. unfold TokenCache.step in H. destruct (fault s); [done|]. destruct l.
9: { unfold cacheTokens_step in H.
  destruct (goroutines s !! g) as [go|] eqn:Hgo; [|done].
  destruct (heap s !! g) as [a|] eqn:Ha; [|done]. cbn in H.
  destruct (g_pc go) as [| | | | |[t|e]| | | |] eqn:Hpc, b; try done.
  all: try (unfold checkIfMustDeleteAndDelete in H; rewrite Ha in H).
  4: destruct (createTokens _ _ _ _ _ _) as [o w].
  all: step_cases H.
  all: try (by apply client_kept_same).
  all: apply client_kept_goto; first [apply send_client_kept |
    apply (client_kept_trans c s (upd_go g (set_retries 0) s));
      [by apply client_kept_same|apply send_client_kept]]. }
9: { assert (c0 ≠ c) by (intros ->; apply Hl; cbn; eauto).
  unfold client_step in H.
  destruct (clients s !! c0) as [dl|] eqn:Hdl; [|done]. cbn in H.
  destruct (c_pc dl) as [ref|i|i|i|k|k|k|k r|k tok exp|o] eqn:Hpcd, b; try done.
  all: try destruct (source_call _ _ _) as [o w].
  all: step_cases H; apply client_kept_same; cbn; rewrite lookup_alter_ne by done; try done.
  by destruct k. }
11: { apply drain_inv in H as (go & a & req & rest & _ & _ & _ & _ & ->). by apply client_kept_same. }
all: step_cases H; try (by apply client_kept_same).
- unfold AddPodServiceAccount. case_match; by apply client_kept_same.
- unfold DeletePodServiceAccount. case_match; by apply client_kept_same.
- unfold UpdateServiceAccount. case_match; by apply client_kept_same.
- unfold DeleteServiceAccount. case_match; by apply client_kept_same.
- apply client_kept_same. cbn. rewrite lookup_insert_ne; [done|]. intros ->. by eapply Hnew.
- by apply client_kept_upd.
Qed.

(** A request goroutine that waits for its answer ends with its next step. *)
Lemma client_wait_done c b s s' cl g :
step (RunClient c b) s = Some s' → clients s !! c = Some cl → c_pc cl = CWait g →
∃ cl' o, clients s' !! c = Some cl' ∧ c_pc cl' = CDone o.
Proof.
intros H Hcl Hpc. unfold TokenCache.step in H. destruct (fault s); [done|].
unfold client_step in H. rewrite Hcl in H. cbn in H. rewrite Hpc in H.
destruct b; step_cases H; cbn; rewrite lookup_alter_eq, Hcl; cbn; by eexists _, _.
Qed.

(** ** A turn of a refresh goroutine *)

(** How many steps the goroutine takes at most until it answers, when tokens
  can be issued from now on. *)
Definition rank (pc : gpc) : nat :=
match pc with
| GRelease (Err _) => 12
| GCheckAgain (Err _) => 11
| GHandle (Err _) => 10
| GStore _ _ => 9
| GSleep _ => 8
| GCheck => 7
| GAcquire => 6
| GCreate => 5
| GRelease (Ok _) => 4
| GCheckAgain (Ok _) => 3
| GHandle (Ok _) => 2
| GReturn _ => 1
| GDone => 0
end.

(** The step answered every pending request, and the channel is empty. *)
Definition served (g : nat) s s' : Prop :=
(∀ a, heap s' !! g = Some a → externalRequests a = []) ∧
∀ c, c ∈ pend s g → ∃ cl, clients s' !! c = Some cl ∧ waiting g cl ∧ is_Some (c_reply cl).
(** Tokens can be issued for the account of the goroutine. *)
Definition issuable (ref : Reference) (w : W) : Prop :=
∃ t email w', createTokens Now Source SAs MaxTokenDuration ref w = (Ret (Ok (t, email)), w').

Lemma send_served g resp pc s :
PendInv s → is_Some (heap s !! g) → is_Some (goroutines s !! g) →
served g s (goto g pc (sendResponse g resp s)).
Proof.
intros HP [a Ha] [go Hgo]. destruct (sendResponse_spec g resp s HP) as (_ & Hc & _). split.
- clear Hc. cbn. unfold sendResponse. rewrite Hgo, Ha.
  match goal with |- context [foldl ?f (upd_go ?g ?h ?s) ?r] =>
    destruct (deliver_all_frame resp r (upd_go g h s)) as (? & ? & ->) end.
  cbn. rewrite lookup_alter_eq, Ha. by intros ? [= <-].
- intros c Hin. destruct (pe_open _ HP g c Hin) as (cl & Hcl & _ & Hw). cbn.
  rewrite Hc, decide_True, Hcl by done. eexists. split; [done|]. by split.
Qed.

(** A step that keeps the requests and, when tokens can be issued, comes
  closer to the answer. *)
Definition moved (g : nat) (pc : gpc) s s' : Prop :=
(∀ c, c ∈ pend s g → c ∈ pend s' g) ∧
∃ go', goroutines s' !! g = Some go' ∧ g_pc go' ≠ GDone ∧
  ((∀ a, heap s !! g = Some a → issuable (sa_Reference a) (world s)) →
   rank (g_pc go') < rank pc).

Lemma goto_moved g pc pc' s s1 :
is_Some (goroutines s1 !! g) → pend s1 g = pend s g → pc' ≠ GDone →
((∀ a, heap s !! g = Some a → issuable (sa_Reference a) (world s)) → rank pc' < rank pc) →
moved g pc s (goto g pc' s1).
Proof.
intros [go Hgo] Hp Hd Hr. unfold moved, goto. rewrite pend_upd_go by done. split; [by rewrite Hp|].
exists (set_gpc pc' go). cbn. by rewrite lookup_alter_eq, Hgo.
Qed.

Lemma refresh_step g b s s' go :
(∀ ref, total (createTokens Now Source SAs MaxTokenDuration ref)) →
StructInv s → PendInv s → step (RunGoroutine g b) s = Some s' → goroutines s !! g = Some go →
served g s s' ∨ moved g (g_pc go) s s'.
Proof.
intros Ht HA HP H Hgo. unfold TokenCache.step in H. rewrite (pe_fault _ HP) in H.
unfold cacheTokens_step in H. rewrite Hgo in H. destruct (heap s !! g) as [a|] eqn:Ha; [|done].
cbn in H.
assert (Hsend : ∀ resp pc n, served g s (goto g pc (sendResponse g resp (upd_go g (set_retries n) s)))).
{ intros resp pc n.
  destruct (send_served g resp pc (upd_go g (set_retries n) s)) as [H1 H2].
  - by apply pend_set_go.
  - by exists a.
  - cbn. by rewrite lookup_alter_eq, Hgo.
  - split; [exact H1|]. intros c Hin. apply H2. by rewrite pend_upd_go. }
destruct (g_pc go) as [| | |[t|e]|[t|e]|[t|e]| | | |] eqn:Hpc, b; try done.
all: try (unfold checkIfMustDeleteAndDelete in H; rewrite Ha in H).
4: destruct (Ht (sa_Reference a) (world s)) as ([[t email]|e] & w & Hc); rewrite Hc in H.
all: step_cases H.
all: try (left; apply Hsend).
all: try (left; apply send_served; eauto; fail).
all: right; apply goto_moved; try done; try (by rewrite ?pend_upd_sa, ?pend_upd_go by done);
  try (cbn; rewrite ?lookup_alter_eq, Hgo; by cbn); try (cbn; lia).
- intros Hok. destruct (Hok a Ha) as (t & em & w' & E). congruence.
- by eapply receive_pend.
Qed.

(** ** A turn of a request for tokens that depend on the input *)

Definition keyed (pc : cpc) : Prop :=
match pc with CLookup _ | CAcquire _ | CCall _ | CRelease _ _ | CInsert _ _ _ => True | _ => False end.
Definition crank (pc : cpc) : nat :=
match pc with
| CLookup _ => 5 | CAcquire _ => 4 | CCall _ => 3 | CRelease _ _ => 2 | CInsert _ _ _ => 1
| _ => 0
end.
Definition finished (cl : client) : Prop := ∃ o, c_pc cl = CDone o.

Lemma keyed_step c b s s' cl :
(∀ r, total (source_call Source r)) →
step (RunClient c b) s = Some s' → clients s !! c = Some cl → keyed (c_pc cl) →
∃ cl', clients s' !! c = Some cl' ∧
  (finished cl' ∨ keyed (c_pc cl') ∧ crank (c_pc cl') < crank (c_pc cl)) ∧
  (c_holds cl = true → c_holds cl' = true ∨ semaphore s' = pred (semaphore s)).
Proof.
intros Ht H Hcl Hk. unfold TokenCache.step in H. destruct (fault s); [done|].
unfold client_step in H. rewrite Hcl in H. cbn in H. unfold c_holds.
destruct (c_pc cl) as [| | | |k|k|k|k r|k tok exp|] eqn:Hpc; try done; destruct b; try done.
all: try (destruct (Ht (c_call cl) (world s)) as (r & w & Hr); rewrite Hr in H).
all: step_cases H; try (destruct k); cbn; rewrite lookup_alter_eq, Hcl; cbn; eexists; (split; [done|]).
all: split; [|by auto]; first [left; by eexists|right; cbn; split; [done|lia]].
Qed.

(** ** A turn of a request for the tokens of an account *)

Lemma account_step c b s s' cl :
step (RunClient c b) s = Some s' → clients s !! c = Some cl →
∃ cl', clients s' !! c = Some cl' ∧ c_call cl' = c_call cl ∧
  (finished cl' ∨
   match c_pc cl with
   | CGet _ => ∃ g, c_pc cl' = CRead g
   | CRead g => c_pc cl' = CDispatch g
   | CDispatch g => c_pc cl' = CWait g
   | CWait _ | CDone _ => False
   | pc => keyed (c_pc cl')
   end).
Proof.
intros H Hcl. unfold TokenCache.step in H. destruct (fault s); [done|].
unfold client_step in H. rewrite Hcl in H. cbn in H.
destruct (c_pc cl) as [ref|i|i|i|k|k|k|k r|k tok exp|] eqn:Hpc; try done; destruct b; try done.
all: try (destruct (source_call _ _ _) as [o w]).
all: step_cases H; try (destruct k); cbn; rewrite lookup_alter_eq, Hcl; cbn; eexists; (split; [done|]).
all: split; [done|]; first [left; by eexists|right; cbn; by eauto].
Qed.

(** Every request that waits without a reply is pending. *)
Definition WaitInv s : Prop :=
∀ c cl g, clients s !! c = Some cl → c_pc cl = CWait g → c_reply cl = None → c ∈ pend s g.

Lemma dispatch_pend c b s s' cl g :
StructInv s → step (RunClient c b) s = Some s' → clients s !! c = Some cl →
c_pc cl = CDispatch g → c_pc <$> clients s' !! c = Some (CWait g) → c ∈ pend s' g.
Proof.
intros HA H Hcl Hpc Hpc'. unfold TokenCache.step in H. destruct (fault s); [done|].
unfold client_step in H. rewrite Hcl in H. cbn in H. rewrite Hpc in H.
destruct b; try done; cbn in H.
- destruct (heap s !! g) as [a|] eqn:Ha; [|done]. cbn in H.
  destruct (externalRequests a) eqn:E; [|done]. injection H as <-.
  destruct (proj1 (st_dom _ HA g)) as [go Hgo]; [eauto|].
  unfold pend. cbn. rewrite Hgo, lookup_alter_eq, Ha. cbn. rewrite omap_app. set_solver.
- destruct (c_ctxErr cl); [|done]. injection H as <-. revert Hpc'. cbn. by rewrite lookup_alter_eq, Hcl.
- destruct (ctxDone s); [|done]. injection H as <-. revert Hpc'. cbn. by rewrite lookup_alter_eq, Hcl.
Qed.

Lemma wait_step l s s' :
(∀ ref, total (createTokens Now Source SAs MaxTokenDuration ref)) →
StructInv s → PendInv s → WaitInv s → step l s = Some s' → WaitInv s'.
Proof.
intros Ht HA HP HW H c cl' g Hc' Hpc' Hr'.
destruct (classic (runs (inr c) l)) as [[b ->]|Hl].
{ destruct (clients s !! c) as [cl|] eqn:Hcl.
  - destruct (account_step c b s s' cl H Hcl) as (cl1 & Hc1 & _ & [[o Ho]|Hn]); [congruence|].
    simplify_eq. rewrite Hpc' in Hn. destruct (c_pc cl) eqn:Hpc; try done; [by destruct Hn|].
    simplify_eq. eapply dispatch_pend; [done..|]. by rewrite Hc', <- Hpc'.
  - unfold TokenCache.step in H. rewrite (pe_fault _ HP) in H.
    unfold client_step in H. by rewrite Hcl in H. }
destruct (classic (∃ r, l = Call c r)) as [[r ->]|Hnew].
{ unfold TokenCache.step in H. rewrite (pe_fault _ HP) in H. destruct (clients s !! c); [done|].
  injection H as <-. revert Hc'. cbn. rewrite lookup_insert_eq. intros [= <-].
  revert Hpc'. unfold start. cbn. by repeat case_match. }
assert (Hk : client_kept c s s') by (eapply step_client_kept; eauto).
destruct (client_kept_r c s s' cl' Hk Hc') as (cl & Hcl & E & _ & Hr).
assert (Hin : c ∈ pend s g).
{ eapply HW; [done|congruence|]. destruct (c_reply cl) as [r|]; [|done]. by rewrite (Hr r eq_refl) in Hr'. }
destruct (goroutines s !! g) as [go|] eqn:Hgo; [|unfold pend in Hin; rewrite Hgo in Hin; set_solver].
destruct (classic (runs (inl g) l)) as [[b ->]|Hlg].
- destruct (refresh_step g b s s' go Ht HA HP H Hgo) as [[_ Hs]|[Hp _]]; [|by apply Hp].
  destruct (Hs c Hin) as (cl2 & Hc2 & _ & [resp Hr2]). congruence.
- eapply step_kept; [done|by apply (st_dom _ HA g)|exact H|exact Hlg|exact Hin].
Qed.

(** ** Fair executions *)

(** A goroutine that neither waits for the semaphore nor sleeps can go on. *)
Lemma go_ready g s go :
fault s = None → StructInv s → goroutines s !! g = Some go →
match g_pc go with GAcquire | GSleep _ | GDone => False | _ => True end → enabled step runs (inl g) s.
Proof.
intros Hf HA Hgo Hpc. destruct (proj2 (st_dom _ HA g)) as [a Ha]; [eauto|].
exists (RunGoroutine g BGo). unfold TokenCache.step, cacheTokens_step. rewrite Hf, Hgo, Ha. cbn.
destruct (g_pc go) as [| | |r|r|[t|e]| | | |]; try done.
- destruct (checkIfMustDeleteAndDelete g s). eexists. split; [by eexists|done].
- destruct (createTokens _ _ _ _ _ _) as [[[[t e]|e]|m] w]; (eexists; split; [by eexists|done]).
- eexists. split; [by eexists|done].
- destruct (checkIfMustDeleteAndDelete g s). eexists. split; [by eexists|done].
- eexists. split; [by eexists|done].
- destruct (errors_Is e _); (eexists; split; [by eexists|done]).
- eexists. split; [by eexists|done].
- eexists. split; [by eexists|done].
Qed.
Lemma acquire_ready g s go :
fault s = None → StructInv s → goroutines s !! g = Some go → g_pc go = GAcquire →
semaphore s < Concurrency → enabled step runs (inl g) s.
Proof.
intros Hf HA Hgo Hpc Hs%Nat.ltb_lt. destruct (proj2 (st_dom _ HA g)) as [a Ha]; [eauto|].
exists (RunGoroutine g BGo). eexists. split; [by eexists|].
unfold TokenCache.step, cacheTokens_step. rewrite Hf, Hgo, Ha. cbn -[Nat.ltb]. by rewrite Hpc, Hs.
Qed.
Lemma timer_ready g s go d :
fault s = None → StructInv s → goroutines s !! g = Some go → g_pc go = GSleep d →
(d ≤ clock s)%Z → enabled step runs (inl g) s.
Proof.
intros Hf HA Hgo Hpc Hs%Z.leb_le. destruct (proj2 (st_dom _ HA g)) as [a Ha]; [eauto|].
exists (RunGoroutine g BTimer). eexists. split; [by eexists|].
unfold TokenCache.step, cacheTokens_step. rewrite Hf, Hgo, Ha. cbn. by rewrite Hpc, Hs.
Qed.

(** Who holds the semaphore. *)
Lemma count_pos {A} (P : A → bool) (m : gmap nat A) :
count P m ≠ 0 → ∃ k x, m !! k = Some x ∧ P x = true.
Proof.
intros Hc. apply NNPP. intros Hno. apply Hc, count_0. intros k x Hx.
destruct (P x) eqn:E; [|done]. destruct Hno. eauto.
Qed.
Lemma holder_exists s :
holders s ≠ 0 →
(∃ g go, goroutines s !! g = Some go ∧ g_holds go = true) ∨
(∃ c cl, clients s !! c = Some cl ∧ c_holds cl = true).
Proof.
unfold holders. intros H. destruct (Nat.eq_dec (count g_holds (goroutines s)) 0) as [E|E].
- right. apply count_pos. lia.
- left. by apply count_pos.
Qed.
End Turns.
