(* ===== verification/TokenCacheLiveness.v ===== *)
(** * The token cache: requests are answered

    TokenCacheTheorems.v says what an answer contains and which requests never
    get one.  This file shows the converse: in every fair execution whose
    clock goes on and where tokens can be issued again, each request comes to
    its end, except those handed to a goroutine that has returned, and these do
    not occur while the account keeps a pod. *)

From S2P Require Import Prelude GoStrings GoTime Credentials Api ServiceAccounts Tokens.
From S2P Require Import TokenCache TokenCacheProofs TokenCacheTheorems Fairness TokenCacheTurns.
From Stdlib Require Import Classical.
Open Scope string_scope.
Open Scope nat_scope.

Section Liveness.
Context {W : Type} (Now : W → Time) (Source : Tokens.Provider W).
Context (SAs : ServiceAccounts.Provider W) (jwt_Subject : string → option string).
Context (Concurrency : nat) (MaxTokenDuration : Z).
Implicit Type s : State W.

Local Abbreviation step := (TokenCache.step Now Source SAs jwt_Subject Concurrency MaxTokenDuration).
Local Abbreviation reachable :=
(TokenCache.reachable Now Source SAs jwt_Subject Concurrency MaxTokenDuration).
Local Abbreviation issuable := (TokenCacheTurns.issuable Now Source SAs MaxTokenDuration).
Local Abbreviation clock s := (default 0%Z (t_mono (Now (world s)))).

Section Runs.
Context (source_total : ∀ r, total (source_call Source r)).
Context (create_total : ∀ ref, total (createTokens Now Source SAs MaxTokenDuration ref)).
Context (Hconc : 0 < Concurrency).
Context (σ : nat → State W) (ℓ : nat → label W) (Hreach : reachable (σ 0)).
Context (Hexec : execution step σ ℓ) (Hfair : fair step runs σ ℓ).
Context (Hclock : ∀ d, ∃ n, ∀ m, n ≤ m → (d ≤ clock (σ m))%Z).

Lemma reach n : reachable (σ n).
Proof. induction n as [|n IH]; [done|]. eapply reach_step; [exact IH|apply Hexec]. Qed.
Lemma struct_at n : StructInv (σ n).
Proof. eapply struct_reachable, reach. Qed.
Lemma pend_at n : PendInv (σ n).
Proof. eapply pend_reachable; [done|apply reach]. Qed.
Lemma fault_at n : fault (σ n) = None.
Proof. apply pend_at. Qed.
#[local] Hint Resolve struct_at pend_at fault_at : core.

Lemma heap_at n g go : goroutines (σ n) !! g = Some go → is_Some (heap (σ n) !! g).
Proof. intros Hg. apply (st_dom _ (struct_at n)). eauto. Qed.
Lemma kept_at n g go : goroutines (σ n) !! g = Some go → ¬ runs (inl g) (ℓ n) → kept g (σ n) (σ (S n)).
Proof. intros Hg. eapply step_kept; [done|by eapply heap_at|apply Hexec]. Qed.

(** The goroutine stays where it is until it runs. *)
Definition go_at (g : nat) (pc : gpc) s : Prop := ∃ go, goroutines s !! g = Some go ∧ g_pc go = pc.
Lemma go_stays n g pc m :
n ≤ m → go_at g pc (σ m) ∧ (∀ c, c ∈ pend (σ n) g → c ∈ pend (σ m) g) → ¬ runs (inl g) (ℓ m) →
go_at g pc (σ (S m)) ∧ (∀ c, c ∈ pend (σ n) g → c ∈ pend (σ (S m)) g).
Proof.
intros _ [(go & Hg & <-) Hp] Hr. destruct (kept_at m g go Hg Hr) as (Hk & _ & Hin). split; [by apply Hk|auto].
Qed.

Definition ready_pc (pc : gpc) : Prop :=
match pc with GAcquire | GSleep _ | GDone => False | _ => True end.
#[local] Instance ready_pc_dec pc : Decision (ready_pc pc).
Proof. destruct pc; cbn; apply _. Defined.
Lemma ready_turn n g go :
goroutines (σ n) !! g = Some go → ready_pc (g_pc go) →
∃ m go', n ≤ m ∧ goroutines (σ m) !! g = Some go' ∧ g_pc go' = g_pc go ∧ runs (inl g) (ℓ m).
Proof.
intros Hg Hpc.
destruct (leads_ready step runs σ ℓ Hfair (inl g)
  (λ s, go_at g (g_pc go) s ∧ ∀ c, c ∈ pend (σ n) g → c ∈ pend s g) n)
  as (m & Hm & [(go' & Hg' & E) _] & Hr); [split; [by exists go|done]|by apply go_stays| |by exists m, go'].
intros m _ [(go' & Hg' & E) _]. eapply go_ready; [done..|]. by rewrite E.
Qed.
(** The request goroutine stays where it is until it runs. *)
Lemma client_at n c cl : clients (σ n) !! c = Some cl → ¬ runs (inr c) (ℓ n) →
∃ cl', clients (σ (S n)) !! c = Some cl' ∧ same_client cl cl'.
Proof.
intros Hc Hr. eapply client_kept_Some; [|done]. eapply step_client_kept; [apply Hexec|done|].
intros r Hl. pose proof (Hexec n) as H. rewrite Hl in H. unfold TokenCache.step in H.
by rewrite fault_at, Hc in H.
Qed.

Definition at_client (c : nat) (cl : client) s : Prop :=
∃ cl', clients s !! c = Some cl' ∧ same_client cl cl'.
Lemma client_stays c cl m : at_client c cl (σ m) → ¬ runs (inr c) (ℓ m) → at_client c cl (σ (S m)).
Proof.
intros (cl1 & Hc1 & E1) Hr. destruct (client_at m c cl1 Hc1 Hr) as (cl2 & Hc2 & E2).
exists cl2. split; [done|]. by etrans.
Qed.
Lemma client_turn n c cl :
clients (σ n) !! c = Some cl → (∀ m, n ≤ m → at_client c cl (σ m) → enabled step runs (inr c) (σ m)) →
∃ m, n ≤ m ∧ at_client c cl (σ m) ∧ runs (inr c) (ℓ m).
Proof.
intros Hc Hen.
apply (leads_ready step runs σ ℓ Hfair (inr c) (at_client c cl) n); [by exists cl| |done].
intros m _. apply client_stays.
Qed.

(** A request goroutine that neither waits nor has ended can go on. *)
Definition ready_cpc (pc : cpc) : Prop :=
match pc with CLookup _ | CCall _ | CRelease _ _ | CInsert _ _ _ => True | _ => False end.
Lemma client_ready m c cl :
at_client c cl (σ m) → ready_cpc (c_pc cl) → enabled step runs (inr c) (σ m).
Proof.
intros (cl' & Hc & (E & E2 & _)) Hpc. exists (RunClient c BGo).
unfold TokenCache.step, client_step. rewrite fault_at, Hc. cbn. rewrite E.
destruct (c_pc cl) as [| | | |k| |k|k [[tok exp]|e]|k tok exp|]; try done.
- destruct (cache_lookup k (σ m)) as [t|]; [destruct (isExpired _ t)|];
    (eexists; split; [by eexists|done]).
- destruct (source_total (c_call cl') (world (σ m))) as (r & w & ->).
  eexists; split; [by eexists|done].
- eexists; split; [by eexists|done].
- eexists; split; [by eexists|done].
- eexists; split; [by eexists|done].
Qed.

(** Who issues tokens gives the semaphore back. *)
Lemma sem_at n : SemInv Concurrency (σ n).
Proof. by eapply sem_reachable, reach. Qed.
Lemma go_creates n g go :
goroutines (σ n) !! g = Some go → g_pc go = GCreate →
∃ m go' r, n ≤ m ∧ goroutines (σ m) !! g = Some go' ∧ g_pc go' = GRelease r.
Proof.
intros Hg Hpc. destruct (ready_turn n g go Hg) as (m & go1 & Hm & Hg' & Hpc' & [b Hl]); [by rewrite Hpc|]. rewrite Hpc in Hpc'.
pose proof (Hexec m) as H. rewrite Hl in H.
unfold TokenCache.step, cacheTokens_step in H. rewrite fault_at, Hg' in H.
destruct (heap_at m g go1 Hg') as [a Ha]. rewrite Ha in H. cbn in H. rewrite Hpc' in H.
destruct b; try done. destruct (create_total (sa_Reference a) (world (σ m))) as (r & w & Hc).
rewrite Hc in H. exists (S m). destruct r as [[t em]|e]; injection H as <-;
  (eexists _, _; split; [lia|]; cbn; rewrite lookup_alter_eq, Hg'; by split).
Qed.
Lemma go_releases n g go r :
goroutines (σ n) !! g = Some go → g_pc go = GRelease r →
∃ m, n ≤ m ∧ semaphore (σ m) < Concurrency.
Proof.
intros Hg Hpc. destruct (ready_turn n g go Hg) as (m & go1 & Hm & Hg' & Hpc' & [b Hl]); [by rewrite Hpc|]. rewrite Hpc in Hpc'.
pose proof (Hexec m) as H. rewrite Hl in H.
unfold TokenCache.step, cacheTokens_step in H. rewrite fault_at, Hg' in H.
destruct (heap_at m g go1 Hg') as [a Ha]. rewrite Ha in H. cbn in H. rewrite Hpc' in H.
destruct b; try done. exists (S m). split; [lia|]. injection H as <-. cbn.
pose proof (sem_at m) as [Hs Hle].
pose proof (g_holder_pos (σ m) g go1 Hg'). unfold g_holds in *. rewrite Hpc' in *. lia.
Qed.
(** One step of a request for such tokens. *)
Lemma keyed_turn n c cl :
clients (σ n) !! c = Some cl → keyed (c_pc cl) →
(∀ m, n ≤ m → at_client c cl (σ m) → enabled step runs (inr c) (σ m)) →
∃ m cl1 cl2, n ≤ m ∧ clients (σ m) !! c = Some cl1 ∧ c_pc cl1 = c_pc cl ∧
  clients (σ (S m)) !! c = Some cl2 ∧
  (finished cl2 ∨ keyed (c_pc cl2) ∧ crank (c_pc cl2) < crank (c_pc cl)) ∧
  (c_holds cl1 = true → c_holds cl2 = true ∨ semaphore (σ (S m)) = pred (semaphore (σ m))).
Proof.
intros Hc Hk Hen. destruct (client_turn n c cl Hc Hen) as (m & Hm & (cl1 & Hc1 & E & _) & [b Hl]).
pose proof (Hexec m) as H. rewrite Hl in H. rewrite <- E in Hk.
destruct (keyed_step _ _ _ _ _ _ c b _ _ cl1 source_total H Hc1 Hk) as (cl2 & Hc2 & Hn & Hs).
rewrite E in Hn. by exists m, cl1, cl2.
Qed.
Lemma client_releases n c cl :
clients (σ n) !! c = Some cl → c_holds cl = true → ∃ m, n ≤ m ∧ semaphore (σ m) < Concurrency.
Proof.
remember (crank (c_pc cl)) as r eqn:Hr. revert n cl Hr.
induction (lt_wf r) as [r _ IH]. intros n cl -> Hc Hh.
assert (Hready : ready_cpc (c_pc cl) ∧ keyed (c_pc cl)) by (unfold c_holds in Hh; by destruct (c_pc cl)).
destruct Hready as [Hready Hk].
destruct (keyed_turn n c cl Hc Hk) as (m & cl1 & cl2 & Hm & Hc1 & E & Hc2 & Hn & Hs).
{ intros m _ Hm. by eapply client_ready. }
assert (Hh1 : c_holds cl1 = true) by (unfold c_holds in *; by rewrite E).
destruct (Hs Hh1) as [Hh2|Hp].
- destruct Hn as [[o Ho]|[_ Hlt]]; [unfold c_holds in Hh2; by rewrite Ho in Hh2|].
  destruct (IH _ Hlt (S m) cl2) as (m' & ? & ?); [done..|]. exists m'. split; [lia|done].
- exists (S m). split; [lia|]. rewrite Hp. pose proof (sem_at m) as [H1 H2].
  pose proof (c_holder_pos (σ m) c cl1 Hc1 Hh1). lia.
Qed.

(** Whatever the others do, the semaphore is free again and again. *)
Lemma semaphore_free n : ∃ m, n ≤ m ∧ semaphore (σ m) < Concurrency.
Proof.
destruct (decide (semaphore (σ n) < Concurrency)) as [|Hn]; [by exists n|].
pose proof (sem_at n) as [H1 H2].
destruct (holder_exists (σ n)) as [(g & go & Hg & Hh)|(c & cl & Hc & Hh)]; [lia| |].
- unfold g_holds in Hh. destruct (g_pc go) eqn:Hpc; try done.
  + destruct (go_creates n g go Hg Hpc) as (m & go' & r & Hm & Hg' & Hpc').
    destruct (go_releases m g go' r Hg' Hpc') as (m' & ? & ?). exists m'. split; [lia|done].
  + by eapply go_releases.
- by eapply client_releases.
Qed.

(** Every goroutine that has not returned takes its next step. *)
Lemma go_turn n g go :
goroutines (σ n) !! g = Some go → g_pc go ≠ GDone →
∃ m go', n ≤ m ∧ goroutines (σ m) !! g = Some go' ∧ g_pc go' = g_pc go ∧
     (∀ c, c ∈ pend (σ n) g → c ∈ pend (σ m) g) ∧ runs (inl g) (ℓ m).
Proof.
intros Hg Hpc.
destruct (leads step runs σ ℓ Hfair (inl g)
  (λ s, go_at g (g_pc go) s ∧ ∀ c, c ∈ pend (σ n) g → c ∈ pend s g) n)
  as (m & Hm & [(go' & Hg' & E) Hp] & Hr); [split; [by exists go|done]|by apply go_stays| |by exists m, go'].
intros Hall k Hk. destruct (decide (ready_pc (g_pc go))) as [Hr|Hr].
- exists k. split; [done|]. destruct (Hall k Hk) as [(go' & Hg' & E) _]. eapply go_ready; [done..|]. by rewrite E.
- destruct (g_pc go) eqn:E; try done; cbn in Hr; try tauto.
  + destruct (semaphore_free k) as (m & Hm & Hs). exists m. split; [done|].
    destruct (Hall m ltac:(lia)) as [(go' & Hg' & E') _]. by eapply acquire_ready.
  + destruct (Hclock deadline) as [n1 Hn1]. exists (Nat.max k n1). split; [lia|].
    destruct (Hall (Nat.max k n1) ltac:(lia)) as [(go' & Hg' & E') _].
    eapply timer_ready; [done..|]. apply Hn1. lia.
Qed.

(** ** Progress *)

Lemma refs_at n m g a : n ≤ m → heap (σ n) !! g = Some a →
∃ a', heap (σ m) !! g = Some a' ∧ sa_Reference a' = sa_Reference a.
Proof.
intros Hm Ha. induction Hm as [|m Hm (a1 & Ha1 & E1)]; [eauto|].
destruct (step_refs _ _ _ _ _ _ (ℓ m) (σ m) (σ (S m)) ltac:(done) (Hexec m) g a1 Ha1) as (a2 & Ha2 & E2).
exists a2. split; [done|congruence].
Qed.

(** The goroutine of an account whose tokens can be issued from some time on
  answers all that is pending. *)
Lemma goroutine_serves n g go a :
goroutines (σ n) !! g = Some go → g_pc go ≠ GDone → heap (σ n) !! g = Some a →
(∃ n0, ∀ m, n0 ≤ m → issuable (sa_Reference a) (world (σ m))) →
∃ m, n ≤ m ∧ served g (σ m) (σ (S m)) ∧ ∀ c, c ∈ pend (σ n) g → c ∈ pend (σ m) g.
Proof.
intros Hg Hpc Ha [n0 Hok].
set (Q := λ s : State W, (∃ go', goroutines s !! g = Some go' ∧ g_pc go' ≠ GDone) ∧
                         ∀ c, c ∈ pend (σ n) g → c ∈ pend s g).
set (goal := λ m, served g (σ m) (σ (S m)) ∧ ∀ c, c ∈ pend (σ n) g → c ∈ pend (σ m) g).
assert (Hwait : ∀ m, n ≤ m → Q (σ m) ∨ ∃ k, n ≤ k ∧ goal k).
{ intros m Hm. induction Hm as [|m Hm [[(go1 & Hg1 & Hpc1) Hp]|?]]; [left|..|by right].
  - split; [by exists go|done].
  - destruct (classic (runs (inl g) (ℓ m))) as [[b Hl]|Hl].
    + pose proof (Hexec m) as H. rewrite Hl in H.
      destruct (refresh_step _ _ _ _ _ _ g b _ _ go1 create_total ltac:(done) ltac:(done) H Hg1)
        as [Hs|[Hp' (go2 & Hg2 & Hd2 & _)]]; [right; by exists m|left].
      split; [by exists go2|auto].
    + left. destruct (kept_at m g go1 Hg1 Hl) as (Hk & _ & Hin). split; [|auto].
      destruct (Hk go1 Hg1) as (go2 & Hg2 & E). exists go2. by rewrite E. }
destruct (Hwait (Nat.max n n0) ltac:(lia)) as [HQ|(k & ? & Hk & ?)]; [|by exists k].
set (go_rank := λ s : State W, match goroutines s !! g with Some go => rank (g_pc go) | None => 0 end).
destruct (leads_rank σ go_rank Q goal (Nat.max n n0) (Nat.max n n0)) as (m & Hm & Hs & Hp); [..|done|done|].
2: { exists m. split; [lia|done]. }
intros m Hm [(go1 & Hg1 & Hpc1) Hp].
destruct (go_turn m g go1 Hg1 Hpc1) as (k & go3 & Hk & Hg2 & E3 & Hp2 & [b Hl]).
pose proof (Hexec k) as H. rewrite Hl in H. exists k. split; [done|].
destruct (refresh_step _ _ _ _ _ _ g b _ _ go3 create_total ltac:(done) ltac:(done) H Hg2)
  as [Hs|[Hp' (go2 & Hg3 & Hd2 & Hr)]]; [left; split; auto|right].
split; [split; [by exists go2|auto]|]. unfold go_rank. rewrite Hg1, Hg3, <- E3. apply Hr.
intros a' Ha'. destruct (refs_at n k g a ltac:(lia) Ha) as (a2 & Ha2 & E). simplify_eq.
rewrite E. apply Hok. lia.
Qed.

(** A request that has its answer, or the end of its context, ends. *)
Lemma replied_finishes n c cl g :
clients (σ n) !! c = Some cl → waiting g cl → is_Some (c_reply cl) →
∃ m cl', n ≤ m ∧ clients (σ m) !! c = Some cl' ∧ finished cl'.
Proof.
intros Hc [Hw|Hd] [resp Hr]; [|by exists n, cl].
destruct (client_turn n c cl Hc) as (m & Hm & (cl1 & Hc1 & E & _) & [b Hl]).
- intros m _ (cl1 & Hc1 & E & _ & Hr1). exists (RunClient c BRecv).
  unfold TokenCache.step, client_step. rewrite fault_at, Hc1. cbn.
  rewrite E, Hw, (Hr1 _ Hr). cbn. eexists. split; [by eexists|done].
- pose proof (Hexec m) as H. rewrite Hl in H. rewrite Hw in E.
  destruct (client_wait_done _ _ _ _ _ _ c b _ _ cl1 g H Hc1 E) as (cl2 & o & Hc2 & Ho).
  exists (S m), cl2. split_and!; [lia|done|by exists o].
Qed.

Lemma pending_finishes n g go a c :
goroutines (σ n) !! g = Some go → g_pc go ≠ GDone → heap (σ n) !! g = Some a →
(∃ n0, ∀ m, n0 ≤ m → issuable (sa_Reference a) (world (σ m))) → c ∈ pend (σ n) g →
∃ m cl, n ≤ m ∧ clients (σ m) !! c = Some cl ∧ finished cl.
Proof.
intros Hg Hpc Ha Hok Hin.
destruct (goroutine_serves n g go a Hg Hpc Ha Hok) as (m & Hm & [_ Hs] & Hp).
destruct (Hs c (Hp c Hin)) as (cl & Hc & Hw & Hr).
destruct (replied_finishes (S m) c cl g Hc Hw Hr) as (m' & cl' & ? & ? & ?).
exists m', cl'. split_and!; [lia|done..].
Qed.

Lemma wait_at n : WaitInv (σ n).
Proof.
induction n as [|n IH]; [|by eapply wait_step; [..|apply Hexec]].
clear - Hreach create_total. induction Hreach as [w|s l s' Hr IH Hs].
- intros c cl g. cbn. by rewrite lookup_empty.
- eapply wait_step; [done|by eapply struct_reachable|by eapply pend_reachable|by apply IH|done].
Qed.

(** ** Every request comes to its end *)

(** The request ends, or it is handed to a goroutine that has returned. *)
Definition stuck (cl : client) s : Prop :=
∃ g go, (c_pc cl = CDispatch g ∨ c_pc cl = CWait g) ∧ goroutines s !! g = Some go ∧ g_pc go = GDone.
Definition settles (c n : nat) : Prop :=
∃ m cl, n ≤ m ∧ clients (σ m) !! c = Some cl ∧ (finished cl ∨ stuck cl (σ m)).
Lemma settles_later c n m : n ≤ m → settles c m → settles c n.
Proof. intros ? (k & cl & ? & ?). exists k, cl. split; [lia|done]. Qed.

(** Tokens for the account of the call can be issued from some time on. *)
Definition account_recovers (r : call) : Prop :=
∀ ref, ref_of jwt_Subject r = Some ref → ∃ n0, ∀ m, n0 ≤ m → issuable ref (world (σ m)).

Lemma account_at n c cl g :
clients (σ n) !! c = Some cl → account_recovers (c_call cl) →
c_pc cl = CRead g ∨ c_pc cl = CDispatch g ∨ c_pc cl = CWait g →
∃ a go, heap (σ n) !! g = Some a ∧ goroutines (σ n) !! g = Some go ∧
  ∃ n0, ∀ m, n0 ≤ m → issuable (sa_Reference a) (world (σ m)).
Proof.
intros Hc Hrec Hpc.
pose proof (to_cl _ _ _ _ _ _ (tok_reachable _ _ _ _ _ _ _ create_total (reach n)) c cl Hc) as Hok.
unfold client_ok, at_account in Hok.
assert (∃ a, heap (σ n) !! g = Some a ∧ ref_of jwt_Subject (c_call cl) = Some (sa_Reference a))
  as (a & Ha & Hr) by (destruct Hpc as [E|[E|E]]; rewrite E in Hok; naive_solver).
destruct (proj1 (st_dom _ (struct_at n) g)) as [go Hgo]; [eauto|].
exists a, go. split_and!; [done..|]. by apply Hrec.
Qed.

Lemma wait_settles n c cl g :
clients (σ n) !! c = Some cl → account_recovers (c_call cl) → c_pc cl = CWait g → settles c n.
Proof.
intros Hc Hrec Hpc. destruct (account_at n c cl g Hc Hrec) as (a & go & Ha & Hg & Hok); [auto|].
destruct (c_reply cl) as [resp|] eqn:Hr.
- destruct (replied_finishes n c cl g Hc) as (m & cl' & ? & ? & ?); [by left|by exists resp|].
  exists m, cl'. auto.
- destruct (classic (g_pc go = GDone)) as [Hd|Hd].
  + exists n, cl. split_and!; [done..|]. right. exists g, go. auto.
  + destruct (pending_finishes n g go a c Hg Hd Ha Hok) as (m & cl' & ? & ? & ?);
      [by eapply wait_at|]. exists m, cl'. auto.
Qed.

(** A request that can go on again and again takes its next step. *)
Lemma client_next n c cl :
clients (σ n) !! c = Some cl →
((∀ m, n ≤ m → at_client c cl (σ m)) → ∀ k, n ≤ k → ∃ m, k ≤ m ∧ enabled step runs (inr c) (σ m)) →
∃ m cl1 cl2, n ≤ m ∧ clients (σ m) !! c = Some cl1 ∧ c_pc cl1 = c_pc cl ∧
  clients (σ (S m)) !! c = Some cl2 ∧ c_call cl2 = c_call cl ∧
  ∃ b, step (RunClient c b) (σ m) = Some (σ (S m)).
Proof.
intros Hc Hen.
destruct (leads step runs σ ℓ Hfair (inr c) (at_client c cl) n)
  as (m & Hm & (cl1 & Hc1 & E1 & E2 & _) & [b Hl]); [by exists cl|intros m _; apply client_stays|done|].
pose proof (Hexec m) as H. rewrite Hl in H.
destruct (account_step _ _ _ _ _ _ c b _ _ cl1 H Hc1) as (cl2 & Hc2 & E3 & _).
exists m, cl1, cl2. split_and!; [done..|congruence|by exists b].
Qed.

Lemma dispatch_settles n c cl g :
clients (σ n) !! c = Some cl → account_recovers (c_call cl) → c_pc cl = CDispatch g → settles c n.
Proof.
intros Hc Hrec Hpc. apply NNPP. intros Hno.
destruct (client_next n c cl Hc) as (m & cl1 & cl2 & Hm & Hc1 & E1 & Hc2 & E2 & b & Hb).
- intros Hall k Hk. destruct (Hall k Hk) as (cl1 & Hc1 & E1 & E2 & _).
  destruct (account_at k c cl1 g Hc1) as (a & go & Ha & Hg & Hok); [by rewrite E2|rewrite E1; auto|].
  destruct (classic (g_pc go = GDone)) as [Hd|Hd].
  { destruct Hno. exists k, cl1. split_and!; [done..|]. right. exists g, go. rewrite E1. auto. }
  destruct (goroutine_serves k g go a Hg Hd Ha Hok) as (m & Hm & [Hch _] & _).
  exists (S m). split; [lia|]. destruct (Hall (S m) ltac:(lia)) as (cl2 & Hc2 & E3 & _).
  destruct (refs_at k (S m) g a ltac:(lia) Ha) as (a' & Ha' & _).
  exists (RunClient c BGo). unfold TokenCache.step, client_step. rewrite fault_at, Hc2. cbn.
  rewrite E3, Hpc, Ha'. cbn. rewrite (Hch a' Ha'). eexists. split; [by eexists|done].
- destruct (account_step _ _ _ _ _ _ c b _ _ cl1 Hb Hc1) as (cl2' & Hc2' & _ & Hn). simplify_eq.
  apply Hno, (settles_later c n (S m)); [lia|]. destruct Hn as [Hf|Hn].
  + exists (S m), cl2. auto.
  + rewrite E1, Hpc in Hn. eapply wait_settles; [exact Hc2|by rewrite E2|done].
Qed.

Lemma read_settles n c cl g :
clients (σ n) !! c = Some cl → account_recovers (c_call cl) → c_pc cl = CRead g → settles c n.
Proof.
intros Hc Hrec Hpc. destruct (client_next n c cl Hc) as (m & cl1 & cl2 & Hm & Hc1 & E1 & Hc2 & E2 & b & Hb).
- intros Hall k Hk. exists k. split; [done|]. destruct (Hall k Hk) as (cl1 & Hc1 & E1 & E2 & _).
  destruct (account_at k c cl1 g Hc1) as (a & go & Ha & _); [by rewrite E2|rewrite E1; auto|].
  exists (RunClient c BGo). unfold TokenCache.step, client_step. rewrite fault_at, Hc1. cbn.
  rewrite E1, Hpc, Ha. cbn. destruct (sa_tokens a) as [t|]; [destruct (_ || _)|];
    (eexists; split; [by eexists|done]).
- destruct (account_step _ _ _ _ _ _ c b _ _ cl1 Hb Hc1) as (cl2' & Hc2' & _ & Hn). simplify_eq.
  apply (settles_later c n (S m)); [lia|]. destruct Hn as [Hf|Hn]; [exists (S m), cl2; auto|].
  rewrite E1, Hpc in Hn. eapply dispatch_settles; [exact Hc2|by rewrite E2|done].
Qed.
Lemma get_settles n c cl ref :
clients (σ n) !! c = Some cl → account_recovers (c_call cl) → c_pc cl = CGet ref → settles c n.
Proof.
intros Hc Hrec Hpc. destruct (client_next n c cl Hc) as (m & cl1 & cl2 & Hm & Hc1 & E1 & Hc2 & E2 & b & Hb).
- intros Hall k Hk. exists k. split; [done|]. destruct (Hall k Hk) as (cl1 & Hc1 & E1 & E2 & _).
  exists (RunClient c BGo). unfold TokenCache.step, client_step. rewrite fault_at, Hc1. cbn.
  rewrite E1, Hpc. destruct (TokenCache.serviceAccounts (σ k) !! ref) as [g|];
    [destruct (default false _)|]; (eexists; split; [by eexists|done]).
- destruct (account_step _ _ _ _ _ _ c b _ _ cl1 Hb Hc1) as (cl2' & Hc2' & _ & Hn). simplify_eq.
  apply (settles_later c n (S m)); [lia|]. destruct Hn as [Hf|Hn]; [exists (S m), cl2; auto|].
  rewrite E1, Hpc in Hn. destruct Hn as [g Hg]. eapply read_settles; [exact Hc2|by rewrite E2|done].
Qed.
Lemma keyed_settles n c cl :
clients (σ n) !! c = Some cl → keyed (c_pc cl) → settles c n.
Proof.
remember (crank (c_pc cl)) as r eqn:Hr. revert n cl Hr.
induction (lt_wf r) as [r _ IH]. intros n cl -> Hc Hk.
destruct (client_next n c cl Hc) as (m & cl1 & cl2 & Hm & Hc1 & E1 & Hc2 & E2 & b & Hb).
- intros Hall k Hk'. destruct (classic (ready_cpc (c_pc cl))) as [Hr|Hr].
  { exists k. split; [done|]. by eapply client_ready, Hr; apply Hall. }
  destruct (c_pc cl) as [| | | |key|key| | | |] eqn:Hpc; try done; try (by destruct Hr; cbn).
  destruct (semaphore_free k) as (m & Hm & Hs%Nat.ltb_lt). exists m. split; [done|].
  destruct (Hall m ltac:(lia)) as (cl1 & Hc1 & E1 & _).
  exists (RunClient c BGo). eexists. split; [by eexists|].
  unfold TokenCache.step, client_step. rewrite fault_at, Hc1. cbn -[Nat.ltb]. by rewrite E1, Hpc, Hs.
- rewrite <- E1 in Hk.
  destruct (keyed_step _ _ _ _ _ _ c b _ _ cl1 source_total Hb Hc1 Hk) as (cl2' & Hc2' & Hn & _). simplify_eq.
  apply (settles_later c n (S m)); [lia|]. destruct Hn as [Hf|[Hk2 Hlt]]; [exists (S m), cl2; auto|].
  rewrite E1 in Hlt. by eapply IH.
Qed.

Lemma all_settle n c cl :
clients (σ n) !! c = Some cl → account_recovers (c_call cl) → settles c n.
Proof.
intros Hcl Hrec. destruct (c_pc cl) as [ref|g|g|g| | | | | |o] eqn:Hpc.
- by eapply get_settles.
- by eapply read_settles.
- by eapply dispatch_settles.
- by eapply wait_settles.
- eapply keyed_settles; [done..|]. by rewrite Hpc.
- eapply keyed_settles; [done..|]. by rewrite Hpc.
- eapply keyed_settles; [done..|]. by rewrite Hpc.
- eapply keyed_settles; [done..|]. by rewrite Hpc.
- eapply keyed_settles; [done..|]. by rewrite Hpc.
- exists n, cl. split_and!; [done..|]. left. by exists o.
Qed.

(** The account of a request is not removed and the process is not stopped. *)
Definition stays (ref : Reference) (n : nat) : Prop :=
∀ m, n ≤ m → ctxDone (σ m) = false ∧ ∃ g, held ref g (σ m).
(** A request for an account that stays is always on its way to a goroutine
  that serves. *)
Lemma stays_toward n c cl ref m :
clients (σ n) !! c = Some cl → c_pc cl = CGet ref → stays ref n → n ≤ m →
∃ g cl', held ref g (σ m) ∧ clients (σ m) !! c = Some cl' ∧ toward ref g cl'.
Proof.
intros Hcl Hpc Hst Hm. induction Hm as [|m Hm (g & cl1 & Hg & Hc1 & Ht)].
{ destruct (Hst n ltac:(lia)) as [_ [g Hg]]. exists g, cl. split_and!; [done..|]. by left. }
pose proof (step_held _ _ _ _ _ _ (ℓ m) _ _ ref g ltac:(done) (Hexec m) Hg) as Hm'.
destruct (Hst (S m) ltac:(lia)) as [_ [g' Hg']].
assert (g' = g) as -> by (destruct Hg'; congruence). exists g.
destruct (classic (runs (inr c) (ℓ m))) as [[b Hl]|Hl].
- pose proof (Hexec m) as H. rewrite Hl in H.
  destruct (client_toward _ _ _ _ _ _ c b _ _ cl1 ref g H Hc1 Hg Ht) as (cl2 & Hc2 & _ & Ht2). by exists cl2.
- destruct (client_at m c cl1 Hc1 Hl) as (cl2 & Hc2 & E & _). exists cl2.
  split_and!; [done..|]. unfold toward. by rewrite E.
Qed.
Lemma stays_answered n c cl ref :
clients (σ n) !! c = Some cl → account_recovers (c_call cl) → c_pc cl = CGet ref → stays ref n →
∃ m cl', n ≤ m ∧ clients (σ m) !! c = Some cl' ∧ finished cl'.
Proof.
intros Hcl Hrec Hpc Hst. destruct (all_settle n c cl Hcl Hrec) as (m & cl' & Hm & Hc' & [Hf|Hs]); [by exists m, cl'|].
destruct Hs as (g & go & Hpc' & Hg & Hd).
destruct (stays_toward n c cl ref m Hcl Hpc Hst Hm) as (h & cl1 & [Hh _] & Hc1 & Ht). simplify_eq.
assert (g = h) as ->.
{ destruct Ht as [E|[E|[E|[E|[o E]]]]]; destruct Hpc' as [E'|E']; congruence. }
destruct (st_map _ (struct_at m) ref h Hh) as (a & go' & _ & _ & Hg' & Hact). simplify_eq.
destruct (Hst m Hm) as [Hx _]. rewrite Hd, Hx in Hact. by destruct Hact.
Qed.

End Runs.


End Liveness.

(** ** Witness: an endless execution *)

(** A request is served, the process is told to stop and the goroutine returns;
    from then on only the clock goes on. *)
Module LivenessRun.
Import CacheExample.
Definition prefix : list (label Z) :=
  (served ++ [Close; go 0; RunGoroutine 0 BCtxDone; go 0])%list.
Definition labels (n : nat) : label Z := nth n prefix (Env (Z.of_nat n)).
Definition step := TokenCache.step Now Source SAs jwt 1 0.
Definition next (n : nat) (s : State Z) : State Z := default s (step (labels n) s).
Fixpoint states (n : nat) : State Z :=
  match n with
  | O => NewProvider 0%Z
  | S n => next n (states n)
  end.

(** Nobody can run. *)
Definition gone (go : goroutine) : bool := match g_pc go with GDone => true | _ => false end.
Definition over (cl : client) : bool := match c_pc cl with CDone _ => true | _ => false end.
Definition quiet (s : State Z) : Prop :=
  fault s = None ∧ map_Forall (λ _ go, gone go = true) (goroutines s) ∧
  map_Forall (λ _ cl, over cl = true) (clients s).
Lemma quiet_end : quiet (states 16).
Proof. split_and!; [by vm_compute|apply (bool_decide_unpack _); by vm_compute..]. Qed.
Lemma labels_end n : 16 ≤ n → labels n = Env (Z.of_nat n).
Proof. intros Hn. unfold labels. apply nth_overflow. cbn. lia. Qed.
Lemma states_end n : 16 ≤ n → quiet (states n) ∧ step (labels n) (states n) = Some (states (S n)).
Proof.
  intros Hn. assert (Hq : quiet (states n)).
  { induction Hn as [|n Hn IH]; [apply quiet_end|]. cbn [states]. unfold next. rewrite labels_end by done.
    unfold step, TokenCache.step. destruct IH as (Hf & Hg & Hc). rewrite Hf. by cbn. }
  split; [done|]. cbn [states]. unfold next. rewrite labels_end by done. unfold step, TokenCache.step.
  by rewrite (proj1 Hq).
Qed.
Lemma states_execution : execution step states labels.
Proof.
  intros n. destruct (decide (16 ≤ n)) as [Hn|Hn]; [by apply states_end|].
  assert (Hs : is_Some (step (labels n) (states n))).
  { do 16 (destruct n as [|n]; [by vm_compute; eexists|]). lia. }
  destruct Hs as [s Hs]. cbn [states]. unfold next. by rewrite Hs.
Qed.
Lemma quiet_disabled p s : quiet s → ¬ enabled step runs p s.
Proof.
  intros (Hf & Hg & Hc) (l & s' & Hl & H). unfold step, TokenCache.step in H. rewrite Hf in H.
  destruct p as [g|c]; destruct Hl as [b ->].
  - unfold cacheTokens_step in H. destruct (goroutines s !! g) as [go|] eqn:E; [|done].
    destruct (heap s !! g); [|done]. cbn in H. specialize (Hg g go E). unfold gone in Hg.
    destruct (g_pc go); try done; by destruct b.
  - unfold client_step in H. destruct (clients s !! c) as [cl|] eqn:E; [|done]. cbn in H.
    specialize (Hc c cl E). unfold over in Hc. destruct (c_pc cl); try done; by destruct b.
Qed.
Lemma states_fair : fair step runs states labels.
Proof.
  intros p n Hen. destruct (Hen 16) as (m & Hm & He).
  destruct (quiet_disabled p (states m)); [by apply states_end|done].
Qed.
Lemma states_clock d : ∃ n, ∀ m, n ≤ m → (d ≤ default 0 (t_mono (Now (world (states m)))))%Z.
Proof.
  exists (17 + Z.to_nat d). intros m Hm. destruct m as [|m]; [lia|]. cbn [states].
  unfold next. rewrite labels_end by lia. destruct (states_end m ltac:(lia)) as [(Hf & _) _].
  unfold step, TokenCache.step. rewrite Hf. cbn. lia.
Qed.
Definition caller : client :=
  {| c_call := CallServiceAccountToken ref; c_pc := CGet ref; c_ctxErr := None; c_reply := None |}.
End LivenessRun.

