(* ===== verification/TokenCachePods.v ===== *)
(** * The watchers and the token cache

    internal/pods/watch tells the token cache which pods run on the node, and
    internal/serviceaccounts/watch which service accounts there are; the cache
    counts the pods per account and marks the deleted accounts, to decide
    whose tokens it keeps.  The file follows the notifications of both
    informers through the handlers of Pods.v and ServiceAccounts.v into the
    machine of TokenCache.v, for every interleaving of the machine's steps. *)

From S2P Require Import Prelude GoStrings GoTime Credentials Api ServiceAccounts Pods Informers Tokens.
From S2P Require Import TokenCache TokenCacheProofs TokenCacheTheorems.
Import Api.Kube Pods.WatchProvider.
Module SA := ServiceAccounts.WatchProvider.
Open Scope string_scope.
Open Scope Z_scope.

(** ** The table of the cache *)

(** What the map knows of an account: its pod count and its mark. *)
Definition account {W} (s : TokenCache.State W) (ref : Reference) : option (Z * bool) :=
  g ← serviceAccounts s !! ref; a ← heap s !! g; Some (podCount a, deleted a).

(** How one step may change an entry: an abstract machine with an entry per
    account, which counts, marks, adds and removes. *)
Definition table_step {W} (l : label W) (ref : Reference) (x y : option (Z * bool)) : Prop :=
  match l with
  | AddPod r => y = if decide (r = ref) then Some (match x with Some (n, d) => (n + 1, d) | None => (1, false) end) else x
  | DeletePod r => y = if decide (r = ref) then (λ p, (if 0 <? p.1 then p.1 - 1 else p.1, p.2)) <$> x else x
  | UpdateSA r => y = if decide (r = ref) then (λ p, (p.1, false)) <$> x else x
  | DeleteSA r => y = if decide (r = ref) then (λ p, (p.1, true)) <$> x else x
  | RunGoroutine _ _ => y = x ∨ (y = None ∧ ∃ n d, x = Some (n, d) ∧ (n = 0 ∨ d = true))
  | RunClient _ _ => y = x ∨ (x = None ∧ y = Some (0, false))
  | _ => y = x
  end.

Section Table.
Context {W : Type}.
Implicit Type s : TokenCache.State W.

Lemma account_same s s' ref :
serviceAccounts s' = serviceAccounts s → heap s' = heap s → account s' ref = account s ref.
Proof. intros E1 E2. unfold account. by rewrite E1, E2. Qed.
Lemma account_upd_sa g f s ref :
(∀ a, podCount (f a) = podCount a ∧ deleted (f a) = deleted a) → account (upd_sa g f s) ref = account s ref.
Proof.
intros Hf. unfold account. cbn. destruct (serviceAccounts s !! ref) as [h|]; [|done]. cbn.
destruct (decide (g = h)) as [->|]; [|by rewrite lookup_alter_ne].
rewrite lookup_alter_eq. destruct (heap s !! h) as [a|]; [|done]. cbn. by destruct (Hf a) as [-> ->].
Qed.
Lemma account_goto g pc s ref : account (goto g pc s) ref = account s ref.
Proof. done. Qed.
Lemma account_send g resp s ref : account (sendResponse g resp s) ref = account s ref.
Proof.
unfold sendResponse. repeat case_match; try done.
match goal with |- context [foldl ?f (upd_go ?g ?h ?s) ?r] =>
  destruct (deliver_all_frame resp r (upd_go g h s)) as (? & ? & ->) end.
rewrite <- (account_upd_sa g (set_chan []) s) by done. by apply account_same.
Qed.
Lemma account_add ref n s r :
StructInv s →
account (addServiceAccount ref n s) r = if decide (ref = r) then Some (n, false) else account s r.
Proof.
intros HI. unfold account. cbn. destruct (decide (ref = r)) as [->|].
- rewrite lookup_insert_eq. cbn. by rewrite lookup_insert_eq.
- rewrite lookup_insert_ne by done. destruct (serviceAccounts s !! r) as [h|] eqn:E; [|done]. cbn.
  destruct (st_map _ HI _ _ E) as (a & _ & Ha & _). rewrite lookup_insert_ne; [done|].
  intros <-. pose proof (st_next _ HI (next s) ltac:(eauto)). lia.
Qed.
(** An update of the struct an account has is an update of its entry. *)
Lemma account_update ref g f h s r :
StructInv s → serviceAccounts s !! ref = Some g →
(∀ a, (podCount (f a), deleted (f a)) = h (podCount a, deleted a)) →
account (upd_sa g f s) r = if decide (ref = r) then h <$> account s r else account s r.
Proof.
intros HI Hg Hf. unfold account. cbn. destruct (decide (ref = r)) as [->|Hne].
- rewrite Hg. cbn. rewrite lookup_alter_eq. destruct (heap s !! g) as [a|]; [|done]. cbn. by rewrite Hf.
- destruct (serviceAccounts s !! r) as [k|] eqn:E; [|done]. cbn. rewrite lookup_alter_ne; [done|].
  intros ->. destruct (st_map _ HI _ _ Hg) as (a & _ & Ha & Hr & _).
  destruct (st_map _ HI _ _ E) as (a' & _ & Ha' & Hr' & _). congruence.
Qed.
Lemma account_check g go s ref :
StructInv s → goroutines s !! g = Some go → active (g_pc go) →
let s' := (checkIfMustDeleteAndDelete g s).2 in
account s' ref = account s ref ∨
(account s' ref = None ∧ ∃ n d, account s ref = Some (n, d) ∧ (n = 0 ∨ d = true)).
Proof.
intros HI Hgo Ha. destruct (st_active _ HI _ _ Hgo Ha) as (a & Hh & Hm).
unfold checkIfMustDeleteAndDelete. rewrite Hh. destruct (_ || _) eqn:E; [|by left]. cbn.
unfold account. cbn. destruct (decide (sa_Reference a = ref)) as [<-|].
- right. rewrite lookup_delete_eq, Hm. cbn. rewrite Hh. cbn. split; [done|].
  eexists _, _. split; [done|]. apply orb_true_iff in E as [E|E]; [left; by apply Z.eqb_eq|by right].
- left. by rewrite lookup_delete_ne.
Qed.
End Table.

Section Steps.
Context {W : Type} (Now : W → Time) (Source : Tokens.Provider W).
Context (SAs : ServiceAccounts.Provider W) (jwt_Subject : string → option string).
Context (Concurrency : nat) (MaxTokenDuration : Z).
Implicit Type s : TokenCache.State W.
#[local] Abbreviation step := (TokenCache.step Now Source SAs jwt_Subject Concurrency MaxTokenDuration).
#[local] Abbreviation run := (TokenCache.run Now Source SAs jwt_Subject Concurrency MaxTokenDuration).

Lemma cache_step_account g b s s' ref :
StructInv s → cacheTokens_step Now Source SAs Concurrency MaxTokenDuration g b s = Some s' →
table_step (W := W) (RunGoroutine g b) ref (account s ref) (account s' ref).
Proof.
intros HI H. unfold cacheTokens_step in H.
destruct (goroutines s !! g) as [go|] eqn:Hgo; [|done].
destruct (heap s !! g) as [a|] eqn:Ha; [|done]. cbn in H |- *.
destruct (g_pc go) as [| | | | |[t|e]| | | |] eqn:Hpc, b; try done.
1, 6: pose proof (account_check g go s ref HI Hgo ltac:(by rewrite Hpc)) as Hc.
1, 2: destruct (checkIfMustDeleteAndDelete g s) as [del s1]; injection H as <-; exact Hc.
3: destruct (createTokens _ _ _ _ _ _) as [o w].
all: step_cases H; left; try done.
all: first [by apply (account_upd_sa g (set_tokens _) s) | by apply (account_upd_sa g (set_chan _) s) |
            by rewrite account_goto, account_send].
Qed.
Lemma client_step_account c b s s' ref :
StructInv s → client_step Now Source Concurrency MaxTokenDuration c b s = Some s' →
table_step (W := W) (RunClient c b) ref (account s ref) (account s' ref).
Proof.
intros HI H. unfold client_step in H.
destruct (clients s !! c) as [cl|] eqn:Hcl; [|done]. cbn in H |- *.
destruct (c_pc cl) as [r|i|i|i|k|k|k|k r|k tok exp|o] eqn:Hpc, b; try done.
all: try destruct (source_call _ _ _) as [o w].
all: step_cases H; try (by left).
- change (account (cgoto c (CRead (next s)) (addServiceAccount r 0 s)) ref) with
    (account (addServiceAccount r 0 s) ref).
  rewrite account_add by done. destruct (decide (r = ref)) as [->|]; [right|by left].
  split; [|done]. unfold account. by rewrite H0.
- left. by apply (account_upd_sa i (set_chan [Some c]) s).
- left. by destruct k.
Qed.

(** The cache refines its table. *)
Lemma step_account l s s' ref :
StructInv s → step l s = Some s' → table_step l ref (account s ref) (account s' ref).
Proof.
intros HI H. unfold TokenCache.step in H. destruct (fault s); [done|].
destruct l as [w| |r|r|r|r|c q|c e|g b|c b| | |g].
9: by eapply cache_step_account.
9: by eapply client_step_account.
11: { apply drain_inv in H as (go & a & req & rest & _ & _ & _ & _ & ->). by apply (account_upd_sa g (set_chan rest) s). }
7: by destruct (clients s !! c); simplify_eq.
all: injection H as <-; try done; cbn.
- unfold TokenCache.AddPodServiceAccount. destruct (serviceAccounts s !! r) as [g|] eqn:E.
  + rewrite (account_update r g _ (λ p, (p.1 + 1, p.2))) by done.
    destruct (decide (r = ref)) as [->|]; [|done]. unfold account. rewrite E. cbn.
    destruct (st_map _ HI _ _ E) as (a & _ & -> & _). done.
  + rewrite account_add by done. destruct (decide (r = ref)) as [->|]; [|done].
    unfold account. by rewrite E.
- unfold TokenCache.DeletePodServiceAccount. destruct (serviceAccounts s !! r) as [g|] eqn:E.
  + apply account_update; [done..|]. intros a. cbn. by destruct (0 <? podCount a).
  + destruct (decide (r = ref)) as [->|]; [|done]. unfold account. by rewrite E.
- unfold UpdateServiceAccount. destruct (serviceAccounts s !! r) as [g|] eqn:E.
  + apply account_update; [done..|]. intros a. unfold wake. by destruct (externalRequests _).
  + destruct (decide (r = ref)) as [->|]; [|done]. unfold account. by rewrite E.
- unfold DeleteServiceAccount. destruct (serviceAccounts s !! r) as [g|] eqn:E.
  + apply account_update; [done..|]. intros a. unfold wake. by destruct (externalRequests _).
  + destruct (decide (r = ref)) as [->|]; [|done]. unfold account. by rewrite E.
Qed.
End Steps.

(** ** The handlers *)

Definition type_assertion {W A} (type : string) : ST W A :=
  panic ("interface conversion: interface {} is cache.DeletedFinalStateUnknown, not *v1." +:+ type).
(** The handlers of the two watch providers: none for updates of pods; the
    type assertion of a delete handler comes after the gauge. *)
Definition pod_handlers {W} (p : WatchProvider.State W) (n : notification Pod) : ST W unit :=
  match n with
  | Added pod => AddFunc p pod
  | Updated _ _ => mret tt
  | Deleted (FinalState pod) => DeleteFunc p pod
  | Deleted (DeletedFinalStateUnknown _ _) => _ ← numPods_Add p (-1); type_assertion "Pod"
  end.
Definition sa_handlers {W} (p : SA.State W) (n : notification ServiceAccount) : ST W unit :=
  match n with
  | Added sa => SA.AddFunc p sa
  | Updated old new => SA.UpdateFunc p old new
  | Deleted (FinalState sa) => SA.DeleteFunc p sa
  | Deleted (DeletedFinalStateUnknown _ _) => _ ← SA.numServiceAccounts_Add p (-1); type_assertion "ServiceAccount"
  end.

(** The informers.  Under the name of a pod another one with another service
  account may come; [pods_stay] says that none does. *)
Definition pods_inform : gmap string Pod → list (notification Pod) → gmap string Pod → Prop :=
  informs pod_ref (λ _ _, True).
Definition pods_stay : gmap string Pod → list (notification Pod) → gmap string Pod → Prop :=
  informs pod_ref (λ old new, ReferenceFromPod new = ReferenceFromPod old).
Definition accounts_inform :
    gmap Reference ServiceAccount → list (notification ServiceAccount) → gmap Reference ServiceAccount → Prop :=
  informs ReferenceFromObject (λ _ _, True).

(** The cache as a listener of both: its mutex sections are steps of the
    machine.  A watch provider of main feeds the cache; its gauge is a number. *)
Section Listener.
Context {W : Type}.
Abbreviation Heard := (Z * list (label W))%type.
Definition hear (l : label W) : ST Heard unit := λ s, (Ret tt, (s.1, s.2 ++ [l])%list).
Definition gauge_Add (z : Z) : ST Heard unit := λ s, (Ret tt, (s.1 + z, s.2)).
Definition cache_pods_listener : Listener Heard :=
{| AddPodServiceAccount ref := hear (AddPod ref); DeletePodServiceAccount ref := hear (DeletePod ref) |}.
Definition cache_sas_listener : SA.Listener Heard :=
{| SA.UpdateServiceAccount ref := hear (UpdateSA ref); SA.DeleteServiceAccount ref := hear (DeleteSA ref) |}.
Definition pod_watcher inf misses (opts : ProviderOptions Heard) : WatchProvider.State Heard :=
AddListener (NewProvider inf gauge_Add misses opts) cache_pods_listener.
Definition sa_watcher inf misses (opts : SA.ProviderOptions Heard) : SA.State Heard :=
SA.AddListener (SA.NewProvider inf gauge_Add misses opts) cache_sas_listener.

Definition pod_heard (n : notification Pod) : list (label W) :=
match n with
| Added pod => [AddPod (ReferenceFromPod pod)]
| Deleted (FinalState pod) => [DeletePod (ReferenceFromPod pod)]
| _ => []
end.
Definition sa_heard (n : notification ServiceAccount) : list (label W) :=
match n with
| Added sa | Updated _ sa => [UpdateSA (ReferenceFromObject sa)]
| Deleted (FinalState sa) => [DeleteSA (ReferenceFromObject sa)]
| _ => []
end.
Definition pod_event (l : label W) : bool := match l with AddPod _ | DeletePod _ => true | _ => false end.
Definition sa_event (l : label W) : bool := match l with UpdateSA _ | DeleteSA _ => true | _ => false end.

Lemma pod_handlers_run inf misses opts n g c :
final n = true → pod_handlers (pod_watcher inf misses opts) n (g, c) = (Ret tt, (g + gauge_delta n, (c ++ pod_heard n)%list)).
Proof.
destruct n as [pod|old new|[pod|k pod]]; intros Hf; try done; cbn.
by rewrite Z.add_0_r, app_nil_r.
Qed.
Lemma pod_handlers_missed inf misses opts n g c :
final n = false → ∃ msg, pod_handlers (pod_watcher inf misses opts) n (g, c) = (Panic msg, (g - 1, c)).
Proof. destruct n as [pod|old new|[pod|k pod]]; intros Hf; try done. by eexists. Qed.
Lemma sa_handlers_missed inf misses opts n g c :
final n = false → ∃ msg, sa_handlers (sa_watcher inf misses opts) n (g, c) = (Panic msg, (g - 1, c)).
Proof. destruct n as [sa|old new|[sa|k sa]]; intros Hf; try done. by eexists. Qed.
Lemma sa_handlers_run inf misses opts n g c :
final n = true → sa_handlers (sa_watcher inf misses opts) n (g, c) = (Ret tt, (g + gauge_delta n, (c ++ sa_heard n)%list)).
Proof. destruct n as [sa|old new|[sa|k sa]]; intros Hf; try done; cbn. by rewrite Z.add_0_r. Qed.
End Listener.

(** ** Counting pods *)

Definition pods_of (ref : Reference) (m : gmap string Pod) : nat :=
  size (filter (λ kv : string * Pod, ReferenceFromPod kv.2 = ref) m).
Definition one_of (ref : Reference) (pod : Pod) : nat := if decide (ReferenceFromPod pod = ref) then 1 else 0.

Lemma pods_of_insert ref m k pod :
  m !! k = None → pods_of ref (<[k := pod]> m) = (one_of ref pod + pods_of ref m)%nat.
Proof.
  intros Hk. unfold pods_of, one_of. destruct (decide _) as [Hr|Hr].
  - rewrite map_filter_insert_True by done. rewrite map_size_insert_None; [done|].
    apply map_lookup_filter_None. by left.
  - rewrite map_filter_insert_False by done. by rewrite delete_id.
Qed.
Lemma pods_of_delete ref m k pod :
  m !! k = Some pod → pods_of ref m = (one_of ref pod + pods_of ref (delete k m))%nat.
Proof.
  intros Hk. rewrite <- (insert_id m k pod Hk) at 1. rewrite <- insert_delete_eq.
  apply pods_of_insert, lookup_delete_eq.
Qed.

(** The pods of an account that the labels add up to, and what the informer
  tells of them: the added ones less the deleted ones. *)
Fixpoint tally {W} (ref : Reference) (ls : list (label W)) (n : nat) : nat :=
  match ls with
  | [] => n
  | AddPod r :: ls' => tally ref ls' (if decide (r = ref) then S n else n)
  | DeletePod r :: ls' => tally ref ls' (if decide (r = ref) then pred n else n)
  | _ :: ls' => tally ref ls' n
  end.
Fixpoint counted (ref : Reference) (ns : list (notification Pod)) (n : nat) : nat :=
  match ns with
  | [] => n
  | Added pod :: ns' => counted ref ns' (one_of ref pod + n)
  | Deleted (FinalState pod) :: ns' => counted ref ns' (n - one_of ref pod)
  | _ :: ns' => counted ref ns' n
  end%nat.
Lemma tally_filter {W} ref (ls : list (label W)) n :
  tally ref (filter (λ l, pod_event l = true) ls) n = tally ref ls n.
Proof.
  revert n. induction ls as [|l ls IH]; intros n; [done|]. rewrite filter_cons.
  destruct l as [| |r|r| | | | | | | | |]; cbn; try apply IH; rewrite decide_True by done; cbn; apply IH.
Qed.
Lemma tally_heard {W} ref ns n : tally ref (concat (map (pod_heard (W := W)) ns)) n = counted ref ns n.
Proof.
  revert n. induction ns as [|x ns IH]; intros n; [done|].
  destruct x as [pod|old new|[pod|k pod]]; cbn; rewrite IH; [|done| |done]; unfold one_of; destruct (decide _); try done.
  - by replace (n - 1)%nat with (pred n) by lia.
  - by replace (n - 0)%nat with n by lia.
Qed.
(** Where no pod changes its account, these are the pods of the account. *)
Lemma stay_counted m ns m' ref :
  pods_stay m ns m' → Forall (λ n, final n = true) ns → counted ref ns (pods_of ref m) = pods_of ref m'.
Proof.
  unfold pods_stay.
  induction 1 as [m|m pod ns m' Hk _ IH|m old new ns m' Hk Hn Hr _ IH|m old pod ns m' Hk Hr _ IH|m k pod ns m' _ _ _];
    [done|intros [Hf Hns]%Forall_cons..]; [rewrite <- IH by done; cbn..|done].
  - by rewrite pods_of_insert.
  - rewrite <- insert_delete_eq, pods_of_insert by apply lookup_delete_eq.
    rewrite (pods_of_delete ref m _ _ Hk), Hn. unfold one_of. by rewrite Hr.
  - rewrite (pods_of_delete ref m _ _ Hk). unfold one_of. rewrite Hr. f_equal. lia.
Qed.

(** ** Marked accounts *)

(** Whether the account has an object, after the labels. *)
Fixpoint present {W} (ref : Reference) (ls : list (label W)) (b : bool) : bool :=
  match ls with
  | [] => b
  | UpdateSA r :: ls' => present ref ls' (if decide (r = ref) then true else b)
  | DeleteSA r :: ls' => present ref ls' (if decide (r = ref) then false else b)
  | _ :: ls' => present ref ls' b
  end.
Lemma present_filter {W} ref (ls : list (label W)) b :
  present ref (filter (λ l, sa_event l = true) ls) b = present ref ls b.
Proof.
  revert b. induction ls as [|l ls IH]; intros b; [done|]. rewrite filter_cons.
  destruct l; cbn; try apply IH; rewrite decide_True by done; apply IH.
Qed.
Lemma informs_present {W} m ns m' ref :
  accounts_inform m ns m' → Forall (λ n, final n = true) ns →
  present ref (concat (map (sa_heard (W := W)) ns)) (bool_decide (is_Some (m !! ref))) =
  bool_decide (is_Some (m' !! ref)).
Proof.
  unfold accounts_inform.
  induction 1 as [m|m sa ns m' Hk _ IH|m old new ns m' Hk Hn _ _ IH|m old sa ns m' Hk _ _ IH|m k sa ns m' _ _ _];
    [done|intros [Hf Hns]%Forall_cons..]; [rewrite <- IH by done; cbn; f_equal; destruct (decide _) as [<-|]..|done].
  1, 3: by rewrite lookup_insert_eq.
  1, 2: by rewrite lookup_insert_ne.
  - by rewrite lookup_delete_eq.
  - by rewrite lookup_delete_ne.
Qed.
(** Only what an informer reports deleted is deleted. *)
Lemma heard_deleted {W} ns ref :
  (∀ sa, Deleted (FinalState sa) ∈ ns → ReferenceFromObject sa ≠ ref) →
  DeleteSA ref ∉ concat (map (sa_heard (W := W)) ns).
Proof.
  induction ns as [|n ns IH]; intros Hd; cbn; [apply not_elem_of_nil|]. rewrite not_elem_of_app. split.
  - destruct n as [sa|old new|[sa|k sa]]; cbn; rewrite ?list_elem_of_singleton; try done; [|apply not_elem_of_nil].
    intros [= E]. apply (Hd sa); [by left|done].
  - apply IH. intros sa Hin. apply Hd. by right.
Qed.

(** ** Theorems *)

Section Follow.
Context {W : Type} (Now : W → Time) (Source : Tokens.Provider W).
Context (SAs : ServiceAccounts.Provider W) (jwt_Subject : string → option string).
Context (Concurrency : nat) (MaxTokenDuration : Z).
Implicit Type s : TokenCache.State W.
#[local] Abbreviation step := (TokenCache.step Now Source SAs jwt_Subject Concurrency MaxTokenDuration).
#[local] Abbreviation run := (TokenCache.run Now Source SAs jwt_Subject Concurrency MaxTokenDuration).

(** An entry never counts more pods than there are; it counts all of them as
  long as the account is never marked. *)
Definition bounded (x : option (Z * bool)) (n : nat) : Prop := ∀ c d, x = Some (c, d) → 0 ≤ c ≤ Z.of_nat n.
Definition exact (x : option (Z * bool)) (n : nat) : Prop :=
match x with None => n = 0%nat | Some (c, d) => c = Z.of_nat n ∧ d = false end.

Lemma table_step_counts l ref x y n ls :
table_step (W := W) l ref x y →
∃ n', tally ref (l :: ls) n = tally ref ls n' ∧ (bounded x n → bounded y n') ∧ (l ≠ DeleteSA ref → exact x n → exact y n').
Proof.
unfold bounded, exact. intros Ht.
destruct l as [w| |r|r|r|r|c q|c e|g b|c b| | |g]; cbn in Ht |- *; eexists; (split; [done|]).
3, 4: destruct (decide (r = ref)) as [->|]; subst y; [|done].
all: try (subst y; by split).
- destruct x as [[c d]|]; (split; [intros Hb c' d' [= <- <-]|]).
  + specialize (Hb _ _ eq_refl). lia.
  + intros _ [-> ->]. split; [lia|done].
  + lia.
  + by intros _ ->.
- destruct x as [[c d]|]; cbn; (split; [intros Hb c' d' E; simplify_eq|]).
  + specialize (Hb _ _ eq_refl). destruct (Z.ltb_spec 0 c); lia.
  + intros _ [-> ->]. destruct (Z.ltb_spec 0 (Z.of_nat n)); (split; [lia|done]).
  + intros _ ->. done.
- subst y. destruct (decide (r = ref)); [|done]. destruct x as [[c d]|]; cbn; [|done].
  split; [intros Hb c' d' [= <- <-]; by apply (Hb c d)|by intros _ [-> _]].
- subst y. destruct (decide (r = ref)) as [->|]; [|done]. destruct x as [[c d]|]; cbn; [|done].
  split; [intros Hb c' d' [= <- <-]; by apply (Hb c d)|done].
- destruct Ht as [->|(-> & c & d & -> & Hor)]; [done|]. split; [done|]. intros _ [-> ->].
  destruct Hor; [lia|done].
- destruct Ht as [->|[-> ->]]; [done|]. split; [intros _ c' d' [= <- <-]; lia|by intros _ ->].
Qed.
Lemma run_counts ls s s' ref n :
StructInv s → run ls s = Some s' →
(bounded (account s ref) n → bounded (account s' ref) (tally ref ls n)) ∧
(DeleteSA ref ∉ ls → exact (account s ref) n → exact (account s' ref) (tally ref ls n)).
Proof.
revert s n. induction ls as [|l ls IH]; intros s n HI; cbn [TokenCache.run].
{ by intros [= <-]. }
destruct (step l s) as [s1|] eqn:E; [|done]. intros Hr.
pose proof (step_account _ _ _ _ _ _ _ _ _ ref HI E) as Hs.
destruct (table_step_counts _ _ _ _ n ls Hs) as (n1 & -> & Hb & He).
destruct (IH s1 n1 ltac:(by eapply struct_step) Hr) as [Hb' He'].
split; [auto|]. rewrite not_elem_of_cons. intros [Hl Hls] Hx. apply He'; [done|]. apply He; [congruence|done].
Qed.

Lemma run_marks ls s s' ref b :
StructInv s → run ls s = Some s' →
(∀ n, account s ref = Some (n, true) → b = false) →
∀ n, account s' ref = Some (n, true) → present ref ls b = false.
Proof.
revert s b. induction ls as [|l ls IH]; intros s b HI; cbn [TokenCache.run].
{ intros [= <-] Hb. exact Hb. }
destruct (step l s) as [s1|] eqn:E; [|done]. cbn. intros Hr Hb n Hn.
pose proof (step_account _ _ _ _ _ _ _ _ _ ref HI E) as Hs.
assert (HI1 : StructInv s1) by by eapply struct_step.
destruct l as [w| |r|r|r|r|c q|c e|g b'|c b'| | |g]; cbn [table_step present] in Hs |- *; eapply (IH s1); try done.
all: intros k Hk; rewrite Hk in Hs.
all: try (by apply (Hb k)).
- destruct (decide (r = ref)); [|by apply (Hb k)].
  destruct (account s ref) as [[c d]|] eqn:Ha; [|done]. injection Hs as _ <-. by apply (Hb c).
- destruct (decide (r = ref)); [|by apply (Hb k)].
  destruct (account s ref) as [[c d]|] eqn:Ha; [|done]. injection Hs as _ <-. by apply (Hb c).
- destruct (decide (r = ref)); [|by apply (Hb k)].
  by destruct (account s ref) as [[c d]|].
- destruct (decide (r = ref)); [done|by apply (Hb k)].
- destruct Hs as [Hs|[Hs _]]; [by apply (Hb k)|done].
- destruct Hs as [Hs|[_ Hs]]; [by apply (Hb k)|done].
Qed.


(** A delete that the informer missed ends the process, with the gauge changed. *)
Lemma missed_delete_panics inf misses (opts : ProviderOptions (Z * list (label W))) key last gauge calls :
∃ msg, notify_all (pod_handlers (pod_watcher inf misses opts)) [Deleted (DeletedFinalStateUnknown key last)] (gauge, calls) =
  (Panic msg, (gauge - 1, calls)).
Proof. by eexists. Qed.
End Follow.

(** ** Witnesses *)

Module PodsExample.
Import CacheExample.
Definition pod (name sa ip : string) : Pod :=
  {| pod_Name := name; pod_Namespace := "default"; pod_UID := name; pod_DeletionTimestamp := None;
     pod_ServiceAccountName := sa; pod_NodeName := "n1"; pod_HostNetwork := false; pod_PodIP := ip;
     pod_Phase := PodRunning |}.
Definition inf (i : Informer) (f : Pod → list string) (obj : Pod) : ST (Z * list (label Z)) (result (list Pod)) := ok [].
Definition options : ProviderOptions (Z * list (label Z)) :=
  {| opt_NodeName := "n1"; opt_FallbackSource := None; opt_ResyncPeriod := 0 |}.
Definition sa_inf (i : SA.Informer) (k : string) : ST (Z * list (label Z)) (result (option ServiceAccount)) := ok None.
Definition sa_options : SA.ProviderOptions (Z * list (label Z)) :=
  {| SA.opt_FallbackSource := None; SA.opt_ResyncPeriod := 0 |}.
Definition sa : ServiceAccount := {| sa_Name := "app"; sa_Namespace := "default"; sa_Annotations := ∅ |}.
(** Two pods of an account start, and one is gone again. *)
Definition notifications : list (notification Pod) :=
  [Added (pod "a" "app" "10.0.0.1"); Added (pod "b" "app" "10.0.0.2");
   Updated (pod "a" "app" "10.0.0.1") (pod "a" "app" "10.0.0.3");
   Deleted (FinalState (pod "b" "app" "10.0.0.2"))].
Definition pods : gmap string Pod := {[ "default/a" := pod "a" "app" "10.0.0.3" ]}.
Definition sas : gmap Reference ServiceAccount := {[ ref := sa ]}.
Definition execution : list (label Z) :=
  [AddPod ref; go 0; AddPod ref; UpdateSA ref; go 0; go 0; DeletePod ref].

(** Whatever must not change, if these two pods agree on it. *)
Lemma informs_both R :
  R (pod "a" "app" "10.0.0.1") (pod "a" "app" "10.0.0.3") → R (pod "b" "app" "10.0.0.2") (pod "b" "app" "10.0.0.2") →
  informs pod_ref R ∅ notifications pods.
Proof.
  intros Ha Hb.
  apply inf_added; [done|]. apply inf_added; [done|].
  apply inf_updated; [by rewrite lookup_insert_ne|done|done|].
  eapply inf_deleted; [by rewrite lookup_insert_ne, lookup_insert_eq|done|].
  replace (delete _ _) with pods; [apply inf_nil|]. apply map_eq. intros k. unfold pods.
  change (pod_ref (pod "a" "app" "10.0.0.3")) with "default/a".
  change (pod_ref (pod "a" "app" "10.0.0.1")) with "default/a".
  change (pod_ref (pod "b" "app" "10.0.0.2")) with "default/b".
  destruct (decide (k = "default/b")) as [->|]; [by rewrite lookup_delete_eq, lookup_singleton_ne|].
  rewrite lookup_delete_ne by done. destruct (decide (k = "default/a")) as [->|].
  - by rewrite lookup_insert_eq, lookup_singleton_eq.
  - by rewrite !lookup_insert_ne, lookup_empty, lookup_singleton_ne by done.
Qed.
Lemma informs_pods : pods_inform ∅ notifications pods.
Proof. by apply informs_both. Qed.
Lemma pods_remain : pods_stay ∅ notifications pods.
Proof. by apply informs_both. Qed.
Lemma informs_sas : accounts_inform ∅ [Added sa] sas.
Proof. apply inf_added; [done|]. apply inf_nil. Qed.
End PodsExample.


(** The same pod name with another service account reaches the informer as an
    update, which nobody handles: the new account has no entry. *)
Lemma replaced_pod_unknown :
  let new := PodsExample.pod "a" "other" "10.0.0.9" in
  ∃ calls, notify_all (pod_handlers (pod_watcher PodsExample.inf (mret tt) PodsExample.options))
             [Added (PodsExample.pod "a" "app" "10.0.0.1"); Updated (PodsExample.pod "a" "app" "10.0.0.1") new] (0, [])
      = (Ret tt, (1, calls)) ∧
    account (CacheExample.after calls) (ReferenceFromPod new) = None ∧
    account (CacheExample.after calls) CacheExample.ref = Some (1, false).
Proof. eexists. split; [reflexivity|]. by vm_compute. Qed.

(** An account deleted and created again while its pod runs has lost its
    entry, and a request for it ends in a panic. *)
Lemma recreated_account_unserved :
  let events := [AddPod CacheExample.ref; DeleteSA CacheExample.ref; CacheExample.go 0; UpdateSA CacheExample.ref] in
  let request := [Call 0 (CallServiceAccountToken CacheExample.ref); CacheExample.cl 0; CacheExample.cl 0;
                  CacheExample.cl 0; CacheExample.go 1; CacheExample.go 1; RunClient 0 BRecv] in
  account (CacheExample.after events) CacheExample.ref = None ∧
  c_pc <$> clients (CacheExample.after (events ++ request)) !! 0%nat = Some (CDone (Panic nil_deref)).
Proof. by vm_compute. Qed.
