(* ===== verification/CacheProvider.v ===== *)
(** * The token cache as a token provider

    The server uses the token cache through the interface of Tokens.v, as a
    function from a call to an answer.  Here the machine of TokenCache.v is
    that function: a call is added to the clients, any schedule runs the
    goroutines, the collectors and the events of the informers until the call
    has returned, and the answer is read off.  Whatever the schedule, the
    cache issues for whom its source would: it refines the contract of a
    provider ([Issues]) with the account in place of the exact request. *)

From S2P Require Import Prelude GoStrings GoTime Api ServiceAccounts Tokens TokenCache.
From S2P Require Import TokenCacheProofs TokenCacheTheorems.
Open Scope string_scope.
Open Scope Z_scope.

Section CacheProvider.
Context {W : Type} (Now : W → Time) (Source : Tokens.Provider W).
Context (SAs : ServiceAccounts.Provider W) (jwt_Subject : string → option string).
Context (Concurrency : nat) (MaxTokenDuration : Z).
Local Abbreviation reachable := (TokenCache.reachable Now Source SAs jwt_Subject Concurrency MaxTokenDuration).
Local Abbreviation run := (TokenCache.run Now Source SAs jwt_Subject Concurrency MaxTokenDuration).

(** The cache between two calls: a reachable state of the machine. *)
Definition Cache : Type := { s : State W | reachable s }.
(** A schedule chooses the identifier of a call and what happens until it
  returns; a call that has not returned then has no answer. *)
Context (schedule : State W → call → nat * list (label W)).

(** ** A call keeps its arguments *)

Definition asked (c : nat) (r : call) (s : State W) : Prop :=
∃ cl, clients s !! c = Some cl ∧ c_call cl = r.
Lemma asked_same c r s s' : clients s' = clients s → asked c r s → asked c r s'.
Proof. intros E (cl & Hc & Hr). exists cl. by rewrite E. Qed.
Lemma asked_upd c r c' f s : (∀ cl, c_call (f cl) = c_call cl) → asked c r s → asked c r (upd_cl c' f s).
Proof.
intros Hf (cl & Hc & Hr). unfold asked, upd_cl. cbn. destruct (decide (c = c')) as [->|Hne].
- exists (f cl). rewrite lookup_alter_eq, Hc. split; [done|]. by rewrite Hf.
- exists cl. by rewrite lookup_alter_ne.
Qed.
Lemma asked_send c r g resp s : asked c r s → asked c r (sendResponse g resp s).
Proof.
intros Hs. unfold sendResponse. destruct (goroutines s !! g) as [go|]; [|done].
destruct (heap s !! g) as [a|]; [|done]. generalize (g_requests go ++ externalRequests a)%list. intros l.
assert (Hs' : asked c r (upd_go g (set_requests []) (upd_sa g (set_chan []) s))) by by apply (asked_same c r s).
revert Hs'. generalize (upd_go g (set_requests []) (upd_sa g (set_chan []) s)).
induction l as [|x l IH]; intros s1 Hs1; cbn [foldl]; [done|]. apply IH.
unfold deliver. destruct x as [c'|]; [|done]. case_match; [|done]. case_match; [by apply (asked_same c r s1)|].
by apply asked_upd.
Qed.
Lemma asked_check c r g s b s' :
checkIfMustDeleteAndDelete g s = (b, s') → asked c r s → asked c r s'.
Proof. unfold checkIfMustDeleteAndDelete. repeat case_match; intros [= <- <-]; try done; by apply asked_same. Qed.

Lemma asked_goroutine c r g b s s' :
cacheTokens_step Now Source SAs Concurrency MaxTokenDuration g b s = Some s' → asked c r s → asked c r s'.
Proof.
intros H Hs. unfold cacheTokens_step in H.
destruct (goroutines s !! g) as [go|]; [|done]. destruct (heap s !! g) as [a|]; [|done]. cbn in H.
assert (Hsend : ∀ resp s1 pc, clients s1 = clients s → asked c r (goto g pc (sendResponse g resp s1))).
{ intros resp s1 pc E. apply (asked_same c r (sendResponse g resp s1)); [done|].
  apply asked_send. by apply (asked_same c r s). }
assert (Hcheck : ∀ del s1 pc, checkIfMustDeleteAndDelete g s = (del, s1) → asked c r (goto g pc s1)).
{ intros del s1 pc E. apply (asked_same c r s1); [done|]. by eapply asked_check. }
destruct (g_pc go), b; try done; repeat (case_match; try done); simplify_eq;
  first [by apply Hsend | by eapply Hcheck | by apply (asked_same c r s)].
Qed.
Lemma asked_client c r c' b s s' :
client_step Now Source Concurrency MaxTokenDuration c' b s = Some s' → asked c r s → asked c r s'.
Proof.
intros H Hs. unfold client_step in H. destruct (clients s !! c') as [cl|]; [|done]. cbn in H.
assert (Hgo : ∀ pc s1, clients s1 = clients s → asked c r (cgoto c' pc s1)).
{ intros pc s1 E. apply asked_upd; [done|]. by apply (asked_same c r s). }
destruct (c_pc cl), b; try done; repeat (case_match; try done); simplify_option_eq;
  repeat (case_match; try done); simplify_eq; try (by apply Hgo).
apply Hgo. by destruct k.
Qed.
Lemma asked_step c r l s s' :
step Now Source SAs jwt_Subject Concurrency MaxTokenDuration l s = Some s' → asked c r s → asked c r s'.
Proof.
unfold step. destruct (fault s); [done|]. intros H Hs.
destruct l as [w| |ref|ref|ref|ref|c' r'|c' e|g b|c' b| | |h]; try (injection H as <-; by apply (asked_same c r s)).
- injection H as <-. unfold AddPodServiceAccount. repeat case_match; by apply (asked_same c r s).
- injection H as <-. unfold DeletePodServiceAccount. repeat case_match; by apply (asked_same c r s).
- injection H as <-. unfold UpdateServiceAccount. repeat case_match; by apply (asked_same c r s).
- injection H as <-. unfold DeleteServiceAccount. repeat case_match; by apply (asked_same c r s).
- destruct (clients s !! c') as [cl'|] eqn:E; [done|]. injection H as <-. destruct Hs as (cl & Hc & Hr).
  exists cl. split; [|done]. cbn. rewrite lookup_insert_ne; [done|]. congruence.
- injection H as <-. by apply asked_upd.
- by eapply asked_goroutine.
- by eapply asked_client.
- apply drain_inv in H as (go & a & req & rest & _ & _ & _ & _ & ->). by apply (asked_same c r s).
Qed.
Lemma asked_run c r ls s s' : run ls s = Some s' → asked c r s → asked c r s'.
Proof.
revert s. induction ls as [|l ls IH]; intros s; cbn; [by intros [= <-]|].
destruct (step _ _ _ _ _ _ l s) eqn:E; cbn; [|done]. intros H Ha. eapply IH; [done|]. by eapply asked_step.
Qed.

Definition answer (c : nat) (s : State W) : outcome (result response) :=
match clients s !! c with
| Some cl => match c_pc cl with CDone o => o | _ => Panic "the call has not returned" end
| None => Panic "the call has not returned"
end.
Definition call_cache (r : call) : ST Cache (result response) := λ s,
let cls := schedule (`s) r in
match run (Call cls.1 r :: cls.2) (`s) as o return run (Call cls.1 r :: cls.2) (`s) = o → _ with
| Some s' => λ E, (answer cls.1 s', exist _ s' (run_stays_reachable _ _ _ _ _ _ _ _ _ (proj2_sig s) E))
| None => λ _, (Panic "the call has not returned", s)
end eq_refl.

Definition as_token (v : response) : ST Cache (result (string * Time)) :=
match v with RToken t e => ok (t, e) | RAccess _ _ => panic "not a token" end.
Definition as_access (v : response) : ST Cache (result (AccessTokens * Time)) :=
match v with RAccess t e => ok (t, e) | RToken _ _ => panic "not access tokens" end.
Definition cached : Tokens.Provider Cache :=
{| GetServiceAccountToken ref := v ←? call_cache (CallServiceAccountToken ref); as_token v;
   GetGoogleAccessTokens saToken email scopes :=
     v ←? call_cache (CallGoogleAccessTokens saToken email scopes); as_access v;
   GetGoogleIdentityToken ref a email aud :=
     v ←? call_cache (CallGoogleIdentityToken ref a email aud); as_token v |}.

(** ** What the cache's tokens are for *)

Context (sa_token : Reference → string → Prop).
Context (access : string → option string → list string → AccessTokens → Prop).
Context (identity : Reference → string → string → string → string → Prop).

Definition has_annotation (ref : Reference) (email : option string) : Prop :=
∃ sa w w', ServiceAccounts.Get SAs ref w = (Ret (Ok sa), w') ∧ GoogleServiceAccountEmail sa = Ok email.
(** Access tokens of the account that the given token is of: without scopes,
  those of its own token and annotation; with scopes, one issued for a token
  of the same account with the same email and scopes. *)
Definition cached_access (saToken : string) (email : option string) (scopes : list string)
  (toks : AccessTokens) : Prop :=
∃ ref saToken' email', ReferenceFromToken jwt_Subject saToken = Ret ref ∧
  match scopes with
  | [] => sa_token ref saToken' ∧ has_annotation ref email' ∧ access saToken' email' [] toks
  | _ => ReferenceFromToken jwt_Subject saToken' = Ret ref ∧ default "" email' = default "" email ∧
         ∃ scopes' toks', scopes' ≠ [] ∧ join "," scopes' = join "," scopes ∧ access saToken' email' scopes' toks' ∧
           toks = {| DirectAccess := if bool_decide (DirectAccess toks' = "") then Impersonated toks'
                                     else DirectAccess toks'; Impersonated := "" |}
  end.
(** An identity token of the account, email and audience, asked for with an
  access token of its own. *)
Definition cached_identity (ref : Reference) (accessToken email audience idToken : string) : Prop :=
∃ accessToken', identity ref accessToken' email audience idToken.

Context (create_total : ∀ ref, total (createTokens Now Source SAs MaxTokenDuration ref)).

Lemma call_cache_ok r s v s' :
call_cache r s = (Ret (Ok v), s') → answered Now Source SAs jwt_Subject MaxTokenDuration r v.
Proof.
unfold call_cache. set (c := (schedule (`s) r).1). set (ls := (schedule (`s) r).2).
assert (Hgen : ∀ o (E : run (Call c r :: ls) (`s) = o),
  match o as o' return run (Call c r :: ls) (`s) = o' → outcome (result response) * Cache with
  | Some s1 => λ E, (answer c s1, exist _ s1 (run_stays_reachable _ _ _ _ _ _ _ _ _ (proj2_sig s) E))
  | None => λ _, (Panic "the call has not returned", s)
  end E = (Ret (Ok v), s') → answered Now Source SAs jwt_Subject MaxTokenDuration r v); [|apply Hgen].
intros [s1|] E; [|done]. intros [= Ha _].
assert (Hr : reachable s1) by (eapply run_stays_reachable; [exact (proj2_sig s)|exact E]).
unfold answer in Ha. destruct (clients s1 !! c) as [cl|] eqn:Hcl; [|done].
destruct (c_pc cl) eqn:Hpc; try done. subst o.
pose proof (to_cl _ _ _ _ _ _ (tok_reachable _ _ _ _ _ _ s1 create_total Hr) c cl Hcl) as Hok.
unfold client_ok in Hok. rewrite Hpc in Hok.
assert (Hasked : asked c r s1).
{ cbn [TokenCache.run] in E. destruct (step _ _ _ _ _ _ (Call c r) (`s)) as [s0|] eqn:E0; [|done]. cbn in E.
  eapply asked_run; [exact E|]. unfold step in E0. destruct (fault (`s)); [done|].
  destruct (clients (`s) !! c); [done|]. injection E0 as <-. eexists. cbn. by rewrite lookup_insert_eq. }
destruct Hasked as (cl' & Hcl' & <-). by simplify_eq.
Qed.

Context (HI : Issues sa_token access identity Source).

Lemma issued_tokens ref t :
issued Now Source SAs MaxTokenDuration ref t →
sa_token ref (token (serviceAccountToken t)) ∧
∃ saToken email, sa_token ref saToken ∧ has_annotation ref email ∧
  access saToken email [] (token (Tokens.googleAccessTokens t)).
Proof.
intros [Hk Hg]%issued_granted. destruct Hk as (sat & ek & nk & wk & wk' & Hk & ->).
destruct Hg as (sa & email & saToken & e1 & toks & e2 & now & w & w' & (w0 & w1 & Hsa) & Hem & (w2 & w3 & Htok) & Hacc & ->).
split; [by eapply issues_sa|]. pose proof (issues_sa _ _ _ _ _ Htok) as Hs. exists saToken, email.
split_and!; [done|by eexists sa, w0, w1|]. by eapply issues_access.
Qed.

(** The three calls of the interface. *)
Lemma cached_sa_token ref s t e s' :
GetServiceAccountToken cached ref s = (Ret (Ok (t, e)), s') → sa_token ref t.
Proof.
intros (v & s1 & H%call_cache_ok & Hv)%bindR_ok.
destruct H as [(ref' & tk & now & [= <-] & Hi & [= <-])|(k & tk & now & [=] & _)].
injection Hv as <- _ _. by apply issued_tokens in Hi as [? _].
Qed.
Lemma cached_access_tokens saToken email scopes s toks e s' :
GetGoogleAccessTokens cached saToken email scopes s = (Ret (Ok (toks, e)), s') →
cached_access saToken email scopes toks.
Proof.
intros (v & s1 & H%call_cache_ok & Hv)%bindR_ok.
unfold answered, ref_of, key_of in H. cbn in H.
destruct (ReferenceFromToken jwt_Subject saToken) as [ref|m] eqn:Href; [|naive_solver].
destruct scopes as [|sc scopes].
- destruct H as [(ref' & tk & now & [= <-] & Hi & [= <-])|(k & tk & now & [=] & _)].
  injection Hv as <- _ _. apply issued_tokens in Hi as (_ & t' & email' & Ht & Ha & Hacc).
  by exists ref, t', email'.
- destruct H as [(ref' & tk & now & [=] & _)|(k & tk & now & [= <-] & Hc & ->)].
  injection Hv as <- _ _. destruct Hc as (tok & exp & now0 & (r & w & w' & Hk & Hs) & ->).
  destruct r as [?|saToken' email' scopes'|? ? ? ?]; unfold key_of in Hk; cbn in Hk; try done.
  destruct (ReferenceFromToken jwt_Subject saToken') as [ref'|m] eqn:Href'; [|done].
  destruct scopes' as [|sc' scopes']; [done|]. injection Hk as -> He Hj.
  cbn [source_call] in Hs. apply bindR_ok in Hs as ([toks exp'] & w1 & HG & Hs). injection Hs as <- _ _.
  exists ref, saToken', email'. do 3 (split; [done|]).
  exists (sc' :: scopes'), toks. do 2 (split; [done|]). split; [by eapply issues_access|done].
Qed.
Lemma cached_identity_token ref a email aud s t e s' :
GetGoogleIdentityToken cached ref a email aud s = (Ret (Ok (t, e)), s') → cached_identity ref a email aud t.
Proof.
intros (v & s1 & H%call_cache_ok & Hv)%bindR_ok.
unfold answered, ref_of, key_of in H. cbn in H.
destruct H as [(ref' & tk & now & [=] & _)|(k & tk & now & [= <-] & Hc & ->)].
injection Hv as <- _ _. destruct Hc as (tok & exp & now0 & (r & w & w' & Hk & Hs) & ->).
destruct r as [?|saToken' email' scopes'|ref' at' email' aud']; unfold key_of in Hk; cbn in Hk; try done.
- by destruct (ReferenceFromToken _ _); [destruct scopes'|].
- injection Hk as -> -> ->. exists at'. by eapply issues_identity.
Qed.

(** C4: the token cache refines the provider it caches.  Under every schedule of
  its goroutines, collectors and events, a service account token that the
  cache answers with is one that the source issues for that account; access
  tokens without scopes are those the source issues for a token and the
  annotation of the account that the given token is of, and with scopes one
  it issues for that account with the same email and scopes; an identity
  token is one for that account, email and audience. *)
Theorem cache_issues : Issues sa_token cached_access cached_identity cached.
Proof. split; [exact cached_sa_token|exact cached_access_tokens|exact cached_identity_token]. Qed.
End CacheProvider.

(** ** Witness: the example cache, asked for the token of an account in use *)

Module CacheProviderExample.
Import CacheExample.
Definition schedule (s : State Z) (r : call) : nat * list (label Z) :=
(0%nat, [cl 0; cl 0; cl 0; go 0; go 0; go 0; go 0; go 0; go 0; RunClient 0 BRecv]).
Definition with_pod : Cache Now Source SAs jwt 1 0 := exist _ (after [AddPod ref]) (after_reachable [AddPod ref]).
Definition provider : Tokens.Provider (Cache Now Source SAs jwt 1 0) := cached Now Source SAs jwt 1 0 schedule.
Definition sa_token (ref : Reference) (t : string) : Prop :=
t = "system:serviceaccount:" +:+ Namespace ref +:+ ":" +:+ Name ref.
Definition access (t : string) (email : option string) (scopes : list string) (toks : AccessTokens) : Prop :=
toks = {| DirectAccess := t +:+ "/" +:+ join "," scopes; Impersonated := default "" email |}.
Definition identity (ref : Reference) (a email aud t : string) : Prop := t = email +:+ "/" +:+ aud.
#[export] Instance source_issues : Issues sa_token access identity Source.
Proof. split; unfold sa_token, access, identity; cbn; intros; by simplify_eq. Qed.
End CacheProviderExample.

Lemma cache_issues_witness :
  (GetServiceAccountToken CacheProviderExample.provider CacheExample.ref CacheProviderExample.with_pod).1 =
    Ret (Ok ("system:serviceaccount:default:app", FromUnix 2880)) ∧
  CacheProviderExample.sa_token CacheExample.ref "system:serviceaccount:default:app".
Proof.
  assert (E : (GetServiceAccountToken CacheProviderExample.provider CacheExample.ref
    CacheProviderExample.with_pod).1 = Ret (Ok ("system:serviceaccount:default:app", FromUnix 2880)))
    by (vm_compute; reflexivity).
  split; [exact E|].
  refine (issues_sa (Issues := cache_issues CacheExample.Now CacheExample.Source CacheExample.SAs CacheExample.jwt
    1 0 CacheProviderExample.schedule CacheProviderExample.sa_token CacheProviderExample.access
    CacheProviderExample.identity CacheExample.create_total CacheProviderExample.source_issues)
    CacheExample.ref CacheProviderExample.with_pod _ (FromUnix 2880) _ _).
  rewrite <- E. apply surjective_pairing.
Defined.
