(* ===== verification/Attestation.v ===== *)
(** * internal/attestation: from a connection to a pod UID

    proc.go (pod UIDs in cgroup paths), bpf/bpf.go (the lookup in the map that
    the sockops program of ebpf/attest.c fills), sockdiag/sockdiag.go (the
    socket table and /proc).  The file systems are trees of what the calls
    return; the BPF map and the netlink query are arguments.  [Lookuper] is
    server.go's AttestationLookuper, [Attests] what a lookuper promises. *)

From Stdlib Require Import Ascii.
From S2P Require Import Prelude GoStrings NetIP Regex.
Open Scope string_scope.
Open Scope Z_scope.

(** ** proc.go *)

Definition quoted (s : string) : string := one (chr 34) +:+ s +:+ one (chr 34).

(** [[0-9a-fA-F]] and [[-_]] *)
Definition is_hex (c : char) : bool :=
  is_digit c || in_range 97 102 c || in_range 65 70 c.
Definition is_sep (c : char) : bool := bool_decide (c = "-"%char) || bool_decide (c = "_"%char).
Definition hexes (n : nat) : regex := rep n (Class is_hex).
Definition uid_regex : regex :=
  Seq (hexes 8) (Seq (Class is_sep) (Seq (hexes 4) (Seq (Class is_sep) (Seq (hexes 4)
    (Seq (Class is_sep) (Seq (hexes 4) (Seq (Class is_sep) (hexes 12)))))))).
Definition podUIDPattern : regex := Seq (lit "pod") uid_regex.

(** The first group of the leftmost match: all matches have length 39. *)
Definition podUID_submatch (s : string) : option string :=
  str_take 36 <$> (str_drop 3 <$> find_fixed podUIDPattern 39 s).
Definition canonical_uid (s : string) : string := replace_byte "_" "-" s.

(** The path of a cgroup v2 entry of /proc/<pid>/cgroup. *)
Definition unified_path (line : string) : option string :=
  match splitn 3 colon line with
  | [id; controllers; path] =>
      if bool_decide (id = "0") && bool_decide (controllers = "") then Some path else None
  | _ => None
  end.

(** [read_cgroup pid] is what opening and scanning /proc/<pid>/cgroup gives:
    an error of the open, or the lines scanned and the scanner's error. *)
Definition PodUIDFromCgroup (read_cgroup : Z → result (list string * option error)) (pid : Z)
    : result string :=
  match read_cgroup pid with
  | Err e => Err (EWrap ("reading /proc/" +:+ pretty pid +:+ "/cgroup: ") e "")
  | Ok (lines, scanErr) =>
      (fix loop (lines : list string) : result string :=
         match lines with
         | [] =>
             match scanErr with
             | Some e => Err (EWrap ("scanning /proc/" +:+ pretty pid +:+ "/cgroup: ") e "")
             | None => Err (EMsg ("no cgroup v2 entry in /proc/" +:+ pretty pid +:+ "/cgroup"))
             end
         | line :: rest =>
             match unified_path line with
             | Some path =>
                 match podUID_submatch path with
                 | None => Err (EMsg ("pid " +:+ pretty pid +:+ " cgroup path " +:+ quoted path
                             +:+ " is not under a kubepods pod cgroup"))
                 | Some uid => Ok (canonical_uid uid)
                 end
             | None => loop rest
             end
         end) lines
  end.

Definition CgroupV2Mount : string := "/sys/fs/cgroup".

(** A file system error, by whether WalkDir's callback skips it. *)
Inductive fs_error : Type :=
| FsSkipped
| FsError (e : error).

(** A directory tree: the name, whether it is a directory, its inode when
    stat reports one, the error of reading it, and its entries in the order
    ReadDir returns them. *)
Inductive fsnode : Type :=
| FsNode (name : string) (isDir : bool) (ino : option Z) (readErr : option fs_error)
    (entries : list fsnode).

Inductive walk : Type :=
| WContinue
| WFound (uid : string)
| WError (e : error).

(** The callback, called with an error or with an entry. *)
Definition walk_error (e : fs_error) : walk :=
  match e with FsSkipped => WContinue | FsError e => WError e end.
Definition walk_entry (cgid : Z) (path : string) (isDir : bool) (ino : option Z) : walk :=
  if negb isDir then WContinue
  else match ino with
       | None => WContinue
       | Some i =>
           if negb (i =? cgid) then WContinue
           else match podUID_submatch path with
                | None => WError (EMsg ("cgroup id " +:+ pretty cgid +:+ " resolved to path "
                            +:+ quoted path +:+ ", which is not under a kubepods pod cgroup"))
                | Some uid => WFound (canonical_uid uid)
                end
       end.

(** filepath.WalkDir below an entry, with this callback. *)
Fixpoint walk_dir (cgid : Z) (path : string) (n : fsnode) : walk :=
  match n with
  | FsNode _ isDir ino readErr entries =>
      match walk_entry cgid path isDir ino with
      | WContinue =>
          if negb isDir then WContinue
          else
            match match readErr with Some e => walk_error e | None => WContinue end with
            | WContinue =>
                (fix go (l : list fsnode) : walk :=
                   match l with
                   | [] => WContinue
                   | c :: l' =>
                       let name := match c with FsNode name _ _ _ _ => name end in
                       match walk_dir cgid (path +:+ "/" +:+ name) c with
                       | WContinue => go l'
                       | w => w
                       end
                   end) entries
            | w => w
            end
      | w => w
      end
  end.

(** [root] is the mount point, or the error of looking at it. *)
Definition PodUIDFromCgroupID (root : fs_error + fsnode) (cgid : Z) : result string :=
  match match root with
        | inl e => walk_error e
        | inr n => walk_dir cgid CgroupV2Mount n
        end with
  | WError e => Err e
  | WContinue => Err (EMsg ("cgroup id " +:+ pretty cgid +:+ " not found under " +:+ CgroupV2Mount))
  | WFound uid => Ok uid
  end.

(** ** The interface: server.go's AttestationLookuper *)

Record Lookuper (W : Type) : Type := {
  Lookup : Addr → Addr → Z → Z → ST W (result string);
  Verify : Addr → Addr → Z → Z → ST W (result unit);
}.
Arguments Lookup {W} _ _ _ _ _.
Arguments Verify {W} _ _ _ _ _.

(** What the server relies on: a UID that is returned is the one [owner] gives
    for the connection, as the kernel sees it at that moment.  Ports are uint16. *)
Class Attests {W} (owner : W → Addr → Addr → Z → Z → string → Prop) (L : Lookuper W) : Prop :=
  lookup_sound src dst sport dport w uid w' :
    0 ≤ sport < 65536 → 0 ≤ dport < 65536 →
    Lookup L src dst sport dport w = (Ret (Ok uid), w') → owner w src dst sport dport uid.

(** ** bpf/bpf.go and ebpf/attest.c *)

Module Bpf.
(** AttestKey: four 32 and 16 bit integers as the kernel stores them. *)
Record AttestKey : Type := { SrcIp : Z; DstIp : Z; SrcPort : Z; DstPort : Z }.
#[export] Instance AttestKey_eq_dec : EqDecision AttestKey.
Proof. solve_decision. Defined.

(** [v<<8 | v>>8] on a uint16. *)
Definition htons (v : Z) : Z :=
  Z.lor (Z.land (Z.shiftl v 8) 65535) (Z.shiftr v 8).
(** [binary.NativeEndian.Uint32] of the four bytes, on a little-endian host. *)
Definition native_uint32 (l : list Z) : Z := foldr (λ o acc, o + 256 * acc) 0 l.

(** The bpf_sock_ops fields the program reads, and the operations it compares. *)
Record sock_ops : Type := {
  op_is_connect_cb : bool;
  family : Z;
  local_ip4 : Z;
  remote_ip4 : Z;
  local_port : Z;
  remote_port : Z;
}.
Definition AF_INET : Z := 2.

(** attest_connect: the update of the map, for a task in the given cgroup. *)
Definition attest_connect (skops : sock_ops) (cgroup_id : Z) : option (AttestKey * Z) :=
  if negb (op_is_connect_cb skops) then None
  else if negb (family skops =? AF_INET) then None
  else Some ({| SrcIp := local_ip4 skops; DstIp := remote_ip4 skops;
                SrcPort := htons (local_port skops mod 65536);
                DstPort := Z.shiftr (remote_port skops) 16 mod 65536 |}, cgroup_id).

Section Bpf.
(** The map lookup: [None] when the key does not exist; the cgroup tree. *)
Context {W : Type} (map_Lookup : AttestKey → ST W (result (option Z))).
Context (cgroups : W → fs_error + fsnode).

Definition ErrNotFound : error := ESentinel ErrBpfNotFound "attestation: 4-tuple not in map".
Definition as4_panic : string := "As4 called on IPv6 address".

Definition attest_key (src dst : Z) (sport dport : Z) : AttestKey :=
  {| SrcIp := native_uint32 (v4_octets src); DstIp := native_uint32 (v4_octets dst);
     SrcPort := htons sport; DstPort := htons dport |}.

Definition bpf_Lookup (srcIP dstIP : Addr) (srcPort dstPort : Z) : ST W (result string) :=
  match as4 srcIP, as4 dstIP with
  | Some src, Some dst =>
      r ← map_Lookup (attest_key src dst srcPort dstPort);
      match r with
      | Err e => err (EWrap "looking up attestation map: " e "")
      | Ok None => err ErrNotFound
      | Ok (Some cgid) =>
          w ← st_get;
          match PodUIDFromCgroupID (cgroups w) cgid with
          | Err e => err (EWrap ("resolving pod from cgroup id " +:+ pretty cgid +:+ ": ") e "")
          | Ok uid => ok uid
          end
      end
  | _, _ => panic as4_panic
  end.

Definition bpf_Verify (srcIP dstIP : Addr) (srcPort dstPort : Z) : ST W (result unit) :=
  match as4 srcIP, as4 dstIP with
  | Some src, Some dst =>
      r ← map_Lookup (attest_key src dst srcPort dstPort);
      match r with
      | Err e => err (EWrap "verifying attestation map: " e "")
      | Ok None => err ErrNotFound
      | Ok (Some _) => ok tt
      end
  | _, _ => panic as4_panic
  end.

Definition lookuper : Lookuper W := {| Lookup := bpf_Lookup; Verify := bpf_Verify |}.
End Bpf.
End Bpf.

(** ** sockdiag/sockdiag.go *)

Module Sockdiag.
(** What the kernel and /proc hold: the inode of the socket of a 4-tuple
    (netlink SOCK_DIAG), the batches of names read from /proc with the error
    that came with each, the link targets of a process's fd directory ([None]:
    it cannot be read; an entry is [None] when its link cannot be), and the
    cgroup files. *)
Record System : Type := {
  SocketGet : Addr → Z → Addr → Z → result Z;
  proc_open : result unit;
  proc_batches : list (list string * option (error * bool));
  proc_fds : string → option (list (option string));
  proc_cgroup : Z → result (list string * option error);
}.

Definition ErrNotFound : error :=
  ESentinel ErrSockdiagNotFound "sockdiag: 4-tuple not in host socket table".
Definition socket_link (inode : Z) : string := "socket:[" +:+ pretty inode +:+ "]".

(** The process of one batch that holds the link, in order. *)
Fixpoint scan_names (fds : string → option (list (option string))) (target : string)
    (names : list string) : option Z :=
  match names with
  | [] => None
  | name :: rest =>
      match atoi name with
      | None => scan_names fds target rest
      | Some pid =>
          match fds name with
          | None => scan_names fds target rest
          | Some entries =>
              if existsb (λ e, bool_decide (e = Some target)) entries then Some pid
              else scan_names fds target rest
          end
      end
  end.

(** The loop over the batches: a read that is closed, or empty with an error,
    ends it, and so does an error after its names were looked at.  Reading at
    the end of the directory gives an error, so the list of batches ends so. *)
Fixpoint scan_batches (fds : string → option (list (option string))) (target : string)
    (batches : list (list string * option (error * bool))) : option Z :=
  match batches with
  | [] => None
  | (names, e) :: rest =>
      let closed := match e with Some (_, c) => c | None => false end in
      if closed || (Nat.eqb (length names) 0 && bool_decide (is_Some e)) then None
      else match scan_names fds target names with
           | Some pid => Some pid
           | None => match e with Some _ => None | None => scan_batches fds target rest end
           end
  end.

Definition pidForSocketInode (sys : System) (inode : Z) : result Z :=
  match proc_open sys with
  | Err e => Err (EWrap "opening /proc: " e "")
  | Ok _ =>
      match scan_batches (proc_fds sys) (socket_link inode) (proc_batches sys) with
      | Some pid => Ok pid
      | None => Err (EWrap "" ErrNotFound (": no /proc/*/fd link to inode " +:+ pretty inode))
      end
  end.

Section Sockdiag.
Context {W : Type} (system : W → System) (addr_text : Addr → Z → string).

Definition sockdiag_Lookup (srcIP dstIP : Addr) (srcPort dstPort : Z) : ST W (result string) :=
  w ← st_get;
  let sys := system w in
  match SocketGet sys srcIP srcPort dstIP dstPort with
  | Err e => err (EWrap ("netlink SocketGet for " +:+ addr_text srcIP srcPort +:+ " -> "
                         +:+ addr_text dstIP dstPort +:+ ": ") e "")
  | Ok inode =>
      if inode =? 0 then err ErrNotFound
      else match pidForSocketInode sys inode with
           | Err e => err e
           | Ok pid =>
               match PodUIDFromCgroup (proc_cgroup sys) pid with
               | Err e => err (EWrap ("resolving pod uid for pid " +:+ pretty pid +:+ ": ") e "")
               | Ok uid => ok uid
               end
           end
  end.
Definition sockdiag_Verify (srcIP dstIP : Addr) (srcPort dstPort : Z) : ST W (result unit) := ok tt.

Definition lookuper : Lookuper W := {| Lookup := sockdiag_Lookup; Verify := sockdiag_Verify |}.
End Sockdiag.
End Sockdiag.

(** ** Lemmas: pod UIDs in paths *)

Lemma lang_rep_class f n s :
  lang (rep n (Class f)) s ↔ String.length s = n ∧ Forall (λ c, f c = true) (bytes s).
Proof.
  revert s. induction n as [|n IH]; intros s; cbn.
  - split; [by inversion 1|]. intros [Hl _]. destruct s; [constructor|done].
  - split.
    + intros (a & b & -> & Ha & Hb)%lang_seq_inv. inversion Ha; subst.
      apply IH in Hb as [Hl Hf]. rewrite length_app_str, bytes_app. split; [cbn; lia|].
      apply Forall_app. by split; [constructor; [|constructor]|].
    + destruct s as [|c s]; intros [Hl Hf]; [done|]. cbn in *. inversion Hf; subst.
      apply (lang_seq (Class f) _ (one c) s); [by constructor|]. apply IH. split; [lia|done].
Qed.
Lemma lang_class_inv f s : lang (Class f) s → ∃ c, s = one c ∧ f c = true.
Proof. inversion 1; subst. eauto. Qed.

(** The textual form of a UID with a separator [sep]. *)
Definition uid_text (sep : char) (a b c d e : string) : string :=
  a +:+ one sep +:+ b +:+ one sep +:+ c +:+ one sep +:+ d +:+ one sep +:+ e.
Definition hex_group (n : nat) (s : string) : Prop :=
  String.length s = n ∧ Forall (λ x, is_hex x = true) (bytes s).
Definition valid_groups (a b c d e : string) : Prop :=
  hex_group 8 a ∧ hex_group 4 b ∧ hex_group 4 c ∧ hex_group 4 d ∧ hex_group 12 e.

Lemma uid_lang sep a b c d e :
  is_sep sep = true → valid_groups a b c d e → lang uid_regex (uid_text sep a b c d e).
Proof.
  intros Hs (Ha & Hb & Hc & Hd & He). unfold uid_regex, uid_text, hexes.
  do 4 (apply lang_seq; [by apply lang_rep_class|]; apply lang_seq; [by constructor|]).
  by apply lang_rep_class.
Qed.

Lemma uid_text_length sep a b c d e :
  valid_groups a b c d e → String.length (uid_text sep a b c d e) = 36%nat.
Proof.
  intros ([Ha _] & [Hb _] & [Hc _] & [Hd _] & [He _]). unfold uid_text, one.
  rewrite !length_app_str. cbn. lia.
Qed.

Lemma replace_byte_app x y s t :
  replace_byte x y (s +:+ t) = replace_byte x y s +:+ replace_byte x y t.
Proof. induction s as [|c s IH]; [done|]. rewrite app_str_cons. simpl. by rewrite IH, app_str_cons. Qed.
Lemma replace_byte_no x y s : ¬ str_in x s → replace_byte x y s = s.
Proof.
  induction s as [|c s IH]; [done|]. rewrite str_in_cons. intros H. cbn.
  rewrite decide_False by naive_solver. by rewrite IH by naive_solver.
Qed.
Lemma hex_group_no_sep n s x : is_hex x = false → hex_group n s → ¬ str_in x s.
Proof.
  intros Hx [_ Hf] Hin. unfold str_in in Hin. rewrite Forall_forall in Hf.
  specialize (Hf x Hin). cbn in Hf. congruence.
Qed.
Lemma canonical_uid_text sep a b c d e :
  is_sep sep = true → valid_groups a b c d e →
  canonical_uid (uid_text sep a b c d e) = uid_text "-" a b c d e.
Proof.
  intros Hs (Ha & Hb & Hc & Hd & He). unfold canonical_uid, uid_text.
  rewrite !replace_byte_app.
  assert (Hno : ∀ n s, hex_group n s → replace_byte "_" "-" s = s)
    by (intros n s Hg; by eapply replace_byte_no, hex_group_no_sep).
  rewrite (Hno _ _ Ha), (Hno _ _ Hb), (Hno _ _ Hc), (Hno _ _ Hd), (Hno _ _ He).
  assert (Hr : replace_byte "_" "-" (one sep) = one "-").
  { unfold one. cbn. unfold is_sep in Hs. apply orb_true_iff in Hs as [Hs|Hs];
      apply bool_decide_eq_true in Hs as ->; done. }
  by rewrite !Hr.
Qed.

(** Where the leftmost match of the pattern starts: a path prefix in which
    every "pod" is followed by a byte that is not hexadecimal hides none. *)
Definition no_uid_in (pre : string) : Prop :=
  ∀ x y, pre = x +:+ "pod" +:+ y → ∃ c y', y = String c y' ∧ is_hex c = false.

Fixpoint clean_prefix (s : string) : bool :=
  (if has_prefix "pod" s
   then match str_drop 3 s with String c _ => negb (is_hex c) | "" => false end else true) &&
  match s with "" => true | String _ s' => clean_prefix s' end.
Lemma clean_prefix_spec s : clean_prefix s = true → no_uid_in s.
Proof.
  intros Hc x y ->. induction x as [|k x IH].
  - destruct y as [|c y]; [done|]. exists c, y. split; [done|].
    change (negb (is_hex c) && clean_prefix ("od" +:+ String c y) = true) in Hc.
    by destruct (is_hex c).
  - apply IH. rewrite app_str_cons in Hc. cbn [clean_prefix] in Hc. by apply andb_true_iff in Hc as [_ ?].
Qed.

Lemma pattern_start s : lang podUIDPattern s → ∃ c r, s = "pod" +:+ String c r ∧ is_hex c = true.
Proof.
  intros (p & u & -> & ->%lang_lit & Hu)%lang_seq_inv.
  apply lang_seq_inv in Hu as (a & r & -> & [Ha Hf]%lang_rep_class & _).
  destruct a as [|c a]; [done|]. cbn in Hf. inversion Hf; subst. by exists c, (a +:+ r).
Qed.
Lemma str_take_split n s : ∃ r, s = str_take n s +:+ r.
Proof.
  revert n. induction s as [|c s IH]; intros [|n]; try by eexists.
  destruct (IH n) as [r Hr]. exists r. cbn. rewrite app_str_cons. by f_equal.
Qed.

Lemma find_fixed_skip pre t :
  no_uid_in pre → has_prefix "pod" t = true → find_fixed podUIDPattern 39 (pre +:+ t) =
  find_fixed podUIDPattern 39 t.
Proof.
  intros Hpre Ht. apply has_prefix_spec in Ht as [t' ->].
  induction pre as [|c pre IH]; [done|].
  assert (IH' : no_uid_in pre).
  { intros x y E. apply (Hpre (String c x) y). by rewrite E. }
  rewrite app_str_cons. cbn [find_fixed].
  destruct (re_match podUIDPattern (str_take 39 (String c (pre +:+ "pod" +:+ t')))) eqn:Hm.
  2: rewrite andb_false_r; by apply IH.
  exfalso. apply re_match_lang, pattern_start in Hm as (d & r & E & Hd).
  destruct (str_take_split 39 (String c (pre +:+ "pod" +:+ t'))) as [q Hq]. rewrite E in Hq.
  rewrite <- (app_str_cons c pre) in Hq.
  destruct pre as [|c2 [|c3 pre]].
  - rewrite !app_str_cons in Hq. cbn in Hq. by injection Hq.
  - rewrite !app_str_cons in Hq. cbn in Hq. by injection Hq.
  - rewrite !app_str_cons in Hq. cbn in Hq. injection Hq as -> -> -> Hq.
    destruct (Hpre "" pre eq_refl) as (c' & y' & -> & Hc').
    rewrite app_str_cons in Hq. injection Hq as -> _. congruence.
Qed.

Lemma podUID_submatch_at pre sep post a b c d e :
  is_sep sep = true → valid_groups a b c d e → no_uid_in pre →
  podUID_submatch (pre +:+ "pod" +:+ uid_text sep a b c d e +:+ post) =
    Some (uid_text sep a b c d e).
Proof.
  intros Hs Hv Hpre. unfold podUID_submatch. rewrite find_fixed_skip by done.
  pose proof (uid_text_length sep a b c d e Hv) as Hl.
  set (u := uid_text sep a b c d e) in *.
  assert (Hf : find_fixed podUIDPattern 39 ("pod" +:+ u +:+ post) = Some ("pod" +:+ u +:+ post)).
  { assert (Ht : str_take 39 ("pod" +:+ u +:+ post) = "pod" +:+ u).
    { replace 39%nat with (String.length ("pod" +:+ u)) by (rewrite length_app_str, Hl; done).
      rewrite app_str_assoc. apply str_take_app. }
    assert (Hm : re_match podUIDPattern ("pod" +:+ u) = true).
    { apply re_match_lang. apply lang_seq; [by apply lang_lit|]. by apply uid_lang. }
    assert (Hle : (39 <=? String.length ("pod" +:+ u +:+ post))%nat = true).
    { apply Nat.leb_le. rewrite !length_app_str, Hl. cbn. lia. }
    unfold find_fixed. destruct ("pod" +:+ u +:+ post) eqn:E; [done|].
    rewrite Ht, Hm, Hle. done. }
  rewrite Hf. cbn [fmap option_fmap option_map].
  rewrite (str_drop_app "pod" (u +:+ post) : str_drop 3 _ = _).
  rewrite <- Hl. by rewrite str_take_app.
Qed.

(** ** Theorems *)

(** C23: the pod UID of a cgroup path does not depend on the cgroup driver:
    the kubelet's directory name, with hyphens (cgroupfs) or underscores
    (systemd), after any prefix such as kubepods/burstable/ that names no
    other pod, gives the UID in the form of the Kubernetes API. *)
Theorem pod_uid_of_cgroup_path (read_cgroup : Z → result (list string * option error)) (pid : Z)
    (lines more : list string) (scanErr : option error) (pre post : string) (sep : char)
    (a b c d e : string) :
  is_sep sep = true → valid_groups a b c d e → no_uid_in pre →
  Forall (λ l, unified_path l = None) lines →
  read_cgroup pid =
    Ok ((lines ++ ("0::" +:+ pre +:+ "pod" +:+ uid_text sep a b c d e +:+ post) :: more)%list, scanErr) →
  PodUIDFromCgroup read_cgroup pid = Ok (uid_text "-" a b c d e).
Proof.
  intros Hs Hv Hpre Hl Hr. unfold PodUIDFromCgroup. rewrite Hr. clear Hr.
  induction Hl as [|l lines Hne Hl IH]; cbn [app].
  - assert (Hsp : ∀ p, unified_path ("0::" +:+ p) = Some p) by done.
    rewrite Hsp, podUID_submatch_at by done. by rewrite canonical_uid_text.
  - by rewrite Hne.
Qed.
Lemma pod_uid_of_cgroup_path_witness :
  PodUIDFromCgroup
    (λ pid, Ok (["1:name=systemd:/x";
       "0::/kubepods.slice/kubepods-pod01234567_89ab_cdef_0123_456789abcdef.slice/cri"], None)) 7 =
  Ok "01234567-89ab-cdef-0123-456789abcdef".
Proof.
  apply (pod_uid_of_cgroup_path _ 7 ["1:name=systemd:/x"] [] None "/kubepods.slice/kubepods-"
    ".slice/cri" "_" "01234567" "89ab" "cdef" "0123" "456789abcdef"); try done.
  - unfold valid_groups, hex_group. split_and!; try done; by repeat constructor.
  - by apply clean_prefix_spec.
  - by repeat constructor.
Defined.

(** ** The map key *)

Lemma htons_spec v : 0 ≤ v < 65536 → Bpf.htons v = (v mod 256) * 256 + v / 256.
Proof.
  intros Hv. unfold Bpf.htons. change 65535 with (Z.ones 16).
  rewrite Z.land_ones, Z.shiftl_mul_pow2, Z.shiftr_div_pow2 by lia.
  change (2 ^ 16) with (256 * 256). change (2 ^ 8) with 256.
  rewrite Z.mul_mod_distr_r by lia.
  rewrite <- Z.add_nocarry_lor; [done|].
  assert (Hq : 0 ≤ v / 256 < 256) by (Z.to_euclidean_division_equations; lia).
  change 256 with (2 ^ 8) at 2. rewrite <- Z.shiftl_mul_pow2 by lia.
  apply Z.bits_inj'. intros n Hn. rewrite Z.land_spec, Z.bits_0.
  destruct (Z.lt_ge_cases n 8).
  - by rewrite Z.shiftl_spec_low.
  - rewrite (Z.bits_above_log2 (v / 256) n); [by rewrite andb_false_r|lia|].
    destruct (decide (v / 256 = 0)) as [->|]; [cbn; lia|].
    apply Z.log2_lt_pow2; [lia|]. apply Z.lt_le_trans with (2 ^ 8); [change (2 ^ 8) with 256; lia|].
    by apply Z.pow_le_mono_r.
Qed.
Lemma htons_range v : 0 ≤ v < 65536 → 0 ≤ Bpf.htons v < 65536.
Proof. intros Hv. rewrite htons_spec by done. Z.to_euclidean_division_equations. lia. Qed.
Lemma htons_inj v w : 0 ≤ v < 65536 → 0 ≤ w < 65536 → Bpf.htons v = Bpf.htons w → v = w.
Proof. intros Hv Hw. rewrite !htons_spec by done. Z.to_euclidean_division_equations. lia. Qed.
Lemma native_uint32_inj a b :
  0 ≤ a < 2 ^ 32 → 0 ≤ b < 2 ^ 32 →
  Bpf.native_uint32 (v4_octets a) = Bpf.native_uint32 (v4_octets b) → a = b.
Proof.
  intros Ha Hb. pose proof (v4_octets_range a Ha) as Ra. pose proof (v4_octets_range b Hb) as Rb.
  intros E. rewrite <- (v4_of_octets_inv a Ha), <- (v4_of_octets_inv b Hb). f_equal.
  unfold v4_octets in *. rewrite !Forall_cons in Ra, Rb. unfold Bpf.native_uint32 in E.
  cbn [foldr] in E. f_equal; [|f_equal; [|f_equal; [|f_equal]]]; lia.
Qed.

(** What lies in memory in network byte order, read as a native integer: the
    two bytes of a port, and the whole key of a connection. *)
Definition network_port (p : Z) : Z := Bpf.native_uint32 [p / 256; p mod 256].
Definition network_key (src dst sport dport : Z) : Bpf.AttestKey :=
  {| Bpf.SrcIp := Bpf.native_uint32 (v4_octets src); Bpf.DstIp := Bpf.native_uint32 (v4_octets dst);
     Bpf.SrcPort := network_port sport; Bpf.DstPort := network_port dport |}.
Lemma htons_network p : 0 ≤ p < 65536 → Bpf.htons p = network_port p.
Proof. intros Hp. rewrite htons_spec by done. unfold network_port, Bpf.native_uint32. cbn. lia. Qed.
Lemma attest_key_network src dst sport dport :
  0 ≤ sport < 65536 → 0 ≤ dport < 65536 → Bpf.attest_key src dst sport dport = network_key src dst sport dport.
Proof. intros Hs Hd. unfold Bpf.attest_key. by rewrite !htons_network. Qed.

(** The fields of bpf_sock_ops for an active connect, on a little-endian host:
    addresses as their bytes in memory, the local port in host order, the
    remote port in network order in the upper half. *)
Definition connecting (src dst sport dport : Z) : Bpf.sock_ops :=
  {| Bpf.op_is_connect_cb := true; Bpf.family := Bpf.AF_INET;
     Bpf.local_ip4 := Bpf.native_uint32 (v4_octets src);
     Bpf.remote_ip4 := Bpf.native_uint32 (v4_octets dst);
     Bpf.local_port := sport; Bpf.remote_port := Z.shiftl (network_port dport) 16 |}.
Definition tuple_ok (src dst sport dport : Z) : Prop :=
  0 ≤ src < 2 ^ 32 ∧ 0 ≤ dst < 2 ^ 32 ∧ 0 ≤ sport < 65536 ∧ 0 ≤ dport < 65536.

(** For a connection from src:sport to dst:dport the sockops program
    records the connecting task's cgroup under exactly the key that the server
    looks up, and no other connection has that key. *)
Theorem attest_key_agrees (src dst sport dport cgroup : Z) :
  tuple_ok src dst sport dport →
  Bpf.attest_connect (connecting src dst sport dport) cgroup =
    Some (Bpf.attest_key src dst sport dport, cgroup) ∧
  ∀ src' dst' sport' dport', tuple_ok src' dst' sport' dport' →
    Bpf.attest_key src' dst' sport' dport' = Bpf.attest_key src dst sport dport →
    (src', dst', sport', dport') = (src, dst, sport, dport).
Proof.
  intros (Hs & Hd & Hsp & Hdp). split.
  - unfold Bpf.attest_connect, connecting, Bpf.attest_key. rewrite <- htons_network by done. cbn.
    pose proof (htons_range dport Hdp).
    rewrite Z.shiftr_shiftl_l by lia. cbn [Z.sub Z.add Z.opp Z.pos_sub]. rewrite Z.shiftl_0_r.
    by rewrite (Z.mod_small sport), (Z.mod_small (Bpf.htons dport)) by lia.
  - intros src' dst' sport' dport' (Hs' & Hd' & Hsp' & Hdp') [= E1 E2 E3 E4].
    by rewrite (native_uint32_inj _ _ Hs' Hs E1), (native_uint32_inj _ _ Hd' Hd E2),
      (htons_inj _ _ Hsp' Hsp E3), (htons_inj _ _ Hdp' Hdp E4).
Qed.
Lemma attest_key_agrees_witness :
  Bpf.attest_connect (connecting 167772161 167772162 40000 16321) 99 =
    Some (Bpf.attest_key 167772161 167772162 40000 16321, 99).
Proof. apply (attest_key_agrees 167772161 167772162 40000 16321 99). unfold tuple_ok. lia. Defined.

(** ** The two lookupers keep their promise *)

(** A directory of the tree, with its path. *)
Inductive in_tree : string → fsnode → string → Z → Prop :=
| in_here path name i re cs : in_tree path (FsNode name true (Some i) re cs) path i
| in_below path name i re cs c cname cd ci ce cc p j :
    c ∈ cs → c = FsNode cname cd ci ce cc → in_tree (path +:+ "/" +:+ cname) c p j →
    in_tree path (FsNode name true i re cs) p j.

(** A pod's UID as the kubelet writes it, with hyphens or underscores, and in the
    form of the API; the first one in a path after "pod" names its pod. *)
Definition hex_digits (n : nat) (s : string) : Prop :=
  String.length s = n ∧ Forall (λ x, x ∈ bytes "0123456789abcdefABCDEF") (bytes s).
Definition written_uid (u uid : string) : Prop :=
  ∃ a b c d e s1 s2 s3 s4, u = a +:+ one s1 +:+ b +:+ one s2 +:+ c +:+ one s3 +:+ d +:+ one s4 +:+ e ∧
    Forall (λ s, s ∈ bytes "-_") [s1; s2; s3; s4] ∧
    hex_digits 8 a ∧ hex_digits 4 b ∧ hex_digits 4 c ∧ hex_digits 4 d ∧ hex_digits 12 e ∧
    uid = a +:+ "-" +:+ b +:+ "-" +:+ c +:+ "-" +:+ d +:+ "-" +:+ e.
Definition names_pod (path uid : string) : Prop :=
  ∃ pre u post, path = pre +:+ "pod" +:+ u +:+ post ∧ written_uid u uid ∧
    ∀ pre' u' uid' post', path = pre' +:+ "pod" +:+ u' +:+ post' → written_uid u' uid' →
      (String.length pre ≤ String.length pre')%nat.

Lemma app_same_length (s s' t t' : string) :
  s +:+ t = s' +:+ t' → String.length s = String.length s' → s = s' ∧ t = t'.
Proof.
  revert s'. induction s as [|c s IH]; intros [|c' s'] E Hl; try done.
  rewrite !app_str_cons in E. injection E as -> E. injection Hl as Hl. by destruct (IH s' E Hl) as [-> ->].
Qed.
Lemma is_hex_digit c : is_hex c = true ↔ c ∈ bytes "0123456789abcdefABCDEF".
Proof.
  rewrite <- (bool_decide_eq_true (c ∈ _)).
  assert (is_hex c = bool_decide (c ∈ bytes "0123456789abcdefABCDEF")) as ->; [|done].
  destruct c as [[] [] [] [] [] [] [] []]; vm_compute; reflexivity.
Qed.
Lemma is_sep_mark c : is_sep c = true ↔ c ∈ bytes "-_".
Proof.
  unfold is_sep. rewrite orb_true_iff, !bool_decide_eq_true. cbn. by rewrite elem_of_cons, list_elem_of_singleton.
Qed.
Lemma hexes_lang n s : lang (hexes n) s ↔ hex_digits n s.
Proof.
  unfold hexes, hex_digits. rewrite lang_rep_class. f_equiv. apply Forall_proper; [|done].
  intros c. apply is_hex_digit.
Qed.
Lemma hex_digits_group n s : hex_digits n s → hex_group n s.
Proof. intros H. by apply lang_rep_class, hexes_lang. Qed.
Lemma written_lang u : lang uid_regex u ↔ ∃ uid, written_uid u uid.
Proof.
  unfold uid_regex. split.
  - intros H. repeat match type of H with
    | lang (Seq _ _) _ => apply lang_seq_inv in H as (?a & ?q & -> & ?Hx & H)
    end.
    repeat match goal with H : lang (Class _) _ |- _ => apply lang_class_inv in H as (?s & -> & ?Hs%is_sep_mark) end.
    repeat match goal with H : lang (hexes _) _ |- _ => apply hexes_lang in H end.
    eexists. do 9 eexists. split_and!; [reflexivity| |done..]. by rewrite !Forall_cons.
  - intros (uid & a & b & c & d & e & s1 & s2 & s3 & s4 & -> & Hs & Ha & Hb & Hc & Hd & He & _).
    rewrite !Forall_cons in Hs. destruct Hs as (H1 & H2 & H3 & H4 & _).
    do 4 (apply lang_seq; [by apply hexes_lang|]; apply lang_seq; [by constructor; apply is_sep_mark|]).
    by apply hexes_lang.
Qed.
Lemma written_canonical u uid : written_uid u uid → canonical_uid u = uid ∧ String.length u = 36%nat.
Proof.
  intros (a & b & c & d & e & s1 & s2 & s3 & s4 & -> & Hs & Ha & Hb & Hc & Hd & He & ->).
  unfold canonical_uid. split.
  - rewrite !replace_byte_app.
    assert (Hno : ∀ n s, hex_digits n s → replace_byte "_" "-" s = s)
      by (intros n s Hg%hex_digits_group; by eapply replace_byte_no, hex_group_no_sep).
    rewrite (Hno _ _ Ha), (Hno _ _ Hb), (Hno _ _ Hc), (Hno _ _ Hd), (Hno _ _ He).
    assert (Hm : ∀ x, x ∈ bytes "-_" → replace_byte "_" "-" (one x) = "-").
    { intros x. cbn. rewrite elem_of_cons, list_elem_of_singleton. by intros [-> | ->]. }
    rewrite !Forall_cons in Hs. destruct Hs as (H1 & H2 & H3 & H4 & _).
    by rewrite (Hm _ H1), (Hm _ H2), (Hm _ H3), (Hm _ H4).
  - destruct Ha as [Ha _], Hb as [Hb _], Hc as [Hc _], Hd as [Hd _], He as [He _].
    unfold one. rewrite !length_app_str. cbn. lia.
Qed.
Lemma pattern_at t :
  (39 ≤ String.length t)%nat ∧ lang podUIDPattern (str_take 39 t) ↔
  ∃ u uid post, t = "pod" +:+ u +:+ post ∧ written_uid u uid.
Proof.
  split.
  - intros [Hl (p & u & E & ->%lang_lit & [uid Hu]%written_lang)%lang_seq_inv].
    destruct (str_take_split 39 t) as [post Ht]. exists u, uid, post. split; [|done].
    by rewrite Ht, E, <- app_str_assoc.
  - intros (u & uid & post & -> & Hu). destruct (written_canonical u uid Hu) as [_ Hl].
    assert (Ht : str_take 39 ("pod" +:+ u +:+ post) = "pod" +:+ u).
    { replace 39%nat with (String.length ("pod" +:+ u)) by (rewrite length_app_str, Hl; done).
      rewrite app_str_assoc. apply str_take_app. }
    split; [rewrite !length_app_str, Hl; cbn; lia|]. rewrite Ht.
    apply lang_seq; [by apply lang_lit|]. apply written_lang. by exists uid.
Qed.
(** What the parser finds in a path is the pod that the path names. *)
Lemma submatch_names path uid :
  (∃ u, podUID_submatch path = Some u ∧ canonical_uid u = uid) ↔ names_pod path uid.
Proof.
  unfold podUID_submatch, names_pod. pose proof (find_fixed_spec podUIDPattern 39 path) as Hf.
  destruct (find_fixed podUIDPattern 39 path) as [t|]; cbn [fmap option_fmap option_map].
  - destruct Hf as (pre & -> & Hl & Hm & Hmin).
    destruct (proj1 (pattern_at t) (conj Hl Hm)) as (u & uid' & post & -> & Hu).
    destruct (written_canonical u uid' Hu) as [Hc Hlen].
    rewrite (str_drop_app "pod" (u +:+ post) : str_drop 3 _ = _). rewrite <- Hlen, str_take_app.
    assert (Hfirst : ∀ pre' u' uid' post', pre +:+ "pod" +:+ u +:+ post = pre' +:+ "pod" +:+ u' +:+ post' →
      written_uid u' uid' → (String.length pre ≤ String.length pre')%nat).
    { intros pre' u' uid'' post' E Hu'. destruct (proj2 (pattern_at ("pod" +:+ u' +:+ post'))) as [H1 H2];
        [by eexists _, _, _|]. by eapply Hmin. }
    split.
    + intros (v & [= <-] & <-). exists pre, u, post. rewrite Hc. by split_and!.
    + intros (pre' & u' & post' & E & Hu' & Hmin'). exists u. split; [done|]. rewrite Hc.
      destruct (written_canonical u' uid Hu') as [Hc' Hlen'].
      pose proof (Hfirst _ _ _ _ E Hu') as L1. pose proof (Hmin' _ _ _ _ eq_refl Hu) as L2.
      apply app_same_length in E as [-> E]; [|lia]. apply app_same_length in E as [_ E]; [|done].
      apply app_same_length in E as [-> _]; [|lia]. congruence.
  - split; [by intros (u & ? & _)|]. intros (pre & u & post & E & Hu & _).
    destruct (proj2 (pattern_at ("pod" +:+ u +:+ post))) as [H1 H2]; [by eexists _, _, _|].
    by destruct (Hf _ _ E H1).
Qed.

(** The pod of a cgroup id: a directory with that inode, named after the pod. *)
Definition cgroup_pod (root : fs_error + fsnode) (cgid : Z) (uid : string) : Prop :=
  ∃ n path, root = inr n ∧ in_tree CgroupV2Mount n path cgid ∧ names_pod path uid.

Section Tree.
Context (P : fsnode → Prop).
Context (HP : ∀ name d i re cs, Forall P cs → P (FsNode name d i re cs)).
Fixpoint fsnode_tree_ind (n : fsnode) : P n :=
  match n with
  | FsNode name d i re cs =>
      HP name d i re cs ((fix go (l : list fsnode) : Forall P l :=
        match l with
        | [] => List.Forall_nil P
        | c :: l' => List.Forall_cons P c l' (fsnode_tree_ind c) (go l')
        end) cs)
  end.
End Tree.

Lemma walk_dir_found cgid n : ∀ path uid,
  walk_dir cgid path n = WFound uid →
  ∃ p u, in_tree path n p cgid ∧ podUID_submatch p = Some u ∧ canonical_uid u = uid.
Proof.
  induction n as [name d i re cs IH] using fsnode_tree_ind. intros path uid. cbn [walk_dir].
  unfold walk_entry at 1. destruct d; cbn [negb]; [|done].
  assert (Hbelow : ∀ l, Forall (λ n, ∀ path uid, walk_dir cgid path n = WFound uid →
      ∃ p u, in_tree path n p cgid ∧ podUID_submatch p = Some u ∧ canonical_uid u = uid) l →
    (∀ x, x ∈ l → x ∈ cs) →
    (fix go (l : list fsnode) : walk :=
       match l with
       | [] => WContinue
       | c :: l' => match walk_dir cgid (path +:+ "/" +:+ match c with FsNode name _ _ _ _ => name end) c with
                    | WContinue => go l' | w => w end
       end) l = WFound uid →
    ∃ p u, in_tree path (FsNode name true i re cs) p cgid ∧ podUID_submatch p = Some u ∧ canonical_uid u = uid).
  { induction 1 as [|c l Hc Hl IHl]; intros Hsub; [done|].
    destruct (walk_dir cgid _ c) as [|u|e] eqn:E; [intros ?; apply IHl; set_solver| |done].
    intros [= ->]. destruct (Hc _ _ E) as (p & u & Hin & ? & ?). exists p, u. split; [|done].
    destruct c as [cname cd ci ce cc]. eapply in_below; [|done|exact Hin]. set_solver. }
  assert (Hrest : match match re with Some e => walk_error e | None => WContinue end with
    | WContinue => (fix go (l : list fsnode) : walk :=
       match l with
       | [] => WContinue
       | c :: l' => match walk_dir cgid (path +:+ "/" +:+ match c with FsNode name _ _ _ _ => name end) c with
                    | WContinue => go l' | w => w end
       end) cs
    | w => w end = WFound uid →
    ∃ p u, in_tree path (FsNode name true i re cs) p cgid ∧ podUID_submatch p = Some u ∧ canonical_uid u = uid).
  { destruct re as [[|e]|]; cbn; try done; apply Hbelow; auto. }
  destruct i as [j|]; [|exact Hrest]. destruct (Z.eqb_spec j cgid) as [->|]; cbn [negb]; [|exact Hrest].
  destruct (podUID_submatch path) as [u|] eqn:E; [|done]. intros [= <-]. exists path, u.
  split; [constructor|done].
Qed.
Lemma PodUIDFromCgroupID_sound root cgid uid :
  PodUIDFromCgroupID root cgid = Ok uid → cgroup_pod root cgid uid.
Proof.
  unfold PodUIDFromCgroupID. destruct root as [[|e]|n]; cbn; [done..|].
  destruct (walk_dir cgid CgroupV2Mount n) as [|u|e] eqn:E; try done. intros [= <-].
  apply walk_dir_found in E as (p & v & ? & ? & ?). exists n, p. split_and!; [done..|].
  apply submatch_names. eauto.
Qed.

Lemma scan_names_sound fds target names pid :
  Sockdiag.scan_names fds target names = Some pid →
  ∃ name entries, name ∈ names ∧ atoi name = Some pid ∧ fds name = Some entries ∧ Some target ∈ entries.
Proof.
  induction names as [|name names IH]; cbn; [done|].
  assert (Hrest : Sockdiag.scan_names fds target names = Some pid → ∃ name' entries,
    name' ∈ name :: names ∧ atoi name' = Some pid ∧ fds name' = Some entries ∧ Some target ∈ entries).
  { intros (n & es & ? & ?)%IH. exists n, es. split; [set_solver|done]. }
  destruct (atoi name) as [p|] eqn:Ha; [|exact Hrest].
  destruct (fds name) as [es|] eqn:Hf; [|exact Hrest].
  destruct (existsb _ es) eqn:He; [|exact Hrest]. intros [= ->].
  apply existsb_exists in He as (x & Hx & ->%bool_decide_eq_true).
  exists name, es. split_and!; [set_solver|done|done|by apply list_elem_of_In].
Qed.
Lemma scan_batches_sound fds target batches pid :
  Sockdiag.scan_batches fds target batches = Some pid →
  ∃ name entries, atoi name = Some pid ∧ fds name = Some entries ∧ Some target ∈ entries.
Proof.
  induction batches as [|[names e] batches IH]; [done|]. cbn [Sockdiag.scan_batches].
  destruct (_ || _); [done|].
  destruct (Sockdiag.scan_names fds target names) as [p|] eqn:E; [|by destruct e].
  intros [= ->]. apply scan_names_sound in E as (n & es & _ & ? & ? & ?). eauto.
Qed.
Lemma unified_line line path : unified_path line = Some path → line = "0::" +:+ path.
Proof.
  unfold unified_path. cbn [splitn].
  destruct (cut colon line) as [[id rest]|] eqn:E1; [|done].
  destruct (cut colon rest) as [[cs p]|] eqn:E2; [|done].
  case_bool_decide; [|done]. case_bool_decide; [|done]. intros [= ->]. subst.
  apply cut_spec in E1 as [-> _]. by apply cut_spec in E2 as [-> _].
Qed.
Lemma PodUIDFromCgroup_sound read_cgroup pid uid :
  PodUIDFromCgroup read_cgroup pid = Ok uid →
  ∃ lines e line path u, read_cgroup pid = Ok (lines, e) ∧ line ∈ lines ∧
    unified_path line = Some path ∧ podUID_submatch path = Some u ∧ canonical_uid u = uid.
Proof.
  unfold PodUIDFromCgroup. destruct (read_cgroup pid) as [[lines e]|]; [|done].
  intros H. assert (Hl : ∃ line path u, line ∈ lines ∧ unified_path line = Some path ∧
    podUID_submatch path = Some u ∧ canonical_uid u = uid); [|naive_solver].
  induction lines as [|l lines IH]; [by destruct e|].
  destruct (unified_path l) as [path|] eqn:Hu.
  - destruct (podUID_submatch path) as [u|] eqn:Hp; [|done]. injection H as <-.
    exists l, path, u. split_and!; [set_solver|done..].
  - destruct (IH H) as (l' & path & u & ? & ?). exists l', path, u. split; [set_solver|done].
Qed.

Section Owners.
Context {W : Type}.

(** Whose connection it is: in the sockops map and the cgroup tree, or in the
    socket table and /proc. *)
Definition bpf_owner (map_Lookup : Bpf.AttestKey → ST W (result (option Z)))
    (cgroups : W → fs_error + fsnode) (w : W) (src dst : Addr) (sport dport : Z) (uid : string) : Prop :=
  ∃ s d cgid w', as4 src = Some s ∧ as4 dst = Some d ∧
    map_Lookup (network_key s d sport dport) w = (Ret (Ok (Some cgid)), w') ∧
    cgroup_pod (cgroups w') cgid uid.
Definition socket_owner (system : W → Sockdiag.System) (w : W) (src dst : Addr) (sport dport : Z)
    (uid : string) : Prop :=
  let sys := system w in
  ∃ inode pid name entries lines e path,
    Sockdiag.SocketGet sys src sport dst dport = Ok inode ∧ inode ≠ 0 ∧
    atoi name = Some pid ∧ Sockdiag.proc_fds sys name = Some entries ∧
    Some ("socket:[" +:+ pretty inode +:+ "]") ∈ entries ∧
    Sockdiag.proc_cgroup sys pid = Ok (lines, e) ∧ "0::" +:+ path ∈ lines ∧ names_pod path uid.

#[export] Instance bpf_attests map_Lookup cgroups :
  Attests (bpf_owner map_Lookup cgroups) (Bpf.lookuper map_Lookup cgroups).
Proof.
  intros src dst sport dport w uid w' Hsp Hdp. cbn. unfold Bpf.bpf_Lookup.
  destruct (as4 src) as [s|] eqn:Hs; [|done]. destruct (as4 dst) as [d|] eqn:Hd; [|done]. st_simpl.
  rewrite attest_key_network by done. destruct (map_Lookup _ w) as [[[[cgid|]|e]|m] w1] eqn:HL; try done. cbn.
  destruct (PodUIDFromCgroupID (cgroups w1) cgid) as [u|e] eqn:HP; try done.
  intros [= -> ->]. exists s, d, cgid, w'. split_and!; [done..|]. by apply PodUIDFromCgroupID_sound.
Qed.
#[export] Instance sockdiag_attests system addr_text :
  Attests (socket_owner system) (Sockdiag.lookuper system addr_text).
Proof.
  intros src dst sport dport w uid w' _ _. cbn. unfold Sockdiag.sockdiag_Lookup. st_simpl.
  destruct (Sockdiag.SocketGet _ _ _ _ _) as [inode|e] eqn:HS; [|done].
  destruct (Z.eqb_spec inode 0) as [|Hne]; [done|].
  unfold Sockdiag.pidForSocketInode. destruct (Sockdiag.proc_open _); [|done].
  destruct (Sockdiag.scan_batches _ _ _) as [pid|] eqn:HB; [|done].
  destruct (PodUIDFromCgroup _ pid) as [u|e] eqn:HP; [|done]. intros [= -> ->].
  apply scan_batches_sound in HB as (name & es & ? & ? & ?).
  apply PodUIDFromCgroup_sound in HP as (lines & e & line & path & v & ? & ? & ? & ? & ?).
  exists inode, pid, name, es, lines, e, path. split_and!; try done; [|apply submatch_names; eauto].
  by erewrite <- unified_line.
Qed.

(** C24: a UID that a lookuper returns is the connection's owner's.  In eBPF
    mode it is the pod UID that a directory of the cgroup tree has in its path,
    the directory whose inode the map holds under the key made of the bytes of
    this 4-tuple in network order: the key under which the sockops program
    records the cgroup of a task that connects, and which no other connection
    has.  Otherwise it is in the cgroup path of a process that holds the socket
    of this 4-tuple open. *)
Theorem lookupers_attest (map_Lookup : Bpf.AttestKey → ST W (result (option Z)))
    (cgroups : W → fs_error + fsnode) (system : W → Sockdiag.System)
    (addr_text : Addr → Z → string) :
  Attests (bpf_owner map_Lookup cgroups) (Bpf.lookuper map_Lookup cgroups) ∧
  Attests (socket_owner system) (Sockdiag.lookuper system addr_text) ∧
  ∀ src dst sport dport, tuple_ok src dst sport dport →
    (∀ cgroup, Bpf.attest_connect (connecting src dst sport dport) cgroup =
       Some (network_key src dst sport dport, cgroup)) ∧
    ∀ src' dst' sport' dport', tuple_ok src' dst' sport' dport' →
      network_key src' dst' sport' dport' = network_key src dst sport dport →
      (src', dst', sport', dport') = (src, dst, sport, dport).
Proof.
  split; [apply _|]. split; [apply _|]. intros src dst sport dport Ht. pose proof Ht as (_ & _ & Hsp & Hdp).
  rewrite <- attest_key_network by done. split.
  - intros cgroup. by apply (attest_key_agrees src dst sport dport cgroup).
  - intros src' dst' sport' dport' Ht'. pose proof Ht' as (_ & _ & Hsp' & Hdp').
    rewrite <- attest_key_network by done. by apply (attest_key_agrees src dst sport dport 0).
Qed.
End Owners.

(** The eBPF lookup panics, instead of failing, for an IPv6 peer. *)
Lemma bpf_Lookup_ipv6_panics {W} (map_Lookup : Bpf.AttestKey → ST W (result (option Z)))
    cgroups a zone dst sport dport w :
  is4in6 a = false →
  Bpf.bpf_Lookup map_Lookup cgroups (V6 a zone) dst sport dport w = (Panic Bpf.as4_panic, w).
Proof. intros Ha. unfold Bpf.bpf_Lookup, as4, unmap. by rewrite Ha. Qed.

(** ** Witness: a connection of a pod, recorded and looked up *)

Module AttestationExample.
Import Bpf.
Definition map_Lookup (k : Bpf.AttestKey) : ST unit (result (option Z)) :=
  ok (if decide (k = network_key 167772161 167772162 40000 16321) then Some 7 else None).
Definition tree : fs_error + fsnode :=
  inr (FsNode "cgroup" true (Some 1) None
    [FsNode "kubepods-pod01234567_89ab_cdef_0123_456789abcdef.slice" true (Some 7) None []]).
Definition uid : string := "01234567-89ab-cdef-0123-456789abcdef".
Definition system (w : unit) : Sockdiag.System :=
  {| Sockdiag.SocketGet _ _ _ _ := Err (EMsg "none"); Sockdiag.proc_open := Ok tt;
     Sockdiag.proc_batches := []; Sockdiag.proc_fds _ := None;
     Sockdiag.proc_cgroup _ := Err (EMsg "none") |}.
End AttestationExample.
Lemma lookupers_attest_witness :
  Lookup (Bpf.lookuper AttestationExample.map_Lookup (λ _, AttestationExample.tree)) (V4 167772161) (V4 167772162)
    40000 16321 tt = (Ret (Ok AttestationExample.uid), tt) ∧
  bpf_owner AttestationExample.map_Lookup (λ _, AttestationExample.tree) tt (V4 167772161) (V4 167772162)
    40000 16321 AttestationExample.uid.
Proof.
  assert (H : Lookup (Bpf.lookuper AttestationExample.map_Lookup (λ _, AttestationExample.tree)) (V4 167772161)
    (V4 167772162) 40000 16321 tt = (Ret (Ok AttestationExample.uid), tt)) by (by vm_compute).
  split; [exact H|].
  exact (proj1 (lookupers_attest AttestationExample.map_Lookup (λ _, AttestationExample.tree)
    AttestationExample.system (λ _ _, "")) (V4 167772161) (V4 167772162) 40000 16321 tt AttestationExample.uid tt
    ltac:(lia) ltac:(lia) H).
Defined.
