(* ===== verification/Preflight.v ===== *)
(** * internal/preflight: the container image checks

    Parsing of /etc/os-release and the minimum version check.  The
    environment, the FIPS switch and the file are arguments; so is the order
    in which Go happens to iterate over the map of requirements. *)

From Stdlib Require Import Ascii.
From S2P Require Import Prelude GoStrings.
Open Scope string_scope.
Open Scope Z_scope.

Definition dquote : string := one (chr 34).
Definition squote : string := one (chr 39).

(** strings.EqualFold against an ASCII name: besides letter case, the long s
    (U+017F) folds to s and the Kelvin sign (U+212A) to k. *)
Fixpoint fold_special (s : string) : string :=
  match s with
  | "" => ""
  | String a s1 =>
      match s1 with
      | String b s2 =>
          if bool_decide ((nat_of_ascii a, nat_of_ascii b) = (197, 191)%nat)
          then String "s" (fold_special s2)
          else match s2 with
               | String c s3 =>
                   if bool_decide ((nat_of_ascii a, nat_of_ascii b, nat_of_ascii c) = (226, 132, 170)%nat)
                   then String "k" (fold_special s3) else String a (fold_special s1)
               | "" => String a (fold_special s1)
               end
      | "" => s
      end
  end.
Definition EqualFold (s name : string) : bool :=
  bool_decide (to_lower (fold_special s) = to_lower name).

(** fmt.Sscanf(s, "%d", &n): leading spaces, a sign, the digits that follow. *)
Fixpoint digits_prefix (s : string) : string :=
  match s with
  | String c s' => if is_digit c then String c (digits_prefix s') else ""
  | "" => ""
  end.
Definition Sscanf_d (s : string) : option Z :=
  let s := trim_left s in
  let '(neg, s) := match s with
                   | String "-" s' => (true, s')
                   | String "+" s' => (false, s')
                   | _ => (false, s)
                   end in
  match parse_dec (digits_prefix s) with
  | Some n =>
      let v := if (neg : bool) then - n else n in
      if bool_decide (- 2 ^ 63 ≤ v < 2 ^ 63) then Some v else None
  | None => None
  end.

(** One line of the file: nothing, an assignment, or the panic of slicing a
    value that is a single quote character. *)
Definition parse_line (line : string) : outcome (option (string * string)) :=
  let line := trim_space line in
  if bool_decide (line = "") || has_prefix "#" line then Ret None
  else match splitn 2 "=" line with
       | [k; v] =>
           let key := trim_space k in
           let value := trim_space v in
           if (has_prefix dquote value && has_suffix dquote value)
              || (has_prefix squote value && has_suffix squote value) then
             if (String.length value <? 2)%nat
             then Panic "slice bounds out of range [1:0]"
             else Ret (Some (key, str_take (String.length value - 2) (str_drop 1 value)))
           else Ret (Some (key, value))
       | _ => Ret None
       end.

Fixpoint parse_lines (acc : gmap string string) (lines : list string)
    : outcome (gmap string string) :=
  match lines with
  | [] => Ret acc
  | line :: rest =>
      match parse_line line with
      | Panic m => Panic m
      | Ret None => parse_lines acc rest
      | Ret (Some (k, v)) => parse_lines (<[k := v]> acc) rest
      end
  end.

Definition ParseOSRelease (content : string) : outcome (result (gmap string string)) :=
  match parse_lines ∅ (split newline content) with
  | Panic m => Panic m
  | Ret m =>
      if bool_decide (is_Some (m !! "VERSION_ID")) then Ret (Ok m)
      else Ret (Err (EMsg "missing VERSION_ID in OS release information"))
  end.

(** [osVersions] in iteration order; a missing key reads as the empty string. *)
Definition field (osInfo : gmap string string) (k : string) : string := default "" (osInfo !! k).
Definition name_matches (osInfo : gmap string string) (osName : string) : bool :=
  EqualFold (field osInfo "PRETTY_NAME") osName || EqualFold (field osInfo "ID") osName.

Definition CheckOSMinimumVersion (osVersions : list (string * Z)) (osInfo : gmap string string)
    : bool :=
  match List.find (λ p, name_matches osInfo p.1) osVersions with
  | None => false
  | Some (_, matchedVersion) =>
      let versionID := field osInfo "VERSION_ID" in
      if bool_decide (versionID = "") then false
      else match Sscanf_d versionID with
           | None => false
           | Some actualVersion => matchedVersion <=? actualVersion
           end
  end.

Record Environment : Type := {
  KUBERNETES_SERVICE_HOST : string;
  fips140_Enabled : bool;
  os_release : result string;
}.

Definition Check (osVersions : list (string * Z)) (env : Environment) : outcome (result unit) :=
  if bool_decide (KUBERNETES_SERVICE_HOST env = "") then Ret (Ok tt)
  else if negb (fips140_Enabled env) then Ret (Err (EMsg "FIPS 140-3 mode is not enabled"))
  else match os_release env with
       | Err e => Ret (Err (EWrap "failed to read /etc/os-release: " e ""))
       | Ok content =>
           match ParseOSRelease content with
           | Panic m => Panic m
           | Ret (Err e) => Ret (Err e)
           | Ret (Ok osInfo) =>
               if CheckOSMinimumVersion osVersions osInfo then Ret (Ok tt)
               else Ret (Err (EMsg ("unsupported container OS version: " +:+ field osInfo "VERSION")))
           end
       end.

(** The options Check is called with: each sets one entry of the map. *)
Definition Option : Type := list (string * Z) → list (string * Z).
Definition WithContainerOS (osName : string) (minVersion : Z) : Option := λ m,
  (filter (λ p, p.1 ≠ osName) m ++ [(osName, minVersion)])%list.
Definition options (opts : list Option) : list (string * Z) := foldl (λ o opt, opt o) [] opts.

(** The requirements of the token endpoints. *)
Definition requirements : list (string * Z) := Eval vm_compute in
  options [WithContainerOS "distroless" 12; WithContainerOS "rhel" 8].

(** ** Lemmas *)

(** os-release keys, and values that stay on one line. *)
Definition key_char (c : char) : bool :=
  is_upper c || is_lower c || is_digit c || bool_decide (c = "_"%char).
Definition key_ok (k : string) : Prop := k ≠ "" ∧ Forall (λ c, key_char c = true) (bytes k).
Definition render_line (p : string * string) : string := p.1 +:+ "=" +:+ dquote +:+ p.2 +:+ dquote.
Definition render (kvs : list (string * string)) : string :=
  join (one newline) (map render_line kvs).
Definition last_wins (kvs : list (string * string)) : gmap string string :=
  foldl (λ m p, <[p.1 := p.2]> m) ∅ kvs.

Definition not_space_start (c : char) : bool :=
  negb (is_space1 c) && negb (bool_decide (nat_of_ascii c ∈ [194; 225; 226; 227]%nat)).
Lemma lead_space_start c s : not_space_start c = true → lead_space (String c s) = false.
Proof.
  unfold not_space_start, lead_space. rewrite andb_true_iff, !negb_true_iff, bool_decide_eq_false.
  intros [-> Hc]. cbn. destruct s as [|b s]; [done|]. apply orb_false_iff. split.
  - unfold is_space2. apply bool_decide_eq_false. intros [E _]. apply Hc. rewrite E. set_solver.
  - destruct s as [|d s]; [done|]. unfold is_space3. apply bool_decide_eq_false. intros Hin.
    apply Hc. revert Hin. rewrite !elem_of_cons. intros H. repeat destruct H as [[= -> _ _]|H]; set_solver.
Qed.
Lemma lead_space_rev_quote s : lead_space_rev (String (chr 34) s) = false.
Proof.
  unfold lead_space_rev. change (is_space1 (chr 34)) with false. cbn.
  destruct s as [|b s]; [done|]. apply orb_false_iff. split.
  - unfold is_space2. apply bool_decide_eq_false. intros [_ H]. vm_compute in H. set_solver.
  - destruct s as [|d s]; [done|]. unfold is_space3. apply bool_decide_eq_false.
    change (nat_of_ascii (chr 34)) with 34%nat. rewrite !elem_of_cons.
    intros H. repeat (destruct H as [[=]|H]). by apply elem_of_nil in H.
Qed.

(** Text that starts at a non-space and ends at a double quote is not trimmed. *)
Lemma trim_space_quoted c s :
  not_space_start c = true → trim_space (String c s +:+ dquote) = String c s +:+ dquote.
Proof.
  intros Hc. unfold trim_space. rewrite trim_left_id by (rewrite app_str_cons; by apply lead_space_start).
  unfold trim_right. rewrite str_rev_app. change (str_rev dquote) with dquote.
  unfold dquote at 1, one. rewrite app_str_cons, app_str_nil_l.
  rewrite trim_left_rev_id by apply lead_space_rev_quote.
  change (String (chr 34) (str_rev (String c s))) with (str_rev dquote +:+ str_rev (String c s)).
  by rewrite <- str_rev_app, str_rev_involutive.
Qed.

Lemma key_char_start c : key_char c = true → not_space_start c = true ∧ c ≠ "#"%char ∧ c ≠ "="%char.
Proof.
  intros Hc. split_and!; [|by intros ->..]. revert Hc. unfold key_char, not_space_start, is_upper, is_lower, is_digit, in_range.
  destruct (decide (c = "_"%char)) as [->|Hne]; [done|].
  rewrite (bool_decide_eq_false_2 (c = "_"%char)) by done.
  rewrite !orb_true_iff, !andb_true_iff, !Nat.leb_le, negb_true_iff, negb_true_iff. intros Hr.
  unfold is_space1. rewrite !bool_decide_eq_false, !elem_of_cons, !elem_of_nil. split; lia.
Qed.
Lemma key_trim k : key_ok k → trim_space k = k.
Proof.
  intros [Hk Hf]. unfold trim_space. destruct k as [|c k]; [done|].
  rewrite trim_left_id.
  2: { apply lead_space_start, key_char_start. cbn in Hf. by inversion Hf. }
  unfold trim_right. rewrite trim_left_rev_id; [apply str_rev_involutive|].
  destruct (str_rev (String c k)) as [|d r] eqn:E; [done|].
  assert (Hd : key_char d = true).
  { rewrite Forall_forall in Hf. apply Hf. rewrite <- (str_rev_involutive (String c k)), E.
    apply str_in_rev. unfold str_in. cbn. set_solver. }
  revert Hd. unfold key_char, is_upper, is_lower, is_digit, in_range, lead_space_rev.
  assert (Hsp : ∀ n, nat_of_ascii d = n → key_char d = true → (n < 128 ∧ n ∉ [9; 10; 11; 12; 13; 32])%nat).
  { intros n <-. unfold key_char, is_upper, is_lower, is_digit, in_range.
    destruct (decide (d = "_"%char)) as [->|Hne]; [intros _; by apply (bool_decide_unpack _)|].
    rewrite (bool_decide_eq_false_2 (d = "_"%char)) by done.
    rewrite !orb_true_iff, !andb_true_iff, !Nat.leb_le, !elem_of_cons, elem_of_nil. lia. }
  intros Hd. destruct (Hsp _ eq_refl Hd) as [Hlt Hns].
  apply orb_false_iff. split; [unfold is_space1; by apply bool_decide_eq_false|].
  destruct r as [|e r]; [done|]. apply orb_false_iff. split.
  - unfold is_space2. apply bool_decide_eq_false. rewrite !elem_of_cons, elem_of_nil. lia.
  - destruct r as [|f r]; [done|]. unfold is_space3. apply bool_decide_eq_false.
    rewrite !elem_of_cons, elem_of_nil. intros H.
    repeat (destruct H as [[= _ _ H]|H]; [lia|]). done.
Qed.

Lemma parse_render_line k v :
  key_ok k → parse_line (render_line (k, v)) = Ret (Some (k, v)).
Proof.
  intros Hk. pose proof (key_trim k Hk) as Htk. destruct Hk as [Hne Hf].
  destruct k as [|c k]; [done|]. cbn in Hf. inversion Hf as [|? ? Hc Hf']; subst.
  destruct (key_char_start c Hc) as (Hns & Hh & _). unfold parse_line, render_line.
  cbn [fst snd].
  assert (Hq : trim_space (String c k +:+ "=" +:+ dquote +:+ v +:+ dquote) =
               String c k +:+ "=" +:+ dquote +:+ v +:+ dquote).
  { rewrite !app_str_assoc. rewrite !app_str_cons. rewrite <- app_str_cons. by apply trim_space_quoted. }
  rewrite Hq. rewrite (bool_decide_eq_false_2 (_ = "")) by done.
  assert (Hp : has_prefix "#" (String c k +:+ "=" +:+ dquote +:+ v +:+ dquote) = false).
  { apply not_true_iff_false. intros [r E]%has_prefix_spec. rewrite app_str_cons in E. by injection E. }
  rewrite Hp. cbn [orb].
  assert (Hcut : splitn 2 "=" (String c k +:+ "=" +:+ dquote +:+ v +:+ dquote) =
                 [String c k; dquote +:+ v +:+ dquote]).
  { cbn [splitn]. change ("=" +:+ dquote +:+ v +:+ dquote) with (String "=" (dquote +:+ v +:+ dquote)).
    rewrite cut_app; [done|]. unfold str_in. rewrite Forall_forall in Hf. intros Hin.
    by destruct (key_char_start _ (Hf _ Hin)) as (_ & _ & ?). }
  rewrite Hcut, Htk.
  assert (Hv : trim_space (dquote +:+ v +:+ dquote) = dquote +:+ v +:+ dquote).
  { rewrite app_str_assoc. unfold dquote at 1 3, one. rewrite !app_str_cons, !app_str_nil_l.
    by apply trim_space_quoted. }
  rewrite Hv.
  assert (Hpre : has_prefix dquote (dquote +:+ v +:+ dquote) = true) by (apply has_prefix_spec; eauto).
  assert (Hsuf : has_suffix dquote (dquote +:+ v +:+ dquote) = true).
  { unfold has_suffix. rewrite app_str_assoc, str_rev_app. apply has_prefix_spec. eauto. }
  rewrite Hpre, Hsuf. cbn [andb orb].
  assert (Hlen : String.length (dquote +:+ v +:+ dquote) = (2 + String.length v)%nat).
  { rewrite !length_app_str. cbn. lia. }
  rewrite Hlen. destruct (Nat.ltb_spec (2 + String.length v) 2); [lia|].
  rewrite (str_drop_app dquote (v +:+ dquote) : str_drop 1 _ = _).
  replace (2 + String.length v - 2)%nat with (String.length v) by lia.
  by rewrite str_take_app.
Qed.

Lemma parse_render_lines kvs acc :
  Forall (λ p, key_ok p.1) kvs →
  parse_lines acc (map render_line kvs) = Ret (foldl (λ m p, <[p.1 := p.2]> m) acc kvs).
Proof.
  intros Hf. revert acc. induction Hf as [|[k v] kvs Hk Hf IH]; intros acc; [done|].
  cbn [map parse_lines]. rewrite parse_render_line by done. apply IH.
Qed.

(** ** Theorems *)

(** C40: parsing inverts rendering.  A file of KEY="value" lines, with any
    values that stay on one line (quotes, hashes, equal signs and spaces
    included), is read as the map of its assignments, the last one of a key
    winning; without VERSION_ID it is an error. *)
Theorem os_release_roundtrip (kvs : list (string * string)) :
  Forall (λ p, key_ok p.1 ∧ ¬ str_in newline p.2) kvs → kvs ≠ [] →
  ParseOSRelease (render kvs) =
    if bool_decide (is_Some (last_wins kvs !! "VERSION_ID")) then Ret (Ok (last_wins kvs))
    else Ret (Err (EMsg "missing VERSION_ID in OS release information")).
Proof.
  intros Hf Hne. unfold ParseOSRelease, render. rewrite split_join.
  - rewrite parse_render_lines; [done|]. eapply Forall_impl; [done|]. by intros ? [].
  - by destruct kvs.
  - apply Forall_fmap. eapply Forall_impl; [exact Hf|]. intros [k v] [[_ Hk] Hv]. cbn in *.
    unfold render_line. rewrite !str_in_app. intros Hin. destruct Hin as [Hin|[Hin|[Hin|[Hin|Hin]]]].
    + unfold str_in in Hin. rewrite Forall_forall in Hk. by specialize (Hk _ Hin).
    + revert Hin. by apply (bool_decide_unpack _); vm_compute.
    + revert Hin. by apply (bool_decide_unpack _); vm_compute.
    + done.
    + revert Hin. by apply (bool_decide_unpack _); vm_compute.
Qed.

Lemma os_release_roundtrip_witness :
  ParseOSRelease (render [("ID", "rhel"); ("NAME", "a = 'b' # c"); ("VERSION_ID", "8.10"); ("ID", "x")]) =
    Ret (Ok (last_wins [("ID", "rhel"); ("NAME", "a = 'b' # c"); ("VERSION_ID", "8.10"); ("ID", "x")])).
Proof.
  rewrite (os_release_roundtrip [("ID", "rhel"); ("NAME", "a = 'b' # c"); ("VERSION_ID", "8.10"); ("ID", "x")]).
  - by rewrite bool_decide_eq_true_2 by (vm_compute; eauto).
  - rewrite !Forall_cons. split_and!; try done;
      first [by repeat constructor | by apply (bool_decide_unpack _); vm_compute].
  - done.
Defined.

Lemma find_perm_unique {A} (f : A → bool) (l l' : list A) :
  l ≡ₚ l' → (∀ x y, x ∈ l → y ∈ l → f x = true → f y = true → x = y) →
  List.find f l = List.find f l'.
Proof.
  intros Hp Hu. destruct (List.find f l) as [x|] eqn:E.
  - apply find_some in E as [Hx Hfx]. destruct (List.find f l') as [y|] eqn:E'.
    + apply find_some in E' as [Hy Hfy]. f_equal. apply Hu; [by apply list_elem_of_In| |done..].
      rewrite Hp. by apply list_elem_of_In.
    + apply (find_none _ _ E' x) in Hfx || (pose proof (find_none _ _ E' x) as Hn;
        rewrite Hn in Hfx; [done|]). apply list_elem_of_In. rewrite <- Hp. by apply list_elem_of_In.
  - destruct (List.find f l') as [y|] eqn:E'; [|done]. apply find_some in E' as [Hy Hfy].
    pose proof (find_none _ _ E y) as Hn. rewrite Hn in Hfy; [done|].
    apply list_elem_of_In. rewrite Hp. by apply list_elem_of_In.
Qed.

(** The token endpoints' check.  Outside a cluster it always passes; in a
    cluster it passes only with FIPS enabled and an os-release file whose
    name matches a requirement and whose VERSION_ID starts with a large enough
    integer.  Whatever order Go iterates the requirements in, the result is
    the same as long as the file does not match two of them. *)
Theorem preflight_check_spec (env : Environment) (osVersions : list (string * Z)) :
  osVersions ≡ₚ requirements →
  (KUBERNETES_SERVICE_HOST env = "" → Check osVersions env = Ret (Ok tt)) ∧
  (KUBERNETES_SERVICE_HOST env ≠ "" → Check osVersions env = Ret (Ok tt) →
     fips140_Enabled env = true ∧ ∃ content osInfo name minimum n,
       os_release env = Ok content ∧ ParseOSRelease content = Ret (Ok osInfo) ∧
       (name, minimum) ∈ requirements ∧ name_matches osInfo name = true ∧
       Sscanf_d (field osInfo "VERSION_ID") = Some n ∧ minimum ≤ n) ∧
  (∀ content osInfo, os_release env = Ok content → ParseOSRelease content = Ret (Ok osInfo) →
     ¬ (name_matches osInfo "distroless" = true ∧ name_matches osInfo "rhel" = true) →
     Check osVersions env = Check requirements env).
Proof.
  intros Hp. split_and!.
  - intros E. unfold Check. by rewrite bool_decide_eq_true_2.
  - intros Hk. unfold Check. rewrite bool_decide_eq_false_2 by done.
    destruct (fips140_Enabled env); [|done]. cbn. split; [done|].
    destruct (os_release env) as [content|e]; [|done].
    destruct (ParseOSRelease content) as [[osInfo|e]|m] eqn:HP; try done.
    destruct (CheckOSMinimumVersion osVersions osInfo) eqn:HC; [|done].
    unfold CheckOSMinimumVersion in HC. destruct (List.find _ osVersions) as [[name minimum]|] eqn:HF; [|done].
    apply find_some in HF as [Hin Hm]. case_bool_decide; [done|].
    destruct (Sscanf_d _) as [n|] eqn:Hn; [|done]. apply Z.leb_le in HC.
    exists content, osInfo, name, minimum, n. split_and!; try done.
    rewrite <- Hp. by apply list_elem_of_In.
  - intros content osInfo Hr HP Hu. unfold Check. rewrite Hr, HP.
    assert (CheckOSMinimumVersion osVersions osInfo = CheckOSMinimumVersion requirements osInfo) as ->; [|done].
    unfold CheckOSMinimumVersion. rewrite (find_perm_unique _ osVersions requirements Hp); [done|].
    intros x y Hx Hy Hfx Hfy. rewrite Hp in Hx, Hy.
    change requirements with [("distroless", 12); ("rhel", 8)] in Hx, Hy.
    rewrite !elem_of_cons, elem_of_nil in Hx, Hy.
    destruct Hx as [-> | [-> | []]], Hy as [-> | [-> | []]]; try done; exfalso; apply Hu; done.
Qed.
Lemma preflight_check_spec_witness :
  Check [("rhel", 8); ("distroless", 12)]
    {| KUBERNETES_SERVICE_HOST := ""; fips140_Enabled := false; os_release := Err (EMsg "x") |} = Ret (Ok tt).
Proof.
  apply (preflight_check_spec {| KUBERNETES_SERVICE_HOST := ""; fips140_Enabled := false;
    os_release := Err (EMsg "x") |} [("rhel", 8); ("distroless", 12)]); [|done].
  apply Permutation_swap.
Defined.

(** A value that is one quote character panics the parser. *)
Lemma lone_quote_panics :
  ParseOSRelease ("VERSION_ID=" +:+ dquote) = Panic "slice bounds out of range [1:0]".
Proof. by vm_compute. Qed.
