(* ===== verification/Proxy.v ===== *)
(** * internal/proxy: the listener that sniffs connections

    In eBPF mode every connection to the metadata address reaches the proxy,
    which reads just enough of the request line to decide between the inner
    metadata server and the real endpoint, and replays what it read.  A
    connection is the sequence of what its reads return; the dial, the closing
    of the listener and the metrics are arguments or left out. *)

From Stdlib Require Import Ascii.
From S2P Require Import Prelude GoStrings.
Open Scope string_scope.
Open Scope nat_scope.

(** What one read of the client returns: at most 256 bytes, and an error. *)
Record read : Type := { rd_data : string; rd_err : option error }.
Definition chunk_size : nat := 256.
Definition sniffCap : nat := 8192.

Definition requestPathComplete (buf : string) : bool :=
  match index_byte newline buf with
  | Some _ => true
  | None =>
      match index_byte space buf with
      | Some sp => bool_decide (is_Some (index_byte space (str_drop (S sp) buf)))
      | None => false
      end
  end.

Definition method : string := "GET ".
(** The path part of a request target. *)
Definition target_path (target : string) : string :=
  match index_byte "?" target with Some q => str_take q target | None => target end.
Definition metadata_path (path : string) : bool :=
  bool_decide (path = "/") || bool_decide (path = "/computeMetadata")
  || has_prefix "/computeMetadata/" path.

Definition isMetadataRequest (buf : string) : bool :=
  if negb (has_prefix method buf) then false
  else
    let rest := str_drop (String.length method) buf in
    match index_byte space rest with
    | None => false
    | Some sp => metadata_path (target_path (str_take sp rest))
    end.

(** The sniffing loop on the reads to come: the bytes read and the reads that
    are left, a read error, or a client that sends nothing more. *)
Inductive sniffed : Type :=
| Sniffed (buf : string) (rest : list read)
| ReadError (e : error)
| Blocked (buf : string).
Fixpoint sniff (buf : string) (reads : list read) : sniffed :=
  match reads with
  | [] => Blocked buf
  | r :: rest =>
      let buf := buf +:+ rd_data r in
      if requestPathComplete buf || (sniffCap <=? String.length buf) then Sniffed buf rest
      else match rd_err r with
           | Some e => ReadError e
           | None => sniff buf rest
           end
  end.

(** sniffedConn: the sniffed bytes come first. *)
Record sniffedConn : Type := { sc_buf : string; sc_reads : list read }.
Definition sniffedConn_Read (n : nat) (c : sniffedConn) : option (read * sniffedConn) :=
  if 0 <? String.length (sc_buf c) then
    Some ({| rd_data := str_take n (sc_buf c); rd_err := None |},
          {| sc_buf := str_drop n (sc_buf c); sc_reads := sc_reads c |})
  else
    match sc_reads c with
    | [] => None
    | r :: rest => Some (r, {| sc_buf := ""; sc_reads := rest |})
    end.

(** The queue between the proxy and the inner server, and its listener. *)
Record proxy : Type := { queue : list sniffedConn; closed : bool }.
Definition queue_cap : nat := 100.

(** What becomes of a connection. *)
Inductive fate : Type :=
| Queued
| ClosedConn
| Forwarded (c : sniffedConn)
| Waiting.

(** The goroutine of one connection; [pick] chooses when both cases of the
    select are ready; a goroutine that can only wait stays [Waiting]. *)
Definition proxy_handle (pick dial_ok : bool) (reads : list read) (p : proxy) : fate * proxy :=
  match sniff "" reads with
  | Blocked _ => (Waiting, p)
  | ReadError _ => (ClosedConn, p)
  | Sniffed buf rest =>
      let client := {| sc_buf := buf; sc_reads := rest |} in
      if isMetadataRequest buf then
        let room := length (queue p) <? queue_cap in
        if room && (negb (closed p) || pick)
        then (Queued, {| queue := (queue p ++ [client])%list; closed := closed p |})
        else if closed p then (ClosedConn, p) else (Waiting, p)
      else if dial_ok then (Forwarded client, p) else (ClosedConn, p)
  end.

(** Accept: a queued connection, net.ErrClosed, or nothing yet. *)
Definition ErrClosed : error := EMsg "use of closed network connection".
Definition proxy_Accept (pick : bool) (p : proxy) : option (result sniffedConn * proxy) :=
  match queue p with
  | c :: q =>
      if negb (closed p) || pick then Some (Ok c, {| queue := q; closed := closed p |})
      else Some (Err ErrClosed, p)
  | [] => if closed p then Some (Err ErrClosed, p) else None
  end.
Definition proxy_Close (p : proxy) : proxy := {| queue := queue p; closed := true |}.

(** ** Lemmas *)

Definition stream (reads : list read) : string := foldr (λ r acc, rd_data r +:+ acc) "" reads.
Definition conn_stream (c : sniffedConn) : string := sc_buf c +:+ stream (sc_reads c).

Lemma str_take_drop n s : str_take n s +:+ str_drop n s = s.
Proof.
  revert s. induction n as [|n IH]; intros [|c s]; try done. cbn. rewrite app_str_cons. by rewrite IH.
Qed.
Lemma app_prefix_split (a b c d : string) :
  a +:+ b = c +:+ d → String.length a ≤ String.length c → ∃ e, c = a +:+ e ∧ b = e +:+ d.
Proof.
  revert c. induction a as [|x a IH]; intros c E Hl.
  - by exists c.
  - destruct c as [|y c]; [cbn in Hl; lia|]. rewrite !app_str_cons in E. injection E as -> E.
    destruct (IH c E) as (e & -> & ->); [cbn in Hl; lia|]. by exists e.
Qed.
Lemma index_byte_char_None c s : ¬ str_in c s → index_byte c s = None.
Proof. apply index_byte_None. Qed.

Section Request.
(** A request line: method, target, and the rest of the stream. *)
Context (m t : string).
Context (Hm : ¬ str_in space m) (Hmn : ¬ str_in newline m).
Context (Ht : ¬ str_in space t) (Htn : ¬ str_in newline t).
Definition head : string := m +:+ " " +:+ t +:+ " ".

Lemma head_body (x : string) : head +:+ x = m +:+ String space (t +:+ String space x).
Proof. unfold head. by rewrite <- !app_str_assoc. Qed.

Lemma complete_head x : requestPathComplete (head +:+ x) = true.
Proof.
  rewrite head_body. unfold requestPathComplete. destruct (index_byte newline _); [done|].
  rewrite index_byte_app by done. apply bool_decide_eq_true.
  assert (str_drop (S (String.length m)) (m +:+ String space (t +:+ String space x)) =
          t +:+ String space x) as ->.
  { clear. induction m as [|c s IH]; [by destruct (t +:+ String space x)|]. cbn. done. }
  rewrite index_byte_app by done. eauto.
Qed.
Lemma incomplete_prefix buf q :
  buf +:+ q = m +:+ " " +:+ t → requestPathComplete buf = false.
Proof.
  intros E. unfold requestPathComplete.
  assert (Hn : ¬ str_in newline buf).
  { intros Hin. assert (H : str_in newline (m +:+ " " +:+ t)) by (rewrite <- E, str_in_app; auto).
    rewrite !str_in_app in H. destruct H as [H|[H|H]]; [done| |done].
    revert H. by apply (bool_decide_unpack _); vm_compute. }
  rewrite (index_byte_char_None _ _ Hn).
  destruct (index_byte space buf) as [sp|] eqn:Hsp; [|done].
  apply index_byte_Some_take in Hsp as [Hb Hno]. apply bool_decide_eq_false.
  rewrite <- eq_None_not_Some. apply index_byte_None. intros Hin.
  rewrite Hb in E. rewrite <- app_str_assoc, app_str_cons in E.
  change (m +:+ " " +:+ t) with (m +:+ String space t) in E.
  assert (Hcut : cut space (str_take sp buf +:+ String space (str_drop (S sp) buf +:+ q)) =
                 cut space (m +:+ String space t)) by (by rewrite E).
  rewrite !cut_app in Hcut by done. injection Hcut as _ Hd. apply Ht. rewrite <- Hd, str_in_app. auto.
Qed.

Lemma sniff_chunks reads buf x :
  Forall (λ r, rd_err r = None) reads →
  buf +:+ stream reads = head +:+ x → String.length head ≤ sniffCap →
  requestPathComplete buf = false →
  ∃ buf' rest y, sniff buf reads = Sniffed buf' rest ∧ buf' = head +:+ y ∧
    buf' +:+ stream rest = head +:+ x.
Proof.
  intros Hok. revert buf. induction Hok as [|r reads Hr Hok IH]; intros buf E Hcap Hinc.
  - cbn in E. rewrite app_str_nil_r in E. rewrite E, complete_head in Hinc. done.
  - cbn [sniff]. change (stream (r :: reads)) with (rd_data r +:+ stream reads) in E.
    rewrite app_str_assoc in E.
    destruct (decide (String.length head ≤ String.length (buf +:+ rd_data r))) as [Hle|Hgt].
    + destruct (app_prefix_split head x (buf +:+ rd_data r) (stream reads)) as (y & Hy & _); [done..|].
      rewrite Hy, complete_head. cbn. exists (head +:+ y), reads, y. rewrite <- Hy. done.
    + assert (Hinc' : requestPathComplete (buf +:+ rd_data r) = false).
      { destruct (app_prefix_split (buf +:+ rd_data r) (stream reads) (m +:+ " " +:+ t) (" " +:+ x))
          as (e & He & _).
        - rewrite E. unfold head. by rewrite <- !app_str_assoc.
        - unfold head in Hgt. rewrite !length_app_str in *. cbn in *. lia.
        - eapply incomplete_prefix. by rewrite <- He. }
      rewrite Hinc'. destruct (Nat.leb_spec sniffCap (String.length (buf +:+ rd_data r))); [lia|].
      cbn. rewrite Hr. by apply IH.
Qed.

(** A whole request line that arrives without an error is sniffed. *)
Lemma sniffed_request reads x :
  Forall (λ r, rd_err r = None) reads →
  stream reads = m +:+ " " +:+ t +:+ " " +:+ x → String.length m + String.length t + 2 ≤ sniffCap →
  ∃ buf rest y, sniff "" reads = Sniffed buf rest ∧ buf = head +:+ y ∧ buf +:+ stream rest = stream reads.
Proof.
  intros Hok Hs Hcap.
  assert (Hs' : "" +:+ stream reads = head +:+ x).
  { rewrite app_str_nil_l, Hs. unfold head. by rewrite <- !app_str_assoc. }
  destruct (sniff_chunks reads "" x) as (buf & rest & y & Hsn & Hb & Hrest); try done.
  { unfold head. rewrite !length_app_str. change (String.length " ") with 1. lia. }
  exists buf, rest, y. split_and!; [done..|]. by rewrite Hrest, <- Hs', app_str_nil_l.
Qed.

Lemma isMetadataRequest_head x :
  isMetadataRequest (head +:+ x) = bool_decide (m = "GET") && metadata_path (target_path t).
Proof.
  rewrite head_body. unfold isMetadataRequest.
  destruct (decide (m = "GET")) as [->|Hne].
  - rewrite bool_decide_eq_true_2 by done.
    assert (Hp : has_prefix method ("GET" +:+ String space (t +:+ String space x)) = true)
      by (apply has_prefix_spec; eauto).
    rewrite Hp. cbn [negb andb].
    change ("GET" +:+ String space (t +:+ String space x)) with (method +:+ (t +:+ String space x)).
    rewrite str_drop_app.
    rewrite index_byte_app by done. by rewrite str_take_app.
  - rewrite bool_decide_eq_false_2 by done. cbn [andb].
    assert (Hp : has_prefix method (m +:+ String space (t +:+ String space x)) = false); [|by rewrite Hp].
    apply not_true_iff_false. intros [r E]%has_prefix_spec.
    change (method +:+ r) with ("GET" +:+ String space r) in E.
    assert (Hcut : cut space (m +:+ String space (t +:+ String space x)) =
                   cut space ("GET" +:+ String space r)) by (by rewrite E).
    rewrite !cut_app in Hcut; [by injection Hcut|by apply (bool_decide_unpack _); vm_compute|done].
Qed.
End Request.

Lemma sniffed_stream reads buf buf' rest :
  sniff buf reads = Sniffed buf' rest → buf' +:+ stream rest = buf +:+ stream reads.
Proof.
  revert buf. induction reads as [|r reads IH]; intros buf; [done|]. cbn [sniff].
  change (stream (r :: reads)) with (rd_data r +:+ stream reads). rewrite app_str_assoc.
  destruct (_ || _); [by intros [= <- <-]|]. destruct (rd_err r); [done|]. apply IH.
Qed.
Lemma sniffed_bound reads buf buf' rest :
  Forall (λ r, String.length (rd_data r) ≤ chunk_size) reads → String.length buf < sniffCap →
  sniff buf reads = Sniffed buf' rest → String.length buf' < sniffCap + chunk_size.
Proof.
  intros Hf. revert buf. induction Hf as [|r reads Hr Hf IH]; intros buf Hb; [done|]. cbn [sniff].
  destruct (requestPathComplete _) eqn:Hc; cbn [orb].
  - intros [= <- <-]. rewrite length_app_str. lia.
  - destruct (Nat.leb_spec sniffCap (String.length (buf +:+ rd_data r))) as [|Hlt].
    + intros [= <- <-]. rewrite length_app_str. lia.
    + destruct (rd_err r); [done|]. by apply IH.
Qed.

(** ** Theorems *)

(** C16: where a connection goes depends only on the method and the path of
    its request line, however the bytes are cut into reads: GET requests for
    "/", "/computeMetadata" and paths below "/computeMetadata/" (a query
    string aside) are queued for the metadata server, everything else goes to
    the real endpoint. *)
Theorem proxy_routes_by_path (m t x : string) (reads : list read) (p : proxy) (pick : bool) :
  ¬ str_in space m → ¬ str_in newline m → ¬ str_in space t → ¬ str_in newline t →
  Forall (λ r, rd_err r = None) reads →
  stream reads = m +:+ " " +:+ t +:+ " " +:+ x →
  String.length m + String.length t + 2 ≤ sniffCap →
  length (queue p) < queue_cap → closed p = false →
  ∃ c, conn_stream c = stream reads ∧ proxy_handle pick true reads p =
    if bool_decide (m = "GET") && metadata_path (target_path t)
    then (Queued, {| queue := (queue p ++ [c])%list; closed := closed p |})
    else (Forwarded c, p).
Proof.
  intros Hm Hmn Ht Htn Hok Hs Hcap Hroom Hopen.
  destruct (sniffed_request m t Hm Hmn Ht Htn reads x) as (buf & rest & y & Hsn & -> & Hrest); [done..|].
  exists {| sc_buf := head m t +:+ y; sc_reads := rest |}. split; [by rewrite <- Hrest|].
  unfold proxy_handle. rewrite Hsn, isMetadataRequest_head by done.
  apply Nat.ltb_lt in Hroom. rewrite Hroom, Hopen. cbn. by destruct (_ && _).
Qed.
Lemma proxy_routes_by_path_witness :
  let reads := [{| rd_data := "GE"; rd_err := None |};
                {| rd_data := "T /computeMetadata/v1/?recursive=true HT"; rd_err := None |};
                {| rd_data := "TP/1.1"; rd_err := None |}] in
  ∃ c, conn_stream c = stream reads ∧
    proxy_handle true true reads {| queue := []; closed := false |} =
      (Queued, {| queue := [c]; closed := false |}).
Proof.
  apply (proxy_routes_by_path "GET" "/computeMetadata/v1/?recursive=true" "HTTP/1.1" _
    {| queue := []; closed := false |} true); try done.
  5: by repeat constructor.
  5, 6: by apply Nat.leb_le; vm_compute.
  all: by apply (bool_decide_unpack _); vm_compute.
Defined.

(** C34: no byte is lost, reordered or buffered without bound.  The connection
    handed to the inner server or to the upstream replays exactly the client's
    stream, whatever sizes its reads have; fewer than 8192 + 256 bytes are
    ever sniffed; and Accept hands out what was queued, first come first
    served. *)
Theorem proxy_lossless (reads : list read) (p : proxy) (pick dial_ok : bool) :
  Forall (λ r, String.length (rd_data r) ≤ chunk_size) reads →
  (∀ f p', proxy_handle pick dial_ok reads p = (f, p') →
     match f with
     | Queued => ∃ c, queue p' = (queue p ++ [c])%list ∧ conn_stream c = stream reads ∧
                      String.length (sc_buf c) < sniffCap + chunk_size
     | Forwarded c => conn_stream c = stream reads ∧ queue p' = queue p ∧
                      String.length (sc_buf c) < sniffCap + chunk_size
     | _ => queue p' = queue p
     end) ∧
  (∀ n c r c', sniffedConn_Read n c = Some (r, c') →
     rd_data r +:+ conn_stream c' = conn_stream c) ∧
  (∀ p c p', proxy_Accept pick p = Some (Ok c, p') → queue p = c :: queue p').
Proof.
  intros Hf. split_and!.
  - intros f p'. unfold proxy_handle. destruct (sniff "" reads) as [buf rest|e|buf] eqn:Hs.
    2, 3: by intros [= <- <-].
    pose proof (sniffed_stream _ _ _ _ Hs) as Hst. rewrite app_str_nil_l in Hst.
    pose proof (sniffed_bound reads "" buf rest Hf ltac:(apply Nat.ltb_lt; by vm_compute) Hs) as Hb.
    destruct (isMetadataRequest buf).
    + destruct (_ && _).
      * intros [= <- <-]. by eexists.
      * by destruct (closed p); intros [= <- <-].
    + by destruct dial_ok; intros [= <- <-].
  - intros n c r c'. unfold sniffedConn_Read, conn_stream.
    destruct (Nat.ltb_spec 0 (String.length (sc_buf c))).
    + intros [= <- <-]. cbn. by rewrite app_str_assoc, str_take_drop.
    + destruct (sc_buf c) as [|a s]; [|cbn in *; lia].
      destruct (sc_reads c) as [|r' rest]; [done|]. by intros [= <- <-].
  - intros q c q'. unfold proxy_Accept. destruct (queue q) as [|c' l]; [by destruct (closed q)|].
    destruct (_ || _); [|done]. by intros [= <- <-].
Qed.
Lemma proxy_lossless_witness :
  let p := {| queue := []; closed := false |} in
  let c := {| sc_buf := "POST / HTTP"; sc_reads := [] |} in
  proxy_handle true true [{| rd_data := "POST / HTTP"; rd_err := None |}] p = (Forwarded c, p) ∧
  conn_stream c = "POST / HTTP" ∧ String.length (sc_buf c) < sniffCap + chunk_size.
Proof.
  intros p c. split; [by vm_compute|].
  destruct (proj1 (proxy_lossless [{| rd_data := "POST / HTTP"; rd_err := None |}] p true true
    ltac:(constructor; [by apply Nat.leb_le; vm_compute|constructor])) (Forwarded c) p
    ltac:(by vm_compute)) as (H1 & _ & H2). split; [exact H1|exact H2].
Defined.
