(* ===== verification/Forward.v ===== *)
(** * internal/proxy: forwarding, and the proxy as a whole

    What handle does after the decision of Proxy.v: two goroutines copy bytes
    between the client and the real metadata endpoint, half-close the side
    they wrote and report to the handler over a channel of capacity two; the
    handler closes both connections and updates the gauge.  One step is one
    iteration of io.Copy, one half-close, one channel operation or one
    deferred call, so that every interleaving is a sequence of labels.  The
    second machine adds the listener, the connections and the queue. *)

From S2P Require Import Prelude GoStrings Proxy.
Open Scope string_scope.
Open Scope nat_scope.

(** ** One forwarded connection *)

(** The buffer of io.Copy. *)
Definition copy_buffer : nat := 32 * 1024.
Lemma copy_buffer_pos : 0 < copy_buffer.
Proof. unfold copy_buffer. lia. Qed.

(** A copying goroutine. *)
Inductive copy_pc : Type := Copying | CloseWriting | Reporting | Exited.
Record copier (C : Type) : Type := {
  cp_src : C;
  cp_written : string;
  cp_pc : copy_pc;
  cp_half_closed : bool;
}.
Arguments cp_src {C} _. Arguments cp_written {C} _. Arguments cp_pc {C} _.
Arguments cp_half_closed {C} _.

(** How a write ends: with an error after some bytes, or with all of them. *)
Definition write_result : Type := option nat.

(** One step of a goroutine, with the number of reports in the channel. *)
Definition copy_step {C} (Read : C → option (read * C)) (w : write_result) (k : copier C) (done : nat)
    : option (copier C * nat) :=
  match cp_pc k with
  | Copying =>
      match Read (cp_src k) with
      | None => None
      | Some (r, src) =>
          let after pc out :=
            {| cp_src := src; cp_written := cp_written k +:+ out; cp_pc := pc;
               cp_half_closed := cp_half_closed k |} in
          let next := if rd_err r then CloseWriting else Copying in
          if 0 <? String.length (rd_data r) then
            match w with
            | None => Some (after next (rd_data r), done)
            | Some n => Some (after CloseWriting (str_take n (rd_data r)), done)
            end
          else Some (after next "", done)
      end
  | CloseWriting =>
      Some ({| cp_src := cp_src k; cp_written := cp_written k; cp_pc := Reporting;
               cp_half_closed := true |}, done)
  | Reporting =>
      if done <? 2 then
        Some ({| cp_src := cp_src k; cp_written := cp_written k; cp_pc := Exited;
                 cp_half_closed := cp_half_closed k |}, S done)
      else None
  | Exited => None
  end.

(** The handler: two receives, then the deferred calls, last one first. *)
Inductive main_pc : Type := Receive1 | Receive2 | CloseServer | CloseClient | DecGauge | Returned.
#[export] Instance main_pc_eq_dec : EqDecision main_pc.
Proof. solve_decision. Defined.

Record forward : Type := {
  f_up : copier sniffedConn;
  f_down : copier (list read);
  f_done : nat;
  f_main : main_pc;
  f_server_closed : bool;
  f_client_closed : bool;
}.

Definition server_Read (rs : list read) : option (read * list read) :=
  match rs with [] => None | r :: rs => Some (r, rs) end.

(** The state after the dial. *)
Definition fresh_copier {C} (src : C) : copier C :=
  {| cp_src := src; cp_written := ""; cp_pc := Copying; cp_half_closed := false |}.
Definition start_forward (client : sniffedConn) (server : list read) : forward :=
  {| f_up := fresh_copier client; f_down := fresh_copier server; f_done := 0; f_main := Receive1;
     f_server_closed := false; f_client_closed := false |}.

Inductive copy_label : Type := Up (w : write_result) | Down (w : write_result) | Handler.

Definition handler_step (f : forward) : option forward :=
  let go pc n sc cc :=
    {| f_up := f_up f; f_down := f_down f; f_done := n; f_main := pc; f_server_closed := sc;
       f_client_closed := cc |} in
  match f_main f with
  | Receive1 =>
      if 0 <? f_done f then Some (go Receive2 (pred (f_done f)) (f_server_closed f) (f_client_closed f)) else None
  | Receive2 =>
      if 0 <? f_done f then Some (go CloseServer (pred (f_done f)) (f_server_closed f) (f_client_closed f)) else None
  | CloseServer => Some (go CloseClient (f_done f) true (f_client_closed f))
  | CloseClient => Some (go DecGauge (f_done f) (f_server_closed f) true)
  | DecGauge => Some (go Returned (f_done f) (f_server_closed f) (f_client_closed f))
  | Returned => None
  end.

Definition forward_step (l : copy_label) (f : forward) : option forward :=
  match l with
  | Up w =>
      '(k, n) ← copy_step (sniffedConn_Read copy_buffer) w (f_up f) (f_done f);
      Some {| f_up := k; f_down := f_down f; f_done := n; f_main := f_main f;
              f_server_closed := f_server_closed f; f_client_closed := f_client_closed f |}
  | Down w =>
      '(k, n) ← copy_step server_Read w (f_down f) (f_done f);
      Some {| f_up := f_up f; f_down := k; f_done := n; f_main := f_main f;
              f_server_closed := f_server_closed f; f_client_closed := f_client_closed f |}
  | Handler => handler_step f
  end.
Fixpoint forward_run (ls : list copy_label) (f : forward) : option forward :=
  match ls with
  | [] => Some f
  | l :: ls => f' ← forward_step l f; forward_run ls f'
  end.

(** ** The proxy *)

Inductive conn : Type :=
| Arrived (reads : list read)
| Forwarding (f : forward)
| Ended.

Record State : Type := {
  px : proxy;
  conns : gmap nat conn;
  activeConnections : Z;
  accepted : list (result sniffedConn);
}.

(** The goroutine of Listen accepts a connection, or fails and closes the
    proxy; a handler decides ([pick] for its select, [server] for the endpoint
    it dials, if that works); a forwarding connection moves; the inner server
    accepts; the listener is closed. *)
Inductive label : Type :=
| NewConn (k : nat) (reads : list read)
| AcceptFailed
| Handle (k : nat) (pick : bool) (server : option (list read))
| Move (k : nat) (l : copy_label)
| Accept (pick : bool)
| Close.

Definition set_conn (k : nat) (c : conn) (s : State) : State :=
  {| px := px s; conns := <[k := c]> (conns s); activeConnections := activeConnections s;
     accepted := accepted s |}.

Definition step (l : label) (s : State) : option State :=
  match l with
  | NewConn k reads =>
      match conns s !! k with
      | Some _ => None
      | None => if closed (px s) then None else Some (set_conn k (Arrived reads) s)
      end
  | Handle k pick server =>
      match conns s !! k with
      | Some (Arrived reads) =>
          let '(fate, p) := proxy_handle pick (bool_decide (is_Some server)) reads (px s) in
          let after c n :=
            {| px := p; conns := <[k := c]> (conns s); activeConnections := (activeConnections s + n)%Z;
               accepted := accepted s |} in
          match fate with
          | Queued | ClosedConn => Some (after Ended 0%Z)
          | Forwarded client => Some (after (Forwarding (start_forward client (default [] server))) 1%Z)
          | Waiting => None
          end
      | _ => None
      end
  | Move k l =>
      match conns s !! k with
      | Some (Forwarding f) =>
          f' ← forward_step l f;
          Some {| px := px s; conns := <[k := Forwarding f']> (conns s);
                  activeConnections :=
                    match l, f_main f with
                    | Handler, DecGauge => activeConnections s - 1
                    | _, _ => activeConnections s
                    end;
                  accepted := accepted s |}
      | _ => None
      end
  | Accept pick =>
      '(r, p) ← proxy_Accept pick (px s);
      Some {| px := p; conns := conns s; activeConnections := activeConnections s;
              accepted := (accepted s ++ [r])%list |}
  | AcceptFailed | Close =>
      Some {| px := proxy_Close (px s); conns := conns s; activeConnections := activeConnections s;
              accepted := accepted s |}
  end.

Definition Listen : State :=
  {| px := {| queue := []; closed := false |}; conns := ∅; activeConnections := 0; accepted := [] |}.
Inductive reachable : State → Prop :=
| reachable_Listen : reachable Listen
| reachable_step l s s' : reachable s → step l s = Some s' → reachable s'.

(** ** What a connection still has to say *)

(** The bytes up to the first error. *)
Fixpoint until_err (rs : list read) : string :=
  match rs with
  | [] => ""
  | r :: rs => rd_data r +:+ if rd_err r then "" else until_err rs
  end.
Definition conn_left (c : sniffedConn) : string := sc_buf c +:+ until_err (sc_reads c).
(** The peer ends its stream, or the connection breaks. *)
Definition ends (rs : list read) : Prop := Exists (λ r, is_Some (rd_err r)) rs.

(** What io.Copy relies on of its source: bytes left, a bound on the reads
    left, and whether it ends. *)
Class Reader {C} (Read : C → option (read * C)) (left : C → string) (size : C → nat)
    (ending : C → Prop) : Prop := {
  read_left c r c' : Read c = Some (r, c') → left c = rd_data r +:+ if rd_err r then "" else left c';
  read_size c r c' : Read c = Some (r, c') → size c' < size c;
  read_ready c : ending c → is_Some (Read c);
  read_ending c r c' : Read c = Some (r, c') → rd_err r = None → ending c → ending c';
}.

Lemma str_drop_shorter n s : 0 < n → 0 < String.length s → String.length (str_drop n s) < String.length s.
Proof.
  intros Hn Hs. pose proof (f_equal String.length (str_take_drop n s)) as E. rewrite length_app_str in E.
  destruct n as [|n]; [lia|]. destruct s as [|a s]; cbn in *; lia.
Qed.

#[export] Instance server_reader : Reader server_Read until_err length ends.
Proof.
  split.
  - intros [|r rs] r' rs'; [done|]. by intros [= <- <-].
  - intros [|r rs] r' rs'; [done|]. intros [= <- <-]. cbn. lia.
  - intros rs He. destruct He; by eexists.
  - intros [|r rs] r' rs'; [done|]. intros [= <- <-] Hn He. unfold ends in He. rewrite Exists_cons in He.
    destruct He as [[e He]|]; [congruence|done].
Qed.
Opaque copy_buffer.
#[export] Instance client_reader :
  Reader (sniffedConn_Read copy_buffer) conn_left
    (λ c, String.length (sc_buf c) + length (sc_reads c)) (λ c, ends (sc_reads c)).
Proof.
  assert (Hcase : ∀ c r c', sniffedConn_Read copy_buffer c = Some (r, c') →
    (0 < String.length (sc_buf c) ∧ rd_err r = None ∧ sc_buf c = rd_data r +:+ sc_buf c' ∧
       String.length (sc_buf c') < String.length (sc_buf c) ∧ sc_reads c' = sc_reads c) ∨
    (sc_buf c = "" ∧ sc_buf c' = "" ∧ server_Read (sc_reads c) = Some (r, sc_reads c'))).
  { intros c r c'. unfold sniffedConn_Read. destruct (Nat.ltb_spec 0 (String.length (sc_buf c))) as [Hl|Hl].
    - intros [= <- <-]. left. cbn [rd_err rd_data sc_buf sc_reads]. rewrite str_take_drop. split_and!; try done.
      apply str_drop_shorter; [exact copy_buffer_pos|done].
    - destruct (sc_buf c) as [|a s]; [|cbn in Hl; lia].
      destruct (sc_reads c); [done|]. intros [= <- <-]. by right. }
  split.
  - intros c r c' [(_ & He & Hb & _ & Hr)|(Hb & Hb' & Hr)]%Hcase; unfold conn_left.
    + rewrite Hb, Hr, He. by rewrite app_str_assoc.
    + rewrite Hb, Hb', !app_str_nil_l. by apply (read_left (Reader := server_reader)).
  - intros c r c' [(_ & He & _ & Hl & Hr)|(Hb & Hb' & Hr)]%Hcase.
    + rewrite Hr. lia.
    + apply (read_size (Reader := server_reader)) in Hr. rewrite Hb, Hb'. cbn. lia.
  - intros c He. unfold sniffedConn_Read. destruct (0 <? _); [by eexists|].
    destruct He; by eexists.
  - intros c r c' [(_ & He & _ & _ & Hr)|(_ & _ & Hr)]%Hcase Hn; [by rewrite Hr|].
    by apply (read_ending (Reader := server_reader) _ _ _ Hr).
Qed.

(** ** A copying goroutine *)

Definition exited {C} (k : copier C) : bool := match cp_pc k with Exited => true | _ => false end.
Definition ended_copy {C} (k : copier C) : bool :=
  match cp_pc k with Reporting | Exited => true | _ => false end.

Section Copier.
Context {C : Type} (Read : C → option (read * C)) (left : C → string) (size : C → nat) (ending : C → Prop).
Context `{HR : !Reader Read left size ending}.
Implicit Type k : copier C.

(** The bytes written are a prefix of [total]; all of it once the goroutine has
    stopped copying, unless a write failed. *)
Definition copied (total : string) (fine : Prop) k : Prop :=
  cp_half_closed k = ended_copy k ∧
  match cp_pc k with
  | Copying => cp_written k +:+ left (cp_src k) = total
  | _ => ∃ y, total = cp_written k +:+ y ∧ (fine → y = "")
  end.
Definition alive k : Prop := cp_pc k = Copying → ending (cp_src k).
Definition copier_size k : nat :=
  match cp_pc k with Copying => 3 + size (cp_src k) | CloseWriting => 2 | Reporting => 1 | Exited => 0 end.

Lemma copy_step_copied w k n k' n' total (fine fine' : Prop) :
  copy_step Read w k n = Some (k', n') → (fine' → fine ∧ w = None) →
  copied total fine k → copied total fine' k'.
Proof.
  unfold copy_step, copied. intros Hs Hf [Hh Hc].
  destruct (cp_pc k) eqn:Hpc.
  - destruct (Read (cp_src k)) as [[r src]|] eqn:Hr; [|done].
    apply (read_left (Reader := HR)) in Hr. rewrite Hr, app_str_assoc in Hc.
    assert (Hh' : cp_half_closed k = false) by (rewrite Hh; unfold ended_copy; by rewrite Hpc).
    destruct (Nat.ltb_spec 0 (String.length (rd_data r))) as [|Hl].
    + destruct w as [j|]; injection Hs as <- <-; cbn; (split; [by rewrite Hh'; destruct (rd_err r)|]).
      * exists (str_drop j (rd_data r) +:+ if rd_err r then "" else left src). split; [|by intros [_ [=]]%Hf].
        rewrite app_str_assoc, <- (app_str_assoc (cp_written k)), str_take_drop. by rewrite Hc.
      * destruct (rd_err r); [|done]. exists "". by rewrite <- Hc.
    + injection Hs as <- <-. cbn. split; [by rewrite Hh'; destruct (rd_err r)|].
      destruct (rd_data r); [|cbn in Hl; lia]. rewrite !app_str_nil_r in *.
      destruct (rd_err r); [|done]. exists "". by rewrite app_str_nil_r in Hc |- *.
  - injection Hs as <- <-. cbn. split; [done|]. destruct Hc as (y & -> & Hy). exists y. naive_solver.
  - destruct (n <? 2); [|done]. injection Hs as <- <-. cbn. split; [by rewrite Hh; unfold ended_copy; rewrite Hpc|].
    destruct Hc as (y & -> & Hy). exists y. naive_solver.
  - done.
Qed.

Lemma copy_step_alive w k n k' n' : copy_step Read w k n = Some (k', n') → alive k → alive k'.
Proof.
  unfold copy_step, alive. intros Hs Ha. destruct (cp_pc k) eqn:Hpc.
  - destruct (Read (cp_src k)) as [[r src]|] eqn:Hr; [|done].
    destruct (rd_err r) eqn:He, (0 <? _); try destruct w; injection Hs as <- <-; cbn; try done;
      intros _; by eapply (read_ending (Reader := HR)); eauto.
  - by injection Hs as <- <-.
  - destruct (n <? 2); [|done]. by injection Hs as <- <-.
  - done.
Qed.

Lemma copy_step_size w k n k' n' : copy_step Read w k n = Some (k', n') → copier_size k' < copier_size k.
Proof.
  unfold copy_step, copier_size. intros Hs. destruct (cp_pc k) eqn:Hpc.
  - destruct (Read (cp_src k)) as [[r src]|] eqn:Hr; [|done]. apply (read_size (Reader := HR)) in Hr.
    destruct (rd_err r), (0 <? _); try destruct w; injection Hs as <- <-; cbn; lia.
  - injection Hs as <- <-. cbn. lia.
  - destruct (n <? 2); [|done]. injection Hs as <- <-. cbn. lia.
  - done.
Qed.

Lemma copy_step_count w k n k' n' :
  copy_step Read w k n = Some (k', n') → n' + Nat.b2n (exited k) = n + Nat.b2n (exited k').
Proof.
  unfold copy_step, exited. intros Hs. destruct (cp_pc k) eqn:Hpc.
  - destruct (Read (cp_src k)) as [[r src]|]; [|done].
    destruct (rd_err r), (0 <? _); try destruct w; by injection Hs as <- <-.
  - by injection Hs as <- <-.
  - destruct (n <? 2); [|done]. injection Hs as <- <-. cbn. lia.
  - done.
Qed.

Lemma copy_step_ready k n : alive k → n < 2 → exited k = false → is_Some (copy_step Read None k n).
Proof.
  unfold copy_step, alive, exited. intros Ha Hn He. destruct (cp_pc k); try done.
  - destruct (read_ready (Reader := HR) (cp_src k) (Ha eq_refl)) as [[r src] ->].
    destruct (0 <? _); by eexists.
  - apply Nat.ltb_lt in Hn. rewrite Hn. by eexists.
Qed.
End Copier.

(** ** The forwarding of one connection *)

(** How often the handler has received, and its place in the deferred calls. *)
Definition received (pc : main_pc) : nat := match pc with Receive1 => 0 | Receive2 => 1 | _ => 2 end.
Definition main_size (pc : main_pc) : nat :=
  match pc with
  | Receive1 => 5 | Receive2 => 4 | CloseServer => 3 | CloseClient => 2 | DecGauge => 1 | Returned => 0
  end.
Definition server_done (pc : main_pc) : bool :=
  match pc with CloseClient | DecGauge | Returned => true | _ => false end.
Definition client_done (pc : main_pc) : bool := match pc with DecGauge | Returned => true | _ => false end.

Record ForwardInv (up down : string) (fine : Prop) (f : forward) : Prop := {
  fi_up : copied conn_left up fine (f_up f);
  fi_down : copied until_err down fine (f_down f);
  fi_count : f_done f + received (f_main f) = Nat.b2n (exited (f_up f)) + Nat.b2n (exited (f_down f));
  fi_server : f_server_closed f = server_done (f_main f);
  fi_client : f_client_closed f = client_done (f_main f);
}.
Definition label_fine (l : copy_label) : Prop :=
  match l with Up w | Down w => w = None | Handler => True end.

Lemma forward_inv_start c srv : ForwardInv (conn_left c) (until_err srv) True (start_forward c srv).
Proof. by split; try split. Qed.
Lemma copied_weaken {C} (left : C → string) total (P Q : Prop) k :
  (Q → P) → copied left total P k → copied left total Q k.
Proof.
  intros HPQ [Hh Hc]. split; [done|]. destruct (cp_pc k); try done; destruct Hc as (y & -> & Hy); exists y; naive_solver.
Qed.
Lemma forward_inv_step up down fine l f f' :
  forward_step l f = Some f' → ForwardInv up down fine f → ForwardInv up down (fine ∧ label_fine l) f'.
Proof.
  intros Hs [Hu Hd Hn Hsc Hcc]. destruct l as [w|w|]; cbn in Hs.
  - destruct (copy_step _ w (f_up f) (f_done f)) as [[k n]|] eqn:E; [|done]. injection Hs as <-.
    pose proof (copy_step_count _ _ _ _ _ _ E). split; cbn; try done; [..|lia].
    + by eapply (copy_step_copied _ _ _ _ _ _ _ _ _ _ _ _ E).
    + eapply copied_weaken; [|exact Hd]. naive_solver.
  - destruct (copy_step _ w (f_down f) (f_done f)) as [[k n]|] eqn:E; [|done]. injection Hs as <-.
    pose proof (copy_step_count _ _ _ _ _ _ E). split; cbn; try done; [..|lia].
    + eapply copied_weaken; [|exact Hu]. naive_solver.
    + by eapply (copy_step_copied _ _ _ _ _ _ _ _ _ _ _ _ E).
  - unfold handler_step in Hs.
    assert (Hu' : copied conn_left up (fine ∧ True) (f_up f)) by (eapply copied_weaken; [|done]; naive_solver).
    assert (Hd' : copied until_err down (fine ∧ True) (f_down f)) by (eapply copied_weaken; [|done]; naive_solver).
    destruct (f_main f); try done; try (destruct (Nat.ltb_spec 0 (f_done f)); [|done]); injection Hs as <-;
      split; cbn in *; try done; lia.
Qed.
Lemma forward_inv_run up down fine ls f f' :
  forward_run ls f = Some f' → ForwardInv up down fine f →
  ForwardInv up down (fine ∧ Forall label_fine ls) f'.
Proof.
  revert fine f. induction ls as [|l ls IH]; intros fine f.
  - intros [= <-] [Hu Hd ? ? ?]. split; try done; (eapply copied_weaken; [|done]); naive_solver.
  - cbn. destruct (forward_step l f) as [f1|] eqn:E; [|done]. cbn. intros Hr Hi.
    destruct (IH _ _ Hr (forward_inv_step _ _ _ _ _ _ E Hi)) as [Hu Hd ? ? ?].
    split; try done; (eapply copied_weaken; [|done]); rewrite Forall_cons; naive_solver.
Qed.

Definition forward_size (f : forward) : nat :=
  copier_size (λ c, String.length (sc_buf c) + length (sc_reads c)) (f_up f) +
  copier_size length (f_down f) + main_size (f_main f).
Lemma forward_step_size l f f' : forward_step l f = Some f' → forward_size f' < forward_size f.
Proof.
  unfold forward_size. destruct l as [w|w|]; cbn.
  - destruct (copy_step _ w (f_up f) (f_done f)) as [[k n]|] eqn:E; [|done]. intros [= <-]. cbn.
    apply (copy_step_size _ _ _ _) in E. lia.
  - destruct (copy_step _ w (f_down f) (f_done f)) as [[k n]|] eqn:E; [|done]. intros [= <-]. cbn.
    apply (copy_step_size _ _ _ _) in E. lia.
  - unfold handler_step. destruct (f_main f); try (destruct (0 <? f_done f)); try done; intros [= <-]; cbn; lia.
Qed.
Lemma forward_run_size ls f f' : forward_run ls f = Some f' → length ls + forward_size f' ≤ forward_size f.
Proof.
  revert f. induction ls as [|l ls IH]; intros f; [intros [= <-]; cbn; lia|]. cbn.
  destruct (forward_step l f) as [f1|] eqn:E; [|done]. cbn. intros H%IH. apply forward_step_size in E. lia.
Qed.

Definition both_alive (f : forward) : Prop :=
  alive (λ c, ends (sc_reads c)) (f_up f) ∧ alive ends (f_down f).
Lemma forward_step_alive l f f' : forward_step l f = Some f' → both_alive f → both_alive f'.
Proof.
  intros Hs [Hu Hd]. destruct l as [w|w|]; cbn in Hs.
  - destruct (copy_step _ w (f_up f) (f_done f)) as [[k n]|] eqn:E; [|done]. injection Hs as <-.
    split; [|done]. by eapply (copy_step_alive _ _ _ _ _ _ _ _ _ E).
  - destruct (copy_step _ w (f_down f) (f_done f)) as [[k n]|] eqn:E; [|done]. injection Hs as <-.
    split; [done|]. by eapply (copy_step_alive _ _ _ _ _ _ _ _ _ E).
  - unfold handler_step in Hs. destruct (f_main f); try (destruct (0 <? f_done f)); try done; by injection Hs as <-.
Qed.
Lemma forward_run_alive ls f f' : forward_run ls f = Some f' → both_alive f → both_alive f'.
Proof.
  revert f. induction ls as [|l ls IH]; intros f; [by intros [= <-]|]. cbn.
  destruct (forward_step l f) as [f1|] eqn:E; [|done]. cbn. intros H Ha. eapply IH; [done|]. by eapply forward_step_alive.
Qed.
Lemma forward_ready up down fine f :
  ForwardInv up down fine f → both_alive f → f_main f ≠ Returned → ∃ l, is_Some (forward_step l f).
Proof.
  intros [_ _ Hn _ _] [Hu Hd] Hm.
  destruct (exited (f_up f)) eqn:Eu.
  - destruct (exited (f_down f)) eqn:Ed.
    + exists Handler. cbn. unfold handler_step. destruct (f_main f); try done; try (by eexists); cbn in Hn;
        (destruct (Nat.ltb_spec 0 (f_done f)); [by eexists|lia]).
    + destruct (copy_step_ready server_Read until_err length ends (f_down f) (f_done f) Hd) as [[k n] E];
        [cbn in Hn; lia|done|]. exists (Down None). cbn. rewrite E. by eexists.
  - destruct (copy_step_ready (sniffedConn_Read copy_buffer) conn_left _ _ (f_up f) (f_done f) Hu) as [[k n] E];
      [|done|].
    { cbn in Hn. destruct (exited (f_down f)); cbn in Hn; lia. }
    exists (Up None). cbn. rewrite E. by eexists.
Qed.

(** Errors come alone, as from a TCP connection. *)
Definition clean (rs : list read) : Prop := Forall (λ r, is_Some (rd_err r) → rd_data r = "") rs.
Lemma sniffed_until_err rs buf buf' rest :
  clean rs → requestPathComplete buf = false → String.length buf < sniffCap →
  sniff buf rs = Sniffed buf' rest → buf' +:+ until_err rest = buf +:+ until_err rs.
Proof.
  intros Hc. revert buf. induction Hc as [|r rs Hr Hc IH]; intros buf Hb Hl; [done|]. cbn [sniff until_err].
  destruct (rd_err r) as [e|] eqn:He.
  - rewrite Hr, app_str_nil_r, Hb by done. cbn [orb].
    by rewrite (proj2 (Nat.leb_gt _ _) Hl).
  - rewrite app_str_assoc. destruct (requestPathComplete (buf +:+ rd_data r)) eqn:E; cbn [orb].
    + by intros [= <- <-].
    + destruct (Nat.leb_spec sniffCap (String.length (buf +:+ rd_data r))); [by intros [= <- <-]|].
      by apply IH.
Qed.
Lemma forwarded_left pick dial_ok rs p c p' :
  clean rs → proxy_handle pick dial_ok rs p = (Forwarded c, p') → conn_left c = until_err rs.
Proof.
  intros Hc. unfold proxy_handle. destruct (sniff "" rs) as [buf rest| |] eqn:Hs; [|done..].
  apply (sniffed_until_err rs "" buf rest Hc eq_refl) in Hs; [|apply Nat.ltb_lt; by vm_compute].
  destruct (isMetadataRequest buf); [by repeat case_match|]. destruct dial_ok; [|done].
  intros [= <- _]. exact Hs.
Qed.

(** C18: a connection that is not for the metadata server passes through
  unchanged.  Whatever the interleaving of the two copies and the handler,
  each side has been sent a prefix of what the other side said, in order and
  from the first byte, the sniffed ones included; neither connection is
  closed before both copies have ended and half-closed the side they wrote;
  and when the handler returns both are closed and, unless a write failed,
  everything has been delivered in both directions. *)
Theorem forward_exact reads server pick p c p' ls f :
  clean reads → proxy_handle pick true reads p = (Forwarded c, p') →
  forward_run ls (start_forward c server) = Some f →
  (∃ y, until_err reads = cp_written (f_up f) +:+ y) ∧
  (∃ y, until_err server = cp_written (f_down f) +:+ y) ∧
  (f_server_closed f || f_client_closed f = true →
     cp_half_closed (f_up f) = true ∧ cp_half_closed (f_down f) = true) ∧
  (f_main f = Returned → f_server_closed f = true ∧ f_client_closed f = true ∧
     (Forall label_fine ls → cp_written (f_up f) = until_err reads ∧ cp_written (f_down f) = until_err server)).
Proof.
  intros Hc Hh Hr. rewrite <- (forwarded_left _ _ _ _ _ _ Hc Hh).
  destruct (forward_inv_run _ _ _ _ _ _ Hr (forward_inv_start c server)) as [[Hhu Hu] [Hhd Hd] Hn Hsc Hcc].
  assert (Hex : 2 ≤ received (f_main f) → cp_pc (f_up f) = Exited ∧ cp_pc (f_down f) = Exited).
  { unfold exited in Hn. destruct (cp_pc (f_up f)), (cp_pc (f_down f)); cbn in Hn; try done; lia. }
  split_and!.
  - destruct (cp_pc (f_up f)); [by eexists|destruct Hu as (y & ? & _); by exists y..].
  - destruct (cp_pc (f_down f)); [by eexists|destruct Hd as (y & ? & _); by exists y..].
  - rewrite Hsc, Hcc, Hhu, Hhd. intros Hcl. unfold ended_copy.
    destruct Hex as [-> ->]; [|done]. destruct (f_main f); cbn in Hcl |- *; try done; lia.
  - intros Hm. rewrite Hm in *. destruct Hex as [Eu Ed]; [cbn; lia|]. rewrite Eu in Hu. rewrite Ed in Hd.
    split_and!; [done..|]. intros Hf. destruct Hu as (y & -> & Hy), Hd as (z & -> & Hz).
    by rewrite Hy, Hz, !app_str_nil_r.
Qed.

(** C33: forwarding ends.  When both peers end their streams, no interleaving
  runs for more steps than there are sniffed bytes and reads to come, plus
  eleven, and from every state that an interleaving reaches the handler can
  still return: neither the channel nor the receives ever deadlock. *)
Theorem forward_returns c server ls f :
  ends (sc_reads c) → ends server → forward_run ls (start_forward c server) = Some f →
  length ls ≤ 11 + String.length (sc_buf c) + length (sc_reads c) + length server ∧
  ∃ ls' f', forward_run ls' f = Some f' ∧ f_main f' = Returned.
Proof.
  intros Hc Hs Hr. split.
  { apply forward_run_size in Hr. unfold forward_size in Hr at 2. cbn in Hr. lia. }
  pose proof (forward_inv_run _ _ _ _ _ _ Hr (forward_inv_start c server)) as Hi.
  assert (Ha : both_alive f) by (apply (forward_run_alive _ _ _ Hr); split; by intros _).
  clear Hr.
  revert Hi Ha. generalize (True ∧ Forall label_fine ls).
  remember (forward_size f) as n eqn:Hn. revert f Hn. induction n as [n IH] using lt_wf_ind.
  intros f Hn P Hi Ha. destruct (decide (f_main f = Returned)) as [E|E]; [by exists [], f|].
  destruct (forward_ready _ _ _ _ Hi Ha E) as (l & f1 & Hl).
  destruct (IH (forward_size f1)) with (f := f1) (P := P ∧ label_fine l) as (ls' & f' & Hr' & Hm); try done.
  - rewrite Hn. by apply forward_step_size in Hl.
  - by eapply forward_inv_step.
  - by eapply forward_step_alive.
  - exists (l :: ls'), f'. cbn. rewrite Hl. done.
Qed.

(** ** The proxy as a whole *)

(** A connection that the gauge counts. *)
Definition counted (c : conn) : bool :=
  match c with Forwarding f => negb (bool_decide (f_main f = Returned)) | _ => false end.
Definition count (m : gmap nat conn) : nat := size (filter (λ kc, counted kc.2 = true) m).
Lemma conns_count_insert k c m :
  count (<[k := c]> m) + (if m !! k is Some c0 then Nat.b2n (counted c0) else 0) = count m + Nat.b2n (counted c).
Proof.
  unfold count. set (P := λ kc : nat * conn, counted kc.2 = true).
  assert (Hdel : ∀ c0, m !! k = Some c0 → size (filter P m) = size (filter P (delete k m)) + Nat.b2n (counted c0)).
  { intros c0 Hk. rewrite <- (insert_delete_id m k c0 Hk) at 1. destruct (counted c0) eqn:E.
    - rewrite map_filter_insert_True by done. rewrite map_size_insert_None; [cbn; lia|].
      rewrite map_filter_delete. apply lookup_delete_eq.
    - rewrite map_filter_insert_False by (unfold P; cbn; congruence). rewrite delete_delete_eq. cbn. lia. }
  assert (Hins : size (filter P (<[k := c]> m)) = size (filter P (delete k m)) + Nat.b2n (counted c)).
  { rewrite <- insert_delete_eq. destruct (counted c) eqn:E.
    - rewrite map_filter_insert_True by done. rewrite map_size_insert_None; [cbn; lia|].
      rewrite map_filter_delete. apply lookup_delete_eq.
    - rewrite map_filter_insert_False by (unfold P; cbn; congruence). rewrite delete_delete_eq. cbn. lia. }
  rewrite Hins. destruct (m !! k) as [c0|] eqn:E.
  - rewrite (Hdel c0 eq_refl). lia.
  - rewrite delete_id by done. lia.
Qed.

Definition for_metadata (c : sniffedConn) : Prop := isMetadataRequest (sc_buf c) = true.
Record ProxyInv (s : State) : Prop := {
  pi_gauge : activeConnections s = Z.of_nat (count (conns s));
  pi_cap : length (queue (px s)) ≤ queue_cap;
  pi_queue : Forall for_metadata (queue (px s));
  pi_accepted : ∀ c, Ok c ∈ accepted s → for_metadata c;
}.

Lemma handle_queue pick dial_ok reads p fate p' :
  proxy_handle pick dial_ok reads p = (fate, p') →
  length (queue p) ≤ queue_cap → Forall for_metadata (queue p) →
  length (queue p') ≤ queue_cap ∧ Forall for_metadata (queue p').
Proof.
  unfold proxy_handle. destruct (sniff "" reads) as [buf rest| |]; [|by intros [= <- <-]..].
  destruct (isMetadataRequest buf) eqn:Hb.
  - destruct (Nat.ltb_spec (length (queue p)) queue_cap); cbn [andb].
    + destruct (negb (closed p) || pick); [|by destruct (closed p); intros [= <- <-]].
      intros [= <- <-] Hcap Hq. cbn [queue]. rewrite length_app. cbn [length]. split; [lia|].
      apply Forall_app. split; [done|]. by apply Forall_singleton.
    + by destruct (closed p); intros [= <- <-].
  - by destruct dial_ok; intros [= <- <-].
Qed.
Lemma accept_queue pick p r p' :
  proxy_Accept pick p = Some (r, p') → length (queue p) ≤ queue_cap → Forall for_metadata (queue p) →
  length (queue p') ≤ queue_cap ∧ Forall for_metadata (queue p') ∧ ∀ c, r = Ok c → for_metadata c.
Proof.
  unfold proxy_Accept. destruct (queue p) as [|c q] eqn:E.
  - destruct (closed p); [|done]. intros [= <- <-]. by rewrite E.
  - destruct (negb (closed p) || pick); intros [= <- <-] Hcap [Hc Hq]%Forall_cons; cbn in *.
    + split_and!; [lia|done|]. by intros ? [= <-].
    + rewrite E. split_and!; [done|by apply Forall_cons|done].
Qed.

Lemma move_counted l f f' :
  forward_step l f = Some f' →
  Nat.b2n (counted (Forwarding f)) =
  Nat.b2n (counted (Forwarding f')) + match l, f_main f with Handler, DecGauge => 1 | _, _ => 0 end.
Proof.
  destruct l as [w|w|]; cbn.
  1, 2: destruct (copy_step _ w _ _) as [[k n]|]; [|done]; intros [= <-]; cbn; lia.
  unfold handler_step. destruct (f_main f); try (destruct (0 <? f_done f)); try done; by intros [= <-].
Qed.

Lemma proxy_inv_step l s s' : step l s = Some s' → ProxyInv s → ProxyInv s'.
Proof.
  intros Hs [Hg Hcap Hq Ha]. destruct l as [k reads| |k pick server|k l|pick|]; cbn in Hs.
  - destruct (conns s !! k) eqn:Ek; [done|]. destruct (closed (px s)); [done|]. injection Hs as <-.
    split; try done. cbn. rewrite Hg. pose proof (conns_count_insert k (Arrived reads) (conns s)) as E.
    rewrite Ek in E. cbn in E. lia.
  - injection Hs as <-. by split.
  - destruct (conns s !! k) as [[reads| |]|] eqn:Ek; try done.
    destruct (proxy_handle _ _ _ _) as [fate p] eqn:Hh.
    destruct (handle_queue _ _ _ _ _ _ Hh Hcap Hq) as [Hcap' Hq'].
    assert (E : ∀ c, count (<[k := c]> (conns s)) = count (conns s) + Nat.b2n (counted c)).
    { intros c. pose proof (conns_count_insert k c (conns s)) as E. rewrite Ek in E. cbn in E. lia. }
    destruct fate; [| | |done]; injection Hs as <-; split; cbn; try done; rewrite E, Hg;
      cbn [counted]; try rewrite bool_decide_eq_false_2 by done; cbn; lia.
  - destruct (conns s !! k) as [[|f|]|] eqn:Ek; try done.
    destruct (forward_step l f) as [f'|] eqn:Hl; [|done]. cbn in Hs. injection Hs as <-.
    split; try done. cbn. pose proof (conns_count_insert k (Forwarding f') (conns s)) as E. rewrite Ek in E.
    pose proof (move_counted _ _ _ Hl) as Hm. destruct l, (f_main f); lia.
  - destruct (proxy_Accept pick (px s)) as [[r p]|] eqn:E; [|done]. cbn in Hs. injection Hs as <-.
    destruct (accept_queue _ _ _ _ E Hcap Hq) as (? & ? & Hr). split; try done. cbn.
    intros c [Hc|Hc%list_elem_of_singleton]%elem_of_app; [by apply Ha|by apply Hr].
  - injection Hs as <-. by split.
Qed.

(** C19: in every state of the proxy that an interleaving of its listener, its
  handlers, the copies and the inner server reaches, the gauge of active
  connections is the number of connections being forwarded, at most 100
  connections wait in the queue, and the inner server only ever accepts
  connections whose first request is for the metadata server. *)
Theorem proxy_invariant s :
  reachable s →
  activeConnections s = Z.of_nat (count (conns s)) ∧ length (queue (px s)) ≤ 100 ∧
  ∀ c, Ok c ∈ accepted s → isMetadataRequest (sc_buf c) = true.
Proof.
  intros Hr. assert (Hi : ProxyInv s) by (induction Hr; [split; [done|cbn; lia|done|set_solver]|by eapply proxy_inv_step]).
  destruct Hi. by split_and!.
Qed.

(** ** Witnesses: a request for /_proxy_test *)

Module ForwardExample.
Definition data (s : string) : read := {| rd_data := s; rd_err := None |}.
Definition eof : read := {| rd_data := ""; rd_err := Some (EMsg "EOF") |}.
Definition reads : list read := [data "GET /_proxy"; data "_test HTTP/1.1"; data " X"; eof].
Definition server : list read := [data "HTTP/1.1 204"; eof].
Definition client : sniffedConn := {| sc_buf := "GET /_proxy_test HTTP/1.1"; sc_reads := [data " X"; eof] |}.
Definition closed_proxy (b : bool) : proxy := {| queue := []; closed := b |}.
Definition labels : list copy_label :=
[Up None; Down None; Down None; Up None; Down None; Up None; Down None; Handler; Up None; Up None;
 Handler; Handler; Handler; Handler].
Definition after (ls : list copy_label) : forward :=
default (start_forward client server) (forward_run ls (start_forward client server)).
Definition proxy_labels : list label :=
[NewConn 0 reads; NewConn 1 [data "GET /computeMetadata/v1/ HTTP/1.1"]; Handle 1 false None;
 Handle 0 false (Some server); Accept false].
Fixpoint steps (ls : list label) (s : State) : State :=
match ls with [] => s | l :: ls => steps ls (default s (step l s)) end.
Lemma steps_reachable ls s : reachable s → reachable (steps ls s).
Proof.
revert s. induction ls as [|l ls IH]; intros s Hs; [done|]. cbn. apply IH.
destruct (step l s) eqn:E; [by eapply reachable_step|done].
Qed.
End ForwardExample.

Lemma forward_exact_witness :
  let f := ForwardExample.after ForwardExample.labels in
  f_main f = Returned ∧ cp_written (f_up f) = "GET /_proxy_test HTTP/1.1 X" ∧
  cp_written (f_down f) = "HTTP/1.1 204".
Proof.
  intros f. split; [by vm_compute|].
  destruct (forward_exact ForwardExample.reads ForwardExample.server false (ForwardExample.closed_proxy false)
    ForwardExample.client (ForwardExample.closed_proxy false) ForwardExample.labels f) as (_ & _ & _ & H).
  - repeat (apply Forall_cons; split; [by intros []|]). by apply Forall_nil_2.
  - by vm_compute.
  - by vm_compute.
  - apply H; [by vm_compute|]. by repeat constructor.
Defined.
Lemma forward_returns_witness :
  ∃ ls' f', forward_run ls' (ForwardExample.after [Up None; Down None]) = Some f' ∧ f_main f' = Returned.
Proof.
  refine (proj2 (forward_returns ForwardExample.client ForwardExample.server [Up None; Down None] _ _ _ _)).
  - apply Exists_cons_tl, Exists_cons_hd. by eexists.
  - apply Exists_cons_tl, Exists_cons_hd. by eexists.
  - by vm_compute.
Defined.
Lemma proxy_invariant_witness :
  let s := ForwardExample.steps ForwardExample.proxy_labels Listen in
  activeConnections s = 1%Z ∧ length (accepted s) = 1 ∧ length (queue (px s)) ≤ 100.
Proof.
  intros s. split; [by vm_compute|]. split; [by vm_compute|].
  apply (proxy_invariant s), ForwardExample.steps_reachable, reachable_Listen.
Defined.
