(* ===== verification/Server.v ===== *)
(** * internal/server: who is calling, and the metadata API

    pods.go finds the pod behind a connection and its service accounts,
    gke_apis.go holds the metadata handlers, and server.go the options, the
    registration of the handlers, the readiness probe and the shutdown.  The
    request context ([ctx]), the clock, the failure counter, the environment
    of the preflight check, encoding/json's decoder and the probe's own HTTP
    client are arguments.  Log fields are not modelled. *)

From Stdlib Require Import Ascii SpecFloat.
From S2P Require Import Prelude GoStrings NetIP Retry GoTime Credentials Api ServiceAccounts.
From S2P Require Import Pods HTTP Directory Tokens Attestation Preflight.
Open Scope string_scope.
Open Scope Z_scope.

(** ** Formatting and scanning *)

(** [%q] of a string of ASCII characters. *)
Definition quote_char (c : char) : string :=
  let n := nat_of_ascii c in
  let hex k := one (hex_digit (Z.of_nat k)) in
  if decide (c = chr 34) then "\" +:+ one c
  else if decide (c = "\"%char) then "\\"
  else if decide (n = 7%nat) then "\a" else if decide (n = 8%nat) then "\b"
  else if decide (n = 9%nat) then "\t" else if decide (n = 10%nat) then "\n"
  else if decide (n = 11%nat) then "\v" else if decide (n = 12%nat) then "\f"
  else if decide (n = 13%nat) then "\r"
  else if in_range 32 126 c then one c
  else "\x" +:+ hex (n / 16)%nat +:+ hex (n mod 16)%nat.
Fixpoint quote_chars (s : string) : string :=
  match s with "" => "" | String c s' => quote_char c +:+ quote_chars s' end.
Definition Quote (s : string) : string := one (chr 34) +:+ quote_chars s +:+ one (chr 34).

(** strconv.ParseUint(s, 10, 16) with its error. *)
Definition parse_port (s : string) : result Z :=
  match parse_uint 16 s with
  | Some n => Ok n
  | None => Err (EMsg ("strconv.ParseUint: parsing " +:+ Quote s +:+ ": " +:+
      match parse_dec s with Some _ => "value out of range" | None => "invalid syntax" end))
  end.

(** [%v] of a net.IP that is not an IPv4 address. *)
Definition ip_text (ip : list Z) : string :=
  match ip with
  | [] => "<nil>"
  | _ => if bool_decide (length ip = 16%nat) then v6_string (foldl (λ acc o, acc * 256 + o) 0 ip)
         else "?" +:+ foldr (λ o acc, one (hex_digit (o / 16)) +:+ one (hex_digit (o mod 16)) +:+ acc) "" ip
  end.

(** fmt.Sscan into an int: leading spaces, a sign, a base prefix, digits and
    underscores between them; [None] leaves the variable as it was. *)
Definition base_digit (base : Z) (c : char) : option Z :=
  match hex_val c with Some d => if d <? base then Some d else None | None => None end.
Fixpoint take_digits (base : Z) (s : string) : list (option Z) :=
  match s with
  | "" => []
  | String c s' =>
      if decide (c = "_"%char) then None :: take_digits base s'
      else match base_digit base c with Some d => Some d :: take_digits base s' | None => [] end
  end.
Fixpoint underscores_ok (after_digit : bool) (ds : list (option Z)) : bool :=
  match ds with
  | [] => true
  | Some _ :: ds' => underscores_ok true ds'
  | None :: ds' => after_digit && match ds' with Some _ :: _ => underscores_ok false ds' | _ => false end
  end.
Definition Sscan_int (s : string) : option Z :=
  let s := trim_left s in
  let '(neg, s) := match s with
                   | String "-" s' => (true, s') | String "+" s' => (false, s') | _ => (false, s)
                   end in
  let '(base, leading, prefixed, s) :=
    match s with
    | String "0" (String c s' as s0) =>
        if bool_decide (c ∈ ["b"; "B"]%char) then (2, true, true, s')
        else if bool_decide (c ∈ ["o"; "O"]%char) then (8, true, true, s')
        else if bool_decide (c ∈ ["x"; "X"]%char) then (16, true, true, s')
        else (8, true, false, s0)
    | String "0" "" => (8, true, false, "")
    | _ => (10, false, false, s)
    end in
  let ds := take_digits base s in
  if bool_decide (ds = []) && (negb leading || prefixed) then None
  else if negb (underscores_ok leading ds) then None
  else
    let n := foldl (λ acc d, acc * base + d) 0 (omap id ds) in
    let v := if neg : bool then - n else n in
    if bool_decide (in_int64 v) then Some v else None.

(** [int(d.Seconds())], in binary64: d/1e9 plus the rest over 1e9, truncated. *)
Definition f64 (z : Z) : spec_float := binary_normalize 53 1024 z 0 false.
Definition int_of_f64 (f : spec_float) : Z :=
  match f with
  | S754_finite s m e =>
      let n := if 0 <=? e then Z.pos m * 2 ^ e else Z.pos m / 2 ^ (- e) in
      if s : bool then - n else n
  | _ => 0
  end.
Definition int_seconds (d : Z) : Z :=
  int_of_f64 (SFadd 53 1024 (f64 (Z.quot d Second)) (SFdiv 53 1024 (f64 (Z.rem d Second)) (f64 Second))).

(** [errors.As] for *googleapi.Error, through [%w]. *)
Fixpoint as_googleapi (e : error) : option (Z * string * string) :=
  match e with
  | EGoogleAPI code body text => Some (code, body, text)
  | EWrap _ e' _ => as_googleapi e'
  | _ => None
  end.

(** ** server.go: options *)

Record PodLookupOptions : Type := {
  pl_MaxAttempts : Z;
  pl_RetryInitialDelay : Z;
  pl_RetryMaxDelay : Z;
}.
Record ServerOptions (W : Type) : Type := {
  opt_NodeName : string;
  opt_PodIP : string;
  opt_Addr : string;
  opt_HealthPort : Z;
  opt_Pods : Pods.Provider W;
  opt_ServiceAccounts : ServiceAccounts.Provider W;
  opt_ServiceAccountTokens : Tokens.Provider W;
  opt_ProjectID : string;
  opt_NumericProjectID : string;
  opt_WorkloadIdentityPool : string;
  opt_RoutingMode : string;
  opt_PodLookup : PodLookupOptions;
  opt_Attestation : option (Lookuper W);
}.
Arguments opt_NodeName {W} _.
Arguments opt_PodIP {W} _.
Arguments opt_Addr {W} _.
Arguments opt_HealthPort {W} _.
Arguments opt_Pods {W} _.
Arguments opt_ServiceAccounts {W} _.
Arguments opt_ServiceAccountTokens {W} _.
Arguments opt_ProjectID {W} _.
Arguments opt_NumericProjectID {W} _.
Arguments opt_WorkloadIdentityPool {W} _.
Arguments opt_RoutingMode {W} _.
Arguments opt_PodLookup {W} _.
Arguments opt_Attestation {W} _.

Definition LocalAddrFromRequest (r : Request) : option TCPAddr := ctx_localAddr r.

(** [r.WithContext(context.WithValue(...))] for the two keys of pods.go. *)
Definition with_saRef (ref : Reference) (r : Request) : Request :=
  {| rq_Method := rq_Method r; rq_Path := rq_Path r; rq_Query := rq_Query r;
     rq_Header := rq_Header r; rq_RemoteAddr := rq_RemoteAddr r;
     ctx_localAddr := ctx_localAddr r; ctx_saRef := Some ref;
     ctx_googleEmail := ctx_googleEmail r; ctx_observability := ctx_observability r |}.
Definition with_googleEmail (email : option string) (r : Request) : Request :=
  {| rq_Method := rq_Method r; rq_Path := rq_Path r; rq_Query := rq_Query r;
     rq_Header := rq_Header r; rq_RemoteAddr := rq_RemoteAddr r;
     ctx_localAddr := ctx_localAddr r; ctx_saRef := ctx_saRef r;
     ctx_googleEmail := Some email; ctx_observability := ctx_observability r |}.

Definition isHostSourceIP (clientIP : Addr) (podIP : string) : bool :=
  if is_loopback clientIP || is_link_local_unicast clientIP then true
  else match ParseAddr podIP with
       | Ok pip => bool_decide (clientIP = pip)
       | Err _ => false
       end.

Section Server.
Context {W : Type} (opts : ServerOptions W).
Context (ctx : Ctx W) (lookupPodFailures : string → ST W unit) (fuel : nat).
Context (Now : W → Time) (environment : W → Environment) (json_Unmarshal : string → option any).

(** ** pods.go: finding the pod *)

Definition attestByConnTuple (r : Request) (clientIP : Addr) (clientPortStr : string)
    : ST W (result Kube.Pod) :=
match opt_Attestation opts with
| None => err (EMsg "attestation lookuper not configured for this routing mode")
| Some L =>
  match parse_port clientPortStr with
  | Err e => err (EWrap ("parsing client port " +:+ Quote clientPortStr +:+ ": ") e "")
  | Ok clientPort =>
    match LocalAddrFromRequest r with
    | None => err (EMsg "local addr not captured for this connection")
    | Some local =>
      match addr_from_to4 (ta_IP local) with
      | None => err (EMsg ("local addr " +:+ ip_text (ta_IP local) +:+ " is not an IPv4 address"))
      | Some dstIP =>
        res ← Lookup L clientIP (unmap dstIP) clientPort (ta_Port local mod 65536);
        match res with
        | Err e => err (EWrap "attestation lookup: " e "")
        | Ok uid =>
            p ← GetByUID (opt_Pods opts) uid;
            match p with
            | Err e => err (EWrap ("getting pod with uid " +:+ uid +:+ ": ") e "")
            | Ok pod => ok pod
            end
        end
      end
    end
  end
end.

(** The retried lookup runs with the variable [pod] of the closure. *)
Definition with_pod {A} (m : ST W A) : ST (W * option Kube.Pod) A := zoom fst (λ w s, (w, s.2)) m.
Definition lookup_func (clientIP : string) : ST (W * option Kube.Pod) (result unit) :=
p ← with_pod (GetByIP (opt_Pods opts) clientIP);
match p with
| Ok pod => _ ← st_modify (λ s, (s.1, Some pod)); ok tt
| Err e => _ ← st_modify (λ s, (s.1, None)); err e
end.
Definition lookup_retryable (e : error) : bool :=
let s := error_text e in
negb (contains "no pods found" s) && negb (contains "multiple pods found" s).
Definition lookup_operation (clientIP : string) : Operation (W * option Kube.Pod) :=
{| MaxAttempts := pl_MaxAttempts (opt_PodLookup opts);
   InitialDelay := pl_RetryInitialDelay (opt_PodLookup opts);
   MaxDelay := pl_RetryMaxDelay (opt_PodLookup opts);
   Description := "lookup pod by ip address";
   FailureCounter := Some (with_pod (lookupPodFailures clientIP));
   Func := Some (lookup_func clientIP);
   IsRetryable := Some lookup_retryable |}.
Definition lookup_ctx : Ctx (W * option Kube.Pod) :=
{| ctx_done_before d := with_pod (ctx_done_before ctx d); ctx_Err := with_pod (ctx_Err ctx) |}.

(** [fuel] bounds the loop when the attempts are unlimited (negative). *)
Definition lookup_fuel : nat :=
let n := default_max_attempts (pl_MaxAttempts (opt_PodLookup opts)) in
if n <? 0 then fuel else Z.to_nat n.

(** A nil pod with a nil error would be dereferenced by the caller. *)
Definition lookupPodByIP (clientIP : string) : ST W (result Kube.Pod) := λ w,
match Do lookup_fuel lookup_ctx (lookup_operation clientIP) (w, None) with
| (Ret (Some (Ok _)), (w', Some pod)) => (Ret (Ok pod), w')
| (Ret (Some (Ok _)), (w', None)) => (Panic "invalid memory address or nil pointer dereference", w')
| (Ret (Some (Err e)), (w', _)) => (Ret (Err e), w')
| (Ret None, (w', _)) => (Panic "out of fuel", w')
| (Panic m, (w', _)) => (Panic m, w')
end.

Definition assignPodServiceAccount (r : Request) (pod : Kube.Pod) : Reference * Request :=
let saRef := ReferenceFromPod pod in (saRef, with_saRef saRef r).

(** Respond with the error, and return it. *)
Definition fail {A} (r : Request) (code : Z) (e : error) : HM W (result A) :=
_ ← RespondErrorf r code e; err e.

(** The strategy of a connection: kernel attestation, or the source address. *)
Definition useAttestation (clientIPAddr : Addr) : bool :=
bool_decide (opt_RoutingMode opts = RoutingModeBPF) || isHostSourceIP clientIPAddr (opt_PodIP opts).

Definition getPodServiceAccountReference (r : Request) : HM W (result (Reference * Request)) :=
match ctx_saRef r with
| Some ref => ok (ref, r)
| None =>
  match SplitHostPort (rq_RemoteAddr r) with
  | Err e => fail r 500 (EWrap ("error spliting host-port for " +:+ Quote (rq_RemoteAddr r) +:+ ": ") e "")
  | Ok (clientHost, clientPortStr) =>
    match ParseAddr clientHost with
    | Err e => fail r 500 (EWrap ("error parsing ip address client host " +:+ Quote (rq_RemoteAddr r)
                                    +:+ ": ") e "")
    | Ok clientIPAddr =>
      let clientIP := addr_string clientIPAddr in
      if useAttestation clientIPAddr then
        p ← lift (attestByConnTuple r clientIPAddr clientPortStr);
        match p with
        | Err e => fail r 403 (EWrap "kernel attestation failed: " e "")
        | Ok pod => ok (assignPodServiceAccount r pod)
        end
      else
        p ← lift (lookupPodByIP clientIP);
        match p with
        | Err e => fail r (HTTPStatusCode e) (EWrap "error looking up pod by ip address: " e "")
        | Ok pod => ok (assignPodServiceAccount r pod)
        end
    end
  end
end.

(** ** pods.go: its Google service account and tokens *)

Definition getPodGoogleServiceAccountEmail (r : Request) : HM W (result (option string * Request)) :=
match ctx_googleEmail r with
| Some email => ok (email, r)
| None =>
  ' (saRef, r) ←? getPodServiceAccountReference r;
  s ← lift (Get (opt_ServiceAccounts opts) saRef);
  match s with
  | Err e => fail r 500 (EWrap "error getting pod service account: " e "")
  | Ok sa =>
    match GoogleServiceAccountEmail sa with
    | Err e => fail r 400 e
    | Ok email => ok (email, with_googleEmail email r)
    end
  end
end.

Definition getPodGoogleServiceAccountEmailOrWorkloadIdentityPool (r : Request)
    : HM W (result (string * Request)) :=
' (googleEmail, r) ←? getPodGoogleServiceAccountEmail r;
ok (default (opt_WorkloadIdentityPool opts) googleEmail, r).

Definition listPodGoogleServiceAccounts : DirectoryLister W := λ r,
' (email, r) ←? getPodGoogleServiceAccountEmailOrWorkloadIdentityPool r;
ok (["default"; email], r).

(** respondGoogleAPIErrorf: the status, the error kept and the body. *)
Definition oauthSubstring : string := "oauth2/google: status code ".
Definition google_api_error (e : error) : outcome (Z * string * error) :=
match as_googleapi e with
| Some (code, body, text) => Ret (code, body, EGoogleAPI code body text)
| None =>
  match str_index oauthSubstring (error_text e) with
  | None => Ret (500, "", e)
  | Some i =>
    let strErr := str_drop (i + String.length oauthSubstring) (error_text e) in
    match index_byte colon strErr with
    | None => Ret (500, "", e)
    | Some idx =>
        let statusCode := default 500 (Sscan_int (str_take idx strErr)) in
        if (idx + 2 <=? String.length strErr)%nat
        then Ret (statusCode, str_drop (idx + 2) strErr, e)
        else Panic "slice bounds out of range"
    end
  end
end.
Definition respondGoogleAPIErrorf (r : Request) (pre : string) (e : error) : HM W unit :=
match google_api_error e with
| Panic m => panic m
| Ret (statusCode, bodyString, e) =>
    let e := EWrap pre e "" in
    match json_Unmarshal bodyString with
    | Some ANil | None =>
        if bool_decide (bodyString = "") then RespondError r statusCode e []
        else RespondError r statusCode e [AString bodyString]
    | Some body => RespondError r statusCode e [body]
    end
end.

Definition getPodGoogleAccessTokens (r : Request) (scopes : list string)
    : HM W (result (AccessTokens * Time * Request)) :=
' (saRef, r) ←? getPodServiceAccountReference r;
t ← lift (GetServiceAccountToken (opt_ServiceAccountTokens opts) saRef);
match t with
| Err e => fail r 500 (EWrap "error getting token for pod service account: " e "")
| Ok (saToken, _) =>
  ' (googleEmail, r) ←? getPodGoogleServiceAccountEmail r;
  a ← lift (GetGoogleAccessTokens (opt_ServiceAccountTokens opts) saToken googleEmail scopes);
  match a with
  | Err e => _ ← respondGoogleAPIErrorf r "error getting google access token: " e; err e
  | Ok (tokens, expiresAt) => ok (tokens, expiresAt, r)
  end
end.

(** ** gke_apis.go *)

Definition gkeNodeNameAPI_handler : MetadataHandler W :=
MetadataHandlerFunc (λ r, ok (AString (opt_NodeName opts))).
Definition gkeProjectIDAPI_handler : MetadataHandler W :=
MetadataHandlerFunc (λ r, ok (AString (opt_ProjectID opts))).
Definition gkeNumericProjectIDAPI_handler : MetadataHandler W :=
MetadataHandlerFunc (λ r, ok (AString (opt_NumericProjectID opts))).
Definition gkeServiceAccountAliasesAPI_handler : MetadataHandler W :=
MetadataHandlerFunc (λ r, ok (AStrings ["default"])).
Definition gkeServiceAccountEmailAPI_handler : MetadataHandler W :=
MetadataHandlerFunc (λ r,
  ' (email, _) ←? getPodGoogleServiceAccountEmailOrWorkloadIdentityPool r;
  ok (AString email)).
Definition gkeServiceAccountScopesAPI_handler : MetadataHandler W :=
MetadataHandlerFunc (λ r, ok (AStrings AccessScopes)).

(** The sanity check that opens the two token handlers. *)
Definition preflight_check (r : Request) : HM W (result unit) :=
s ← st_get;
match Check requirements (environment s.1) with
| Panic m => panic m
| Ret (Err e) => _ ← RespondErrorf r 500 (EMsg ("preflight check failed: " +:+ error_text e)); err e
| Ret (Ok _) => ok tt
end.

Definition missing_audience : string := "non-empty audience parameter required".
Definition not_annotated_text (saRef : Reference) : string :=
"Your Kubernetes service account (" +:+ Namespace saRef +:+ "/" +:+ Name saRef
  +:+ ") is not annotated with a target Google service account, which is a requirement for retrieving Identity Tokens using Workload Identity."
  +:+ one newline +:+
"Please add the iam.gke.io/gcp-service-account=[GSA_NAME]@[PROJECT_ID] annotation to your Kubernetes service account."
  +:+ one newline +:+
"Refer to https://cloud.google.com/kubernetes-engine/docs/how-to/workload-identity" +:+ one newline.

Definition identity_handler (r : Request) : HM W (result any) :=
_ ←? preflight_check r;
let audience := trim_space (Query_Get "audience" r) in
if bool_decide (audience = "") then
  _ ← WriteHeader 400;
  _ ← Write (CText (missing_audience +:+ one newline));
  err (EMsg missing_audience)
else
  ' (googleEmail, r) ←? getPodGoogleServiceAccountEmail r;
  match googleEmail with
  | None =>
    match ctx_saRef r with
    | None => panic "interface conversion: interface {} is nil, not *serviceaccounts.Reference"
    | Some saRef =>
        _ ← RespondText r 404 (not_annotated_text saRef);
        err (EMsg "pod service account not annotated with target Google service account")
    end
  | Some email =>
    ' (saRef, r) ←? getPodServiceAccountReference r;
    ' (accessTokens, _, r) ←? getPodGoogleAccessTokens r [];
    t ← lift (GetGoogleIdentityToken (opt_ServiceAccountTokens opts) saRef
                (DirectAccess accessTokens) email audience);
    match t with
    | Err e => _ ← respondGoogleAPIErrorf r "error getting google id token: " e; err e
    | Ok (identityToken, _) => ok (AString identityToken)
    end
  end.
Definition gkeServiceAccountIdentityAPI_handler : MetadataHandler W :=
TokenHandler (MetadataHandlerFunc identity_handler).

(** The scopes of the query string. *)
Definition query_scopes (r : Request) : list string :=
filter (λ s, s ≠ "") (map trim_space (split comma (Query_Get "scopes" r))).

Definition token_handler (r : Request) : HM W (result any) :=
_ ←? preflight_check r;
' (tokens, expiresAt, _) ←? getPodGoogleAccessTokens r (query_scopes r);
s ← st_get;
let token := if bool_decide (Impersonated tokens = "") then DirectAccess tokens
             else Impersonated tokens in
ok (AMap [("access_token", AString token);
          ("expires_in", AInt (int_seconds (Until (Now s.1) expiresAt)));
          ("token_type", AString "Bearer")]).
Definition gkeServiceAccountTokenAPI_handler : MetadataHandler W :=
TokenHandler (MetadataHandlerFunc token_handler).
End Server.

(** ** server.go: registration *)

Definition gkeNodeNameAPI : string := "/computeMetadata/v1/instance/name".
Definition gkeProjectIDAPI : string := "/computeMetadata/v1/project/project-id".
Definition gkeNumericProjectIDAPI : string := "/computeMetadata/v1/project/numeric-project-id".
Definition gkeServiceAccountsDirectory : string :=
  "/computeMetadata/v1/instance/service-accounts/$service_account".
Definition gkeServiceAccountAliasesAPI : string :=
  "/computeMetadata/v1/instance/service-accounts/$service_account/aliases".
Definition gkeServiceAccountEmailAPI : string :=
  "/computeMetadata/v1/instance/service-accounts/$service_account/email".
Definition gkeServiceAccountIdentityAPI : string :=
  "/computeMetadata/v1/instance/service-accounts/$service_account/identity".
Definition gkeServiceAccountScopesAPI : string :=
  "/computeMetadata/v1/instance/service-accounts/$service_account/scopes".
Definition gkeServiceAccountTokenAPI : string :=
  "/computeMetadata/v1/instance/service-accounts/$service_account/token".

Section New.
Context {W : Type} (opts : ServerOptions W).
Context (ctx : Ctx W) (lookupPodFailures : string → ST W unit) (fuel : nat).
Context (Now : W → Time) (environment : W → Environment) (json_Unmarshal : string → option any).

Definition setup_handlers : ST (directoryNode W) unit :=
_ ← HandleMetadata gkeNodeNameAPI (gkeNodeNameAPI_handler opts);
_ ← HandleMetadata gkeProjectIDAPI (gkeProjectIDAPI_handler opts);
_ ← HandleMetadata gkeNumericProjectIDAPI (gkeNumericProjectIDAPI_handler opts);
_ ← HandleDirectory gkeServiceAccountsDirectory
      (listPodGoogleServiceAccounts opts ctx lookupPodFailures fuel);
_ ← HandleMetadata gkeServiceAccountAliasesAPI gkeServiceAccountAliasesAPI_handler;
_ ← HandleMetadata gkeServiceAccountEmailAPI
      (gkeServiceAccountEmailAPI_handler opts ctx lookupPodFailures fuel);
_ ← HandleMetadata gkeServiceAccountIdentityAPI
      (gkeServiceAccountIdentityAPI_handler opts ctx lookupPodFailures fuel environment json_Unmarshal);
_ ← HandleMetadata gkeServiceAccountScopesAPI gkeServiceAccountScopesAPI_handler;
HandleMetadata gkeServiceAccountTokenAPI
  (gkeServiceAccountTokenAPI_handler opts ctx lookupPodFailures fuel Now environment json_Unmarshal).

Definition metadataHandler : directoryNode W := (setup_handlers empty_node).2.

(** The handler of metadataServer: the observability middleware around the
  directory. *)
Definition metadataServer_Handler (r : Request) : HM W unit :=
DirectoryHandler_ServeHTTP metadataHandler (InitRequest r).

(** ** server.go: readiness and shutdown *)

(** The probe's request to the daemon itself: the addresses of its
  connection, and the response or the error of making the request. *)
Record self_response : Type := {
  sr_local : option TCPAddr;
  sr_remote : option TCPAddr;
  sr_response : result (Z * result string);
}.
(** [AddrFromSlice(ip.To4())], the zero Addr when it is not IPv4: like
  [V6 0], it has no As4 form. *)
Definition to4_or_zero (a : TCPAddr) : Addr := default (V6 0 "") (unmap <$> addr_from_to4 (ta_IP a)).

Definition readyz (self : ST W self_response) : HM W unit :=
res ← lift self;
match sr_response res with
| Err _ => WriteHeader 500
| Ok (statusCode, body) =>
  if negb (statusCode =? 200) then WriteHeader 500 else
  match body with
  | Err _ => WriteHeader 500
  | Ok body =>
    if negb (bool_decide (body = opt_NodeName opts)) then WriteHeader 500 else
    match opt_Attestation opts, sr_local res, sr_remote res with
    | Some L, Some loc, Some rem =>
        v ← lift (Verify L (to4_or_zero loc) (to4_or_zero rem)
                    (ta_Port loc mod 65536) (ta_Port rem mod 65536));
        match v with Err _ => WriteHeader 500 | Ok _ => WriteHeader 200 end
    | _, _, _ => WriteHeader 200
    end
  end
end.

Definition healthz : HM W unit := WriteHeader 200.
End New.

(** [Shutdown], on the results of the two servers' Shutdown. *)
Definition Shutdown (e1 e2 : option error) : option error :=
  match e1, e2 with
  | None, _ => e2
  | Some _, None => e1
  | Some a, Some b => Some (EMsg (error_text a +:+ one newline +:+ error_text b))
  end.
