(* ===== verification/ServerIdentity.v ===== *)
(** * The server: whose request it is

    How getPodServiceAccountReference finds the caller: from the connection
    only, by one strategy, and soundly with respect to the pod provider and
    the attestation lookuper, each taken through its interface. *)

From S2P Require Import Prelude GoStrings NetIP Retry GoTime Api ServiceAccounts Pods.
From S2P Require Import HTTP Directory Tokens Attestation Preflight Server.
Open Scope string_scope.
Open Scope Z_scope.

(** ** Calls that only write the response *)

(** [m] returns [a] and touches nothing but the response writer. *)
Definition quiet {W A} (m : HM W A) (a : A) : Prop :=
  ∀ x w, ∃ w', m (x, w) = (Ret a, (x, w')).

Section Quiet.
Context {W : Type}.

Lemma quiet_ret {A} (a : A) : quiet (mret a : HM W A) a.
Proof. intros x w. by eexists. Qed.
Lemma quiet_bind {A B} (m : HM W A) (f : A → HM W B) a b :
  quiet m a → quiet (f a) b → quiet (m ≫= f) b.
Proof.
  intros Hm Hf x w. destruct (Hm x w) as [w1 E]. destruct (Hf x w1) as [w2 E2].
  exists w2. unfold mbind, st_bind. by rewrite E.
Qed.
Lemma quiet_modify f : quiet (modify_writer (W:=W) f) tt.
Proof. intros x w. by eexists. Qed.
Lemma quiet_WriteHeader code : final_status code → quiet (WriteHeader (W:=W) code) tt.
Proof.
  intros Hc x w. unfold final_status in Hc. unfold WriteHeader. st_simpl.
  destruct (bool_decide _); [by eexists|].
  destruct (Z.ltb_spec code 100), (Z.ltb_spec 999 code), (Z.ltb_spec code 200); try lia. by eexists.
Qed.
Lemma quiet_Write c : quiet (Write (W:=W) c) tt.
Proof. eapply quiet_bind; [by apply quiet_WriteHeader|apply quiet_modify]. Qed.
Lemma quiet_observe r code e : ctx_observability r = true → quiet (observeRequest (W:=W) r code e) tt.
Proof.
  intros Hr. unfold observeRequest. rewrite Hr. destruct (observe_level _ _). apply quiet_modify.
Qed.
Lemma quiet_headers ct code : quiet (setGKEMetadataServerHeaders (W:=W) ct code) tt.
Proof. intros x w. rewrite setHeaders_run. by eexists. Qed.
Lemma quiet_marshaled r code obj e :
  final_status code → ctx_observability r = true → quiet (respondMarshaled (W:=W) r code obj e) tt.
Proof.
  intros Hc Hr. eapply quiet_bind; [apply quiet_headers|].
  eapply quiet_bind; [by apply quiet_WriteHeader|].
  eapply quiet_bind; [apply quiet_Write|by apply quiet_observe].
Qed.
Lemma quiet_RespondError r code e data :
  final_status code → ctx_observability r = true → quiet (RespondError (W:=W) r code e data) tt.
Proof.
  intros Hc Hr. unfold RespondError, RespondJSON. case_match; by apply quiet_marshaled.
Qed.
Lemma quiet_RespondText r code text :
  final_status code → ctx_observability r = true → quiet (RespondText (W:=W) r code text) tt.
Proof.
  intros Hc Hr. eapply quiet_bind; [apply quiet_headers|].
  eapply quiet_bind; [by apply quiet_WriteHeader|].
  eapply quiet_bind; [apply quiet_Write|by apply quiet_observe].
Qed.
Lemma quiet_fail {A} r code e :
  final_status code → ctx_observability r = true → quiet (fail (W:=W) (A:=A) r code e) (Err e).
Proof.
  intros Hc Hr. eapply quiet_bind; [by apply quiet_RespondError|apply quiet_ret].
Qed.
Lemma HTTPStatusCode_final e : final_status (HTTPStatusCode e).
Proof. unfold HTTPStatusCode, final_status, StatusClientClosedRequest. repeat case_match; lia. Qed.

Lemma lift_run {A} (m : ST W A) x w o x' : m x = (o, x') → lift m (x, w) = (o, (x', w)).
Proof. intros E. unfold lift, zoom. cbn. by rewrite E. Qed.
End Quiet.

(** ** The retried lookup *)

Section Lookup.
Context {W : Type} (opts : ServerOptions W) (ctx : Ctx W).
Context (lookupPodFailures : string → ST W unit) (fuel : nat).

Local Abbreviation lookup := (lookupPodByIP opts ctx lookupPodFailures fuel).

Lemma with_pod_keeps {A} (I : option Kube.Pod → Prop) (m : ST W A) :
  keeps (λ s, I s.2) (with_pod m).
Proof. intros [x p] Hs. unfold with_pod, zoom. cbn. by destruct (m x). Qed.

(** A pod that the lookup returns is one that the provider returned. *)
Lemma lookup_sound ip w pod w' :
  lookup ip w = (Ret (Ok pod), w') →
  ∃ w1 w2, GetByIP (opt_Pods opts) ip w1 = (Ret (Ok pod), w2).
Proof.
  set (I := λ p : option Kube.Pod, ∀ pod, p = Some pod →
    ∃ w1 w2, GetByIP (opt_Pods opts) ip w1 = (Ret (Ok pod), w2)).
  assert (HI : keeps (λ s, I s.2) (Do (lookup_fuel opts fuel) (lookup_ctx ctx)
                 (lookup_operation opts lookupPodFailures ip))).
  { apply Do_invariant.
    - intros f [= <-] [x p] Hs. unfold lookup_func, with_pod, zoom. st_simpl.
      destruct (GetByIP _ ip x) as [[[pod1|e]|m] x1] eqn:E; cbn; [|done..].
      intros ? [= <-]. eauto.
    - intros f [= <-]. apply with_pod_keeps.
    - intros d. apply with_pod_keeps.
    - apply with_pod_keeps. }
  unfold lookupPodByIP. specialize (HI (w, None) ltac:(done)).
  destruct (Do _ _ _ _) as [[[[?|?]|]|m] [w1 [pod1|]]]; try done.
  intros [= -> ->]. by apply HI.
Qed.

(** Every lookup with a bounded number of attempts returns. *)
Lemma lookup_total ip :
  total (GetByIP (opt_Pods opts) ip) → total (lookupPodFailures ip) →
  (∀ d, total (ctx_done_before ctx d)) → total (ctx_Err ctx) →
  0 < default_max_attempts (pl_MaxAttempts (opt_PodLookup opts)) < 2 ^ 63 →
  ∀ w, ∃ o w', lookup ip w = (o, w') ∧ o ≠ Panic "out of fuel".
Proof.
  intros Hg Hc Hd He Hn w. unfold lookupPodByIP.
  set (op := lookup_operation opts lookupPodFailures ip).
  assert (Hz : ∀ A (m : ST W A), total m → total (with_pod m)).
  { intros A m Hm [x p]. unfold with_pod, zoom. cbn. destruct (Hm x) as (a & x' & ->). by eexists _, _. }
  assert (HD : ∃ r s', Do (lookup_fuel opts fuel) (lookup_ctx ctx) op (w, None) = (Ret (Some r), s')).
  { unfold Do. cbn. unfold lookup_fuel. destruct (Z.ltb_spec (default_max_attempts
      (pl_MaxAttempts (opt_PodLookup opts))) 0); [lia|].
    apply attempts_terminates; try lia; cbn.
    - intros s. unfold lookup_func. destruct (Hz _ _ Hg s) as (a & s' & E). st_simpl. rewrite E.
      destruct a; by eexists _, _.
    - by apply Hz.
    - intros d. by apply Hz.
    - by apply Hz. }
  destruct HD as (r & [x' p'] & ->). destruct r as [[]|e].
  - destruct p'; eexists _, _; by split.
  - eexists _, _; by split.
Qed.

(** A lookup that fails because no pod, or more than one, has the address
  is not retried: the server asks once, counts no failure, does not sleep,
  and answers 500 with the provider's error. *)
Theorem pod_count_not_retried ip w e w' :
  GetByIP (opt_Pods opts) ip w = (Ret (Err e), w') → names_pod_count e →
  0 ≤ pl_MaxAttempts (opt_PodLookup opts) →
  lookupPodByIP opts ctx lookupPodFailures fuel ip w = (Ret (Err e), w') ∧
  (is_max_attempts e = false → is_context_canceled e = false → HTTPStatusCode e = 500).
Proof.
  intros Hg Hn Hmax. split.
  2: { intros H1 H2. unfold HTTPStatusCode. by rewrite H1, H2. }
  assert (Hr : lookup_retryable e = false).
  { unfold lookup_retryable. destruct Hn as [-> | ->]; [done|]. apply andb_false_r. }
  assert (Hf : ∃ k, lookup_fuel opts fuel = S k ∧
    ((default_max_attempts (pl_MaxAttempts (opt_PodLookup opts)) <? 0) = false) ∧
    (1 <=? default_max_attempts (pl_MaxAttempts (opt_PodLookup opts))) = true).
  { unfold lookup_fuel, default_max_attempts.
    destruct (Z.eqb_spec (pl_MaxAttempts (opt_PodLookup opts)) 0) as [E|E]; [by exists 2%nat|].
    destruct (Z.ltb_spec (pl_MaxAttempts (opt_PodLookup opts)) 0); [lia|].
    exists (pred (Z.to_nat (pl_MaxAttempts (opt_PodLookup opts)))). split_and!; [lia|done|].
    apply Z.leb_le. lia. }
  destruct Hf as (k & Hk & Hneg & Hone).
  assert (Hlf : lookup_func opts ip (w, None) = (Ret (Err e), (w', None))).
  { unfold lookup_func, with_pod, zoom. st_simpl. by rewrite Hg. }
  unfold lookupPodByIP, Do. cbn [Description Func FailureCounter IsRetryable lookup_operation
    MaxAttempts InitialDelay MaxDelay]. rewrite Hk, bool_decide_eq_false_2 by done.
  cbn [attempts]. rewrite Hneg, Hone. cbn [orb]. unfold mbind, st_bind. by rewrite Hlf, Hr.
Qed.
End Lookup.

(** ** The caller's identity *)

(** What getPodServiceAccountReference says about the caller, without the request. *)
Definition reference_of (o : outcome (result (Reference * Request))) : outcome (result Reference) :=
  match o with
  | Ret (Ok (ref, _)) => Ret (Ok ref)
  | Ret (Err e) => Ret (Err e)
  | Panic m => Panic m
  end.

(** The pod behind a connection: running, known to the API server, and found
    by exactly one of the two strategies. *)
Definition caller {W} (opts : ServerOptions W) (known : Kube.Pod → Prop)
    (owner : W → Addr → Addr → Z → Z → string → Prop) (r : Request) (x : W) (pod : Kube.Pod) : Prop :=
  ∃ host port ip, SplitHostPort (rq_RemoteAddr r) = Ok (host, port) ∧ ParseAddr host = Ok ip ∧
    known pod ∧ isPodRunning pod = true ∧
    if useAttestation opts ip then
      ∃ local dst sport uid, ctx_localAddr r = Some local ∧ addr_from_to4 (ta_IP local) = Some dst ∧
        parse_uint 16 port = Some sport ∧
        owner x ip (unmap dst) sport (ta_Port local mod 65536) uid ∧ Kube.pod_UID pod = uid
    else Kube.pod_HostNetwork pod = false ∧ Kube.pod_PodIP pod = addr_string ip.

(** The options with another pod lookup by address, and with another lookuper
    and pod lookup by UID. *)
Definition replace_byIP {W} (f : string → ST W (result Kube.Pod)) (o : ServerOptions W) : ServerOptions W :=
  {| opt_NodeName := opt_NodeName o; opt_PodIP := opt_PodIP o; opt_Addr := opt_Addr o;
     opt_HealthPort := opt_HealthPort o;
     opt_Pods := {| GetByIP := f; GetByUID := GetByUID (opt_Pods o) |};
     opt_ServiceAccounts := opt_ServiceAccounts o;
     opt_ServiceAccountTokens := opt_ServiceAccountTokens o; opt_ProjectID := opt_ProjectID o;
     opt_NumericProjectID := opt_NumericProjectID o;
     opt_WorkloadIdentityPool := opt_WorkloadIdentityPool o; opt_RoutingMode := opt_RoutingMode o;
     opt_PodLookup := opt_PodLookup o; opt_Attestation := opt_Attestation o |}.
Definition replace_attestation {W} (L : option (Lookuper W)) (f : string → ST W (result Kube.Pod))
    (o : ServerOptions W) : ServerOptions W :=
  {| opt_NodeName := opt_NodeName o; opt_PodIP := opt_PodIP o; opt_Addr := opt_Addr o;
     opt_HealthPort := opt_HealthPort o;
     opt_Pods := {| GetByIP := GetByIP (opt_Pods o); GetByUID := f |};
     opt_ServiceAccounts := opt_ServiceAccounts o;
     opt_ServiceAccountTokens := opt_ServiceAccountTokens o; opt_ProjectID := opt_ProjectID o;
     opt_NumericProjectID := opt_NumericProjectID o;
     opt_WorkloadIdentityPool := opt_WorkloadIdentityPool o; opt_RoutingMode := opt_RoutingMode o;
     opt_PodLookup := opt_PodLookup o; opt_Attestation := L |}.

(** The address a request comes from. *)
Definition peer (r : Request) : option Addr :=
  match SplitHostPort (rq_RemoteAddr r) with
  | Ok (host, _) => match ParseAddr host with Ok ip => Some ip | Err _ => None end
  | Err _ => None
  end.

Section Identity.
Context {W : Type} (opts : ServerOptions W) (ctx : Ctx W).
Context (lookupPodFailures : string → ST W unit) (fuel : nat).

Local Abbreviation getRef o := (getPodServiceAccountReference o ctx lookupPodFailures fuel).

(** The first answer for a request is kept; it names the pod of the caller. *)
Lemma caller_found known owner r x w ref r' s' :
  Lawful known (opt_Pods opts) → (∀ L, opt_Attestation opts = Some L → Attests owner L) →
  ctx_saRef r = None → ctx_observability r = true →
  getRef opts r (x, w) = (Ret (Ok (ref, r')), s') →
  ∃ pod, caller opts known owner r x pod ∧ ref = ReferenceFromPod pod ∧ r' = with_saRef ref r.
Proof.
  intros HP HL Hc Hobs. unfold getPodServiceAccountReference, caller. rewrite Hc.
  assert (Hfail : ∀ A code e s, final_status code →
    fail r code e (x, s) ≠ (Ret (Ok (ref, r')), s') ∧
    ∀ x1 (a : A), fail r code e (x1, s) ≠ (Ret (Ok a), s')).
  { intros A code e s Hf. split.
    - destruct (quiet_fail (W:=W) (A:=Reference * Request) r code e Hf Hobs x s) as [w' ->]. done.
    - intros x1 a. destruct (quiet_fail (W:=W) (A:=A) r code e Hf Hobs x1 s) as [w' ->]. done. }
  destruct (SplitHostPort (rq_RemoteAddr r)) as [[host port]|e] eqn:Hsp.
  2: { intros H. by destruct (proj1 (Hfail unit 500 _ w ltac:(by vm_compute)) H). }
  destruct (ParseAddr host) as [ip|e] eqn:Hip.
  2: { intros H. by destruct (proj1 (Hfail unit 500 _ w ltac:(by vm_compute)) H). }
  destruct (useAttestation opts ip) eqn:Hu.
  - unfold attestByConnTuple. destruct (opt_Attestation opts) as [L|] eqn:HA.
    2: { st_simpl. intros H. by destruct (proj1 (Hfail unit 403 _ w ltac:(by vm_compute)) H). }
    unfold parse_port. destruct (parse_uint 16 port) as [sport|] eqn:Hport.
    2: { st_simpl. intros H. by destruct (proj1 (Hfail unit 403 _ w ltac:(by vm_compute)) H). }
    unfold LocalAddrFromRequest. destruct (ctx_localAddr r) as [local|] eqn:Hlocal.
    2: { st_simpl. intros H. by destruct (proj1 (Hfail unit 403 _ w ltac:(by vm_compute)) H). }
    destruct (addr_from_to4 (ta_IP local)) as [dst|] eqn:Hdst.
    2: { st_simpl. intros H. by destruct (proj1 (Hfail unit 403 _ w ltac:(by vm_compute)) H). }
    unfold lift, zoom. st_simpl.
    destruct (Lookup L _ _ _ _ x) as [[[uid|e]|m] x1] eqn:HLk; [| |done].
    2: { intros H. by destruct (proj2 (Hfail _ 403 _ w ltac:(by vm_compute)) _ _ H). }
    destruct (GetByUID (opt_Pods opts) uid x1) as [[[pod|e]|m] x2] eqn:HU; [| |done].
    2: { intros H. by destruct (proj2 (Hfail _ 403 _ w ltac:(by vm_compute)) _ _ H). }
    intros [= <- <- <-]. exists pod. split; [|done].
    destruct (byUID_sound _ _ _ _ HU) as (? & ? & ?).
    exists host, port, ip. rewrite Hu. split_and!; try done.
    exists local, dst, sport, uid. split_and!; try done.
    apply (HL L eq_refl) in HLk; [done|by apply parse_uint_range in Hport|by apply Z.mod_pos_bound].
  - unfold lift, zoom. st_simpl.
    destruct (lookupPodByIP _ _ _ _ _ x) as [[[pod|e]|m] x1] eqn:HLk; [| |done].
    2: { intros H. by destruct (proj2 (Hfail _ _ _ w (HTTPStatusCode_final e)) _ _ H). }
    intros [= <- <- <-]. exists pod. split; [|done].
    apply lookup_sound in HLk as (w1 & w2 & Hg).
    destruct (byIP_sound _ _ _ _ Hg) as (? & ? & ? & ?).
    exists host, port, ip. rewrite Hu. by split_and!.
Qed.
Lemma caller_kept r x w ref :
  ctx_saRef r = Some ref → getRef opts r (x, w) = (Ret (Ok (ref, r)), (x, w)).
Proof. intros Hc. unfold getPodServiceAccountReference. by rewrite Hc. Qed.

(** A service account reference that the server resolves for a new
  connection belongs to a running pod of the API server whose identity the
  kernel vouches for: in eBPF mode, and for host addresses in the other
  modes, the pod whose UID the lookuper attests as the owner of the
  connection's 4-tuple (the peer's address and port, the accepted socket's
  local address and port); otherwise the pod on the pod network whose IP is
  the peer's address. *)
Theorem identity_sound known owner r x w ref r' s' :
  Lawful known (opt_Pods opts) → (∀ L, opt_Attestation opts = Some L → Attests owner L) →
  ctx_saRef r = None → ctx_observability r = true →
  getRef opts r (x, w) = (Ret (Ok (ref, r')), s') →
  (∃ pod, caller opts known owner r x pod ∧ ref = ReferenceFromPod pod) ∧
  ctx_saRef r' = Some ref ∧ rq_RemoteAddr r' = rq_RemoteAddr r ∧ rq_Query r' = rq_Query r.
Proof.
  intros HP HL Hc Hobs H. destruct (caller_found known owner r x w ref r' s' HP HL Hc Hobs H)
    as (pod & ? & ? & ->). split; [by exists pod|done].
Qed.

(** C9: nothing that a client writes in a request decides who it is: two
  requests with the same peer address, local address and saved reference
  resolve to the same service account, or fail with the same error, and
  have the same effects, whatever their methods, paths, queries and headers
  (X-Forwarded-For included). *)
Theorem identity_from_connection r1 r2 x w1 w2 :
  rq_RemoteAddr r1 = rq_RemoteAddr r2 → ctx_localAddr r1 = ctx_localAddr r2 →
  ctx_saRef r1 = ctx_saRef r2 →
  ctx_observability r1 = true → ctx_observability r2 = true →
  reference_of (getRef opts r1 (x, w1)).1 = reference_of (getRef opts r2 (x, w2)).1 ∧
  (getRef opts r1 (x, w1)).2.1 = (getRef opts r2 (x, w2)).2.1.
Proof.
  intros HR HL HC H1 H2. unfold getPodServiceAccountReference. rewrite HC, HR.
  destruct (ctx_saRef r2); [done|].
  assert (Hfail : ∀ code e x, final_status code →
    reference_of (fail (W:=W) r1 code e (x, w1)).1 = reference_of (fail (W:=W) r2 code e (x, w2)).1 ∧
    (fail (W:=W) (A:=Reference * Request) r1 code e (x, w1)).2.1 =
    (fail (W:=W) (A:=Reference * Request) r2 code e (x, w2)).2.1).
  { intros code e x0 Hf.
    destruct (quiet_fail (W:=W) (A:=Reference * Request) r1 code e Hf H1 x0 w1) as [? E1].
    destruct (quiet_fail (W:=W) (A:=Reference * Request) r2 code e Hf H2 x0 w2) as [? E2].
    split; by rewrite E1, E2. }
  destruct (SplitHostPort _) as [[host port]|e]; [|by apply Hfail; vm_compute].
  destruct (ParseAddr host) as [ip|e]; [|by apply Hfail; vm_compute].
  destruct (useAttestation opts ip).
  - assert (HA : attestByConnTuple opts r1 ip port = attestByConnTuple opts r2 ip port).
    { unfold attestByConnTuple, LocalAddrFromRequest. by rewrite HL. }
    rewrite HA. unfold lift, zoom. st_simpl.
    destruct (attestByConnTuple opts r2 ip port x) as [[[pod|e]|m] x1]; [done| |done].
    by apply Hfail; vm_compute.
  - unfold lift, zoom. st_simpl.
    destruct (lookupPodByIP _ _ _ _ _ x) as [[[pod|e]|m] x1]; [done| |done].
    apply Hfail, HTTPStatusCode_final.
Qed.

(** C15: each (routing mode, kind of peer) has one strategy and no fallback.
  When attestation applies, the pod lookup by address plays no part, not
  even when attestation fails (which is answered with 403); when it does
  not, neither the lookuper nor the lookup by UID plays one. *)
Theorem one_strategy r ip byIP byUID L s :
  peer r = Some ip →
  (useAttestation opts ip = true →
     getRef (replace_byIP byIP opts) r s = getRef opts r s ∧
     (∀ host port e x', SplitHostPort (rq_RemoteAddr r) = Ok (host, port) →
        ctx_saRef r = None → attestByConnTuple opts r ip port s.1 = (Ret (Err e), x') →
        getRef opts r s = fail r 403 (EWrap "kernel attestation failed: " e "") (x', s.2))) ∧
  (useAttestation opts ip = false →
     getRef (replace_attestation L byUID opts) r s = getRef opts r s).
Proof.
  unfold peer. destruct (SplitHostPort (rq_RemoteAddr r)) as [[host port]|] eqn:Hsp; [|done].
  destruct (ParseAddr host) as [ip'|] eqn:Hip; [|done]. intros [= ->].
  unfold getPodServiceAccountReference. rewrite Hsp, Hip. split.
  - intros Hu. split.
    + change (useAttestation (replace_byIP byIP opts) ip) with (useAttestation opts ip).
      by rewrite Hu.
    + intros h p e x' [= <- <-] Hc HA. rewrite Hc, Hu. unfold lift, zoom. st_simpl. by rewrite HA.
  - intros Hu.
    change (useAttestation (replace_attestation L byUID opts) ip) with (useAttestation opts ip).
    by rewrite Hu.
Qed.
End Identity.

(** ** An example server *)

Module ServerExample.
(** Two pods: one on the pod network, one on the host network. *)
Definition pods : Pods.Provider unit :=
{| GetByIP ip := λ w,
     (Ret (if bool_decide (ip = "10.0.0.5") then Ok (Pods.Example.mk "a" "uid-a" "10.0.0.5" false)
           else Err (EMsg ("no pods found in the node matching cluster ip " +:+ ip))), w);
   GetByUID uid := λ w,
     (Ret (if bool_decide (uid = "uid-h") then Ok (Pods.Example.mk "h" "uid-h" "192.168.0.2" true)
           else Err (EMsg "no pods found")), w) |}.
Definition sas : ServiceAccounts.Provider unit :=
{| Get ref := λ w, (Ret (Ok {| Kube.sa_Name := Name ref; Kube.sa_Namespace := Namespace ref;
     Kube.sa_Annotations := {[ GKEAnnotationServiceAccount := "gsa@p.iam.gserviceaccount.com" ]} |}), w) |}.
Definition sa_tok (ref : Reference) : string := "sa:" +:+ Namespace ref +:+ "/" +:+ Name ref.
Definition acc_toks (t : string) (email : option string) (scopes : list string) : AccessTokens :=
{| DirectAccess := t +:+ ";" +:+ join "," scopes; Impersonated := default "" email |}.
Definition id_tok (ref : Reference) (a email aud : string) : string := a +:+ ">" +:+ email +:+ ">" +:+ aud.
Definition tokens : Tokens.Provider unit :=
{| GetServiceAccountToken ref := λ w, (Ret (Ok (sa_tok ref, FromUnix 3600)), w);
   GetGoogleAccessTokens t email scopes := λ w, (Ret (Ok (acc_toks t email scopes, FromUnix 3600)), w);
   GetGoogleIdentityToken ref a email aud := λ w, (Ret (Ok (id_tok ref a email aud, FromUnix 3600)), w) |}.
(** The connection from 169.254.169.254:40000 is the host network pod's. *)
Definition owner (w : unit) (src dst : Addr) (sport dport : Z) (uid : string) : Prop :=
src = V4 2852039166 ∧ sport = 40000 ∧ uid = "uid-h".
Definition lookuper : Lookuper unit :=
{| Lookup src dst sport dport := λ w,
     (Ret (if bool_decide (src = V4 2852039166 ∧ sport = 40000) then Ok "uid-h"
           else Err Bpf.ErrNotFound), w);
   Verify src dst sport dport := λ w, (Ret (Ok tt), w) |}.
Definition options (mode : string) : ServerOptions unit :=
{| opt_NodeName := "node-1"; opt_PodIP := "192.168.0.2"; opt_Addr := ":16321"; opt_HealthPort := 16322;
   opt_Pods := pods; opt_ServiceAccounts := sas; opt_ServiceAccountTokens := tokens;
   opt_ProjectID := "p"; opt_NumericProjectID := "1"; opt_WorkloadIdentityPool := "p.svc.id.goog";
   opt_RoutingMode := mode;
   opt_PodLookup := {| pl_MaxAttempts := 3; pl_RetryInitialDelay := 0; pl_RetryMaxDelay := 0 |};
   opt_Attestation := Some lookuper |}.
Definition ctx : Ctx unit :=
{| ctx_done_before d := λ w, (Ret false, w); ctx_Err := λ w, (Ret (EMsg "context canceled"), w) |}.
Definition no_count (ip : string) : ST unit unit := mret tt.
Definition request (remote : string) (query header : list (string * string)) : Request :=
{| rq_Method := "GET"; rq_Path := "/computeMetadata/v1/"; rq_Query := query; rq_Header := header;
   rq_RemoteAddr := remote; ctx_localAddr := Some {| ta_IP := [169; 254; 169; 254]; ta_Port := 80 |};
   ctx_saRef := None; ctx_googleEmail := None; ctx_observability := true |}.
Definition host_request : Request := request "169.254.169.254:40000" [] [].
Definition pod_request (query : list (string * string)) : Request := request "10.0.0.5:1234" query [].
Definition test_ref : Reference := {| Name := "test"; Namespace := "default" |}.

Lemma lawful : Lawful Pods.Example.known pods.
Proof.
  split.
  - intros ip [] pod [] E. unfold pods in E. cbn in E. case_bool_decide; [|done]. injection E as <-.
    subst ip. split; [apply list_elem_of_In; by left|done].
  - intros uid [] pod [] E. unfold pods in E. cbn in E. case_bool_decide; [|done]. injection E as <-.
    subst uid. split; [apply list_elem_of_In; right; by left|done].
Qed.
Lemma attests mode L : opt_Attestation (options mode) = Some L → Attests owner L.
Proof.
  intros [= <-] src dst sport dport [] uid [] _ _ E. cbn in E. case_bool_decide as H; [|done].
  injection E as <-. by destruct H.
Qed.
#[export] Instance issues : Issues (λ ref t, t = sa_tok ref) (λ t e s toks, toks = acc_toks t e s)
  (λ ref a e aud t, t = id_tok ref a e aud) tokens.
Proof. split; cbn; intros; by simplify_eq. Qed.
End ServerExample.
Import ServerExample.

Lemma pod_count_not_retried_witness :
  lookupPodByIP (options "None") ctx no_count 0 "10.9.9.9" tt =
    (Ret (Err (EMsg "no pods found in the node matching cluster ip 10.9.9.9")), tt).
Proof.
  apply (pod_count_not_retried (options "None") ctx no_count 0 "10.9.9.9" tt _ tt); [done|by left|done].
Defined.
(** The host network pod, attested in loopback mode. *)
Lemma identity_sound_witness :
  ∃ pod, caller (options RoutingModeLoopback) Pods.Example.known owner host_request tt pod ∧
         test_ref = ReferenceFromPod pod.
Proof.
  refine (proj1 (identity_sound (options RoutingModeLoopback) ctx no_count 0 Pods.Example.known owner
    host_request tt fresh_writer test_ref (with_saRef test_ref host_request) (tt, fresh_writer)
    lawful (attests _) eq_refl eq_refl _)).
  vm_compute. reflexivity.
Defined.
(** A forged X-Forwarded-For header changes nothing. *)
Lemma identity_from_connection_witness :
  reference_of (getPodServiceAccountReference (options RoutingModeNone) ctx no_count 0
    (request "10.0.0.5:1234" [] [("X-Forwarded-For", "192.168.0.2")]) (tt, fresh_writer)).1
  = Ret (Ok test_ref).
Proof.
  rewrite (proj1 (identity_from_connection (options RoutingModeNone) ctx no_count 0
    (request "10.0.0.5:1234" [] [("X-Forwarded-For", "192.168.0.2")]) (pod_request [])
    tt fresh_writer fresh_writer eq_refl eq_refl eq_refl eq_refl eq_refl)).
  vm_compute. reflexivity.
Defined.
Lemma one_strategy_witness :
  useAttestation (options RoutingModeBPF) (V4 167772165) = true ∧
  getPodServiceAccountReference (replace_byIP (λ _, panic "called") (options RoutingModeBPF)) ctx no_count 0
    (pod_request []) (tt, fresh_writer) =
  getPodServiceAccountReference (options RoutingModeBPF) ctx no_count 0 (pod_request []) (tt, fresh_writer).
Proof.
  split; [by vm_compute|].
  apply (one_strategy (options RoutingModeBPF) ctx no_count 0 (pod_request []) (V4 167772165)
    (λ _, panic "called") (λ _, panic "") None (tt, fresh_writer)); by vm_compute.
Defined.
