(* ===== verification/ServerTokens.v ===== *)
(** * The server: what the token endpoints hand out

    The two token handlers return tokens of the caller's own service account
    and of the Google service account it is annotated with, and refuse the
    requests they must refuse before any token is issued. *)

From S2P Require Import Prelude GoStrings NetIP Retry GoTime Api ServiceAccounts Pods.
From S2P Require Import HTTP Directory Tokens Attestation Preflight Server ServerIdentity.
Open Scope string_scope.
Open Scope Z_scope.

(** ** Inverting calls that succeed *)

Lemma lift_ret {W A} (m : ST W A) s a s' :
  lift m s = (Ret a, s') → ∃ x', m s.1 = (Ret a, x') ∧ s' = (x', s.2).
Proof. unfold lift, zoom. destruct (m s.1) as [o x'] eqn:E. intros [= -> <-]. eauto. Qed.
Lemma fail_not_ok {W A} r code e s (a : A) s' : fail (W:=W) r code e s ≠ (Ret (Ok a), s').
Proof. apply then_err. Qed.

Section Tokens.
Context {W : Type} (opts : ServerOptions W) (ctx : Ctx W).
Context (lookupPodFailures : string → ST W unit) (fuel : nat).
Context (Now : W → Time) (environment : W → Environment) (json_Unmarshal : string → option any).

(** The contracts of the components the server calls. *)
Context (known : Kube.Pod → Prop) (owner : W → Addr → Addr → Z → Z → string → Prop).
Context (sa_token : Reference → string → Prop).
Context (access : string → option string → list string → AccessTokens → Prop).
Context (identity : Reference → string → string → string → string → Prop).

Local Abbreviation getRef := (getPodServiceAccountReference opts ctx lookupPodFailures fuel).
Local Abbreviation getEmail := (getPodGoogleServiceAccountEmail opts ctx lookupPodFailures fuel).
Local Abbreviation getTokens :=
  (getPodGoogleAccessTokens opts ctx lookupPodFailures fuel json_Unmarshal).
Local Abbreviation token_handler' :=
  (token_handler opts ctx lookupPodFailures fuel Now environment json_Unmarshal).
Local Abbreviation identity_handler' :=
  (identity_handler opts ctx lookupPodFailures fuel environment json_Unmarshal).

(** The annotation of a service account, as the provider returned it. *)
Definition annotated (ref : Reference) (email : option string) : Prop :=
  ∃ sa w w', Get (opt_ServiceAccounts opts) ref w = (Ret (Ok sa), w') ∧
             GoogleServiceAccountEmail sa = Ok email.

(** A request passed on by the handlers of [r0], which arrived in world [x0]:
    what its context says is true of the caller. *)
Record derived (r0 : Request) (x0 : W) (r : Request) : Prop := {
  dv_remote : rq_RemoteAddr r = rq_RemoteAddr r0;
  dv_query : rq_Query r = rq_Query r0;
  dv_local : ctx_localAddr r = ctx_localAddr r0;
  dv_obs : ctx_observability r = true;
  dv_ref ref : ctx_saRef r = Some ref → ∃ pod, caller opts known owner r0 x0 pod ∧ ref = ReferenceFromPod pod;
  dv_email email : ctx_googleEmail r = Some email → ∃ ref, ctx_saRef r = Some ref ∧ annotated ref email;
}.
Lemma derived_refl r x :
  ctx_saRef r = None → ctx_googleEmail r = None → ctx_observability r = true → derived r x r.
Proof. intros H1 H2 H3. split; rewrite ?H1, ?H2; done. Qed.

Section Steps.
Context (HP : Lawful known (opt_Pods opts)).
Context (HL : ∀ L, opt_Attestation opts = Some L → Attests owner L).
Context (r0 : Request) (x0 : W).

Lemma getRef_derived r x w ref r' s' :
  derived r0 x0 r → (ctx_saRef r = None → x = x0) →
  getRef r (x, w) = (Ret (Ok (ref, r')), s') →
  derived r0 x0 r' ∧ ctx_saRef r' = Some ref ∧
  (∀ ref', ctx_saRef r = Some ref' → ref' = ref ∧ s' = (x, w) ∧ r' = r).
Proof.
  intros Hd Hx H. destruct (ctx_saRef r) as [ref'|] eqn:Hc.
  - rewrite (caller_kept _ _ _ _ r x w ref' Hc) in H. simplify_eq. split_and!; try done.
    intros ref' [= <-]. done.
  - rewrite (Hx eq_refl) in H.
    destruct (caller_found opts ctx lookupPodFailures fuel known owner r x0 w ref r' s' HP HL Hc
      (dv_obs _ _ _ Hd) H) as (pod & Hcaller & -> & ->).
    split_and!; [|done..]. destruct Hd as [E1 EQ E2 E3 E4 E5]. split; cbn; try done.
    + intros ref [= <-]. exists pod. split; [|done].
      unfold caller in *. by rewrite <- E1, <- E2.
    + intros email He. destruct (E5 email He) as (? & ? & _). congruence.
Qed.

Lemma getEmail_derived r x w email r' s' :
  derived r0 x0 r → (ctx_saRef r = None → x = x0) →
  getEmail r (x, w) = (Ret (Ok (email, r')), s') →
  derived r0 x0 r' ∧ ctx_googleEmail r' = Some email ∧
  (∀ ref, ctx_saRef r = Some ref → ctx_saRef r' = Some ref).
Proof.
  intros Hd Hx. unfold getPodGoogleServiceAccountEmail.
  destruct (ctx_googleEmail r) as [email'|] eqn:He; [by intros [= <- <- _]|].
  intros ([ref r1] & [x1 w1] & Hr & H)%bindR_ok.
  destruct (getRef_derived r x w ref r1 _ Hd Hx Hr) as (Hd1 & Hc1 & Hkeep).
  apply bind_ret in H as ([sa|e] & s2 & Hs & H); [|by apply fail_not_ok in H].
  apply lift_ret in Hs as (x2 & Hs & ->). cbn in Hs.
  destruct (GoogleServiceAccountEmail sa) as [em|e] eqn:Hem; [|by apply fail_not_ok in H].
  injection H as <- <- <-. split_and!; [|done|].
  - destruct Hd1 as [E1 EQ E2 E3 E4 E5]. split; cbn; try done. intros email [= <-].
    exists ref. split; [done|]. by exists sa, x1, x2.
  - intros ref' Hr'. cbn. rewrite Hc1. by destruct (Hkeep ref' Hr') as [-> _].
Qed.

Lemma getTokens_derived `{!Issues sa_token access identity (opt_ServiceAccountTokens opts)}
    r x w scopes toks exp r' s' :
  derived r0 x0 r → (ctx_saRef r = None → x = x0) →
  getTokens r scopes (x, w) = (Ret (Ok (toks, exp, r')), s') →
  derived r0 x0 r' ∧ ∃ ref saToken email, ctx_saRef r' = Some ref ∧ ctx_googleEmail r' = Some email ∧
    sa_token ref saToken ∧ access saToken email scopes toks ∧
    (∀ ref', ctx_saRef r = Some ref' → ref' = ref) ∧
    (∀ email', ctx_googleEmail r = Some email' → email' = email).
Proof.
  intros Hd Hx ([ref r1] & [x1 w1] & Hr & H)%bindR_ok.
  destruct (getRef_derived r x w ref r1 _ Hd Hx Hr) as (Hd1 & Hc1 & Hkeep).
  apply bind_ret in H as ([[saToken ex]|e] & s2 & Ht & H); [|by apply fail_not_ok in H].
  apply lift_ret in Ht as (x2 & Ht & ->). cbn in Ht.
  apply bindR_ok in H as ([email r2] & [x3 w3] & He & H).
  destruct (getEmail_derived r1 x2 w1 email r2 _ Hd1 ltac:(congruence) He) as (Hd2 & He2 & Hkeep2).
  apply bind_ret in H as ([[tk ex2]|e] & s4 & Ha & H); [|by apply then_err in H].
  apply lift_ret in Ha as (x4 & Ha & ->). injection H as <- <- <- <-. split; [done|].
  exists ref, saToken, email. split_and!; try done.
  - by apply Hkeep2.
  - by eapply issues_sa.
  - by eapply issues_access.
  - intros ref' Hr'. by destruct (Hkeep ref' Hr').
  - intros email' He'. destruct (dv_email _ _ _ Hd email' He') as (ref' & Hr' & _).
    destruct (Hkeep ref' Hr') as (_ & _ & ->).
    unfold getPodGoogleServiceAccountEmail in He. rewrite He' in He. by injection He.
Qed.
End Steps.

(** The preflight check touches nothing when it passes. *)
Lemma preflight_ok r s u s' :
  preflight_check environment r s = (Ret (Ok u), s') →
  s' = s ∧ Check requirements (environment s.1) = Ret (Ok tt).
Proof.
  unfold preflight_check. st_simpl. destruct (Check _ _) as [[[]|e]|m]; [by intros [= _ <-]| |done].
  intros H. by apply (then_err (RespondErrorf r 500 _)) in H.
Qed.

(** The response of the token endpoint. *)
Definition token_json (toks : AccessTokens) (n : Z) : any :=
  AMap [("access_token", AString (if bool_decide (Impersonated toks = "")
                                  then DirectAccess toks else Impersonated toks));
        ("expires_in", AInt n); ("token_type", AString "Bearer")].
Lemma token_handler_derived r0 x0 r x w v s' :
  Lawful known (opt_Pods opts) → (∀ L, opt_Attestation opts = Some L → Attests owner L) →
  Issues sa_token access identity (opt_ServiceAccountTokens opts) →
  derived r0 x0 r → (ctx_saRef r = None → x = x0) →
  token_handler' r (x, w) = (Ret (Ok v), s') →
  ∃ pod saToken email toks n, caller opts known owner r0 x0 pod ∧
    annotated (ReferenceFromPod pod) email ∧ sa_token (ReferenceFromPod pod) saToken ∧
    access saToken email (query_scopes r) toks ∧ v = token_json toks n ∧
    (∀ email', ctx_googleEmail r = Some email' → email' = email).
Proof.
  intros HP HL HI Hd0 Hx (u & s1 & Hpre & H)%bindR_ok.
  apply preflight_ok in Hpre as [-> _].
  apply bindR_ok in H as ([[toks exp] r1] & [x2 w2] & Ht & H).
  destruct (getTokens_derived HP HL r0 x0 r x w _ _ _ _ _ Hd0 Hx Ht)
    as (Hd & ref & saToken & email & Hc & He & Hsa & Hacc & _ & Hke).
  apply bind_ret in H as (s3 & s4 & Hg & H). injection Hg as <- <-. injection H as <- _.
  destruct (dv_ref _ _ _ Hd ref Hc) as (pod & Hcaller & ->).
  destruct (dv_email _ _ _ Hd email He) as (ref' & Hc' & Hann). rewrite Hc in Hc'. injection Hc' as <-.
  by eexists pod, saToken, email, toks, _.
Qed.

(** An access token that the token endpoint returns was issued for the
  caller and for nobody else: for a token of the service account of the
  pod behind the connection, with the Google service account that this
  service account (and no other) is annotated with, and with exactly the
  scopes of the query; it is the impersonated token if there is one, and
  the direct one otherwise. *)
Theorem token_endpoint_sound r x w v s' :
  Lawful known (opt_Pods opts) → (∀ L, opt_Attestation opts = Some L → Attests owner L) →
  Issues sa_token access identity (opt_ServiceAccountTokens opts) →
  ctx_saRef r = None → ctx_googleEmail r = None → ctx_observability r = true →
  token_handler' r (x, w) = (Ret (Ok v), s') →
  ∃ pod saToken email toks n, caller opts known owner r x pod ∧
    annotated (ReferenceFromPod pod) email ∧ sa_token (ReferenceFromPod pod) saToken ∧
    access saToken email (query_scopes r) toks ∧
    v = token_json toks n.
Proof.
  intros HP HL HI H1 H2 H3 H.
  destruct (token_handler_derived r x r x w v s' HP HL HI) as (pod & saToken & email & toks & n & ? & ? & ? & ? & ? & _);
    [by apply derived_refl|done..|]. by exists pod, saToken, email, toks, n.
Qed.

Lemma identity_handler_derived r0 x0 r x w v s' :
  Lawful known (opt_Pods opts) → (∀ L, opt_Attestation opts = Some L → Attests owner L) →
  Issues sa_token access identity (opt_ServiceAccountTokens opts) →
  derived r0 x0 r → (ctx_saRef r = None → x = x0) →
  identity_handler' r (x, w) = (Ret (Ok v), s') →
  trim_space (Query_Get "audience" r) ≠ "" ∧
  ∃ pod saToken email toks idToken, caller opts known owner r0 x0 pod ∧
    annotated (ReferenceFromPod pod) (Some email) ∧ sa_token (ReferenceFromPod pod) saToken ∧
    access saToken (Some email) [] toks ∧
    identity (ReferenceFromPod pod) (DirectAccess toks) email (trim_space (Query_Get "audience" r)) idToken ∧
    v = AString idToken ∧ (∀ email', ctx_googleEmail r = Some email' → email' = Some email).
Proof.
  intros HP HL HI Hd0 Hx (u & s1 & Hpre & H)%bindR_ok.
  apply preflight_ok in Hpre as [-> _]. cbv zeta in H. case_bool_decide as Haud.
  { apply bind_ret in H as (? & ? & _ & H). by apply then_err in H. }
  split; [done|].
  apply bindR_ok in H as ([email r1] & [x1 w1] & He & H).
  assert (Hk0 : ∀ email', ctx_googleEmail r = Some email' → email' = email).
  { intros email' E. unfold getPodGoogleServiceAccountEmail in He. rewrite E in He. by injection He. }
  destruct (getEmail_derived HP HL r0 x0 r x w _ _ _ Hd0 Hx He) as (Hd1 & He1 & _).
  destruct (dv_email _ _ _ Hd1 email He1) as (ref & Hc1 & Hann).
  destruct (dv_ref _ _ _ Hd1 ref Hc1) as (pod & Hcaller & ->).
  destruct email as [email|]; [|rewrite Hc1 in H; by apply then_err in H].
  apply bindR_ok in H as ([ref2 r2] & [x2 w2] & Hr & H).
  rewrite (caller_kept _ _ _ _ r1 x1 w1 _ Hc1) in Hr. injection Hr as <- <- <- <-.
  apply bindR_ok in H as ([[toks exp] r3] & [x3 w3] & Ht & H).
  destruct (getTokens_derived HP HL r0 x0 r1 x1 w1 _ _ _ _ _ Hd1 ltac:(congruence) Ht)
    as (Hd3 & ref3 & saToken & email3 & Hc3 & He3 & Hsa & Hacc & Hk & Hke).
  pose proof (Hk _ Hc1) as <-. pose proof (Hke _ He1) as <-.
  apply bind_ret in H as ([[idt ex]|e] & s4 & Hid & H); [|by apply then_err in H].
  apply lift_ret in Hid as (x4 & Hid & ->). cbn in Hid. injection H as <- _.
  exists pod, saToken, email, toks, idt. split_and!; try done. by eapply issues_identity.
Qed.

(** An identity token that the identity endpoint returns is for the
  caller: for the service account of the pod behind the connection, the
  Google service account in its annotation, which must exist, and the
  audience of the query, which must not be blank; it is asked for with a
  direct access token of that same service account. *)
Theorem identity_endpoint_sound r x w v s' :
  Lawful known (opt_Pods opts) → (∀ L, opt_Attestation opts = Some L → Attests owner L) →
  Issues sa_token access identity (opt_ServiceAccountTokens opts) →
  ctx_saRef r = None → ctx_googleEmail r = None → ctx_observability r = true →
  identity_handler' r (x, w) = (Ret (Ok v), s') →
  trim_space (Query_Get "audience" r) ≠ "" ∧
  ∃ pod saToken email toks idToken, caller opts known owner r x pod ∧
    annotated (ReferenceFromPod pod) (Some email) ∧ sa_token (ReferenceFromPod pod) saToken ∧
    access saToken (Some email) [] toks ∧
    identity (ReferenceFromPod pod) (DirectAccess toks) email (trim_space (Query_Get "audience" r)) idToken ∧
    v = AString idToken.
Proof.
  intros HP HL HI H1 H2 H3 H.
  destruct (identity_handler_derived r x r x w v s' HP HL HI) as (Ha & pod & saToken & email & toks & idt & H');
    [by apply derived_refl|done..|]. split; [done|]. destruct H' as (? & ? & ? & ? & ? & -> & _). by exists pod, saToken, email, toks, idt.
Qed.

(** The response that was started has this status. *)
Definition answered (w : ResponseWriter) (code : Z) : Prop := ∃ h, rw_sent w = Some (code, h).

(** C35: what the token endpoints refuse, and that they then issue nothing:
  when the container fails the preflight check both answer 500, and without
  an audience the identity endpoint answers 400, each before anything is
  looked up; a caller whose service account has no annotation is answered
  404 by the identity endpoint with no effect beyond the lookups. *)
Theorem token_endpoints_refuse r x w :
  ctx_observability r = true → rw_sent w = None →
  (∀ e, Check requirements (environment x) = Ret (Err e) → ∃ w',
     token_handler opts ctx lookupPodFailures fuel Now environment json_Unmarshal r (x, w) =
       (Ret (Err e), (x, w')) ∧
     identity_handler opts ctx lookupPodFailures fuel environment json_Unmarshal r (x, w) =
       (Ret (Err e), (x, w')) ∧ answered w' 500) ∧
  (Check requirements (environment x) = Ret (Ok tt) → trim_space (Query_Get "audience" r) = "" → ∃ w',
     identity_handler opts ctx lookupPodFailures fuel environment json_Unmarshal r (x, w) =
       (Ret (Err (EMsg missing_audience)), (x, w')) ∧ answered w' 400) ∧
  (∀ r' ref x1 w1, Check requirements (environment x) = Ret (Ok tt) →
     trim_space (Query_Get "audience" r) ≠ "" →
     getEmail r (x, w) = (Ret (Ok (None, r')), (x1, w1)) → ctx_saRef r' = Some ref →
     ctx_observability r' = true → rw_sent w1 = None → ∃ e w',
     identity_handler opts ctx lookupPodFailures fuel environment json_Unmarshal r (x, w) =
       (Ret (Err e), (x1, w')) ∧ answered w' 404 ∧
     rw_body w' = (rw_body w1 ++ [CText (not_annotated_text ref)])%list).
Proof.
  intros Hobs Hw.
  assert (Hok : Check requirements (environment x) = Ret (Ok tt) →
    preflight_check environment r (x, w) = (Ret (Ok tt), (x, w))).
  { intros Hc. unfold preflight_check. st_simpl. by rewrite Hc. }
  split_and!.
  - intros e He.
    assert (Hf : ∃ w' h, preflight_check environment r (x, w) = (Ret (Err e), (x, w')) ∧
                         rw_sent w' = Some (500, h)).
    { unfold preflight_check, mbind, st_bind, st_get. cbn [fst]. rewrite He.
      rewrite RespondError_run by done. by eexists _, _. }
    destruct Hf as (w' & h & Hf & Hs). exists w'. unfold answered.
    unfold token_handler, identity_handler, bindR, mbind, st_bind. rewrite Hf. eauto.
  - intros Hc Ha. unfold identity_handler, bindR, mbind, st_bind. rewrite (Hok Hc), Ha. cbn [bool_decide].
    rewrite bool_decide_eq_true_2, WriteHeader_final by done. unfold Write. st_simpl. eexists. split; [done|by eexists].
  - intros r' ref x1 w1 Hc Ha He Hr Hobs' Hw1. unfold identity_handler, bindR, mbind, st_bind.
    rewrite (Hok Hc), bool_decide_eq_false_2, He, Hr, RespondText_run by done.
    eexists _, _. split_and!; [done|by eexists|done].
Qed.
End Tokens.

(** ** Witnesses: the example server *)

Import ServerExample.
Definition example_environment (w : unit) : Environment :=
  {| KUBERNETES_SERVICE_HOST := ""; fips140_Enabled := false; os_release := Err (EMsg "") |}.
Definition no_fips (w : unit) : Environment :=
  {| KUBERNETES_SERVICE_HOST := "10.0.0.1"; fips140_Enabled := false; os_release := Err (EMsg "") |}.
Definition no_json (s : string) : option any := None.

Lemma token_endpoint_sound_witness :
  ∃ pod saToken email toks n, caller (options RoutingModeNone) Pods.Example.known owner
      (pod_request [("scopes", "a, b")]) tt pod ∧
    annotated (options RoutingModeNone) (ReferenceFromPod pod) email ∧
    saToken = sa_tok (ReferenceFromPod pod) ∧
    toks = acc_toks saToken email (query_scopes (pod_request [("scopes", "a, b")])) ∧
    AMap [("access_token", AString "gsa@p.iam.gserviceaccount.com"); ("expires_in", AInt 3600);
          ("token_type", AString "Bearer")] =
    AMap [("access_token", AString (if bool_decide (Impersonated toks = "")
                                    then DirectAccess toks else Impersonated toks));
          ("expires_in", AInt n); ("token_type", AString "Bearer")].
Proof.
  exact (token_endpoint_sound (options RoutingModeNone) ctx no_count 0 (λ _, clock 0 0) example_environment
    no_json Pods.Example.known owner (λ ref t, t = sa_tok ref) (λ t e s toks, toks = acc_toks t e s)
    (λ ref a e aud t, t = id_tok ref a e aud) (pod_request [("scopes", "a, b")]) tt fresh_writer _
    (tt, fresh_writer) lawful (attests _) issues eq_refl eq_refl eq_refl ltac:(vm_compute; reflexivity)).
Defined.
Lemma identity_endpoint_sound_witness :
  ∃ pod saToken email toks idToken, caller (options RoutingModeNone) Pods.Example.known owner
      (pod_request [("audience", "me")]) tt pod ∧
    annotated (options RoutingModeNone) (ReferenceFromPod pod) (Some email) ∧
    saToken = sa_tok (ReferenceFromPod pod) ∧ toks = acc_toks saToken (Some email) [] ∧
    idToken = id_tok (ReferenceFromPod pod) (DirectAccess toks) email "me" ∧
    AString "sa:default/test;>gsa@p.iam.gserviceaccount.com>me" = AString idToken.
Proof.
  exact (proj2 (identity_endpoint_sound (options RoutingModeNone) ctx no_count 0 example_environment
    no_json Pods.Example.known owner (λ ref t, t = sa_tok ref) (λ t e s toks, toks = acc_toks t e s)
    (λ ref a e aud t, t = id_tok ref a e aud) (pod_request [("audience", "me")]) tt fresh_writer _
    (tt, fresh_writer) lawful (attests _) issues eq_refl eq_refl eq_refl ltac:(vm_compute; reflexivity))).
Defined.
Lemma token_endpoints_refuse_witness :
  ∃ w', token_handler (options RoutingModeNone) ctx no_count 0 (λ _, clock 0 0) no_fips no_json
      (pod_request []) (tt, fresh_writer) =
        (Ret (Err (EMsg "FIPS 140-3 mode is not enabled")), (tt, w')) ∧
    identity_handler (options RoutingModeNone) ctx no_count 0 no_fips no_json
      (pod_request []) (tt, fresh_writer) =
        (Ret (Err (EMsg "FIPS 140-3 mode is not enabled")), (tt, w')) ∧
    answered w' 500.
Proof.
  exact (proj1 (token_endpoints_refuse (options RoutingModeNone) ctx no_count 0 (λ _, clock 0 0) no_fips
    no_json (pod_request []) tt fresh_writer eq_refl eq_refl) _ eq_refl).
Defined.
