(* ===== verification/ServerRoutes.v ===== *)
(** * The server: its metadata directory, its readiness and Google's errors

    Which handler serves which path of the metadata API, when the readiness
    probe passes, and how errors of the Google APIs are passed on. *)

From S2P Require Import Prelude GoStrings NetIP Retry GoTime Api ServiceAccounts Pods.
From S2P Require Import HTTP Directory Tokens Attestation Preflight Server ServerIdentity.
Open Scope string_scope.
Open Scope Z_scope.

(** ** The directory *)

Section Routes.
Context {W : Type} (opts : ServerOptions W) (ctx : Ctx W).
Context (lookupPodFailures : string → ST W unit) (fuel : nat).
Context (Now : W → Time) (environment : W → Environment) (json_Unmarshal : string → option any).

Local Abbreviation lister := (listPodGoogleServiceAccounts opts ctx lookupPodFailures fuel).
Local Abbreviation server :=
  (metadataServer_Handler opts ctx lookupPodFailures fuel Now environment json_Unmarshal).
Local Abbreviation tree := (metadataHandler opts ctx lookupPodFailures fuel Now environment json_Unmarshal).

(** The handlers below a service account, by name. *)
Definition account_handlers : list (string * MetadataHandler W) :=
  [("aliases", gkeServiceAccountAliasesAPI_handler);
   ("email", gkeServiceAccountEmailAPI_handler opts ctx lookupPodFailures fuel);
   ("identity", gkeServiceAccountIdentityAPI_handler opts ctx lookupPodFailures fuel environment json_Unmarshal);
   ("scopes", gkeServiceAccountScopesAPI_handler);
   ("token", gkeServiceAccountTokenAPI_handler opts ctx lookupPodFailures fuel Now environment json_Unmarshal)].
Definition static_handlers : list (list string * MetadataHandler W) :=
  [(["computeMetadata"; "v1"; "instance"; "name"], gkeNodeNameAPI_handler opts);
   (["computeMetadata"; "v1"; "project"; "project-id"], gkeProjectIDAPI_handler opts);
   (["computeMetadata"; "v1"; "project"; "numeric-project-id"], gkeNumericProjectIDAPI_handler opts)].

Definition leaf (p : string * MetadataHandler W) : directoryEdge W := Edge p.1 (VHandler p.2).
Definition expected_tree : directoryNode W :=
  let dir nm cs := Edge nm (VDir (Node cs None None)) in
  Node [dir "computeMetadata" [dir "v1"
    [dir "instance"
       [leaf ("name", gkeNodeNameAPI_handler opts);
        Edge "service-accounts" (VDir (Node []
          (Some (Edge "$service_account" (VDir (Node (map leaf account_handlers) None None))))
          (Some lister)))];
     dir "project"
       [leaf ("project-id", gkeProjectIDAPI_handler opts);
        leaf ("numeric-project-id", gkeNumericProjectIDAPI_handler opts)]]]] None None.

(** The directory as New logs it. *)
Lemma printed_tree :
  MarshalJSON expected_tree = AMap [("computeMetadata", AMap [("v1", AMap
    [("instance", AMap
       [("name", AString "pkghttp.MetadataHandlerFunc");
        ("serviceAccounts", AMap [("$service_account", AMap
           [("aliases", AString "pkghttp.MetadataHandlerFunc"); ("email", AString "pkghttp.MetadataHandlerFunc");
            ("identity", AString "pkghttp.TokenHandler"); ("scopes", AString "pkghttp.MetadataHandlerFunc");
            ("token", AString "pkghttp.TokenHandler")])])]);
     ("project", AMap [("projectId", AString "pkghttp.MetadataHandlerFunc");
                       ("numericProjectId", AString "pkghttp.MetadataHandlerFunc")])])])].
Proof. reflexivity. Qed.

(** No registration of [New] panics, and together they build this directory. *)
Lemma setup_tree : setup_handlers opts ctx lookupPodFailures fuel Now environment json_Unmarshal empty_node
  = (Ret tt, expected_tree).
Proof.
  unfold setup_handlers, expected_tree, account_handlers, leaf. cbn [map fst snd].
  generalize (gkeNodeNameAPI_handler opts), (gkeProjectIDAPI_handler opts),
    (gkeNumericProjectIDAPI_handler opts), lister,
    (gkeServiceAccountAliasesAPI_handler (W:=W)),
    (gkeServiceAccountEmailAPI_handler opts ctx lookupPodFailures fuel),
    (gkeServiceAccountIdentityAPI_handler opts ctx lookupPodFailures fuel environment json_Unmarshal),
    (gkeServiceAccountScopesAPI_handler (W:=W)),
    (gkeServiceAccountTokenAPI_handler opts ctx lookupPodFailures fuel Now environment json_Unmarshal).
  intros. vm_compute. reflexivity.
Qed.
Lemma tree_eq : tree = expected_tree.
Proof. unfold metadataHandler. by rewrite setup_tree. Qed.

Definition flavored (r : Request) : Prop := Header_Get MetadataFlavorHeader r = MetadataFlavorGoogle.

Lemma serve_flavored r :
  flavored r → splitPathPieces (rq_Path r) ≠ [] →
  server r = serve_pieces expected_tree (splitPathPieces (rq_Path r)) (InitRequest r).
Proof.
  intros Hf Hp. unfold metadataServer_Handler, DirectoryHandler_ServeHTTP. rewrite tree_eq.
  change (rq_Path (InitRequest r)) with (rq_Path r).
  change (Header_Get MetadataFlavorHeader (InitRequest r)) with (Header_Get MetadataFlavorHeader r).
  unfold flavored in Hf. rewrite Hf, bool_decide_eq_true_2, andb_false_r by done.
  by rewrite bool_decide_eq_false_2.
Qed.

(** A request that no header lets through is refused before any handler. *)
Lemma serve_gate r :
  splitPathPieces (rq_Path r) ≠ [] →
  server r = serve_pieces expected_tree (splitPathPieces (rq_Path r)) (InitRequest r) ∨
  server r = (_ ← WriteHeader 403; Write (CText flavor_missing_msg)).
Proof.
  intros Hp. unfold metadataServer_Handler, DirectoryHandler_ServeHTTP. rewrite tree_eq.
  change (rq_Path (InitRequest r)) with (rq_Path r).
  destruct (_ && _); [by right|left]. by rewrite bool_decide_eq_false_2.
Qed.

Lemma serve_account sa name h r s :
  (name, h) ∈ account_handlers →
  serve_pieces expected_tree ["computeMetadata"; "v1"; "instance"; "service-accounts"; sa; name] r s =
  (res ← lister r;
   match res with
   | Err _ => mret tt
   | Ok (entries, r') => if bool_decide (sa ∈ entries) then serveMetadata r' h else RespondNotFound
   end) s.
Proof.
  intros Hin. unfold expected_tree, account_handlers, leaf in *.
  revert Hin. cbn [map fst snd].
  generalize (gkeNodeNameAPI_handler opts), (gkeProjectIDAPI_handler opts),
    (gkeNumericProjectIDAPI_handler opts), lister,
    (gkeServiceAccountAliasesAPI_handler (W:=W)),
    (gkeServiceAccountEmailAPI_handler opts ctx lookupPodFailures fuel),
    (gkeServiceAccountIdentityAPI_handler opts ctx lookupPodFailures fuel environment json_Unmarshal),
    (gkeServiceAccountScopesAPI_handler (W:=W)),
    (gkeServiceAccountTokenAPI_handler opts ctx lookupPodFailures fuel Now environment json_Unmarshal).
  intros ? ? ? l ? ? ? ? ?. rewrite !elem_of_cons, elem_of_nil.
  intros [[= -> ->]|[[= -> ->]|[[= -> ->]|[[= -> ->]|[[= -> ->]|[]]]]]]; reflexivity.
Qed.

(** C21: the routes of the metadata API.  With the Metadata-Flavor header, the
  three static paths are served by their handlers whatever slashes and
  spaces surround their pieces; a path below a service account is served by
  the handler of its last piece if the account is "default" or the caller's
  own Google service account (the workload identity pool when it has none),
  with the request that carries the caller's identity, and answered 404 for
  any other account. *)
Theorem routes_served r s :
  flavored r →
  (∀ path h, (path, h) ∈ static_handlers → splitPathPieces (rq_Path r) = path →
     server r s = serveMetadata (InitRequest r) h s) ∧
  (∀ sa name h, (name, h) ∈ account_handlers →
     splitPathPieces (rq_Path r) = ["computeMetadata"; "v1"; "instance"; "service-accounts"; sa; name] →
     (∀ email r' s', getPodGoogleServiceAccountEmail opts ctx lookupPodFailures fuel (InitRequest r) s
         = (Ret (Ok (email, r')), s') →
       server r s = if decide (sa = "default" ∨ sa = default (opt_WorkloadIdentityPool opts) email)
                    then serveMetadata r' h s' else RespondNotFound s') ∧
     (∀ e s', getPodGoogleServiceAccountEmail opts ctx lookupPodFailures fuel (InitRequest r) s
         = (Ret (Err e), s') → server r s = (Ret tt, s'))).
Proof.
  intros Hf. split.
  - intros path h Hin Hp. unfold static_handlers in Hin. rewrite !elem_of_cons, elem_of_nil in Hin.
    destruct Hin as [[= -> ->]|[[= -> ->]|[[= -> ->]|[]]]];
      rewrite serve_flavored by (try done; by rewrite Hp); by rewrite Hp.
  - intros sa name h Hin Hp. rewrite serve_flavored by (try done; by rewrite Hp). rewrite Hp.
    rewrite (serve_account sa name h (InitRequest r) s Hin).
    unfold listPodGoogleServiceAccounts, getPodGoogleServiceAccountEmailOrWorkloadIdentityPool.
    split.
    + intros email r' s' E. unfold bindR, ok, mbind, mret, st_bind, st_ret. rewrite E.
      case_bool_decide as H; rewrite !elem_of_cons, elem_of_nil in H.
      * by rewrite decide_True by naive_solver.
      * by rewrite decide_False by naive_solver.
    + intros e s' E. unfold bindR, ok, mbind, mret, st_bind, st_ret. by rewrite E.
Qed.
End Routes.

(** ** Readiness *)

Section Readiness.
Context {W : Type} (opts : ServerOptions W) (ctx : Ctx W).
Context (lookupPodFailures : string → ST W unit) (fuel : nat).
Context (Now : W → Time) (environment : W → Environment) (json_Unmarshal : string → option any).

(** The self request's response carries the node name, and the lookuper, if
    there is one and the addresses are known, has captured its connection. *)
Definition self_ok (self : ST W self_response) (x : W) : Prop :=
  ∃ res x1, self x = (Ret res, x1) ∧ sr_response res = Ok (200, Ok (opt_NodeName opts)) ∧
    ∀ L loc rem, opt_Attestation opts = Some L → sr_local res = Some loc → sr_remote res = Some rem →
      (Verify L (to4_or_zero loc) (to4_or_zero rem) (ta_Port loc mod 65536)
         (ta_Port rem mod 65536) x1).1 = Ret (Ok tt).

(** C22: /readyz answers 200 exactly when the daemon, asked for its node name
    over a connection of its own, answers 200 with that name and attestation
    has captured the connection, and 500 otherwise; and the daemon does answer
    that request with 200 and its node name, so readiness comes down to the
    connection and the attestation. *)
Theorem readyz_spec self x w x' w' :
  rw_sent w = None → readyz opts self (x, w) = (Ret tt, (x', w')) →
  (∃ h, rw_sent w' = Some (200, h) ∧ self_ok self x ∨ rw_sent w' = Some (500, h) ∧ ¬ self_ok self x) ∧
  ∀ r, rq_Path r = gkeNodeNameAPI → flavored r → ∃ w1 h,
    metadataServer_Handler opts ctx lookupPodFailures fuel Now environment json_Unmarshal r (x, w)
      = (Ret tt, (x, w1)) ∧
    rw_sent w1 = Some (200, h) ∧ rw_body w1 = (rw_body w ++ [CText (opt_NodeName opts)])%list.
Proof.
  intros Hw Hr. split.
  - unfold readyz, lift, zoom, mbind, st_bind in Hr. cbn [fst] in Hr.
    destruct (self x) as [[res|m] x1] eqn:Hs; [|done].
    assert (H500 : ∀ x2, WriteHeader 500 (x2, w) = (Ret tt, (x', w')) → ¬ self_ok self x →
      ∃ h, rw_sent w' = Some (200, h) ∧ self_ok self x ∨ rw_sent w' = Some (500, h) ∧ ¬ self_ok self x).
    { intros x2. rewrite WriteHeader_final by done. intros [= <- <-] Hn. eexists. by right. }
    assert (H200 : ∀ x2, WriteHeader 200 (x2, w) = (Ret tt, (x', w')) → self_ok self x →
      ∃ h, rw_sent w' = Some (200, h) ∧ self_ok self x ∨ rw_sent w' = Some (500, h) ∧ ¬ self_ok self x).
    { intros x2. rewrite WriteHeader_final by done. intros [= <- <-] Hn. eexists. by left. }
    assert (Hres : ∀ res' x1', self x = (Ret res', x1') → res' = res ∧ x1' = x1).
    { intros ? ?. rewrite Hs. by intros [= <- <-]. }
    destruct (sr_response res) as [[code body]|e] eqn:Hres'.
    2: { apply (H500 _ Hr). intros (? & ? & [-> ->]%Hres & ? & _). congruence. }
    destruct (Z.eqb_spec code 200) as [->|Hc]; cbn [negb] in Hr.
    2: { apply (H500 _ Hr). intros (? & ? & [-> ->]%Hres & ? & _). congruence. }
    destruct body as [body|e].
    2: { apply (H500 _ Hr). intros (? & ? & [-> ->]%Hres & ? & _). congruence. }
    case_bool_decide as Hb; cbn [negb] in Hr.
    2: { apply (H500 _ Hr). intros (? & ? & [-> ->]%Hres & ? & _). congruence. }
    subst body.
    assert (Hok : (∀ L loc rem, opt_Attestation opts = Some L → sr_local res = Some loc →
      sr_remote res = Some rem → (Verify L (to4_or_zero loc) (to4_or_zero rem) (ta_Port loc mod 65536)
         (ta_Port rem mod 65536) x1).1 = Ret (Ok tt)) → self_ok self x).
    { intros H. exists res, x1. by split_and!. }
    destruct (opt_Attestation opts) as [L|] eqn:HA; [|by apply (H200 _ Hr), Hok].
    destruct (sr_local res) as [loc|] eqn:Hl; [|by apply (H200 _ Hr), Hok].
    destruct (sr_remote res) as [rem|] eqn:Hm; [|by apply (H200 _ Hr), Hok].
    cbn [fst snd] in Hr.
    destruct (Verify L (to4_or_zero loc) (to4_or_zero rem) (ta_Port loc mod 65536)
      (ta_Port rem mod 65536) x1) as [[[[]|e]|m] x2] eqn:HV; [| |done].
    + apply (H200 _ Hr), Hok. intros ? ? ? [= <-] [= <-] [= <-]. by rewrite HV.
    + apply (H500 _ Hr). intros (? & ? & [-> ->]%Hres & _ & Hv).
      specialize (Hv L loc rem HA Hl Hm). by rewrite HV in Hv.
  - intros r Hp Hf. rewrite serve_flavored; [|done|by rewrite Hp]. rewrite Hp.
    change (serve_pieces _ _ _ (x, w)) with
      (serveMetadata (InitRequest r) (gkeNodeNameAPI_handler opts) (x, w)).
    unfold serveMetadata. cbn [GetMetadata gkeNodeNameAPI_handler]. unfold mbind, st_bind, ok, mret, st_ret.
    rewrite RespondText_run by done. by eexists _, _.
Qed.
End Readiness.

(** ** Errors of the Google APIs *)

(** The status and the body that an error of a Google API carries: a
    googleapi.Error its own, an oauth2 error the ones in its text, any other
    error 500. *)
Inductive carries (e : error) : Z → string → Prop :=
| carries_api code body text : as_googleapi e = Some (code, body, text) → carries e code body
| carries_oauth pre code body :
    as_googleapi e = None → 100 ≤ code ≤ 999 →
    error_text e = pre +:+ oauthSubstring +:+ pretty code +:+ ": " +:+ body →
    str_index oauthSubstring (error_text e) = Some (String.length pre) → carries e code body
| carries_none : as_googleapi e = None → contains oauthSubstring (error_text e) = false → carries e 500 "".

Lemma Sscan_status n : 100 ≤ n ≤ 999 → Sscan_int (pretty n) = Some n ∧ ¬ str_in colon (pretty n).
Proof.
  intros Hn. assert (Hall : Forall (λ n, Sscan_int (pretty n) = Some n ∧ ¬ str_in colon (pretty n))
    (seqZ 100 900)) by (apply (bool_decide_unpack _); by vm_compute).
  rewrite Forall_forall in Hall. apply Hall, elem_of_seqZ. lia.
Qed.

Lemma carries_error e code body :
  carries e code body → ∃ e', google_api_error e = Ret (code, body, e').
Proof.
  intros [c b text H|pre c b Hn Hc Ht Hi|Hn Hc]; unfold google_api_error.
  - rewrite H. by eexists.
  - rewrite Hn, Hi, Ht. rewrite app_str_assoc, <- length_app_str, str_drop_app.
    destruct (Sscan_status c Hc) as [Hs Hno].
    change (": " +:+ b) with (String colon (" " +:+ b)). rewrite index_byte_app by done.
    rewrite str_take_app, Hs. cbn [default].
    replace (String.length (pretty c) + 2)%nat with (String.length (pretty c +:+ ": "))
      by (by rewrite length_app_str).
    change (String colon (" " +:+ b)) with (": " +:+ b).
    rewrite app_str_assoc, str_drop_app, length_app_str.
    rewrite (proj2 (Nat.leb_le _ _)) by (rewrite !length_app_str; lia). by eexists.
  - rewrite Hn. unfold contains in Hc. apply bool_decide_eq_false in Hc.
    destruct (str_index _ _) eqn:E; [by destruct Hc|]. by eexists.
Qed.

(** An error of a Google API is passed on with its own status and body: a
    googleapi.Error's, or the ones in the text of an oauth2 error; other
    errors are answered 500.  The response is one JSON error object, with the
    body as data (decoded if it is JSON), and the request is observed once. *)
Theorem google_errors_passed_on {W} (json_Unmarshal : string → option any) (r : Request) (pre : string)
    (e : error) (code : Z) (body : string) (x : W) (w : ResponseWriter) :
  (∀ s v, json_Unmarshal s = Some v → marshal_error v = None) →
  carries e code body → final_status code → ctx_observability r = true → rw_sent w = None →
  ∃ e' data w', respondGoogleAPIErrorf json_Unmarshal r pre e (x, w) = (Ret tt, (x, w')) ∧
    (∃ h, rw_sent w' = Some (code, h)) ∧
    rw_body w' = (rw_body w ++ [CJson (errorObject code (EWrap pre e' "") data)])%list ∧
    data = match json_Unmarshal body with
           | Some ANil | None => if bool_decide (body = "") then [] else [AString body]
           | Some v => [v]
           end ∧
    ∃ o, rw_observed w' = (rw_observed w ++ [o])%list ∧ ob_status o = code.
Proof.
  intros Hjson Hc Hf Hr Hw. destruct (carries_error e code body Hc) as [e' He].
  unfold respondGoogleAPIErrorf. rewrite He.
  set (data := match json_Unmarshal body with
               | Some ANil | None => if bool_decide (body = "") then [] else [AString body]
               | Some v => [v]
               end).
  assert (Hd : marshal_error (errorObject code (EWrap pre e' "") data) = None).
  { unfold data. destruct (json_Unmarshal body) as [v|] eqn:Ej.
    - pose proof (Hjson _ _ Ej). destruct v; try by apply errorObject_marshals_data.
      by case_bool_decide.
    - by case_bool_decide. }
  assert (Hrun : RespondError r code (EWrap pre e' "") data (x, w) =
    (Ret tt, (x, responded w r "application/json" code (CJson (errorObject code (EWrap pre e' "") data))
                   (Some (EWrap pre e' ""))))).
  { unfold RespondError, RespondJSON. rewrite Hd. by apply respondMarshaled_run. }
  exists e', data. eexists. split.
  { etransitivity; [|exact Hrun]. unfold data. destruct (json_Unmarshal body) as [[]|]; try done.
    all: by case_bool_decide. }
  split_and!; try done; by eexists.
Qed.

(** An oauth2 error whose text ends right after the colon of its status makes
    the handler panic. *)
Lemma google_error_panics :
  google_api_error (EMsg "oauth2/google: status code 400:") = Panic "slice bounds out of range".
Proof. by vm_compute. Qed.

(** ** Witnesses *)

Import ServerExample.
Lemma routes_served_witness :
  let r := {| rq_Method := "GET"; rq_Path := "/computeMetadata/v1/project/project-id"; rq_Query := [];
              rq_Header := [(MetadataFlavorHeader, MetadataFlavorGoogle)]; rq_RemoteAddr := "10.0.0.5:1";
              ctx_localAddr := None; ctx_saRef := None; ctx_googleEmail := None;
              ctx_observability := false |} in
  metadataServer_Handler (options RoutingModeNone) ctx no_count 0 (λ _, clock 0 0)
    (λ _, {| KUBERNETES_SERVICE_HOST := ""; fips140_Enabled := false; os_release := Ok "" |}) (λ _, None)
    r (tt, fresh_writer) =
  serveMetadata (InitRequest r) (gkeProjectIDAPI_handler (options RoutingModeNone)) (tt, fresh_writer).
Proof.
  intros r.
  apply (proj1 (routes_served (options RoutingModeNone) ctx no_count 0 (λ _, clock 0 0)
    (λ _, {| KUBERNETES_SERVICE_HOST := ""; fips140_Enabled := false; os_release := Ok "" |}) (λ _, None)
    r (tt, fresh_writer) eq_refl) ["computeMetadata"; "v1"; "project"; "project-id"]).
  - right. left.
  - by vm_compute.
Defined.
Lemma readyz_spec_witness :
  let self : ST unit self_response := λ w,
    (Ret {| sr_local := None; sr_remote := None; sr_response := Ok (200, Ok "node-1") |}, w) in
  ∃ h, rw_sent (readyz (options RoutingModeBPF) self (tt, fresh_writer)).2.2 = Some (200, h) ∧
       self_ok (options RoutingModeBPF) self tt ∨
       rw_sent (readyz (options RoutingModeBPF) self (tt, fresh_writer)).2.2 = Some (500, h) ∧
       ¬ self_ok (options RoutingModeBPF) self tt.
Proof.
  intros self.
  apply (proj1 (readyz_spec (options RoutingModeBPF) ctx no_count 0 (λ _, clock 0 0)
    (λ _, {| KUBERNETES_SERVICE_HOST := ""; fips140_Enabled := false; os_release := Ok "" |}) (λ _, None)
    self tt fresh_writer tt (readyz (options RoutingModeBPF) self (tt, fresh_writer)).2.2
    eq_refl ltac:(vm_compute; reflexivity))).
Defined.
Lemma google_errors_passed_on_witness :
  let e := EWrap "" (EMsg "oauth2/google: status code 403: denied") "" in
  ∃ e' data w', respondGoogleAPIErrorf (λ _, None) (pod_request []) "error: " e (tt, fresh_writer)
      = (Ret tt, (tt, w')) ∧
    (∃ h, rw_sent w' = Some (403, h)) ∧
    rw_body w' = [CJson (errorObject 403 (EWrap "error: " e' "") data)] ∧ data = [AString "denied"] ∧
    ∃ o, rw_observed w' = [o] ∧ ob_status o = 403.
Proof.
  intros e.
  apply (google_errors_passed_on (λ _, None) (pod_request []) "error: " e 403 "denied" tt fresh_writer);
    try done.
  apply (carries_oauth e "" 403 "denied"); by vm_compute.
Defined.
