(* ===== verification/ServerResponse.v ===== *)
(** * The server: whose token a response can carry

    From the HTTP request to the bytes that go back: the composition of the
    middleware, the directory, the lister and the token handler, with what
    every error path writes.  The only response that holds an access token is
    the caller's. *)

From S2P Require Import Prelude GoStrings NetIP Retry GoTime Api ServiceAccounts Pods.
From S2P Require Import HTTP Directory Tokens Attestation Preflight Server ServerIdentity.
From S2P Require Import ServerTokens ServerRoutes.
Open Scope string_scope.
Open Scope Z_scope.

(** ** What is written *)

Section Writes.
Context {W : Type} (P : chunk → Prop).
(** Error objects are harmless. *)
Context (HError : ∀ code e data, P (CJson (errorObject code e data))).

Definition body_ok (s : W * ResponseWriter) : Prop := Forall P (rw_body s.2).
Abbreviation harmless m := (keeps body_ok m).

Lemma keeps_bindR {A B} (m : HM W (result A)) (k : A → HM W (result B)) :
harmless m → (∀ a, harmless (k a)) → harmless (bindR m k).
Proof. intros Hm Hk. apply keeps_bind; [done|]. intros [a|e]; [apply Hk|apply keeps_ret]. Qed.
Lemma harmless_lift {A} (m : ST W A) : harmless (lift m).
Proof. intros [x w] Hw. unfold lift, zoom. cbn. by destruct (m x). Qed.
Lemma harmless_modify f : (∀ w, rw_body (f w) = rw_body w) → harmless (modify_writer (W:=W) f).
Proof. intros Hf [x w] Hw. unfold body_ok in *. cbn in *. by rewrite Hf. Qed.
Lemma harmless_get : harmless st_get.
Proof. by intros s Hs. Qed.
Lemma harmless_panic {A} msg : harmless (panic msg : HM W A).
Proof. by intros s Hs. Qed.
Lemma harmless_header k v : harmless (Header_Set (W:=W) k v).
Proof. by apply harmless_modify. Qed.
Lemma harmless_WriteHeader code : harmless (WriteHeader (W:=W) code).
Proof.
apply keeps_bind; [apply harmless_get|]. intros s.
cbv zeta. destruct (bool_decide _); [apply keeps_ret|]. destruct (_ || _); [apply harmless_panic|].
destruct (_ && _); [apply keeps_ret|by apply harmless_modify].
Qed.
Lemma harmless_Write c : P c → harmless (Write (W:=W) c).
Proof.
intros Hc. apply keeps_bind; [apply harmless_WriteHeader|]. intros [] [x w] Hw. unfold body_ok in *. cbn in *.
apply Forall_app. split; [done|]. by apply Forall_singleton.
Qed.
Lemma harmless_observe r code e : harmless (observeRequest (W:=W) r code e).
Proof.
unfold observeRequest. destruct (ctx_observability r); [|apply harmless_panic].
destruct (observe_level _ _). by apply harmless_modify.
Qed.
Lemma harmless_headers ct code : harmless (setGKEMetadataServerHeaders (W:=W) ct code).
Proof.
apply keeps_bind; [apply harmless_header|]. intros []. case_match; [|apply keeps_ret].
apply keeps_bind; [apply harmless_header|]. intros []. apply harmless_header.
Qed.
Lemma harmless_marshaled r code obj e : P (CJson obj) → harmless (respondMarshaled (W:=W) r code obj e).
Proof.
intros Ho. apply keeps_bind; [apply harmless_headers|]. intros [].
apply keeps_bind; [apply harmless_WriteHeader|]. intros [].
apply keeps_bind; [by apply harmless_Write|]. intros []. apply harmless_observe.
Qed.
Lemma harmless_RespondText r code t : P (CText t) → harmless (RespondText (W:=W) r code t).
Proof.
intros Ht. apply keeps_bind; [apply harmless_headers|]. intros [].
apply keeps_bind; [apply harmless_WriteHeader|]. intros [].
apply keeps_bind; [by apply harmless_Write|]. intros []. apply harmless_observe.
Qed.
Lemma harmless_RespondError r code e data : harmless (RespondError (W:=W) r code e data).
Proof. unfold RespondError, RespondJSON. case_match; by apply harmless_marshaled. Qed.
Lemma harmless_fail {A} r code e : harmless (fail (W:=W) (A:=A) r code e).
Proof. apply keeps_bind; [apply harmless_RespondError|]. intros []. apply keeps_ret. Qed.
End Writes.

Section Server.
Context {W : Type} (opts : ServerOptions W) (ctx : Ctx W).
Context (lookupPodFailures : string → ST W unit) (fuel : nat).
Context (Now : W → Time) (environment : W → Environment) (json_Unmarshal : string → option any).
Context (P : chunk → Prop).
Context (HError : ∀ code e data, P (CJson (errorObject code e data))).
Abbreviation harmless m := (keeps (body_ok (W:=W) P) m).

(** Every lookup on the way to a token writes errors at most. *)
Lemma harmless_getRef r : harmless (getPodServiceAccountReference opts ctx lookupPodFailures fuel r).
Proof.
unfold getPodServiceAccountReference. destruct (ctx_saRef r); [apply keeps_ret|].
destruct (SplitHostPort _) as [[h p]|]; [|by apply harmless_fail].
destruct (ParseAddr h); [|by apply harmless_fail].
destruct (useAttestation _ _); (apply keeps_bind; [apply harmless_lift|]); intros [pod|e];
  first [apply keeps_ret|by apply harmless_fail].
Qed.
Lemma harmless_getEmail r : harmless (getPodGoogleServiceAccountEmail opts ctx lookupPodFailures fuel r).
Proof.
unfold getPodGoogleServiceAccountEmail. destruct (ctx_googleEmail r); [apply keeps_ret|].
apply keeps_bindR; [apply harmless_getRef|]. intros [ref r'].
apply keeps_bind; [apply harmless_lift|]. intros [sa|e]; [|by apply harmless_fail].
destruct (GoogleServiceAccountEmail sa); [apply keeps_ret|by apply harmless_fail].
Qed.
Lemma harmless_lister r : harmless (listPodGoogleServiceAccounts opts ctx lookupPodFailures fuel r).
Proof.
apply keeps_bindR; [|intros [email r']; apply keeps_ret].
apply keeps_bindR; [apply harmless_getEmail|]. intros [email r']. apply keeps_ret.
Qed.
Lemma harmless_google r pre e : harmless (respondGoogleAPIErrorf (W:=W) json_Unmarshal r pre e).
Proof.
unfold respondGoogleAPIErrorf. destruct (google_api_error e) as [[[code body] e']|msg]; [|apply harmless_panic].
repeat case_match; by apply harmless_RespondError.
Qed.
Lemma harmless_getTokens r scopes :
harmless (getPodGoogleAccessTokens opts ctx lookupPodFailures fuel json_Unmarshal r scopes).
Proof.
apply keeps_bindR; [apply harmless_getRef|]. intros [ref r1].
apply keeps_bind; [apply harmless_lift|]. intros [[t x]|e]; [|by apply harmless_fail].
apply keeps_bindR; [apply harmless_getEmail|]. intros [email r2].
apply keeps_bind; [apply harmless_lift|]. intros [[toks x']|e]; [apply keeps_ret|].
apply keeps_bind; [apply harmless_google|]. intros []. apply keeps_ret.
Qed.
Lemma harmless_preflight r : harmless (preflight_check (W:=W) environment r).
Proof.
apply keeps_bind; [apply harmless_get|]. intros s.
destruct (Check _ _) as [[[]|e]|m]; [apply keeps_ret| |apply harmless_panic].
apply keeps_bind; [by apply harmless_RespondError|]. intros []. apply keeps_ret.
Qed.
Lemma harmless_token_handler r :
harmless (token_handler opts ctx lookupPodFailures fuel Now environment json_Unmarshal r).
Proof.
apply keeps_bindR; [apply harmless_preflight|]. intros [].
apply keeps_bindR; [apply harmless_getTokens|]. intros [[toks x] r1].
apply keeps_bind; [apply harmless_get|]. intros s. apply keeps_ret.
Qed.
Lemma harmless_identity_handler r :
P (CText (missing_audience +:+ one newline)) → (∀ ref, P (CText (not_annotated_text ref))) →
harmless (identity_handler opts ctx lookupPodFailures fuel environment json_Unmarshal r).
Proof.
intros Haud Hann. apply keeps_bindR; [apply harmless_preflight|]. intros []. cbv zeta.
case_bool_decide.
{ apply keeps_bind; [apply harmless_WriteHeader|]. intros [].
  apply keeps_bind; [by apply harmless_Write|]. intros []. apply keeps_ret. }
apply keeps_bindR; [apply harmless_getEmail|]. intros [[email|] r1].
- apply keeps_bindR; [apply harmless_getRef|]. intros [ref r2].
  apply keeps_bindR; [apply harmless_getTokens|]. intros [[toks e] r3].
  apply keeps_bind; [apply harmless_lift|]. intros [[t e']|e']; [apply keeps_ret|].
  apply keeps_bind; [apply harmless_google|]. intros []. apply keeps_ret.
- destruct (ctx_saRef r1); [|apply harmless_panic].
  apply keeps_bind; [by apply harmless_RespondText|]. intros []. apply keeps_ret.
Qed.
End Server.

(** The refusal of a request without the header. *)
Lemma harmless_refused {W} (P : chunk → Prop) msg (s s' : W * ResponseWriter) u :
  P (CText msg) → (_ ← WriteHeader 403; Write (CText msg)) s = (u, s') →
  Forall P (rw_body s.2) → Forall P (rw_body s'.2).
Proof.
  intros Hm H Hs. assert (Hk : keeps (body_ok (W:=W) P) (_ ← WriteHeader 403; Write (CText msg))).
  { apply keeps_bind; [apply harmless_WriteHeader|]. intros []. by apply harmless_Write. }
  specialize (Hk s Hs). by rewrite H in Hk.
Qed.

(** ** The token in a response *)

(** A chunk of a response that holds an access token. *)
Definition holds_token (c : chunk) (t : string) : Prop :=
  ∃ m, c = CJson (AMap m) ∧ assoc "access_token" m = Some (AString t).
Definition tokenless (c : chunk) : Prop := ∀ t, ¬ holds_token c t.
Lemma tokenless_text t : tokenless (CText t).
Proof. by intros t' (m & ? & _). Qed.
Lemma tokenless_error code e data : tokenless (CJson (errorObject code e data)).
Proof. intros t (m & [= <-] & Ha). by cbn in Ha. Qed.

(** The texts that refuse a request for an identity token. *)
Definition refusal_text (t : string) : Prop :=
  t = flavor_missing_msg ∨ t = missing_audience +:+ one newline ∨ ∃ ref, t = not_annotated_text ref.
Definition refusal (c : chunk) : Prop := ∀ t, c = CText t → refusal_text t.
Lemma refusal_error code e data : refusal (CJson (errorObject code e data)).
Proof. by intros t [=]. Qed.
Lemma refusal_audience : refusal (CText (missing_audience +:+ one newline)).
Proof. intros t [= <-]. right. by left. Qed.
Lemma refusal_flavor : refusal (CText flavor_missing_msg).
Proof. intros t [= <-]. by left. Qed.
Lemma refusal_annotation ref : refusal (CText (not_annotated_text ref)).
Proof. intros t [= <-]. right. right. by exists ref. Qed.

Section Body.
Context {W : Type}.
Implicit Types s : W * ResponseWriter.

Lemma WriteHeader_body code s s1 : WriteHeader code s = (Ret tt, s1) → rw_body s1.2 = rw_body s.2.
Proof.
  unfold WriteHeader. st_simpl.
  destruct (bool_decide _); [by intros [= <-]|]. destruct (_ || _); [done|].
  destruct (_ && _); by intros [= <-].
Qed.
(** A response that is written whole adds one chunk. *)
Lemma respond_body ct r code c e s s' :
  (_ ← setGKEMetadataServerHeaders ct code; _ ← WriteHeader code; _ ← Write c; observeRequest r code e) s
    = (Ret tt, s') → rw_body s'.2 = (rw_body s.2 ++ [c])%list.
Proof.
  intros ([] & s1 & H1 & H)%bind_ret. destruct s as [x w]. rewrite setHeaders_run in H1. injection H1 as <-.
  apply bind_ret in H as ([] & s2 & H2%WriteHeader_body & H).
  apply bind_ret in H as ([] & s3 & H3 & H).
  apply bind_ret in H3 as ([] & s4 & H4%WriteHeader_body & H3). injection H3 as <-.
  unfold observeRequest in H. destruct (ctx_observability r); [|done].
  destruct (observe_level _ _). injection H as <-. cbn in *. by rewrite H4, H2.
Qed.
Lemma respondMarshaled_body r code obj e s s' :
  respondMarshaled r code obj e s = (Ret tt, s') → rw_body s'.2 = (rw_body s.2 ++ [CJson obj])%list.
Proof. apply respond_body. Qed.
Lemma respondText_body r code t s s' :
  RespondText r code t s = (Ret tt, s') → rw_body s'.2 = (rw_body s.2 ++ [CText t])%list.
Proof. apply respond_body. Qed.
End Body.

Section Response.
Context {W : Type} (opts : ServerOptions W) (ctx : Ctx W).
Context (lookupPodFailures : string → ST W unit) (fuel : nat).
Context (Now : W → Time) (environment : W → Environment) (json_Unmarshal : string → option any).
Context (known : Kube.Pod → Prop) (owner : W → Addr → Addr → Z → Z → string → Prop).
Context (sa_token : Reference → string → Prop).
Context (access : string → option string → list string → AccessTokens → Prop).
Context (identity : Reference → string → string → string → string → Prop).

(** What the account list leaves behind: the caller's email. *)
Lemma lister_derived r x w entries r1 x1 w1 :
  Lawful known (opt_Pods opts) → (∀ L, opt_Attestation opts = Some L → Attests owner L) →
  ctx_saRef r = None → ctx_googleEmail r = None →
  listPodGoogleServiceAccounts opts ctx lookupPodFailures fuel (InitRequest r) (x, w)
    = (Ret (Ok (entries, r1)), (x1, w1)) →
  ∃ oemail, entries = ["default"; default (opt_WorkloadIdentityPool opts) oemail] ∧
    derived opts known owner (InitRequest r) x r1 ∧ ctx_googleEmail r1 = Some oemail.
Proof.
  intros HP HL H1 H2 Hlist. unfold listPodGoogleServiceAccounts in Hlist.
  apply bindR_ok in Hlist as ([email r2] & s2 & Hlist & E). injection E as <- <- ->.
  apply bindR_ok in Hlist as ([oemail r3] & s3 & Hemail & E). injection E as <- <- ->.
  destruct (getEmail_derived opts ctx lookupPodFailures fuel known owner HP HL (InitRequest r) x
    (InitRequest r) x w oemail r3 (x1, w1)) as (Hd & He & _); [by apply derived_refl|done|done|].
  by exists oemail.
Qed.

(** The token that leaves the daemon is the caller's.  Take any request below
  a service account's token path, with any headers, over a response
  that holds no token yet.  If the server returns and the response holds an
  access token, then the account named in the path is "default" or the
  caller's own, and the token was issued for a token of the service account
  of the pod behind the connection, with that service account's annotation
  and the scopes of the query; it is the impersonated token if there is one
  and the direct one otherwise.  No error response holds a token. *)
Theorem token_response_sound r sa x w x' w' c t :
  Lawful known (opt_Pods opts) → (∀ L, opt_Attestation opts = Some L → Attests owner L) →
  Issues sa_token access identity (opt_ServiceAccountTokens opts) →
  ctx_saRef r = None → ctx_googleEmail r = None →
  splitPathPieces (rq_Path r) = ["computeMetadata"; "v1"; "instance"; "service-accounts"; sa; "token"] →
  Forall tokenless (rw_body w) →
  metadataServer_Handler opts ctx lookupPodFailures fuel Now environment json_Unmarshal r (x, w)
    = (Ret tt, (x', w')) →
  c ∈ rw_body w' → holds_token c t →
  ∃ pod saToken email toks, caller opts known owner r x pod ∧
    annotated opts (ReferenceFromPod pod) email ∧ sa_token (ReferenceFromPod pod) saToken ∧
    access saToken email (query_scopes r) toks ∧
    sa ∈ ["default"; default (opt_WorkloadIdentityPool opts) email] ∧
    t = if bool_decide (Impersonated toks = "") then DirectAccess toks else Impersonated toks.
Proof.
  intros HP HL HI H1 H2 Hp Hw Hs Hc Ht.
  assert (Hno : ¬ Forall tokenless (rw_body w')).
  { rewrite Forall_forall. intros Hall. by apply (Hall c Hc t). }
  destruct (serve_gate opts ctx lookupPodFailures fuel Now environment json_Unmarshal r) as [Hg|Hg];
    [by rewrite Hp| |]; rewrite Hg in Hs.
  2: { by destruct (Hno (harmless_refused tokenless _ _ _ _ (tokenless_text _) Hs Hw)). }
  rewrite Hp in Hs.
  rewrite (serve_account opts ctx lookupPodFailures fuel Now environment json_Unmarshal sa "token"
    (gkeServiceAccountTokenAPI_handler opts ctx lookupPodFailures fuel Now environment json_Unmarshal))
    in Hs by (unfold account_handlers; set_solver).
  pose proof (harmless_lister opts ctx lookupPodFailures fuel tokenless tokenless_error (InitRequest r) (x, w) Hw)
    as Hl.
  apply bind_ret in Hs as (res & [x1 w1] & Hlist & Hs). rewrite Hlist in Hl. unfold body_ok in Hl. cbn in Hl.
  destruct res as [[entries r1]|e]; [|injection Hs as <- <-; done].
  destruct (lister_derived r x w entries r1 x1 w1 HP HL H1 H2 Hlist) as (oemail & -> & Hd & He).
  case_bool_decide as Hsa.
  2: { pose proof (harmless_WriteHeader tokenless 404 (x1, w1) Hl) as Hk. unfold RespondNotFound in Hs.
       rewrite Hs in Hk. done. }
  unfold serveMetadata in Hs. apply bind_ret in Hs as (v & [x2 w2] & Hv & Hs).
  change (GetMetadata _ r1) with (token_handler opts ctx lookupPodFailures fuel Now environment json_Unmarshal r1) in Hv.
  pose proof (harmless_token_handler opts ctx lookupPodFailures fuel Now environment json_Unmarshal tokenless
    tokenless_error r1 (x1, w1) Hl) as Hh. rewrite Hv in Hh. unfold body_ok in Hh. cbn in Hh.
  destruct v as [v|e]; [|injection Hs as <- <-; done].
  destruct (token_handler_derived opts ctx lookupPodFailures fuel Now environment json_Unmarshal known owner
    sa_token access identity (InitRequest r) x r1 x1 w1 v (x2, w2) HP HL HI Hd) as
    (pod & saToken & email & toks & n & Hcaller & Hann & Hsat & Hacc & -> & Hem).
  { intros Hn. destruct (dv_email _ _ _ _ _ _ Hd oemail He) as (ref & Hr & _). congruence. }
  { exact Hv. }
  unfold token_json, RespondJSON in Hs. cbn in Hs. apply respondMarshaled_body in Hs. cbn in Hs.
  rewrite <- (Hem oemail He) in *. exists pod, saToken, oemail, toks. split_and!; try done.
  { unfold query_scopes, Query_Get in *. by rewrite <- (dv_query _ _ _ _ _ _ Hd : rq_Query r1 = rq_Query r). }
  rewrite Hs, elem_of_app, list_elem_of_singleton in Hc. destruct Hc as [Hc| ->].
  { rewrite Forall_forall in Hh. by destruct (Hh c Hc t). }
  destruct Ht as (m & [= <-] & Ha). cbn in Ha. by injection Ha as <-.
Qed.

(** The identity token that leaves the daemon is the caller's.  Take any request
  below a service account's identity path, with any headers.  Every
  text in the response, if there was none before, is one of the three
  texts that refuse the request, or an identity token for the service account of
  the pod behind the connection, the Google service account it is annotated
  with and the audience of the query; the account named in the path is then
  "default" or that one. *)
Lemma identity_response_sound r sa x w x' w' t :
  Lawful known (opt_Pods opts) → (∀ L, opt_Attestation opts = Some L → Attests owner L) →
  Issues sa_token access identity (opt_ServiceAccountTokens opts) →
  ctx_saRef r = None → ctx_googleEmail r = None →
  splitPathPieces (rq_Path r) = ["computeMetadata"; "v1"; "instance"; "service-accounts"; sa; "identity"] →
  Forall refusal (rw_body w) →
  metadataServer_Handler opts ctx lookupPodFailures fuel Now environment json_Unmarshal r (x, w)
    = (Ret tt, (x', w')) →
  CText t ∈ rw_body w' → refusal_text t ∨
  ∃ pod saToken email toks, caller opts known owner r x pod ∧
    annotated opts (ReferenceFromPod pod) (Some email) ∧ sa_token (ReferenceFromPod pod) saToken ∧
    access saToken (Some email) [] toks ∧
    identity (ReferenceFromPod pod) (DirectAccess toks) email (trim_space (Query_Get "audience" r)) t ∧
    sa ∈ ["default"; email].
Proof.
  intros HP HL HI H1 H2 Hp Hw Hs Ht.
  assert (Hno : Forall refusal (rw_body w') → refusal_text t).
  { rewrite Forall_forall. intros Hall. by apply (Hall _ Ht). }
  destruct (serve_gate opts ctx lookupPodFailures fuel Now environment json_Unmarshal r) as [Hg|Hg];
    [by rewrite Hp| |]; rewrite Hg in Hs.
  2: { left. exact (Hno (harmless_refused refusal _ _ _ _ refusal_flavor Hs Hw)). }
  rewrite Hp in Hs.
  rewrite (serve_account opts ctx lookupPodFailures fuel Now environment json_Unmarshal sa "identity"
    (gkeServiceAccountIdentityAPI_handler opts ctx lookupPodFailures fuel environment json_Unmarshal))
    in Hs by (unfold account_handlers; set_solver).
  pose proof (harmless_lister opts ctx lookupPodFailures fuel refusal refusal_error (InitRequest r) (x, w) Hw)
    as Hl.
  apply bind_ret in Hs as (res & [x1 w1] & Hlist & Hs). rewrite Hlist in Hl. unfold body_ok in Hl. cbn in Hl.
  destruct res as [[entries r1]|e]; [|injection Hs as <- <-; left; by apply Hno].
  destruct (lister_derived r x w entries r1 x1 w1 HP HL H1 H2 Hlist) as (oemail & -> & Hd & He).
  case_bool_decide as Hsa.
  2: { pose proof (harmless_WriteHeader refusal 404 (x1, w1) Hl) as Hk. unfold RespondNotFound in Hs.
       rewrite Hs in Hk. left. by apply Hno. }
  unfold serveMetadata in Hs. apply bind_ret in Hs as (v & [x2 w2] & Hv & Hs).
  change (GetMetadata _ r1) with (identity_handler opts ctx lookupPodFailures fuel environment json_Unmarshal r1)
    in Hv.
  pose proof (harmless_identity_handler opts ctx lookupPodFailures fuel environment json_Unmarshal refusal
    refusal_error r1 refusal_audience refusal_annotation (x1, w1) Hl) as Hh.
  rewrite Hv in Hh. unfold body_ok in Hh. cbn in Hh.
  destruct v as [v|e]; [|injection Hs as <- <-; left; by apply Hno].
  destruct (identity_handler_derived opts ctx lookupPodFailures fuel environment json_Unmarshal known owner
    sa_token access identity (InitRequest r) x r1 x1 w1 v (x2, w2) HP HL HI Hd) as
    (_ & pod & saToken & email & toks & idt & Hcaller & Hann & Hsat & Hacc & Hid & -> & Hem).
  { intros Hn. destruct (dv_email _ _ _ _ _ _ Hd oemail He) as (ref & Hr & _). congruence. }
  { exact Hv. }
  apply respondText_body in Hs. cbn in Hs. pose proof (Hem oemail He) as ->.
  rewrite Hs, elem_of_app, list_elem_of_singleton in Ht. destruct Ht as [Ht|[= ->]].
  { left. rewrite Forall_forall in Hh. by apply (Hh _ Ht). }
  right. exists pod, saToken, email, toks. split_and!; try done.
  unfold Query_Get in *. by rewrite <- (dv_query _ _ _ _ _ _ Hd : rq_Query r1 = rq_Query r).
Qed.
End Response.

(** ** Witness: the example server asked for a token *)

Import ServerExample.
Definition token_request : Request :=
  {| rq_Method := "GET"; rq_Path := "/computeMetadata/v1/instance/service-accounts/default/token";
     rq_Query := [("scopes", "a")]; rq_Header := [(MetadataFlavorHeader, MetadataFlavorGoogle)];
     rq_RemoteAddr := "10.0.0.5:1234"; ctx_localAddr := None; ctx_saRef := None;
     ctx_googleEmail := None; ctx_observability := false |}.
Definition token_answer : outcome unit * (unit * ResponseWriter) :=
  metadataServer_Handler (options RoutingModeNone) ctx no_count 0 (λ _, clock 0 0) example_environment no_json
    token_request (tt, fresh_writer).
Definition token_chunk : chunk :=
  CJson (token_json {| DirectAccess := ""; Impersonated := "gsa@p.iam.gserviceaccount.com" |} 3600).

Lemma token_response_sound_witness :
  rw_body token_answer.2.2 = [token_chunk] ∧
  ∃ pod saToken email toks, caller (options RoutingModeNone) Pods.Example.known owner token_request tt pod ∧
    annotated (options RoutingModeNone) (ReferenceFromPod pod) email ∧
    saToken = sa_tok (ReferenceFromPod pod) ∧ toks = acc_toks saToken email (query_scopes token_request) ∧
    "default" ∈ ["default"; default (opt_WorkloadIdentityPool (options RoutingModeNone)) email] ∧
    "gsa@p.iam.gserviceaccount.com" =
      if bool_decide (Impersonated toks = "") then DirectAccess toks else Impersonated toks.
Proof.
  split; [by vm_compute|].
  apply (token_response_sound (options RoutingModeNone) ctx no_count 0 (λ _, clock 0 0) example_environment
    no_json Pods.Example.known owner (λ ref t, t = sa_tok ref) (λ t e s toks, toks = acc_toks t e s)
    (λ ref a e aud t, t = id_tok ref a e aud) token_request "default" tt fresh_writer tt
    token_answer.2.2 token_chunk "gsa@p.iam.gserviceaccount.com" lawful (attests _) issues);
    [done|done|by vm_compute|by apply Forall_nil_2|by vm_compute|..].
  - replace (rw_body token_answer.2.2) with [token_chunk] by (by vm_compute). by apply list_elem_of_singleton.
  - by eexists.
Defined.
