(* ===== verification/ServerNew.v ===== *)
(** * server.New: the two HTTP servers

    What server.New puts together around the handlers of Server.v: the context
    of a connection, the observability middleware, the mux of the health
    server with its three endpoints, and the addresses of both servers.
    net/http makes a request of a message on an accepted connection. *)

From S2P Require Import Prelude GoStrings NetIP Retry GoTime Api ServiceAccounts HTTP ServeMux Directory Preflight.
From S2P Require Import Server ServerIdentity ServerTokens ServerRoutes.
Open Scope string_scope.
Open Scope Z_scope.

(** ** net/http *)

(** An accepted connection; [conn_LocalAddr] is absent when it is not a TCP
    address.  A message is what the client sends on it. *)
Record Conn : Type := { conn_RemoteAddr : string; conn_LocalAddr : option TCPAddr }.
Record Message : Type := {
  msg_Method : string;
  msg_Path : string;
  msg_Query : list (string * string);
  msg_Header : list (string * string);
}.

(** ** server.go: New *)

(** The fields of http.Server that New sets; its base context only holds the
    logger. *)
Record http_Server (W : Type) : Type := {
  hs_Addr : string;
  hs_ConnContext : Conn → option TCPAddr;
  hs_Handler : Handler W;
}.
Arguments hs_Addr {W} _.
Arguments hs_ConnContext {W} _ _.
Arguments hs_Handler {W} _.
Record Server (W : Type) : Type := {
  srv_opts : ServerOptions W;
  metadataServer : http_Server W;
  healthServer : http_Server W;
}.
Arguments srv_opts {W} _.
Arguments metadataServer {W} _.
Arguments healthServer {W} _.

(** ConnContext of the metadata server: the local address goes into the context
    of the connection.  The health server has none. *)
Definition ConnContext (c : Conn) : option TCPAddr := conn_LocalAddr c.
Definition no_ConnContext (c : Conn) : option TCPAddr := None.
(** The request net/http makes of a message: its peer is the connection's, and
    its context is the connection's. *)
Definition server_request (connContext : Conn → option TCPAddr) (c : Conn) (m : Message) : Request :=
  {| rq_Method := msg_Method m; rq_Path := msg_Path m; rq_Query := msg_Query m; rq_Header := msg_Header m;
     rq_RemoteAddr := conn_RemoteAddr c; ctx_localAddr := connContext c; ctx_saRef := None;
     ctx_googleEmail := None; ctx_observability := false |}.

Section New.
Context {W : Type} (opts : ServerOptions W).
Context (ctx : Ctx W) (lookupPodFailures : string → ST W unit) (fuel : nat).
Context (Now : W → Time) (environment : W → Environment) (json_Unmarshal : string → option any).
(** The handler of the Prometheus registry, the probe's own request and what
  ServeMux does with an unclean path. *)
Context (metrics : Handler W) (self : ST W self_response) (unclean : Handler W).

Definition observabilityMiddleware (h : Handler W) : Handler W := λ r, h (InitRequest r).
Definition healthHandler : Handler W :=
mux_ServeHTTP unclean [("/metrics", metrics); ("/healthz", λ _, healthz); ("/readyz", λ _, readyz opts self)].
Definition New : Server W :=
let metadataHandler := metadataHandler opts ctx lookupPodFailures fuel Now environment json_Unmarshal in
{| srv_opts := opts;
   metadataServer :=
     {| hs_Addr := opt_Addr opts; hs_ConnContext := ConnContext;
        hs_Handler := observabilityMiddleware (DirectoryHandler_ServeHTTP metadataHandler) |};
   healthServer :=
     {| hs_Addr := ":" +:+ pretty (opt_HealthPort opts); hs_ConnContext := no_ConnContext;
        hs_Handler := observabilityMiddleware healthHandler |} |}.

(** What a server does with a message on a connection. *)
Definition serve (s : http_Server W) (c : Conn) (m : Message) : ST W ResponseWriter := λ x,
match hs_Handler s (server_request (hs_ConnContext s) c m) (x, fresh_writer) with
| (Ret _, (x', w)) => (Ret w, x')
| (Panic e, (x', _)) => (Panic e, x')
end.

(** ** Theorems *)

Lemma mux_health (r : Request) s :
cleanPath (rq_Path r) = rq_Path r →
healthHandler r s =
  (if decide (rq_Path r = "/metrics") then metrics r
   else if decide (rq_Path r = "/healthz") then healthz
   else if decide (rq_Path r = "/readyz") then readyz opts self else NotFound) s.
Proof.
intros Hc. unfold healthHandler, mux_ServeHTTP. rewrite bool_decide_eq_true_2 by done.
unfold mux_match. cbn [foldl fst snd]. unfold pattern_matches.
change (has_suffix "/" "/metrics") with false. change (has_suffix "/" "/healthz") with false.
change (has_suffix "/" "/readyz") with false. cbv iota.
destruct (decide (rq_Path r = "/metrics")) as [->|H1]; [done|].
rewrite (bool_decide_eq_false_2 ("/metrics" = _)) by congruence.
destruct (decide (rq_Path r = "/healthz")) as [->|H2]; [done|].
rewrite (bool_decide_eq_false_2 ("/healthz" = _)) by congruence.
destruct (decide (rq_Path r = "/readyz")) as [->|H3]; [done|].
by rewrite (bool_decide_eq_false_2 ("/readyz" = _)) by congruence.
Qed.
(** The endpoints of the health server.  On any connection, with any method,
  query and headers, /metrics is answered by the handler of the registry,
  /healthz with 200 and no effect, /readyz by the self test, and every other
  clean path with 404 and no effect. *)
Theorem health_server_routes c m x :
cleanPath (msg_Path m) = msg_Path m →
(msg_Path m = "/metrics" →
   hs_Handler (healthServer New) (server_request no_ConnContext c m) (x, fresh_writer) =
   metrics (InitRequest (server_request no_ConnContext c m)) (x, fresh_writer)) ∧
(msg_Path m = "/healthz" → ∃ w, serve (healthServer New) c m x = (Ret w, x) ∧ answered w 200) ∧
(msg_Path m = "/readyz" →
   hs_Handler (healthServer New) (server_request no_ConnContext c m) (x, fresh_writer) = readyz opts self (x, fresh_writer)) ∧
(msg_Path m ∉ ["/metrics"; "/healthz"; "/readyz"] →
   ∃ w, serve (healthServer New) c m x = (Ret w, x) ∧ answered w 404).
Proof.
intros Hc. pose proof (mux_health (InitRequest (server_request no_ConnContext c m)) (x, fresh_writer) Hc) as E.
change (rq_Path (InitRequest (server_request no_ConnContext c m))) with (msg_Path m) in E.
assert (Hh : hs_Handler (healthServer New) (server_request no_ConnContext c m) (x, fresh_writer) =
             healthHandler (InitRequest (server_request no_ConnContext c m)) (x, fresh_writer)) by done.
unfold serve. change (hs_ConnContext (healthServer New)) with no_ConnContext. rewrite Hh, E. clear Hh E. split_and!.
- intros ->. by rewrite decide_True.
- intros ->. rewrite decide_False, decide_True by done. unfold healthz.
  rewrite WriteHeader_final by done. eexists. split; [reflexivity|by eexists].
- intros ->. by rewrite !decide_False, decide_True by done.
- intros Hn. rewrite !decide_False by set_solver.
  destruct (NotFound_run x) as (w & -> & Hw & _). by exists w.
Qed.
End New.

(** ** Witness: a load balancer asks for /healthz *)

Lemma health_server_routes_witness :
  let s := New (ServerExample.options RoutingModeNone) ServerExample.ctx ServerExample.no_count 0
    (λ _, clock 0 0) example_environment no_json (λ _, mret tt) (panic "") (λ _, mret tt) in
  hs_Addr (healthServer s) = ":16322" ∧
  ∃ w, serve (healthServer s)
         {| conn_RemoteAddr := "10.9.9.9:5555"; conn_LocalAddr := None |}
         {| msg_Method := "POST"; msg_Path := "/healthz"; msg_Query := [("a", "b")]; msg_Header := [] |} tt
       = (Ret w, tt) ∧ answered w 200.
Proof.
  split; [by vm_compute|].
  by apply (health_server_routes (ServerExample.options RoutingModeNone) ServerExample.ctx ServerExample.no_count 0
    (λ _, clock 0 0) example_environment no_json (λ _, mret tt) (panic "") (λ _, mret tt)
    {| conn_RemoteAddr := "10.9.9.9:5555"; conn_LocalAddr := None |}
    {| msg_Method := "POST"; msg_Path := "/healthz"; msg_Query := [("a", "b")]; msg_Header := [] |} tt).
Defined.
