(* ===== verification/Node.v ===== *)
(** * internal/node: the node's object and its taints

    [Provider] is node/provider.go, implemented by get/provider.go and by
    watch/provider.go (an informer's store with an optional fallback);
    [removeTaints] and [Remove] are taints/taints.go.  The Kubernetes client,
    the informer's store, the failure counter and the context are arguments. *)

From S2P Require Import Prelude GoStrings Retry Api.
Open Scope string_scope.
Open Scope Z_scope.

Record Provider (W : Type) : Type := { Get : ST W (result Kube.Node) }.
Arguments Get {W} _.

(** ** get/provider.go *)

Definition GetNodeProvider {W} (NodeName : string) (kube_Get : string → ST W (result Kube.Node))
    : Provider W := {| Get := kube_Get NodeName |}.

(** ** watch/provider.go *)

Section WatchNode.
Context {W : Type} (NodeName : string) (FallbackSource : option (Provider W)).
Context (store_GetByKey : string → ST W (result (option Kube.Node))).

Definition node_get : ST W (result Kube.Node) :=
v ←? store_GetByKey NodeName;
match v with
| Some n => ok n
| None => err (EMsg "node not present in cache")
end.
Definition watch_node_Get : ST W (result Kube.Node) :=
r ← node_get;
match r with
| Ok n => ok n
| Err e =>
  match FallbackSource with
  | None => err (EWrap "error getting node from cache: " e "")
  | Some f => Get f
  end
end.
Definition WatchNodeProvider : Provider W := {| Get := watch_node_Get |}.
End WatchNode.

(** NewProvider: its informer watches the node of that name. *)
Record Informer : Type := { inf_ResyncPeriod : Z; inf_FieldSelector : string }.
Record ProviderOptions (W : Type) : Type := {
  opt_NodeName : string;
  opt_FallbackSource : option (Provider W);
  opt_ResyncPeriod : Z;
}.
Arguments opt_NodeName {W} _.
Arguments opt_FallbackSource {W} _.
Arguments opt_ResyncPeriod {W} _.
Definition node_informer {W} (opts : ProviderOptions W) : Informer :=
  {| inf_ResyncPeriod := opt_ResyncPeriod opts;
     inf_FieldSelector := "metadata.name=" +:+ opt_NodeName opts |}.
Definition NewWatchNodeProvider {W}
    (NewFilteredNodeInformer : Informer → string → ST W (result (option Kube.Node)))
    (opts : ProviderOptions W) : Provider W :=
  WatchNodeProvider (opt_NodeName opts) (opt_FallbackSource opts) (NewFilteredNodeInformer (node_informer opts)).

(** ** taints/taints.go *)

Definition set_taints (l : list Kube.Taint) (n : Kube.Node) : Kube.Node :=
  {| Kube.node_Name := Kube.node_Name n; Kube.node_Annotations := Kube.node_Annotations n;
     Kube.node_Labels := Kube.node_Labels n; Kube.node_Taints := l |}.

Section Taints.
Context {W : Type} (ctx : Ctx W) (nodes_Get : string → ST W (result Kube.Node)).
Context (nodes_Update : Kube.Node → ST W (result unit)) (failureCounter : ST W unit).

Definition foreign (t : Kube.Taint) : bool := negb (has_prefix GroupNode (Kube.taint_Key t)).

Definition removeTaints (nodeName : string) : ST W (result unit) :=
r ← nodes_Get nodeName;
match r with
| Err e => err (EWrap "error getting node: " e "")
| Ok node =>
  let taints := filter (λ t, foreign t = true) (Kube.node_Taints node) in
  if Nat.eqb (length taints) (length (Kube.node_Taints node)) then ok tt
  else
    u ← nodes_Update (set_taints taints node);
    match u with
    | Err e => err (EWrap "error updating node: " e "")
    | Ok _ => ok tt
    end
end.

Definition remove_operation (nodeName : string) : Operation W :=
{| MaxAttempts := 0; InitialDelay := 0; MaxDelay := 0; Description := "remove taints from node";
   FailureCounter := Some failureCounter; Func := Some (removeTaints nodeName);
   IsRetryable := Some (λ _, true) |}.

(** [Remove]; the result of retry.Do is dropped.  Three rounds of fuel are
  enough: the attempts are left at the default. *)
Definition Remove (nodeName : string) : ST W unit :=
_ ← Do 3 ctx (remove_operation nodeName); mret tt.
End Taints.

(** ** Theorems *)

(** An API server that holds one node: what Get returns and Update stores. *)
Record Store (W : Type) (read : W → Kube.Node) (nodes_Get : string → ST W (result Kube.Node))
    (nodes_Update : Kube.Node → ST W (result unit)) : Prop := {
  store_get name w n w' : nodes_Get name w = (Ret (Ok n), w') → n = read w ∧ read w' = read w;
  store_get_err name w e w' : nodes_Get name w = (Ret (Err e), w') → read w' = read w;
  store_update n w w' : nodes_Update n w = (Ret (Ok tt), w') → read w' = n;
}.
Arguments store_get {W read nodes_Get nodes_Update} _ _ _ _ _ _.
Arguments store_update {W read nodes_Get nodes_Update} _ _ _ _ _.

Lemma filter_same_length {A} (P : A → Prop) `{∀ x, Decision (P x)} (l : list A) :
  length (filter P l) = length l → filter P l = l.
Proof.
  induction l as [|x l IH]; [done|]. rewrite filter_cons. case_decide.
  - cbn. intros [= E]. by rewrite IH.
  - intros E. pose proof (length_filter P l). cbn in E. lia.
Qed.

Lemma filter_all {A} (P : A → Prop) `{∀ x, Decision (P x)} (l : list A) :
  Forall P l → filter P l = l.
Proof. induction 1; [done|]. rewrite filter_cons_True by done. by f_equal. Qed.

(** When removeTaints succeeds, the node has exactly the taints it had
    whose keys are not in the daemon's group, in the same order, and nothing
    else of it has changed; and a node without such taints is not written. *)
Theorem removeTaints_spec {W} (read : W → Kube.Node) nodes_Get nodes_Update (nodeName : string) (w w' : W) :
  Store W read nodes_Get nodes_Update →
  removeTaints nodes_Get nodes_Update nodeName w = (Ret (Ok tt), w') →
  read w' = set_taints (filter (λ t, foreign t = true) (Kube.node_Taints (read w))) (read w) ∧
  Forall (λ t, has_prefix GroupNode (Kube.taint_Key t) = false) (Kube.node_Taints (read w')) ∧
  (Forall (λ t, foreign t = true) (Kube.node_Taints (read w)) →
     ∃ n, nodes_Get nodeName w = (Ret (Ok n), w')).
Proof.
  intros HS. unfold removeTaints. st_simpl.
  destruct (nodes_Get nodeName w) as [[[n|e]|m] w1] eqn:HG; try done.
  destruct (store_get HS _ _ _ _ HG) as [-> Hr].
  assert (Hall : ∀ l, Forall (λ t, has_prefix GroupNode (Kube.taint_Key t) = false)
    (filter (λ t, foreign t = true) l)).
  { intros l. apply Forall_forall. intros t [Ht _]%list_elem_of_filter. unfold foreign in Ht.
    by apply negb_true_iff in Ht. }
  destruct (Nat.eqb_spec (length (filter (λ t, foreign t = true) (Kube.node_Taints (read w))))
              (length (Kube.node_Taints (read w)))) as [E|E].
  - intros [= <-]. apply filter_same_length in E. rewrite Hr, E. split_and!.
    + by destruct (read w).
    + rewrite <- E. apply Hall.
    + intros _. by exists (read w).
  - destruct (nodes_Update _ w1) as [[[[]|e]|m] w2] eqn:HU; try done. intros [= <-].
    rewrite (store_update HS _ _ _ HU). split_and!; [done|apply Hall|].
    intros Hf. destruct E. f_equal. by apply filter_all.
Qed.
Lemma removeTaints_spec_witness :
  let mk k := {| Kube.taint_Key := k; Kube.taint_Value := ""; Kube.taint_Effect := "NoSchedule" |} in
  let n l := {| Kube.node_Name := "n"; Kube.node_Annotations := ∅; Kube.node_Labels := ∅;
                Kube.node_Taints := l |} in
  n [mk "other"] = set_taints (filter (λ t, foreign t = true) [mk (GroupNode +:+ "/x"); mk "other"])
                     (n [mk (GroupNode +:+ "/x"); mk "other"]).
Proof.
  intros mk n.
  apply (removeTaints_spec id (λ _ w, (Ret (Ok w), w)) (λ v _, (Ret (Ok tt), v)) "n"
    (n [mk (GroupNode +:+ "/x"); mk "other"]) (n [mk "other"])).
  - split; cbn; intros; by simplify_eq.
  - by vm_compute.
Defined.

(** Remove does not block until it succeeds: it always returns, after at
    most three attempts, and while the API server refuses to return the node
    it returns with the node's taints as they were. *)
Theorem remove_gives_up {W} (read : W → Kube.Node) (ctx : Ctx W) nodes_Get nodes_Update
    (failureCounter : ST W unit) (nodeName : string) (w : W) :
  total (removeTaints nodes_Get nodes_Update nodeName) → total failureCounter →
  (∀ d, total (ctx_done_before ctx d)) → total (ctx_Err ctx) →
  ∃ w', Remove ctx nodes_Get nodes_Update failureCounter nodeName w = (Ret tt, w') ∧
    ((∀ w, ∃ e w', nodes_Get nodeName w = (Ret (Err e), w') ∧ read w' = read w) →
     (∀ w, read (failureCounter w).2 = read w) →
     (∀ d w, read (ctx_done_before ctx d w).2 = read w) → (∀ w, read (ctx_Err ctx w).2 = read w) →
     read w' = read w).
Proof.
  intros Ht Hc Hd He. unfold Remove.
  assert (HD : ∃ r w', Do 3 ctx (remove_operation nodes_Get nodes_Update failureCounter nodeName) w
    = (Ret (Some r), w')) by (unfold Do; cbn [Description Func FailureCounter IsRetryable
      remove_operation MaxAttempts]; apply attempts_terminates; cbn; auto; lia).
  destruct HD as (r & w' & E). exists w'. unfold mbind, st_bind. rewrite E. split; [done|].
  intros Hget Hcount Hdone Herr.
  assert (Hk : keeps (λ v, read v = read w)
    (Do 3 ctx (remove_operation nodes_Get nodes_Update failureCounter nodeName))).
  { apply Do_invariant.
    - intros f [= <-] v Hv. unfold removeTaints. st_simpl.
      destruct (Hget v) as (e & v' & Hg & Hr). rewrite Hg. cbn. by rewrite Hr.
    - intros f [= <-] v Hv. by rewrite Hcount.
    - intros d v Hv. by rewrite Hdone.
    - intros v Hv. by rewrite Herr. }
  specialize (Hk w eq_refl). by rewrite E in Hk.
Qed.
Lemma remove_gives_up_witness :
  ∃ w', Remove (W:=Kube.Node) {| ctx_done_before d w := (Ret false, w); ctx_Err w := (Ret (EMsg ""), w) |}
    (λ _ w, (Ret (Err (EMsg "forbidden")), w)) (λ v _, (Ret (Ok tt), v)) (mret tt) "n"
    {| Kube.node_Name := "n"; Kube.node_Annotations := ∅; Kube.node_Labels := ∅; Kube.node_Taints := [] |}
    = (Ret tt, w').
Proof.
  edestruct (remove_gives_up (W:=Kube.Node) id
    {| ctx_done_before d w := (Ret false, w); ctx_Err w := (Ret (EMsg ""), w) |}
    (λ _ w, (Ret (Err (EMsg "forbidden")), w)) (λ v _, (Ret (Ok tt), v)) (mret tt) "n")
    as (w' & H & _); [..|by exists w'].
  - intros v. by eexists _, _.
  - intros v. by eexists _, _.
  - intros d v. by eexists _, _.
  - intros v. by eexists _, _.
Defined.
