(* ===== verification/Routing.v ===== *)
(** * internal/routing, internal/redirect, internal/loopback, ebpf/redirect.c

    How connections to 169.254.169.254:80 reach the daemon.  [getMode] and
    [LoadAndAttach] choose the mechanism from the node; [Loopback] adds the
    address to the lo interface; [Redirect] loads and configures the eBPF
    program [redirect_connect4], which rewrites connects in the kernel.  The
    netlink and cilium/ebpf libraries and the files read are arguments. *)

From S2P Require Import Prelude GoStrings NetIP Api Attestation.
Open Scope string_scope.
Open Scope Z_scope.

(** What LoadAndAttach functions return: the function that undoes them. *)
Definition closer (W : Type) : Type := ST W (result unit).

(** [v, err := m(); if err != nil { return fmt.Errorf(pre+"%w", err) }]. *)
Definition wrapping {S A} (pre : string) (m : ST S (result A)) : ST S (result A) :=
  r ← m; match r with Ok a => ok a | Err e => err (EWrap pre e "") end.

Lemma wrapping_ok {S A} pre (m : ST S (result A)) s a s' :
  wrapping pre m s = (Ret (Ok a), s') → m s = (Ret (Ok a), s').
Proof. unfold wrapping. st_simpl. by destruct (m s) as [[[b|e]|msg] s1]. Qed.

(** [errors.Join] of two results, as redirect.go's close function does. *)
Definition join_errors (e1 e2 : result unit) : result unit :=
  match e1, e2 with
  | Ok _, e => e
  | e, Ok _ => e
  | Err a, Err b => Err (EMsg (error_text a +:+ one newline +:+ error_text b))
  end.

(** ** loopback.go *)

Module Loopback.
Definition gkeMetadataServerIP : string := "169.254.169.254".
Definition GKEMetadataServerAddr : string := gkeMetadataServerIP +:+ ":80".
Definition gkeMetadataServerAddrLabel : string := "lo:gke-md-sv".

(** The address with its label and host scope; a failure to parse it panics
    when the package is initialised. *)
Definition SCOPE_HOST : Z := 254.
Definition gkeMetadataServerAddr {A} (ParseAddr : string → result A) (set_label : string → A → A)
    (set_scope : Z → A → A) : outcome A :=
  match ParseAddr (gkeMetadataServerIP +:+ "/32") with
  | Err e => Panic (error_text e)
  | Ok a => Ret (set_scope SCOPE_HOST (set_label gkeMetadataServerAddrLabel a))
  end.

Section Loopback.
(** The netlink library: links, addresses, their comparison and text. *)
Context {W Link A : Type} (LinkByName : string → ST W (result Link)).
Context (AddrList : Link → ST W (result (list A))) (AddrAdd AddrDel : Link → A → ST W (result unit)).
Context (Equal : A → A → bool) (String : A → string).
(** What [gkeMetadataServerAddr] made of 169.254.169.254/32. *)
Context (gkeMetadataServerAddr : A).

Definition loopback_LoadAndAttach : ST W (result (closer W)) :=
lo ←? wrapping "error loading loopback interface: " (LinkByName "lo");
let close := AddrDel lo gkeMetadataServerAddr in
loAddrs ←? wrapping "error listing addresses of the loopback interface: " (AddrList lo);
match List.find (λ a, Equal a gkeMetadataServerAddr) loAddrs with
| Some a =>
    if bool_decide (String a ≠ String gkeMetadataServerAddr) then
      err (EMsg ("the gke-metadata-server address is already present in the loopback interface: "
                 +:+ String a))
    else ok close
| None =>
    _ ←? wrapping "error adding the gke-metadata-server address to the loopback interface: "
           (AddrAdd lo gkeMetadataServerAddr);
    ok close
end.
End Loopback.
End Loopback.

(** ** redirect.go *)

Module Redirect.
(** The Config struct shared with the eBPF program. *)
Record Config : Type := {
  EmulatorCgroupId : Z;
  EmulatorIp : Z;
  EmulatorPort : Z;
  Debug : Z;
}.

(** [filepath.Join] of a rooted path and another: the cleaned path. *)
Definition join_rooted (root path : string) : string :=
  "/" +:+ join "/" (foldl clean_step [] (split slash (root +:+ "/" +:+ path))).

(** selfCgroupID: the scan of /proc/self/cgroup (its lines and the scanner's
    error) and the inode of a directory. *)
Fixpoint first_path (lines : list string) : string :=
  match lines with
  | [] => ""
  | l :: lines' => match unified_path l with Some p => p | None => first_path lines' end
  end.
Definition selfCgroupID (self_cgroup : result (list string * option error)) (stat : string → result Z)
    : result Z :=
  match self_cgroup with
  | Err e => Err (EWrap "error opening /proc/self/cgroup: " e "")
  | Ok (lines, scanErr) =>
    (* the scanner's error is only met when no line ended the loop *)
    match scanErr, existsb (λ l, bool_decide (is_Some (unified_path l))) lines with
    | Some e, false => Err (EWrap "error reading /proc/self/cgroup: " e "")
    | _, _ =>
      let cgroupPath := first_path lines in
      if bool_decide (cgroupPath = "") then
        Err (EMsg "could not find cgroup v2 entry in /proc/self/cgroup; only the unified hierarchy is supported")
      else
        match stat (join_rooted CgroupV2Mount cgroupPath) with
        | Err e => Err (EWrap ("error stating cgroup directory " +:+
                     quoted (join_rooted CgroupV2Mount cgroupPath) +:+ ": ") e "")
        | Ok ino => Ok ino
        end
    end
  end.

Section Redirect.
Context {W Objs Lnk : Type} (loadRedirectObjects : ST W (result Objs)).
Context (self_cgroup : W → result (list string * option error)) (stat : W → string → result Z).
Context (debug : bool) (MapConfig_Update : Objs → Config → ST W (result unit)).
Context (AttachCgroup : Objs → ST W (result Lnk)) (link_Close : Lnk → ST W (result unit)).
Context (objs_Close : Objs → ST W (result unit)).

Definition redirect_config (cgroupID ip port : Z) : Config :=
{| EmulatorCgroupId := cgroupID; EmulatorIp := ip; EmulatorPort := port mod 65536;
   Debug := if debug then 1 else 0 |}.

(** [binary.BigEndian.Uint32] of the four octets is the address itself. *)
Definition redirect_LoadAndAttach (emulatorIP : Addr) (emulatorPort : Z) : ST W (result (closer W)) :=
objs ←? wrapping "error loading redirect eBPF redirect objects: " loadRedirectObjects;
w ← st_get;
cgroupID ←? wrapping "error resolving emulator cgroup id: "
              (mret (selfCgroupID (self_cgroup w) (stat w)));
match as4 emulatorIP with
| None => panic Bpf.as4_panic
| Some ip =>
  _ ←? wrapping "error updating redirect eBPF config map: "
         (MapConfig_Update objs (redirect_config cgroupID ip emulatorPort));
  link ←? wrapping "error attaching redirect eBPF program to cgroup: " (AttachCgroup objs);
  ok (e1 ← link_Close link; e2 ← objs_Close objs; mret (join_errors e1 e2))
end.
End Redirect.

(** *** ebpf/redirect.c *)

(** The fields of bpf_sock_addr the program reads and writes; the address and
    the port are in network byte order. *)
Record bpf_sock_addr : Type := { user_family : Z; protocol : Z; user_ip4 : Z; user_port : Z }.
Definition AF_INET : Z := 2.
Definition IPPROTO_TCP : Z := 6.

(** bpf_ntohl and bpf_htonl on a little-endian host. *)
Definition bswap32 (z : Z) : Z :=
  v4_of_octets [z mod 256; (z / 2 ^ 8) mod 256; (z / 2 ^ 16) mod 256; (z / 2 ^ 24) mod 256].
(** bpf_ntohs and bpf_htons: on the low 16 bits. *)
Definition bswap16 (z : Z) : Z := Bpf.htons (z mod 65536).

(** Every path of the program returns 1: the connect is allowed. *)
Definition redirect_connect4 (config : option Config) (cgroup_id : Z) (ctx : bpf_sock_addr) : bpf_sock_addr :=
  if negb (user_family ctx =? AF_INET) || negb (protocol ctx =? IPPROTO_TCP) then ctx else
  let dst := bswap32 (user_ip4 ctx) in
  let dst_port := bswap16 (user_port ctx) in
  if negb (dst =? 2852039166) || negb (dst_port =? 80) then ctx else
  match config with
  | None => ctx
  | Some conf =>
      if cgroup_id =? EmulatorCgroupId conf then ctx
      else {| user_family := user_family ctx; protocol := protocol ctx;
              user_ip4 := bswap32 (EmulatorIp conf); user_port := bswap16 (EmulatorPort conf) |}
  end.
End Redirect.

(** ** routing.go *)

Definition getMode (node : Kube.Node) : string :=
  let m := default "" (Kube.node_Annotations node !! AnnotationRoutingMode) in
  if negb (bool_decide (m = "")) then m else
  let m := default "" (Kube.node_Labels node !! AnnotationRoutingMode) in
  if negb (bool_decide (m = "")) then m else RoutingModeDefault.

Section Routing.
Context {W : Type} (redirect : Addr → Z → ST W (result (closer W))) (loopback : ST W (result (closer W))).

Definition LoadAndAttach (node : Kube.Node) (emulatorIP : Addr) (emulatorPort : Z)
    : ST W (result (string * closer W)) :=
let mode := getMode node in
let attach (m : ST W (result (closer W))) := close ←? m; ok (mode, close) in
if decide (mode = RoutingModeBPF) then attach (redirect emulatorIP emulatorPort)
else if decide (mode = RoutingModeLoopback) then attach loopback
else if decide (mode = RoutingModeNone) then attach (ok (ok tt))
else err (EMsg ("invalid routing mode: " +:+ mode)).
End Routing.

(** ** Lemmas: byte order *)

Lemma octet_range a : 0 ≤ a mod 256 < 256.
Proof. apply Z.mod_pos_bound. lia. Qed.
Lemma bswap32_octets a b c d :
  0 ≤ a < 256 → 0 ≤ b < 256 → 0 ≤ c < 256 → 0 ≤ d < 256 →
  Redirect.bswap32 (v4_of_octets [a; b; c; d]) = v4_of_octets [d; c; b; a].
Proof.
  intros Ha Hb Hc Hd. unfold Redirect.bswap32, v4_of_octets. cbn [foldl].
  change (2 ^ 8) with 256. change (2 ^ 16) with 65536. change (2 ^ 24) with 16777216.
  set (z := (((0 * 256 + a) * 256 + b) * 256 + c) * 256 + d).
  assert (z mod 256 = d ∧ (z / 256) mod 256 = c ∧ (z / 65536) mod 256 = b ∧ (z / 16777216) mod 256 = a)
    as (-> & -> & -> & ->); [|done].
  unfold z. Z.to_euclidean_division_equations. lia.
Qed.
Lemma bswap32_involutive z : 0 ≤ z < 2 ^ 32 → Redirect.bswap32 (Redirect.bswap32 z) = z.
Proof.
  intros Hz. unfold Redirect.bswap32 at 2. rewrite bswap32_octets by apply octet_range.
  unfold v4_of_octets. cbn [foldl].
  change (2 ^ 8) with 256 in *. change (2 ^ 16) with 65536 in *. change (2 ^ 24) with 16777216 in *.
  change (2 ^ 32) with 4294967296 in *. Z.to_euclidean_division_equations. lia.
Qed.
Lemma bswap16_involutive p : 0 ≤ p < 65536 → Redirect.bswap16 (Redirect.bswap16 p) = p.
Proof.
  intros Hp. unfold Redirect.bswap16. rewrite (Z.mod_small p) by lia.
  rewrite (Z.mod_small (Bpf.htons p)) by by apply htons_range.
  rewrite (htons_spec (Bpf.htons p)) by by apply htons_range.
  rewrite htons_spec by done. Z.to_euclidean_division_equations. lia.
Qed.

Section RedirectConnect.
Context (debug : bool) (own ip port cgroup : Z) (ctx : Redirect.bpf_sock_addr).
Context (Hip : 0 ≤ ip < 2 ^ 32) (Hu : 0 ≤ Redirect.user_ip4 ctx < 2 ^ 32).
Context (Hp : 0 ≤ Redirect.user_port ctx < 2 ^ 16).
(** An IPv4 TCP connect to 169.254.169.254:80. *)
Definition metadata_connect : Prop :=
Redirect.user_family ctx = Redirect.AF_INET ∧ Redirect.protocol ctx = Redirect.IPPROTO_TCP ∧
Redirect.user_ip4 ctx = Redirect.bswap32 (v4_of_octets [169; 254; 169; 254]) ∧
Redirect.user_port ctx = Redirect.bswap16 80.
Abbreviation ctx' := (Redirect.redirect_connect4 (Some (Redirect.redirect_config debug own ip port)) cgroup ctx).

Lemma metadata_connect_branch :
metadata_connect ↔
(negb (Redirect.user_family ctx =? Redirect.AF_INET) || negb (Redirect.protocol ctx =? Redirect.IPPROTO_TCP)) = false ∧
(negb (Redirect.bswap32 (Redirect.user_ip4 ctx) =? 2852039166) ||
 negb (Redirect.bswap16 (Redirect.user_port ctx) =? 80)) = false.
Proof.
assert (Hport : Redirect.bswap16 (Redirect.user_port ctx) = 80 ↔ Redirect.user_port ctx = Redirect.bswap16 80).
{ split; intros E; [|by rewrite E].
  rewrite <- E, bswap16_involutive; [done|]. by change 65536 with (2 ^ 16). }
assert (Haddr : Redirect.bswap32 (Redirect.user_ip4 ctx) = 2852039166 ↔
  Redirect.user_ip4 ctx = Redirect.bswap32 (v4_of_octets [169; 254; 169; 254])).
{ split; intros E; [|by rewrite E].
  change (v4_of_octets [169; 254; 169; 254]) with 2852039166. by rewrite <- E, bswap32_involutive. }
unfold metadata_connect. rewrite !orb_false_iff, !negb_false_iff, !Z.eqb_eq, Haddr, Hport. tauto.
Qed.
Lemma redirected :
metadata_connect → cgroup ≠ own →
Redirect.bswap32 (Redirect.user_ip4 ctx') = ip ∧ Redirect.bswap16 (Redirect.user_port ctx') = port mod 65536 ∧
Redirect.user_family ctx' = Redirect.user_family ctx ∧ Redirect.protocol ctx' = Redirect.protocol ctx.
Proof.
intros Hm Hc. unfold Redirect.redirect_connect4. destruct (proj1 metadata_connect_branch Hm) as [-> ->].
apply Z.eqb_neq in Hc. change (Redirect.EmulatorCgroupId (Redirect.redirect_config debug own ip port)) with own.
rewrite Hc. cbn. split_and!; [by apply bswap32_involutive| |done..].
apply bswap16_involutive, Z.mod_pos_bound. lia.
Qed.
Lemma not_redirected : ¬ metadata_connect ∨ cgroup = own → ctx' = ctx.
Proof.
intros Hn. unfold Redirect.redirect_connect4. destruct (negb _ || negb _) eqn:E1; [done|].
destruct (negb (_ =? 2852039166) || negb _) eqn:E2; [done|].
destruct Hn as [Hn|Hn]; [by destruct Hn; apply metadata_connect_branch|]. subst cgroup.
cbn. by rewrite Z.eqb_refl.
Qed.
End RedirectConnect.

(** ** Theorems *)

(** In eBPF mode, with the configuration that LoadAndAttach writes, an
    IPv4 TCP connect to 169.254.169.254:80 goes to the daemon's address and
    (16-bit) port, unless it comes from the daemon's own cgroup, so that
    requests the daemon forwards are not sent back to itself; every other
    connect is left alone. *)
Theorem redirect_connects (debug : bool) (own ip port cgroup : Z) (ctx : Redirect.bpf_sock_addr) :
  0 ≤ ip < 2 ^ 32 → 0 ≤ Redirect.user_ip4 ctx < 2 ^ 32 → 0 ≤ Redirect.user_port ctx < 2 ^ 16 →
  let conf := Redirect.redirect_config debug own ip port in
  let metadata := Redirect.user_family ctx = Redirect.AF_INET ∧
    Redirect.protocol ctx = Redirect.IPPROTO_TCP ∧
    Redirect.user_ip4 ctx = Redirect.bswap32 (v4_of_octets [169; 254; 169; 254]) ∧
    Redirect.user_port ctx = Redirect.bswap16 80 in
  let ctx' := Redirect.redirect_connect4 (Some conf) cgroup ctx in
  (metadata → cgroup ≠ own →
     Redirect.bswap32 (Redirect.user_ip4 ctx') = ip ∧
     Redirect.bswap16 (Redirect.user_port ctx') = port mod 65536 ∧
     Redirect.user_family ctx' = Redirect.user_family ctx ∧ Redirect.protocol ctx' = Redirect.protocol ctx) ∧
  (¬ metadata ∨ cgroup = own → ctx' = ctx) ∧
  Redirect.redirect_connect4 None cgroup ctx = ctx.
Proof.
  intros Hip Hu Hp conf metadata ctx'. split_and!.
  - by apply redirected.
  - by apply not_redirected.
  - unfold Redirect.redirect_connect4. destruct (negb _ || negb _); [done|].
    by destruct (negb (_ =? 2852039166) || negb _).
Qed.
Lemma redirect_connects_witness :
  let ctx := {| Redirect.user_family := 2; Redirect.protocol := 6;
                Redirect.user_ip4 := Redirect.bswap32 (v4_of_octets [169; 254; 169; 254]);
                Redirect.user_port := Redirect.bswap16 80 |} in
  Redirect.bswap32 (Redirect.user_ip4 (Redirect.redirect_connect4
    (Some (Redirect.redirect_config false 7 167772161 16321)) 8 ctx)) = 167772161.
Proof.
  intros ctx. apply (redirect_connects false 7 167772161 16321 8 ctx); unfold ctx; cbn; try lia.
  all: by split_and!.
Defined.

(** What LoadAndAttach leaves in the kernel: [config] reads the map of the
    program, which only the update of the map changes. *)
Lemma redirect_configured {W Objs Lnk} (config : W → option Redirect.Config) (load : ST W (result Objs))
    self_cgroup stat debug MapConfig_Update (AttachCgroup : Objs → ST W (result Lnk)) link_Close objs_Close ip port
    w close w' :
  (∀ o c w w', MapConfig_Update o c w = (Ret (Ok tt), w') → config w' = Some c) →
  (∀ o w r w', AttachCgroup o w = (Ret r, w') → config w' = config w) →
  Redirect.redirect_LoadAndAttach load self_cgroup stat debug MapConfig_Update AttachCgroup link_Close objs_Close
    (V4 ip) port w = (Ret (Ok close), w') →
  ∃ own w1, Redirect.selfCgroupID (self_cgroup w1) (stat w1) = Ok own ∧
    config w' = Some (Redirect.redirect_config debug own ip port).
Proof.
  intros Hupd Hatt (o & w1 & _ & H)%bindR_ok. unfold st_get, mbind, st_bind in H. cbn in H.
  apply bindR_ok in H as (own & w2 & [= Hself <-]%wrapping_ok & H). cbn in H.
  apply bindR_ok in H as ([] & w3 & Hu%wrapping_ok & H).
  apply bindR_ok in H as (l & w4 & Hl%wrapping_ok & H). injection H as _ <-.
  exists own, w1. split; [done|]. rewrite (Hatt _ _ _ _ Hl). by apply (Hupd _ _ _ _ Hu).
Qed.

(** C28: what the eBPF mode attaches.  Once LoadAndAttach has succeeded for the
    daemon's address and port, the kernel holds a configuration with the inode
    of the daemon's own cgroup, and with it an IPv4 TCP connect to
    169.254.169.254:80 goes to that address and (16-bit) port, unless it comes
    from the daemon's own cgroup, so that requests the daemon forwards are not
    sent back to itself; every other connect is left alone. *)
Theorem redirect_attached {W Objs Lnk} (config : W → option Redirect.Config) (load : ST W (result Objs))
    (self_cgroup : W → result (list string * option error)) (stat : W → string → result Z) (debug : bool)
    (MapConfig_Update : Objs → Redirect.Config → ST W (result unit)) (AttachCgroup : Objs → ST W (result Lnk))
    (link_Close : Lnk → ST W (result unit)) (objs_Close : Objs → ST W (result unit)) (ip port : Z) w close w' :
  (∀ o c w w', MapConfig_Update o c w = (Ret (Ok tt), w') → config w' = Some c) →
  (∀ o w r w', AttachCgroup o w = (Ret r, w') → config w' = config w) →
  0 ≤ ip < 2 ^ 32 →
  Redirect.redirect_LoadAndAttach load self_cgroup stat debug MapConfig_Update AttachCgroup link_Close objs_Close
    (V4 ip) port w = (Ret (Ok close), w') →
  ∃ own w1, Redirect.selfCgroupID (self_cgroup w1) (stat w1) = Ok own ∧
    ∀ cgroup ctx, 0 ≤ Redirect.user_ip4 ctx < 2 ^ 32 → 0 ≤ Redirect.user_port ctx < 2 ^ 16 →
      let ctx' := Redirect.redirect_connect4 (config w') cgroup ctx in
      (metadata_connect ctx → cgroup ≠ own →
         Redirect.bswap32 (Redirect.user_ip4 ctx') = ip ∧
         Redirect.bswap16 (Redirect.user_port ctx') = port mod 65536 ∧
         Redirect.user_family ctx' = Redirect.user_family ctx ∧ Redirect.protocol ctx' = Redirect.protocol ctx) ∧
      (¬ metadata_connect ctx ∨ cgroup = own → ctx' = ctx).
Proof.
  intros Hupd Hatt Hip (own & w1 & Hself & Hc)%(redirect_configured config); [|done..].
  exists own, w1. split; [done|]. intros cgroup ctx Hcu Hcp ctx'. unfold ctx'. rewrite Hc. split; [by apply redirected|by apply not_redirected].
Qed.
Lemma redirect_attached_witness :
  let load : ST (option Redirect.Config) (result unit) := ok tt in
  let update (_ : unit) c : ST (option Redirect.Config) (result unit) := λ _, (Ret (Ok tt), Some c) in
  let attach (_ : unit) : ST (option Redirect.Config) (result unit) := ok tt in
  let close (_ : unit) : ST (option Redirect.Config) (result unit) := ok tt in
  let run := Redirect.redirect_LoadAndAttach load (λ _, Ok (["0::/kubepods/daemon"], None))
               (λ _ p, if bool_decide (p = "/sys/fs/cgroup/kubepods/daemon") then Ok 7 else Err (EMsg "none"))
               false update attach close close (V4 167772161) 16321 None in
  let ctx := {| Redirect.user_family := 2; Redirect.protocol := 6;
                Redirect.user_ip4 := Redirect.bswap32 (v4_of_octets [169; 254; 169; 254]);
                Redirect.user_port := Redirect.bswap16 80 |} in
  Redirect.bswap32 (Redirect.user_ip4 (Redirect.redirect_connect4 run.2 8 ctx)) = 167772161.
Proof.
  intros load update attach close run ctx.
  assert (Hrun : run = (Ret (Ok (e1 ← close tt; e2 ← close tt; mret (join_errors e1 e2))), run.2)) by reflexivity.
  destruct (redirect_attached (λ c, c) load _ _ false update attach close close 167772161 16321 None _ _
    ltac:(by intros o c w w' [= <-]) ltac:(by intros o w r w' [= _ <-]) ltac:(lia) Hrun) as (own & w1 & Hown & H).
  assert (own = 7) as -> by (revert Hown; vm_compute; by intros [= <-]).
  apply (H 8 ctx); [unfold ctx; vm_compute; split; [done|reflexivity]..|by split_and!|done].
Defined.

(** The routing mode is the node's annotation, or else its label, or else
    eBPF (an empty value counts as absent); LoadAndAttach succeeds exactly when
    the mode is one of the three and its mechanism attaches, returns that
    mode, and for any other mode fails without attaching anything. *)
Theorem routing_mode {W} (redirect : Addr → Z → ST W (result (closer W)))
    (loopback : ST W (result (closer W))) (node : Kube.Node) (ip : Addr) (port : Z) (w : W) :
  let value m := m !! AnnotationRoutingMode in
  let mode := getMode node in
  mode = match value (Kube.node_Annotations node), value (Kube.node_Labels node) with
         | Some (String _ _ as a), _ => a
         | _, Some (String _ _ as l) => l
         | _, _ => "eBPF"
         end ∧
  (∀ m close w', LoadAndAttach redirect loopback node ip port w = (Ret (Ok (m, close)), w') ↔
     m = mode ∧
     (mode = "eBPF" ∧ redirect ip port w = (Ret (Ok close), w') ∨
      mode = "Loopback" ∧ loopback w = (Ret (Ok close), w') ∨
      mode = "None" ∧ close = ok tt ∧ w' = w)) ∧
  (mode ∉ ["eBPF"; "Loopback"; "None"] →
     LoadAndAttach redirect loopback node ip port w = (Ret (Err (EMsg ("invalid routing mode: " +:+ mode))), w)).
Proof.
  intros value mode. split_and!.
  - unfold mode, getMode, value, RoutingModeDefault, RoutingModeBPF.
    destruct (Kube.node_Annotations node !! _) as [[|]|], (Kube.node_Labels node !! _) as [[|]|]; done.
  - intros m close w'. unfold LoadAndAttach. fold mode.
    unfold RoutingModeBPF, RoutingModeLoopback, RoutingModeNone.
    destruct (decide (mode = "eBPF")) as [->|H1]; [|destruct (decide (mode = "Loopback")) as [->|H2];
      [|destruct (decide (mode = "None")) as [->|H3]]]; st_simpl.
    + destruct (redirect ip port w) as [[[c|e]|msg] w1]; split; naive_solver.
    + destruct (loopback w) as [[[c|e]|msg] w1]; split; naive_solver.
    + split; naive_solver.
    + split; naive_solver.
  - intros Hn. unfold LoadAndAttach. fold mode.
    unfold RoutingModeBPF, RoutingModeLoopback, RoutingModeNone.
    rewrite !decide_False by set_solver. done.
Qed.
Lemma routing_mode_witness :
  let node := {| Kube.node_Name := "n"; Kube.node_Annotations := {[ AnnotationRoutingMode := "iptables" ]};
                 Kube.node_Labels := ∅; Kube.node_Taints := [] |} in
  LoadAndAttach (W:=unit) (λ _ _, panic "") (panic "") node (V4 0) 0 tt =
    (Ret (Err (EMsg "invalid routing mode: iptables")), tt).
Proof.
  intros node. apply (routing_mode (λ _ _, panic "") (panic "") node (V4 0) 0 tt).
  apply (bool_decide_unpack _). by vm_compute.
Defined.

(** In Loopback mode attaching is idempotent: on an lo interface without
    the address it adds exactly that address; on one that already has it with
    the daemon's label, as after a previous run that did not detach, it adds
    nothing and succeeds; if another label holds the address it fails and adds
    nothing. *)
Theorem loopback_idempotent {W Link A : Type} (LinkByName : string → ST W (result Link))
    (AddrList : Link → ST W (result (list A))) (AddrAdd AddrDel : Link → A → ST W (result unit))
    (Equal : A → A → bool) (text : A → string) (md : A) (lo : Link) (addrs : W → list A) (w : W) :
  (∀ w, LinkByName "lo" w = (Ret (Ok lo), w)) → (∀ w, AddrList lo w = (Ret (Ok (addrs w)), w)) →
  (∀ w, ∃ w', AddrAdd lo md w = (Ret (Ok tt), w') ∧ addrs w' = (addrs w ++ [md])%list) →
  Equal md md = true →
  let attach := Loopback.loopback_LoadAndAttach LinkByName AddrList AddrAdd AddrDel Equal text md in
  (Forall (λ a, Equal a md = false) (addrs w) → ∃ w', attach w = (Ret (Ok (AddrDel lo md)), w') ∧
     addrs w' = (addrs w ++ [md])%list ∧ attach w' = (Ret (Ok (AddrDel lo md)), w')) ∧
  (∀ a, List.find (λ a, Equal a md) (addrs w) = Some a →
     (text a = text md → attach w = (Ret (Ok (AddrDel lo md)), w)) ∧
     (text a ≠ text md → ∃ e, attach w = (Ret (Err e), w))).
Proof.
  intros Hlo Hlist Hadd Heq attach.
  assert (Hrun : ∀ w, attach w = match List.find (λ a, Equal a md) (addrs w) with
    | Some a => if bool_decide (text a ≠ text md) then
        (Ret (Err (EMsg ("the gke-metadata-server address is already present in the loopback interface: "
                         +:+ text a))), w) else (Ret (Ok (AddrDel lo md)), w)
    | None => (Ret (Ok (AddrDel lo md)), (AddrAdd lo md w).2) end).
  { intros v. unfold attach, Loopback.loopback_LoadAndAttach, wrapping. st_simpl. rewrite Hlo. cbn.
    rewrite Hlist. cbn. destruct (List.find _ _) as [a|]; [by case_bool_decide|].
    destruct (Hadd v) as (v' & -> & _). done. }
  split.
  - intros Hf. destruct (Hadd w) as (w' & Ha & Hw'). exists w'.
    assert (Hnone : ∀ l, Forall (λ a, Equal a md = false) l → List.find (λ a, Equal a md) l = None).
    { induction 1 as [|a l Hx Hl IH]; cbn; [done|]. by rewrite Hx. }
    rewrite Hrun, Hnone, Ha by done. split_and!; [done|done|].
    rewrite Hrun, Hw'. assert (Hsome : ∀ l, Forall (λ a, Equal a md = false) l →
      List.find (λ a, Equal a md) (l ++ [md])%list = Some md).
    { induction 1 as [|a l Hx Hl IH]; cbn; [by rewrite Heq|]. by rewrite Hx. }
    rewrite Hsome by done. by case_bool_decide.
  - intros a Ha. rewrite Hrun, Ha. split; intros Ht.
    + by rewrite bool_decide_eq_false_2 by auto.
    + rewrite bool_decide_eq_true_2 by done. by eexists.
Qed.
Lemma loopback_idempotent_witness :
  let attach := Loopback.loopback_LoadAndAttach (W:=list nat) (λ _ w, (Ret (Ok tt), w))
    (λ _ w, (Ret (Ok w), w)) (λ _ a w, (Ret (Ok tt), (w ++ [a])%list)) (λ _ a w, (Ret (Ok tt), w))
    Nat.eqb (λ a, pretty a) 7%nat in
  ∃ w', attach [1%nat] = (Ret (Ok (λ w, (Ret (Ok tt), w))), w') ∧ w' = [1%nat; 7%nat] ∧
        attach w' = (Ret (Ok (λ w, (Ret (Ok tt), w))), w').
Proof.
  apply (loopback_idempotent (W:=list nat) (λ _ w, (Ret (Ok tt), w)) (λ _ w, (Ret (Ok w), w))
    (λ _ a w, (Ret (Ok tt), (w ++ [a])%list)) (λ _ a w, (Ret (Ok tt), w)) Nat.eqb (λ a, pretty a)
    7%nat tt id [1%nat]); try done; [by eexists|by repeat constructor].
Defined.
