(* ===== verification/Ebpf.v ===== *)
(** * The eBPF programs as resources

    internal/attestation/bpf loads and attaches its program the way
    internal/redirect (Routing.v) does.  Both leave kernel objects behind: the
    loaded program with its maps, and the link to the cgroup.  This file has
    LoadAndAttach and Close of the attestation, and follows the objects of
    both through every outcome.  cilium/ebpf is an argument. *)

From S2P Require Import Prelude GoStrings NetIP Attestation Routing.
Open Scope string_scope.
Open Scope nat_scope.

(** ** attestation/bpf/bpf.go *)

Record Map (Objs Lnk : Type) : Type := { objs : Objs; link : Lnk }.
Arguments objs {Objs Lnk} _.
Arguments link {Objs Lnk} _.

Section Attest.
Context {W Objs Lnk : Type} (loadAttestObjects : ST W (result Objs)).
Context (AttachCgroup : Objs → ST W (result Lnk)).
Context (link_Close : Lnk → ST W (result unit)) (objs_Close : Objs → ST W (result unit)).

(** The error of closing the objects is dropped when attaching fails. *)
Definition attest_LoadAndAttach : ST W (result (Map Objs Lnk)) :=
o ←? wrapping "loading attest eBPF objects: " loadAttestObjects;
r ← AttachCgroup o;
match r with
| Err e => _ ← objs_Close o; err (EWrap "attaching attest sockops program to cgroup: " e "")
| Ok lnk => ok {| objs := o; link := lnk |}
end.
Definition attest_Close (m : Map Objs Lnk) : ST W (result unit) :=
e1 ← link_Close (link m);
e2 ← objs_Close (objs m);
mret (join_errors e1 e2).
End Attest.

(** ** What the kernel keeps *)

(** [n] more objects are held after every run of [m]. *)
Definition holds {W A} (live : W → nat) (n : A → nat) (m : ST W A) : Prop :=
  ∀ w a w', m w = (Ret a, w') → live w' = live w + n a.
(** An object is gone once its close function returned, even with an error. *)
Definition frees {W A} (live : W → nat) (m : ST W A) : Prop :=
  ∀ w a w', m w = (Ret a, w') → live w = S (live w').
Definition one_if_ok {A} (r : result A) : nat := match r with Ok _ => 1 | Err _ => 0 end.

Section Resources.
Context {W Objs Lnk : Type} (live : W → nat).
Context (load : ST W (result Objs)) (AttachCgroup : Objs → ST W (result Lnk)).
Context (link_Close : Lnk → ST W (result unit)) (objs_Close : Objs → ST W (result unit)).
Context (Hload : holds live one_if_ok load) (Hattach : ∀ o, holds live one_if_ok (AttachCgroup o)).
Context (Hlink : ∀ l, frees live (link_Close l)) (Hobjs : ∀ o, frees live (objs_Close o)).

Lemma close_frees o l w r w' :
(e1 ← link_Close l; e2 ← objs_Close o; mret (join_errors e1 e2)) w = (Ret r, w') → live w = 2 + live w'.
Proof.
st_simpl. destruct (link_Close l w) as [[e1|] w1] eqn:E1; [|done]. apply Hlink in E1.
destruct (objs_Close o w1) as [[e2|] w2] eqn:E2; [|done]. apply Hobjs in E2. intros [= _ <-]. lia.
Qed.

(** The attestation leaves nothing behind: when LoadAndAttach fails the kernel
  holds what it held before, when it succeeds two objects more, and Close
  frees these two whatever it reports. *)
Theorem attest_releases w w' :
(∀ e, attest_LoadAndAttach load AttachCgroup objs_Close w = (Ret (Err e), w') → live w' = live w) ∧
(∀ m, attest_LoadAndAttach load AttachCgroup objs_Close w = (Ret (Ok m), w') →
   live w' = 2 + live w ∧
   ∀ w1 r w2, attest_Close link_Close objs_Close m w1 = (Ret r, w2) → live w1 = 2 + live w2).
Proof.
unfold attest_LoadAndAttach, wrapping. st_simpl.
destruct (load w) as [[[o|e]|p] w1] eqn:E1; try apply Hload in E1; cbn in E1; cbn; [|split; intros ? [=]; subst; lia|done].
destruct (AttachCgroup o w1) as [[[l|e]|p] w2] eqn:E2; try apply Hattach in E2; cbn in E2; cbn; [..|done].
- split; [done|]. intros m [= <- <-]. split; [lia|]. intros. by eapply close_frees.
- destruct (objs_Close o w2) as [[r|p] w3] eqn:E3; try apply Hobjs in E3; [|done].
  split; [|done]. intros ? [=]. subst. lia.
Qed.

(** The redirect closes what it holds once it is attached, and keeps the loaded
  program when a later step of LoadAndAttach fails. *)
Lemma redirect_keeps_objects self_cgroup stat debug
  (MapConfig_Update : Objs → Redirect.Config → ST W (result unit))
  (Hupdate : ∀ o c, holds live (λ _, 0) (MapConfig_Update o c)) ip port w w' :
let attach := Redirect.redirect_LoadAndAttach load self_cgroup stat debug MapConfig_Update AttachCgroup
                link_Close objs_Close ip port in
(∀ close, attach w = (Ret (Ok close), w') →
   live w' = 2 + live w ∧ ∀ w1 r w2, close w1 = (Ret r, w2) → live w1 = 2 + live w2) ∧
(∀ e o w1, load w = (Ret (Ok o), w1) → attach w = (Ret (Err e), w') → live w' = S (live w)).
Proof.
intros attach. unfold attach, Redirect.redirect_LoadAndAttach, wrapping. st_simpl.
destruct (load w) as [[[o|e]|p] w1] eqn:E1; cbn; [|done..]. apply Hload in E1. cbn in E1.
destruct (Redirect.selfCgroupID _ _) as [id|e]; cbn; [|split; [done|]; intros ??? [= <- <-] [= _ <-]; lia].
destruct (as4 ip) as [a|]; [|done].
destruct (MapConfig_Update o _ w1) as [[[[]|e]|p] w2] eqn:E2; cbn; [..|done]; apply Hupdate in E2.
2: { split; [done|]. intros ??? [= <- <-] [= _ <-]. lia. }
destruct (AttachCgroup o w2) as [[[l|e]|p] w3] eqn:E3; cbn; [..|done]; apply Hattach in E3; cbn in E3.
- split; [|done]. intros close [= <- <-]. split; [lia|]. intros w4 r w5 H. eapply close_frees, H.
- split; [done|]. intros ??? [= <- <-] [= _ <-]. lia.
Qed.
End Resources.

(** ** Witness: attaching fails on a kernel that counts its objects *)

Lemma attest_releases_witness :
  let load : ST nat (result unit) := λ n, (Ret (Ok tt), S n) in
  let attach : unit → ST nat (result unit) := λ _, err (EMsg "permission denied") in
  let close : unit → ST nat (result unit) := λ _ n, (match n with 0 => Panic "" | S n => Ret (Ok tt) end, pred n) in
  ∃ e w', attest_LoadAndAttach load attach close 3 = (Ret (Err e), w') ∧ w' = 3.
Proof.
  intros load attach close. eexists _, _. split; [reflexivity|].
  refine (proj1 (attest_releases (λ n, n) load attach close close _ _ _ _ 3 _) _ eq_refl).
  - intros w a w1 [= <- <-]. cbn. lia.
  - intros o w a w1 [= <- <-]. cbn. lia.
  - intros l [|w] a w1; [done|]. by intros [= <- <-].
  - intros l [|w] a w1; [done|]. by intros [= <- <-].
Defined.
