(* ===== verification/ProxyTest.v ===== *)
(** * internal/proxytest: the marker server

    The server that stands for the real metadata endpoint in the end-to-end
    tests of the eBPF routing mode, and the chain they test: the redirect of
    Routing.v, the proxy of Proxy.v and this server.  netlink and net.Listen
    are arguments. *)

From S2P Require Import Prelude GoStrings NetIP HTTP ServeMux Routing Proxy.
Open Scope string_scope.
Open Scope Z_scope.

Definition HeaderName : string := "X-Proxy-Test-Marker".
Definition Marker : string := "gke-metadata-server-proxy-passthrough-ok".
Definition Path : string := "/_proxy_test".
Definition listenAddr : string := "169.254.169.254:80".
Definition addrCIDR : string := "169.254.169.254/32".
Definition marker_handler {W} : Handler W := λ _,
  _ ← Header_Set HeaderName Marker; WriteHeader 204.

Section Start.
Context {W Link A Listener : Type}.
Context (LinkByName : string → ST W (result Link)) (ParseAddr : string → ST W (result A)).
Context (with_scope : Z → A → A) (AddrAdd : Link → A → ST W (result unit)).
Context (is_EEXIST : error → bool) (Listen : string → string → ST W (result Listener)).
(** What ServeMux does with an unclean path. *)
Context (unclean : Handler W).

Definition upstream : Handler W := mux_ServeHTTP unclean [("/", marker_handler)].
(** The result carries what the goroutine left running serves. *)
Definition Start : ST W (result (Listener * Handler W)) :=
lo ←? wrapping "looking up lo: " (LinkByName "lo");
a ←? wrapping "parsing addr: " (ParseAddr addrCIDR);
let a := with_scope Loopback.SCOPE_HOST a in
r ← AddrAdd lo a;
_ ←? match r with
     | Err e => if is_EEXIST e then ok tt else err (EWrap ("adding " +:+ addrCIDR +:+ " to lo: ") e "")
     | Ok _ => ok tt
     end;
lis ←? wrapping ("listening on " +:+ listenAddr +:+ ": ") (Listen "tcp" listenAddr);
ok (lis, upstream).

(** ** Theorems *)

(** What the upstream answers a request for a clean rooted path. *)
Lemma upstream_answers (r : Request) (x : W) :
cleanPath (rq_Path r) = rq_Path r → has_prefix "/" (rq_Path r) = true →
∃ w, upstream r (x, fresh_writer) = (Ret tt, (x, w)) ∧ (∃ h, rw_sent w = Some (204, h)) ∧ rw_body w = [] ∧
     rw_header w !! HeaderName = Some Marker.
Proof.
intros Hc Hp. unfold upstream, mux_ServeHTTP. rewrite bool_decide_eq_true_2 by done.
unfold mux_match. cbn [foldl fst snd]. unfold pattern_matches. change (has_suffix "/" "/") with true. cbv iota.
rewrite Hp. unfold marker_handler. st_simpl. unfold Header_Set, modify_writer, st_modify. cbn [fst snd].
rewrite WriteHeader_final by done. eexists. split; [reflexivity|]. split; [by eexists|]. split; [done|].
by apply lookup_insert_eq.
Qed.
(** What Start did when it succeeds. *)
Lemma Start_ok (x x' : W) lis h :
Start x = (Ret (Ok (lis, h)), x') →
h = upstream ∧ ∃ lo x1 a x2 r x3,
  LinkByName "lo" x = (Ret (Ok lo), x1) ∧ ParseAddr addrCIDR x1 = (Ret (Ok a), x2) ∧
  AddrAdd lo (with_scope Loopback.SCOPE_HOST a) x2 = (Ret r, x3) ∧
  (r = Ok tt ∨ ∃ e, r = Err e ∧ is_EEXIST e = true) ∧ Listen "tcp" listenAddr x3 = (Ret (Ok lis), x').
Proof.
unfold Start, wrapping. st_simpl.
destruct (LinkByName "lo" x) as [[[lo|e]|p] x1]; [|done..]. st_simpl.
destruct (ParseAddr addrCIDR x1) as [[[a|e]|p] x2] eqn:E2; [|done..]. st_simpl.
destruct (AddrAdd lo _ x2) as [[r|p] x3] eqn:E3; [|done]. st_simpl. intros H.
assert (Hr : (r = Ok tt ∨ ∃ e, r = Err e ∧ is_EEXIST e = true) ∧ Listen "tcp" listenAddr x3 = (Ret (Ok lis), x') ∧
             h = upstream).
{ assert (Hl : (r0 ← Listen "tcp" listenAddr;
                 match r0 with Ok l => ok (l, upstream) | Err e => err (EWrap ("listening on " +:+ listenAddr +:+ ": ") e "") end) x3
               = (Ret (Ok (lis, h)), x') ∧ (r = Ok tt ∨ ∃ e, r = Err e ∧ is_EEXIST e = true)).
  { destruct r as [[]|e]; [|destruct (is_EEXIST e) eqn:Ee]; revert H; st_simpl; try done.
    all: destruct (Listen _ _ x3) as [[[l|e']|p] x4]; st_simpl; naive_solver. }
  destruct Hl as [Hl Hr]. split; [done|]. revert Hl. st_simpl.
  destruct (Listen _ _ x3) as [[[l|e']|p] x4]; [|done..]. unfold ok, mret, st_ret. by intros [= -> <- ->]. }
destruct Hr as (Hr & Hl & ->). split; [done|]. by exists lo, x1, a, x2, r, x3.
Qed.
End Start.

(** C17: the end-to-end chain of the eBPF mode.  Once Start has succeeded, its
    server listens on 169.254.169.254:80; a connect of an application to that
    address reaches the daemon; a request for the test path, with any method
    and query and however it is cut into reads, is handed to the real endpoint
    byte for byte, whatever the state of the proxy's queue; the daemon's own
    connect to that address is left alone; and the server answers the request
    with 204, the marker header and no body. *)
Theorem passthrough {W Link A Listener} (LinkByName : string → ST W (result Link))
    (ParseAddr : string → ST W (result A)) (with_scope : Z → A → A) (AddrAdd : Link → A → ST W (result unit))
    (is_EEXIST : error → bool) (Listen : string → string → ST W (result Listener)) (unclean : Handler W)
    (world world' : W) (lis : Listener) (upstream : Handler W)
    (debug : bool) (own ip port app : Z) (ctx : Redirect.bpf_sock_addr)
    (m t body : string) (reads : list read) (p : proxy) (pick : bool) (r : Request) (y : W) :
  Start LinkByName ParseAddr with_scope AddrAdd is_EEXIST Listen unclean world =
    (Ret (Ok (lis, upstream)), world') →
  0 ≤ ip < 2 ^ 32 → 0 ≤ Redirect.user_ip4 ctx < 2 ^ 32 → 0 ≤ Redirect.user_port ctx < 2 ^ 16 →
  metadata_connect ctx → app ≠ own →
  ¬ str_in space m → ¬ str_in newline m → ¬ str_in space t → ¬ str_in newline t →
  Forall (λ r, rd_err r = None) reads → stream reads = m +:+ " " +:+ t +:+ " " +:+ body →
  (String.length m + String.length t + 2 ≤ sniffCap)%nat →
  target_path t = Path → rq_Path r = target_path t →
  let connect c := Redirect.redirect_connect4 (Some (Redirect.redirect_config debug own ip port)) c ctx in
  (∃ before, Listen "tcp" "169.254.169.254:80" before = (Ret (Ok lis), world')) ∧
  (Redirect.bswap32 (Redirect.user_ip4 (connect app)) = ip ∧
   Redirect.bswap16 (Redirect.user_port (connect app)) = port mod 65536) ∧
  (∃ c, proxy_handle pick true reads p = (Forwarded c, p) ∧ conn_stream c = stream reads) ∧
  connect own = ctx ∧
  (∃ w, upstream r (y, fresh_writer) = (Ret tt, (y, w)) ∧ (∃ h, rw_sent w = Some (204, h)) ∧ rw_body w = [] ∧
        rw_header w !! HeaderName = Some Marker).
Proof.
  intros HS Hip Hu Hp Hmc Hne Hm Hmn Ht Htn Hok Hs Hcap Hpath Hr connect.
  apply Start_ok in HS as (-> & lo & x1 & a & x2 & ra & x3 & _ & _ & _ & _ & HL). split_and!.
  - by exists x3.
  - by apply redirected.
  - by apply redirected.
  - destruct (sniffed_request m t Hm Hmn Ht Htn reads body) as (buf & rest & z & Hsn & -> & Hrest); [done..|].
    exists {| sc_buf := head m t +:+ z; sc_reads := rest |}. split; [|by rewrite <- Hrest].
    unfold proxy_handle. rewrite Hsn, isMetadataRequest_head, Hpath by done.
    by destruct (bool_decide (m = "GET")).
  - by apply not_redirected; [done..|right].
  - rewrite Hpath in Hr. apply upstream_answers; by rewrite Hr.
Qed.

(** ** Witness: the test pod's request, with the address already on lo *)

Lemma passthrough_witness :
  let start := Start (W := unit) (λ _, ok tt) ok (λ _ a, a) (λ _ _, err (EMsg "file exists")) (λ _, true)
                 (λ _, ok) (λ _, mret tt) in
  let reads := [{| rd_data := "GET /_proxy_test?a=b "; rd_err := None |}; {| rd_data := "HTTP/1.1"; rd_err := None |}] in
  let ctx := {| Redirect.user_family := 2; Redirect.protocol := 6;
                Redirect.user_ip4 := Redirect.bswap32 (v4_of_octets [169; 254; 169; 254]);
                Redirect.user_port := Redirect.bswap16 80 |} in
  ∃ upstream, start tt = (Ret (Ok ("169.254.169.254:80", upstream)), tt) ∧
    Redirect.redirect_connect4 (Some (Redirect.redirect_config false 7 167772161 16321)) 7 ctx = ctx ∧
    ∃ c, proxy_handle true true reads {| queue := []; closed := false |} =
           (Forwarded c, {| queue := []; closed := false |}) ∧ conn_stream c = stream reads.
Proof.
  intros start reads ctx. exists (upstream (λ _, mret tt)). split; [reflexivity|].
  destruct (passthrough (W := unit) (λ _, ok tt) ok (λ _ a, a) (λ _ _, err (EMsg "file exists")) (λ _, true)
    (λ _, ok) (λ _, mret tt) tt tt "169.254.169.254:80" (upstream (λ _, mret tt)) false 7 167772161 16321 8 ctx
    "GET" "/_proxy_test?a=b" "HTTP/1.1" reads {| queue := []; closed := false |} true
    {| rq_Method := "GET"; rq_Path := "/_proxy_test"; rq_Query := []; rq_Header := []; rq_RemoteAddr := "";
       ctx_localAddr := None; ctx_saRef := None; ctx_googleEmail := None; ctx_observability := false |} tt)
    as (_ & _ & Hc & Hown & _); [reflexivity|..|by split].
  1-3: by unfold ctx; vm_compute.
  all: try done.
  1-4: by apply (bool_decide_unpack _); vm_compute.
  1: by repeat constructor.
  by apply Nat.leb_le; vm_compute.
Defined.
