(* ===== verification/Main.v ===== *)
(** * main.go: the daemon put together

    The validation of the inputs, which provider serves pods, nodes, service
    accounts and tokens under which flags, the routing mode with its
    attestation, and the options the server is started with.  [start] is main
    up to the call of server.New; an [Err] is a fatal log line.  The
    Kubernetes client, the informers and their metrics, the token machinery
    behind the two token providers, the loaders of the routing and attestation
    programs and the test upstream are arguments.  The token cache is the
    machine of TokenCache.v; here only its place in the wiring matters. *)

From S2P Require Import Prelude GoStrings NetIP Retry Credentials Api ServiceAccounts Pods.
From S2P Require Import HTTP Tokens Attestation Node Routing Server ServerIdentity.
Open Scope string_scope.
Open Scope Z_scope.

(** The variables of the flags. *)
Record Flags : Type := {
  stringLogLevel : string;
  serverPort : Z;
  healthPort : Z;
  projectID : string;
  workloadIdentityProvider : string;
  watchPods : bool;
  watchPodsResyncPeriod : Z;
  watchPodsDisableFallback : bool;
  watchNode : bool;
  watchNodeResyncPeriod : Z;
  watchNodeDisableFallback : bool;
  watchServiceAccounts : bool;
  watchServiceAccountsResyncPeriod : Z;
  watchServiceAccountsDisableFallback : bool;
  cacheTokens : bool;
  cacheTokensConcurrency : Z;
  cacheMaxTokenDuration : Z;
  podLookupMaxAttempts : Z;
  podLookupRetryInitialDelay : Z;
  podLookupRetryMaxDelay : Z;
  testProxyUpstream : bool;
}.

Section Main.
Context {W : Type} (f : Flags).
(** The environment variables. *)
Context (NODE_NAME POD_IP : string).
(** The Kubernetes client, or the error of making it, and its calls. *)
Context (kube_client : result unit).
Context (kube_ListPods : string → ST W (result (list Kube.Pod))).
Context (kube_GetNode : string → ST W (result Kube.Node)).
Context (kube_GetServiceAccount : string → string → ST W (result Kube.ServiceAccount)).
(** The informers' indexer and store, and the providers' metrics. *)
Context (NewFilteredPodInformer : Pods.WatchProvider.Informer →
  (Kube.Pod → list string) → Kube.Pod → ST W (result (list Kube.Pod))).
Context (NewServiceAccountInformer : ServiceAccounts.WatchProvider.Informer →
  string → ST W (result (option Kube.ServiceAccount))).
Context (gauge_Add : string → Z → ST W unit) (counter_Inc : string → ST W unit).
(** The issuing provider for a credentials configuration; the cache in front
    of a source and a service account provider; its listener methods. *)
Context (create_tokens : Config → Tokens.Provider W).
Context (cache_tokens : Tokens.Provider W → ServiceAccounts.Provider W → Tokens.Provider W).
Context (cache_pod_listener : Pods.WatchProvider.Listener W).
Context (cache_sa_listener : ServiceAccounts.WatchProvider.Listener W).
(** The mechanisms of the routing modes and the attestation of each. *)
Context (redirect : Addr → Z → ST W (result (closer W))) (loopback : ST W (result (closer W))).
Context (attestbpf_LoadAndAttach : ST W (result unit)).
Context (map_Lookup : Bpf.AttestKey → ST W (result (option Z))) (cgroups : W → fs_error + fsnode).
Context (system : W → Sockdiag.System) (addr_text : Addr → Z → string).
Context (proxytest_Start : ST W (result unit)).

(** ** Providers *)

Definition list_pods : Pods.Provider W := ListProvider.provider NODE_NAME kube_ListPods.
Definition pods_options : Pods.WatchProvider.ProviderOptions W :=
{| Pods.WatchProvider.opt_NodeName := NODE_NAME;
   Pods.WatchProvider.opt_FallbackSource := if watchPodsDisableFallback f then None else Some list_pods;
   Pods.WatchProvider.opt_ResyncPeriod := watchPodsResyncPeriod f |}.
Definition watch_pods : Pods.WatchProvider.State W :=
let p := Pods.WatchProvider.NewProvider NewFilteredPodInformer (gauge_Add "pods") (counter_Inc "pods") pods_options in
if cacheTokens f then Pods.WatchProvider.AddListener p cache_pod_listener else p.
Definition pods_provider : Pods.Provider W :=
if watchPods f then Pods.WatchProvider.provider watch_pods else list_pods.

(** The node provider that is read at start is [nodeGetter], the plain one. *)
Definition nodeGetter : Node.Provider W := GetNodeProvider NODE_NAME kube_GetNode.

Definition get_sas : ServiceAccounts.Provider W := GetProvider kube_GetServiceAccount.
Definition watch_sas : ServiceAccounts.WatchProvider.State W :=
let p := ServiceAccounts.WatchProvider.NewProvider NewServiceAccountInformer (gauge_Add "service_accounts")
  (counter_Inc "service_accounts")
  {| ServiceAccounts.WatchProvider.opt_FallbackSource :=
       if watchServiceAccountsDisableFallback f then None else Some get_sas;
     ServiceAccounts.WatchProvider.opt_ResyncPeriod := watchServiceAccountsResyncPeriod f |} in
if cacheTokens f then ServiceAccounts.WatchProvider.AddListener p cache_sa_listener else p.
Definition sas_provider : ServiceAccounts.Provider W :=
if watchServiceAccounts f then ServiceAccounts.WatchProvider.provider watch_sas else get_sas.

Definition tokens_provider (c : Config) : Tokens.Provider W :=
if cacheTokens f then cache_tokens (create_tokens c) sas_provider else create_tokens c.

(** ** Start *)

(** The token cache makes its semaphore: a channel of a negative size panics. *)
Definition make_semaphore : ST W unit :=
if cacheTokens f && (cacheTokensConcurrency f <? 0) then panic "makechan: size out of range" else mret tt.

Definition serverAddr (routingMode : string) : string :=
if decide (routingMode = RoutingModeLoopback) then Loopback.GKEMetadataServerAddr
else ":" +:+ pretty (serverPort f).

Definition attestation (routingMode : string) : ST W (result (option (Lookuper W))) :=
if decide (routingMode = RoutingModeBPF) then
  _ ←? wrapping "error loading attestation eBPF program: " attestbpf_LoadAndAttach;
  ok (Some (Bpf.lookuper map_Lookup cgroups))
else if decide (routingMode = RoutingModeLoopback ∨ routingMode = RoutingModeNone) then
  ok (Some (Sockdiag.lookuper system addr_text))
else ok None.

Definition server_options (c : Config) (numericProjectID workloadIdentityPool routingMode : string)
  (lookuper : option (Lookuper W)) : ServerOptions W :=
{| opt_NodeName := NODE_NAME; opt_PodIP := POD_IP; opt_Addr := serverAddr routingMode;
   opt_HealthPort := healthPort f; opt_Pods := pods_provider; opt_ServiceAccounts := sas_provider;
   opt_ServiceAccountTokens := tokens_provider c; opt_ProjectID := projectID f;
   opt_NumericProjectID := numericProjectID; opt_WorkloadIdentityPool := workloadIdentityPool;
   opt_RoutingMode := routingMode;
   opt_PodLookup :=
     {| pl_MaxAttempts := if podLookupMaxAttempts f <? 0 then 0 else podLookupMaxAttempts f;
        pl_RetryInitialDelay := podLookupRetryInitialDelay f;
        pl_RetryMaxDelay := podLookupRetryMaxDelay f |};
   opt_Attestation := lookuper |}.

(** The checks of the environment: the daemon's IPv4 address. *)
Definition validate_inputs : result Addr :=
if bool_decide (NODE_NAME = "") then Err (EMsg "NODE_NAME environment variable must be specified")
else if bool_decide (POD_IP = "") then Err (EMsg "POD_IP environment variable must be specified")
else match ParseAddr POD_IP with
     | Err e => Err (EWrap "error parsing POD_IP environment variable: " e "")
     | Ok (V4 a) => Ok (V4 a)
     | Ok (V6 _ _) => Err (EMsg "POD_IP environment variable must be an IPv4 address")
     end.

Definition start : ST W (result (ServerOptions W * closer W)) :=
emulatorIP ←? mret validate_inputs;
' (config, numericProjectID, workloadIdentityPool) ←?
  wrapping "error creating google credentials config: " (mret (NewConfig (workloadIdentityProvider f)));
_ ←? wrapping "error creating kubernetes client: " (mret kube_client);
_ ← make_semaphore;
curNode ←? wrapping "error getting current node: " (Node.Get nodeGetter);
' (routingMode, closeRoute) ←? wrapping "error loading and attaching network route: "
  (LoadAndAttach redirect loopback curNode emulatorIP (serverPort f));
lookuper ←? attestation routingMode;
_ ←? (if testProxyUpstream f && bool_decide (routingMode = RoutingModeBPF)
      then wrapping "error starting test proxy upstream: " proxytest_Start else ok tt);
ok (server_options config numericProjectID workloadIdentityPool routingMode lookuper, closeRoute).

(** ** Theorems *)

(** The lookuper of a routing mode, and whose connections it attests. *)
Definition mode_lookuper (mode : string) : Lookuper W :=
if decide (mode = RoutingModeBPF) then Bpf.lookuper map_Lookup cgroups
else Sockdiag.lookuper system addr_text.
Definition mode_owner (mode : string) : W → Addr → Addr → Z → Z → string → Prop :=
if decide (mode = RoutingModeBPF) then bpf_owner map_Lookup cgroups else socket_owner system.
#[export] Instance mode_attests mode : Attests (mode_owner mode) (mode_lookuper mode).
Proof. unfold mode_owner, mode_lookuper. destruct (decide _); apply _. Qed.

Lemma attached_mode node ip port mode cl w w' :
  LoadAndAttach redirect loopback node ip port w = (Ret (Ok (mode, cl)), w') →
  mode = getMode node ∧ mode ∈ [RoutingModeBPF; RoutingModeLoopback; RoutingModeNone].
Proof.
  intros Hr. unfold LoadAndAttach in Hr. destruct (decide (getMode node = RoutingModeBPF)) as [E|E1].
  { apply bindR_ok in Hr as (? & ? & _ & [= <- _]). rewrite E. set_solver. }
  destruct (decide (getMode node = RoutingModeLoopback)) as [E|E2].
  { apply bindR_ok in Hr as (? & ? & _ & [= <- _]). rewrite E. set_solver. }
  destruct (decide (getMode node = RoutingModeNone)) as [E|E3]; [|done].
  apply bindR_ok in Hr as (? & ? & _ & [= <- _]). rewrite E. set_solver.
Qed.
Lemma start_inv w o close w' :
  start w = (Ret (Ok (o, close)), w') →
  ∃ ip config numericProjectID pool node mode, ParseAddr POD_IP = Ok (V4 ip) ∧
    NewConfig (workloadIdentityProvider f) = Ok (config, numericProjectID, pool) ∧
    (∃ w1, kube_GetNode NODE_NAME w = (Ret (Ok node), w1)) ∧
    mode = getMode node ∧ mode ∈ [RoutingModeBPF; RoutingModeLoopback; RoutingModeNone] ∧
    NODE_NAME ≠ "" ∧ o = server_options config numericProjectID pool mode (Some (mode_lookuper mode)) ∧
    (∃ w1 w2, LoadAndAttach redirect loopback node (V4 ip) (serverPort f) w1 = (Ret (Ok (mode, close)), w2)) ∧
    (cacheTokens f = true → 0 ≤ cacheTokensConcurrency f).
Proof.
  intros (ip & s1 & Hv & H)%bindR_ok. injection Hv as Hv <-.
  apply bindR_ok in H as ([[config num] pool] & s2 & [= Hc <-]%wrapping_ok & H).
  apply bindR_ok in H as ([] & s3 & [= Hk <-]%wrapping_ok & H).
  apply bind_ret in H as ([] & s3' & Hsem & H).
  assert (s3' = w ∧ (cacheTokens f = true → 0 ≤ cacheTokensConcurrency f)) as [-> Hconc].
  { unfold make_semaphore in Hsem. destruct (cacheTokens f); [|by injection Hsem as <-]. cbn in Hsem.
    destruct (Z.ltb_spec (cacheTokensConcurrency f) 0); [done|]. by injection Hsem as <-. }
  apply bindR_ok in H as (node & s4 & Hn%wrapping_ok & H).
  apply bindR_ok in H as ([mode cl] & s5 & Hr%wrapping_ok & H).
  apply bindR_ok in H as (lk & s6 & Ha & H).
  apply bindR_ok in H as (u & s7 & _ & H). injection H as <- <- _.
  assert (Hip : ∃ a, ParseAddr POD_IP = Ok (V4 a) ∧ ip = V4 a ∧ NODE_NAME ≠ "").
  { unfold validate_inputs in Hv. do 2 (case_bool_decide; [done|]).
    destruct (ParseAddr POD_IP) as [[a|]|]; try done. injection Hv as <-. eauto. }
  destruct Hip as (a & Hip & -> & Hne).
  assert (Hmode : mode = getMode node ∧ mode ∈ [RoutingModeBPF; RoutingModeLoopback; RoutingModeNone]).
  { by apply attached_mode in Hr. }
  destruct Hmode as [Hmode Hin]. exists a, config, num, pool, node, mode.
  split_and!; try done; [by eexists| |by eexists _, _].
  f_equal. unfold attestation in Ha. unfold mode_lookuper.
  destruct (decide (mode = RoutingModeBPF)) as [E|E1].
  - apply bindR_ok in Ha as (? & ? & _ & [= <- _]). done.
  - rewrite decide_True in Ha by (rewrite !elem_of_cons, elem_of_nil in Hin; tauto).
    by injection Ha as <- _.
Qed.

(** What the route left stays as the later steps leave it. *)
Lemma start_views {B} (view : W → B) w o close w' :
  (∀ w r w', attestbpf_LoadAndAttach w = (Ret r, w') → view w' = view w) →
  (∀ w r w', proxytest_Start w = (Ret r, w') → view w' = view w) →
  start w = (Ret (Ok (o, close)), w') →
  ∃ node ip w1 w2, ParseAddr POD_IP = Ok (V4 ip) ∧ opt_RoutingMode o = getMode node ∧
    LoadAndAttach redirect loopback node (V4 ip) (serverPort f) w1 = (Ret (Ok (opt_RoutingMode o, close)), w2) ∧
    view w' = view w2.
Proof.
  intros Hatt Htest Hs.
  pose proof Hs as (ip & config & num & pool & node & mode & Hip & _ & (w1 & Hn) & Hmode & _ & _ & Ho & _)%start_inv.
  apply bindR_ok in Hs as (ip' & s1 & [= Hv <-] & H).
  apply bindR_ok in H as ([[config' num'] pool'] & s2 & [= Hc <-]%wrapping_ok & H).
  apply bindR_ok in H as ([] & s3 & [= Hk <-]%wrapping_ok & H).
  apply bind_ret in H as ([] & s4 & Hsem & H).
  apply bindR_ok in H as (node' & s5 & Hn'%wrapping_ok & H).
  apply bindR_ok in H as ([mode' cl] & s6 & Hr%wrapping_ok & H).
  apply bindR_ok in H as (lk & s7 & Ha & H).
  apply bindR_ok in H as ([] & s8 & Ht & H). injection H as Ho' -> <-.
  assert (Hip' : ip' = V4 ip).
  { clear -Hv Hip. unfold validate_inputs in Hv. do 2 (case_bool_decide; [done|]). rewrite Hip in Hv. by injection Hv as <-. }
  subst ip'. assert (Hm : mode' = getMode node').
  { by apply attached_mode in Hr as [? _]. }
  exists node', ip, s5, s6. subst o. cbn in *. rewrite <- Hm. split_and!; try done.
  transitivity (view s7).
  - destruct (testProxyUpstream f && _); [|by injection Ht as <-]. apply wrapping_ok in Ht. by eapply Htest.
  - unfold attestation in Ha. destruct (decide (mode' = RoutingModeBPF)).
    + apply bindR_ok in Ha as ([] & w2 & Hb%wrapping_ok & H). injection H as _ <-. by eapply Hatt.
    + destruct (decide _); by injection Ha as _ <-.
Qed.

Lemma pods_lawful (known : Kube.Pod → Prop) (store : W → list Kube.Pod) :
  (∀ w items w', kube_ListPods ("spec.nodeName=" +:+ NODE_NAME) w = (Ret (Ok items), w') →
     Forall known items) →
  (∀ ip w items w',
     kube_ListPods (join "," ["spec.nodeName=" +:+ NODE_NAME; "spec.hostNetwork=false";
                              "status.podIP=" +:+ ip]) w = (Ret (Ok items), w') →
     Forall (λ pod, known pod ∧ Kube.pod_HostNetwork pod = false ∧ Kube.pod_PodIP pod = ip) items) →
  (∀ g obj w l w', NewFilteredPodInformer (Pods.WatchProvider.informer pods_options) g obj w = (Ret (Ok l), w') →
     l ≡ₚ filter (λ pod, Exists (λ x, x ∈ g pod) (g obj)) (store w)) →
  (∀ w, Forall known (store w)) → Lawful known pods_provider.
Proof.
  intros Hnode Hip Hidx Hstore.
  assert (HL : Lawful known list_pods) by by apply list_lawful.
  unfold pods_provider. destruct (watchPods f); [|done].
  apply (watch_lawful _ store); [|done|].
  - intros g obj w l w'. unfold watch_pods. destruct (cacheTokens f); apply Hidx.
  - intros p Hp. assert (p = list_pods) as ->; [|done]. unfold watch_pods in Hp.
    unfold pods_options in Hp. destruct (cacheTokens f), (watchPodsDisableFallback f); cbn in Hp; congruence.
Qed.

(** C1: the whole daemon resolves callers soundly.  Whatever the flags and the
  routing mode it was started with, if the API server's lists hold the node's
  pods and apply their field selectors and the informer's index is an index
  of such pods, then a service account reference that the server resolves for
  a connection is that of a running pod of the node: the pod whose cgroup the
  kernel recorded for the 4-tuple (eBPF mode), the pod of a process that holds
  the socket (a host address in the other modes), or the pod with the peer's
  address on the pod network. *)
Theorem daemon_identity (known : Kube.Pod → Prop) (store : W → list Kube.Pod) w o close w' :
  (∀ w items w', kube_ListPods ("spec.nodeName=" +:+ NODE_NAME) w = (Ret (Ok items), w') →
     Forall known items) →
  (∀ ip w items w',
     kube_ListPods (join "," ["spec.nodeName=" +:+ NODE_NAME; "spec.hostNetwork=false";
                              "status.podIP=" +:+ ip]) w = (Ret (Ok items), w') →
     Forall (λ pod, known pod ∧ Kube.pod_HostNetwork pod = false ∧ Kube.pod_PodIP pod = ip) items) →
  (∀ g obj w l w', NewFilteredPodInformer (Pods.WatchProvider.informer pods_options) g obj w = (Ret (Ok l), w') →
     l ≡ₚ filter (λ pod, Exists (λ x, x ∈ g pod) (g obj)) (store w)) →
  (∀ w, Forall known (store w)) →
  start w = (Ret (Ok (o, close)), w') →
  ∀ ctx lookupPodFailures fuel r x rw ref r' s',
    ctx_saRef r = None → ctx_observability r = true →
    getPodServiceAccountReference o ctx lookupPodFailures fuel r (x, rw) = (Ret (Ok (ref, r')), s') →
    ∃ pod, caller o known (mode_owner (opt_RoutingMode o)) r x pod ∧ ref = ReferenceFromPod pod.
Proof.
  intros H1 H2 H3 H4 Hs ctx count fuel r x rw ref r' s' Hr Hobs Hget.
  destruct (start_inv w o close w' Hs) as (ip & c & num & pool & node & mode & _ & _ & _ & _ & _ & _ & -> & _).
  destruct (caller_found (server_options c num pool mode (Some (mode_lookuper mode))) ctx count fuel known
    (mode_owner mode) r x rw ref r' s') as (pod & Hc & -> & _); [| |done..|by exists pod].
  - by apply (pods_lawful known store).
  - intros L [= <-]. apply _.
Qed.

(** A daemon that starts is configured coherently: it has a node name and
  an IPv4 address of its own, one of the three routing modes, namely the
  node's, with the lookuper of that mode (so that a request never finds
  attestation missing), listens on the metadata address in Loopback mode and
  on the server port otherwise, and looks pods up a bounded number of times,
  three when the flag is zero or negative. *)
Theorem start_configures w o close w' :
  start w = (Ret (Ok (o, close)), w') →
  opt_NodeName o = NODE_NAME ∧ NODE_NAME ≠ "" ∧ (∃ ip, ParseAddr (opt_PodIP o) = Ok (V4 ip)) ∧
  (∃ node w1, kube_GetNode NODE_NAME w = (Ret (Ok node), w1) ∧ opt_RoutingMode o = getMode node) ∧
  opt_RoutingMode o ∈ ["eBPF"; "Loopback"; "None"] ∧
  opt_Attestation o = Some (mode_lookuper (opt_RoutingMode o)) ∧
  opt_Addr o = (if decide (opt_RoutingMode o = "Loopback") then "169.254.169.254:80"
                else ":" +:+ pretty (serverPort f)) ∧
  default_max_attempts (pl_MaxAttempts (opt_PodLookup o)) =
    (if 0 <? podLookupMaxAttempts f then podLookupMaxAttempts f else 3).
Proof.
  intros Hs. destruct (start_inv w o close w' Hs)
    as (ip & c & num & pool & node & mode & Hip & _ & (w1 & Hn) & -> & Hin & Hne & -> & _).
  cbn. split_and!; try done; [by eexists|by eexists _, _|].
  unfold default_max_attempts.
  destruct (Z.ltb_spec (podLookupMaxAttempts f) 0), (Z.ltb_spec 0 (podLookupMaxAttempts f)); try lia; cbn.
  - done.
  - destruct (Z.eqb_spec (podLookupMaxAttempts f) 0); [lia|done].
  - destruct (Z.eqb_spec (podLookupMaxAttempts f) 0); [done|lia].
Qed.
End Main.

(** The watching node provider: main only starts and closes its informer, and
    reads the node through [nodeGetter] in any case. *)
Definition node_provider {W} (f : Flags) (NODE_NAME : string) (kube_GetNode : string → ST W (result Kube.Node))
    (NewFilteredNodeInformer : Node.Informer → string → ST W (result (option Kube.Node))) : Node.Provider W :=
  let node := nodeGetter NODE_NAME kube_GetNode in
  if watchNode f then
    NewWatchNodeProvider NewFilteredNodeInformer
      {| Node.opt_NodeName := NODE_NAME;
         Node.opt_FallbackSource := if watchNodeDisableFallback f then None else Some node;
         Node.opt_ResyncPeriod := watchNodeResyncPeriod f |}
  else node.

(** The flags of the node's watch set in any way. *)
Definition with_watch_node (watch disableFallback : bool) (resync : Z) (f : Flags) : Flags :=
  {| stringLogLevel := stringLogLevel f; serverPort := serverPort f; healthPort := healthPort f;
     projectID := projectID f; workloadIdentityProvider := workloadIdentityProvider f; watchPods := watchPods f;
     watchPodsResyncPeriod := watchPodsResyncPeriod f; watchPodsDisableFallback := watchPodsDisableFallback f;
     watchNode := watch; watchNodeResyncPeriod := resync; watchNodeDisableFallback := disableFallback;
     watchServiceAccounts := watchServiceAccounts f;
     watchServiceAccountsResyncPeriod := watchServiceAccountsResyncPeriod f;
     watchServiceAccountsDisableFallback := watchServiceAccountsDisableFallback f; cacheTokens := cacheTokens f;
     cacheTokensConcurrency := cacheTokensConcurrency f; cacheMaxTokenDuration := cacheMaxTokenDuration f;
     podLookupMaxAttempts := podLookupMaxAttempts f; podLookupRetryInitialDelay := podLookupRetryInitialDelay f;
     podLookupRetryMaxDelay := podLookupRetryMaxDelay f; testProxyUpstream := testProxyUpstream f |}.
(** They make no difference to the daemon that starts. *)
Lemma watch_node_unused {W} watch disableFallback resync f : start (W := W) (with_watch_node watch disableFallback resync f) = start f.
Proof. reflexivity. Qed.

(** ** Witnesses: a daemon that watches pods, on a node without routing *)

Module MainExample.
Definition flags : Flags :=
{| stringLogLevel := "info"; serverPort := 16321; healthPort := 16322; projectID := "p";
   workloadIdentityProvider := "projects/1/locations/global/workloadIdentityPools/pool/providers/prov";
   watchPods := true; watchPodsResyncPeriod := 0; watchPodsDisableFallback := false; watchNode := false;
   watchNodeResyncPeriod := 0; watchNodeDisableFallback := false; watchServiceAccounts := false;
   watchServiceAccountsResyncPeriod := 0; watchServiceAccountsDisableFallback := false; cacheTokens := false;
   cacheTokensConcurrency := 10; cacheMaxTokenDuration := 0; podLookupMaxAttempts := -1;
   podLookupRetryInitialDelay := 0; podLookupRetryMaxDelay := 0; testProxyUpstream := false |}.
Definition node : Kube.Node :=
{| Kube.node_Name := "n1"; Kube.node_Annotations := ∅;
   Kube.node_Labels := {[ AnnotationRoutingMode := RoutingModeNone ]}; Kube.node_Taints := [] |}.
Definition system (w : unit) : Sockdiag.System :=
{| Sockdiag.SocketGet _ _ _ _ := Err (EMsg "none"); Sockdiag.proc_open := Ok tt;
   Sockdiag.proc_batches := []; Sockdiag.proc_fds _ := None;
   Sockdiag.proc_cgroup _ := Err (EMsg "none") |}.
Definition run : outcome (result (ServerOptions unit * closer unit)) * unit :=
start flags "n1" "192.168.0.2" (Ok tt) Pods.Example.kube_List (λ _ w, (Ret (Ok node), w))
  (λ _ _ w, (Ret (Err (EMsg "none")), w)) (λ _, Pods.WatchProvider.indexer_Index Pods.Example.state)
  (λ _ _ w, (Ret (Err (EMsg "none")), w)) (λ _ _, mret tt) (λ _, mret tt) (λ _, ServerExample.tokens)
  (λ p _, p)
  {| Pods.WatchProvider.AddPodServiceAccount _ := mret tt; Pods.WatchProvider.DeletePodServiceAccount _ := mret tt |}
  {| ServiceAccounts.WatchProvider.UpdateServiceAccount _ := mret tt;
     ServiceAccounts.WatchProvider.DeleteServiceAccount _ := mret tt |}
  (λ _ _, panic "") (panic "") (panic "") (λ _, panic "") (λ _, inl FsSkipped) system (λ _ _, "")
  (panic "") tt.
Definition options : ServerOptions unit :=
match run with
| (Ret (Ok (o, _)), _) => o
| _ => ServerExample.options ""
end.
End MainExample.

Lemma start_configures_witness :
  opt_RoutingMode MainExample.options ∈ ["eBPF"; "Loopback"; "None"] ∧
  opt_Attestation MainExample.options ≠ None ∧
  default_max_attempts (pl_MaxAttempts (opt_PodLookup MainExample.options)) = 3.
Proof.
  unshelve epose proof (start_configures MainExample.flags "n1" "192.168.0.2" (Ok tt) Pods.Example.kube_List
    (λ _ w, (Ret (Ok MainExample.node), w)) (λ _ _ w, (Ret (Err (EMsg "none")), w))
    (λ _, Pods.WatchProvider.indexer_Index Pods.Example.state) (λ _ _ w, (Ret (Err (EMsg "none")), w))
    (λ _ _, mret tt) (λ _, mret tt) (λ _, ServerExample.tokens) (λ p _, p)
    {| Pods.WatchProvider.AddPodServiceAccount _ := mret tt;
       Pods.WatchProvider.DeletePodServiceAccount _ := mret tt |}
    {| ServiceAccounts.WatchProvider.UpdateServiceAccount _ := mret tt;
       ServiceAccounts.WatchProvider.DeleteServiceAccount _ := mret tt |}
    (λ _ _, panic "") (panic "") (panic "") (λ _, panic "") (λ _, inl FsSkipped) MainExample.system
    (λ _ _, "") (panic "") tt MainExample.options (ok tt) tt _) as (_ & _ & _ & _ & H1 & H2 & _ & H3).
  - reflexivity.
  - split_and!; [exact H1|by rewrite H2|by rewrite H3].
Defined.
Lemma daemon_identity_witness :
  ∃ pod, caller MainExample.options Pods.Example.known
    (mode_owner (λ _, panic "") (λ _, inl FsSkipped) MainExample.system (opt_RoutingMode MainExample.options))
    (ServerExample.pod_request []) tt pod ∧ ServerExample.test_ref = ReferenceFromPod pod.
Proof.
  apply (daemon_identity MainExample.flags "n1" "192.168.0.2" (Ok tt) Pods.Example.kube_List
    (λ _ w, (Ret (Ok MainExample.node), w)) (λ _ _ w, (Ret (Err (EMsg "none")), w))
    (λ _, Pods.WatchProvider.indexer_Index Pods.Example.state) (λ _ _ w, (Ret (Err (EMsg "none")), w))
    (λ _ _, mret tt) (λ _, mret tt) (λ _, ServerExample.tokens) (λ p _, p)
    {| Pods.WatchProvider.AddPodServiceAccount _ := mret tt;
       Pods.WatchProvider.DeletePodServiceAccount _ := mret tt |}
    {| ServiceAccounts.WatchProvider.UpdateServiceAccount _ := mret tt;
       ServiceAccounts.WatchProvider.DeleteServiceAccount _ := mret tt |}
    (λ _ _, panic "") (panic "") (panic "") (λ _, panic "") (λ _, inl FsSkipped) MainExample.system
    (λ _ _, "") (panic "") Pods.Example.known (λ _, Pods.Example.cluster) tt MainExample.options (ok tt) tt)
    with (ctx := ServerExample.ctx) (lookupPodFailures := ServerExample.no_count) (fuel := 0%nat)
         (rw := fresh_writer) (r' := with_saRef ServerExample.test_ref (ServerExample.pod_request []))
         (s' := (tt, fresh_writer)).
  - intros w items w' [= <- _]. apply Pods.Example.cluster_known.
  - intros ip [] items []. apply Pods.Example.kube_List_ip.
  - by intros g obj [] l [] [= <-].
  - intros _. apply Pods.Example.cluster_known.
  - reflexivity.
  - reflexivity.
  - reflexivity.
  - vm_compute. reflexivity.
Defined.
