(* ===== verification/CommandLine.v ===== *)
(** * main.go: flags, logger and exit codes

    What main does before it starts the daemon: the table of its flags with
    their defaults, the parsing of the arguments, and the log level.  pflag is
    an argument: it reads the arguments against the table as a list of
    assignments, or asks for help, or rejects them; so is logrus's list and
    parser of levels.  [run_main] goes on with Main.v's start. *)

From S2P Require Import Prelude GoStrings GoTime Credentials Api Main.
Open Scope string_scope.
Open Scope Z_scope.

Inductive flag_value : Type :=
| VString (s : string)
| VInt (z : Z)
| VBool (b : bool)
| VDuration (d : Z).
#[export] Instance flag_value_eq_dec : EqDecision flag_value.
Proof. solve_decision. Defined.
(** The two values are of the type of one flag. *)
Definition same_type (v v' : flag_value) : bool :=
  match v, v' with
  | VString _, VString _ | VInt _, VInt _ | VBool _, VBool _ | VDuration _, VDuration _ => true
  | _, _ => false
  end.

(** ** The table *)

Definition flag_table : list (string * flag_value) :=
  [("log-level", VString "info");
   ("server-port", VInt 16321);
   ("health-port", VInt 16322);
   ("project-id", VString "");
   ("workload-identity-provider", VString "");
   ("watch-pods", VBool false);
   ("watch-pods-resync-period", VDuration (10 * Minute));
   ("watch-pods-disable-fallback", VBool false);
   ("watch-node", VBool false);
   ("watch-node-resync-period", VDuration Hour);
   ("watch-node-disable-fallback", VBool false);
   ("watch-service-accounts", VBool false);
   ("watch-service-accounts-resync-period", VDuration Hour);
   ("watch-service-accounts-disable-fallback", VBool false);
   ("cache-tokens", VBool false);
   ("cache-tokens-concurrency", VInt 10);
   ("cache-max-token-duration", VDuration Hour);
   ("pod-lookup-max-attempts", VInt 3);
   ("pod-lookup-retry-initial-delay", VDuration Second);
   ("pod-lookup-retry-max-delay", VDuration (30 * Second));
   ("test-proxy-upstream", VBool false)].

(** The variables after the definitions and some assignments: each flag's own. *)
Local Abbreviation Vars := (gmap string flag_value).
Definition defaults : Vars := list_to_map flag_table.
Definition assign (vs : Vars) (a : string * flag_value) : Vars := <[a.1 := a.2]> vs.
Definition get_string (n : string) (vs : Vars) : string :=
  match vs !! n with Some (VString s) => s | _ => "" end.
Definition get_int (n : string) (vs : Vars) : Z :=
  match vs !! n with Some (VInt z) => z | _ => 0 end.
Definition get_bool (n : string) (vs : Vars) : bool :=
  match vs !! n with Some (VBool b) => b | _ => false end.
Definition get_duration (n : string) (vs : Vars) : Z :=
  match vs !! n with Some (VDuration d) => d | _ => 0 end.

(** Which variable each flag sets. *)
Definition flags_of (vs : Vars) : Flags :=
  {| stringLogLevel := get_string "log-level" vs;
     serverPort := get_int "server-port" vs;
     healthPort := get_int "health-port" vs;
     projectID := get_string "project-id" vs;
     workloadIdentityProvider := get_string "workload-identity-provider" vs;
     watchPods := get_bool "watch-pods" vs;
     watchPodsResyncPeriod := get_duration "watch-pods-resync-period" vs;
     watchPodsDisableFallback := get_bool "watch-pods-disable-fallback" vs;
     watchNode := get_bool "watch-node" vs;
     watchNodeResyncPeriod := get_duration "watch-node-resync-period" vs;
     watchNodeDisableFallback := get_bool "watch-node-disable-fallback" vs;
     watchServiceAccounts := get_bool "watch-service-accounts" vs;
     watchServiceAccountsResyncPeriod := get_duration "watch-service-accounts-resync-period" vs;
     watchServiceAccountsDisableFallback := get_bool "watch-service-accounts-disable-fallback" vs;
     cacheTokens := get_bool "cache-tokens" vs;
     cacheTokensConcurrency := get_int "cache-tokens-concurrency" vs;
     cacheMaxTokenDuration := get_duration "cache-max-token-duration" vs;
     podLookupMaxAttempts := get_int "pod-lookup-max-attempts" vs;
     podLookupRetryInitialDelay := get_duration "pod-lookup-retry-initial-delay" vs;
     podLookupRetryMaxDelay := get_duration "pod-lookup-retry-max-delay" vs;
     testProxyUpstream := get_bool "test-proxy-upstream" vs |}.

(** ** main up to the daemon's start *)

(** What pflag makes of the arguments. *)
Inductive parsed : Type :=
| Assignments (l : list (string * flag_value))
| ErrHelp
| ParseError (e : error).

(** How the process goes on or ends: returned, exited with a code and a text
    on stderr, ended by a fatal log line, or serving. *)
Inductive ending (A : Type) : Type :=
| Returned
| Exited (code : Z) (stderr : string)
| FatalLine (e : error)
| Serving (a : A).
Arguments Returned {A}.
Arguments Exited {A} code stderr.
Arguments FatalLine {A} e.
Arguments Serving {A} a.
(** os.Exit(1) behind l.Fatal. *)
Definition exit_code {A} (e : ending A) : option Z :=
  match e with Returned => Some 0 | Exited c _ => Some c | FatalLine _ => Some 1 | Serving _ => None end.

(** A flag of the table. *)
Ltac in_table := unfold flag_table; repeat first [by constructor 1|constructor 2].

Section CommandLine.
Context {W A Level : Type}.
Context (pflag_Parse : list (string * flag_value) → list string → parsed).
Context (AllLevels : list string) (ParseLevel : string → result Level).
Context (start : Flags → Level → ST W (result A)).

Definition acceptedLogLevels : string := join ", " AllLevels.

Definition run_main (args : list string) : ST W (ending A) :=
match pflag_Parse flag_table args with
| ErrHelp => mret Returned
| ParseError e => mret (Exited 1 ("error parsing flags: " +:+ error_text e +:+ one newline))
| Assignments l =>
  let f := flags_of (foldl assign defaults l) in
  match ParseLevel (stringLogLevel f) with
  | Err _ => mret (Exited 1 ("invalid value for --log-level flag. the accepted values are: "
                               +:+ acceptedLogLevels +:+ one newline))
  | Ok level =>
      r ← start f level;
      mret (match r with Ok a => Serving a | Err e => FatalLine e end)
  end
end.

(** ** Theorems *)

(** What pflag promises of its assignments: they are of flags of the table,
  with values of their types. *)
Definition typed (l : list (string * flag_value)) : Prop :=
Forall (λ a, ∃ d, (a.1, d) ∈ flag_table ∧ same_type d a.2 = true) l.
(** The value a flag has after the assignments. *)
Fixpoint last_assigned (n : string) (l : list (string * flag_value)) (d : flag_value) : flag_value :=
match l with
| [] => d
| a :: l' => last_assigned n l' (if decide (a.1 = n) then a.2 else d)
end.

Lemma flag_names_distinct : NoDup flag_table.*1.
Proof. apply (bool_decide_unpack _). by vm_compute. Qed.
Lemma assigned_last l vs n d : vs !! n = Some d → foldl assign vs l !! n = Some (last_assigned n l d).
Proof.
revert vs d. induction l as [|a l IH]; intros vs d Hn; [done|]. cbn. apply IH. unfold assign.
case_decide as E; [by rewrite E, lookup_insert_eq|by rewrite lookup_insert_ne].
Qed.
Lemma defaults_table n d : (n, d) ∈ flag_table → defaults !! n = Some d.
Proof. intros Hin. apply elem_of_list_to_map_1; [apply flag_names_distinct|done]. Qed.
Lemma same_type_trans v1 v2 v3 : same_type v1 v2 = true → same_type v1 v3 = true → same_type v2 v3 = true.
Proof. by destruct v1, v2, v3. Qed.
Lemma last_assigned_type n l d v :
(n, d) ∈ flag_table → typed l → same_type d v = true → same_type d (last_assigned n l v) = true.
Proof.
intros Hn Hl. revert v. induction Hl as [|a l (d' & Hd' & Ht) _ IH]; intros v Hv; [done|]. cbn. apply IH.
case_decide as E; [|done]. subst n.
pose proof (defaults_table _ _ Hn) as E1. pose proof (defaults_table _ _ Hd') as E2. simplify_eq. done.
Qed.

(** Every variable of the command line has the value of its flag's last
  assignment, or its default, and always one of its type, so that no getter
  falls back. *)
Theorem flags_read l n d :
typed l → (n, d) ∈ flag_table →
foldl assign defaults l !! n = Some (last_assigned n l d) ∧ same_type d (last_assigned n l d) = true.
Proof.
intros Hl Hn. split; [by apply assigned_last, defaults_table|].
apply last_assigned_type; [done..|]. by destruct d.
Qed.

(** The flags that give all variables, in the order of the table. *)
Definition arguments (f : Flags) : list (string * flag_value) :=
[("log-level", VString (stringLogLevel f)); ("server-port", VInt (serverPort f));
 ("health-port", VInt (healthPort f)); ("project-id", VString (projectID f));
 ("workload-identity-provider", VString (workloadIdentityProvider f));
 ("watch-pods", VBool (watchPods f));
 ("watch-pods-resync-period", VDuration (watchPodsResyncPeriod f));
 ("watch-pods-disable-fallback", VBool (watchPodsDisableFallback f));
 ("watch-node", VBool (watchNode f));
 ("watch-node-resync-period", VDuration (watchNodeResyncPeriod f));
 ("watch-node-disable-fallback", VBool (watchNodeDisableFallback f));
 ("watch-service-accounts", VBool (watchServiceAccounts f));
 ("watch-service-accounts-resync-period", VDuration (watchServiceAccountsResyncPeriod f));
 ("watch-service-accounts-disable-fallback", VBool (watchServiceAccountsDisableFallback f));
 ("cache-tokens", VBool (cacheTokens f)); ("cache-tokens-concurrency", VInt (cacheTokensConcurrency f));
 ("cache-max-token-duration", VDuration (cacheMaxTokenDuration f));
 ("pod-lookup-max-attempts", VInt (podLookupMaxAttempts f));
 ("pod-lookup-retry-initial-delay", VDuration (podLookupRetryInitialDelay f));
 ("pod-lookup-retry-max-delay", VDuration (podLookupRetryMaxDelay f));
 ("test-proxy-upstream", VBool (testProxyUpstream f))].

Lemma last_assigned_unique n v l d : NoDup l.*1 → (n, v) ∈ l → last_assigned n l d = v.
Proof.
revert d. induction l as [|[m w] l IH]; intros d; [by intros _ []%elem_of_nil|].
cbn. intros [Hm Hl]%NoDup_cons Hin. apply elem_of_cons in Hin as [[= -> ->]|Hin].
- rewrite decide_True by done. clear IH Hl. induction l as [|[k x] l IHl]; [done|].
  cbn in *. apply not_elem_of_cons in Hm as [Hk Hm]. rewrite decide_False by done. by apply IHl.
- by apply IH.
Qed.
(** Each flag sets its own variable: the arguments that give all of a
  configuration's variables, in any order, are read back as it. *)
Theorem flags_roundtrip f l :
l ≡ₚ arguments f → flags_of (foldl assign defaults l) = f.
Proof.
intros Hl. assert (Hnd : NoDup l.*1).
{ rewrite Hl. apply (bool_decide_unpack _). by vm_compute. }
assert (Hget : ∀ n d v, (n, d) ∈ flag_table → (n, v) ∈ arguments f →
  foldl assign defaults l !! n = Some v).
{ intros n d v Hn Hv. rewrite (assigned_last _ _ _ d) by by apply defaults_table.
  f_equal. apply last_assigned_unique; [done|]. by rewrite Hl. }
unfold flags_of, get_string, get_int, get_bool, get_duration. destruct f.
repeat match goal with |- context [foldl assign defaults l !! ?n] =>
  erewrite (Hget n) by (unfold flag_table, arguments; cbn; repeat first [by constructor 1|constructor 2]) end.
done.
Qed.

(** What the documentation of the flags says: each has the value it is given
  last, or its default. *)
Definition given (l : list (string * flag_value)) : list (string * flag_value) :=
[("log-level", last_assigned "log-level" l (VString "info"));
 ("server-port", last_assigned "server-port" l (VInt 16321));
 ("health-port", last_assigned "health-port" l (VInt 16322));
 ("project-id", last_assigned "project-id" l (VString ""));
 ("workload-identity-provider", last_assigned "workload-identity-provider" l (VString ""));
 ("watch-pods", last_assigned "watch-pods" l (VBool false));
 ("watch-pods-resync-period", last_assigned "watch-pods-resync-period" l (VDuration (10 * Minute)));
 ("watch-pods-disable-fallback", last_assigned "watch-pods-disable-fallback" l (VBool false));
 ("watch-node", last_assigned "watch-node" l (VBool false));
 ("watch-node-resync-period", last_assigned "watch-node-resync-period" l (VDuration Hour));
 ("watch-node-disable-fallback", last_assigned "watch-node-disable-fallback" l (VBool false));
 ("watch-service-accounts", last_assigned "watch-service-accounts" l (VBool false));
 ("watch-service-accounts-resync-period", last_assigned "watch-service-accounts-resync-period" l (VDuration Hour));
 ("watch-service-accounts-disable-fallback", last_assigned "watch-service-accounts-disable-fallback" l (VBool false));
 ("cache-tokens", last_assigned "cache-tokens" l (VBool false));
 ("cache-tokens-concurrency", last_assigned "cache-tokens-concurrency" l (VInt 10));
 ("cache-max-token-duration", last_assigned "cache-max-token-duration" l (VDuration Hour));
 ("pod-lookup-max-attempts", last_assigned "pod-lookup-max-attempts" l (VInt 3));
 ("pod-lookup-retry-initial-delay", last_assigned "pod-lookup-retry-initial-delay" l (VDuration Second));
 ("pod-lookup-retry-max-delay", last_assigned "pod-lookup-retry-max-delay" l (VDuration (30 * Second)));
 ("test-proxy-upstream", last_assigned "test-proxy-upstream" l (VBool false))].

Section Given.
Context (l : list (string * flag_value)) (Hl : typed l).
Local Abbreviation vars := (foldl assign defaults l).
Lemma int_flag n d : (n, VInt d) ∈ flag_table → last_assigned n l (VInt d) = VInt (get_int n vars).
Proof.
intros Hn. destruct (flags_read l n _ Hl Hn) as [E Ht]. unfold get_int. rewrite E.
by destruct (last_assigned n l (VInt d)).
Qed.
Lemma bool_flag n d : (n, VBool d) ∈ flag_table → last_assigned n l (VBool d) = VBool (get_bool n vars).
Proof.
intros Hn. destruct (flags_read l n _ Hl Hn) as [E Ht]. unfold get_bool. rewrite E.
by destruct (last_assigned n l (VBool d)).
Qed.
Lemma string_flag n d : (n, VString d) ∈ flag_table → last_assigned n l (VString d) = VString (get_string n vars).
Proof.
intros Hn. destruct (flags_read l n _ Hl Hn) as [E Ht]. unfold get_string. rewrite E.
by destruct (last_assigned n l (VString d)).
Qed.
Lemma duration_flag n d :
(n, VDuration d) ∈ flag_table → last_assigned n l (VDuration d) = VDuration (get_duration n vars).
Proof.
intros Hn. destruct (flags_read l n _ Hl Hn) as [E Ht]. unfold get_duration. rewrite E.
by destruct (last_assigned n l (VDuration d)).
Qed.
(** The variables have what the flags were given. *)
Lemma arguments_given : arguments (flags_of vars) = given l.
Proof.
unfold given. rewrite !string_flag, !int_flag, !bool_flag, !duration_flag by in_table. reflexivity.
Qed.
End Given.

(** C27: how the command line decides what happens.  Asking for help returns
  with code 0; rejected arguments and an unknown log level exit with code 1
  and a message on stderr, all three without any effect.  Otherwise the daemon
  is started once, every variable having the value its flag was given last, or
  its default; the process serves when the start succeeds, and exits with code
  1 when it fails. *)
Theorem main_ends args w :
(∀ l, pflag_Parse flag_table args = Assignments l → typed l) →
match pflag_Parse flag_table args with
| ErrHelp => ∃ e, run_main args w = (Ret e, w) ∧ exit_code e = Some 0
| ParseError err => ∃ e, run_main args w = (Ret e, w) ∧ exit_code e = Some 1 ∧
    e = Exited 1 ("error parsing flags: " +:+ error_text err +:+ one newline)
| Assignments l => ∃ f, arguments f = given l ∧
    match ParseLevel (stringLogLevel f) with
    | Err _ => ∃ e msg, run_main args w = (Ret e, w) ∧ exit_code e = Some 1 ∧ e = Exited 1 msg
    | Ok level =>
        match start f level w with
        | (Ret (Ok a), w') => ∃ e, run_main args w = (Ret e, w') ∧ exit_code e = None ∧ e = Serving a
        | (Ret (Err err), w') => ∃ e, run_main args w = (Ret e, w') ∧ exit_code e = Some 1 ∧ e = FatalLine err
        | (Panic msg, w') => run_main args w = (Panic msg, w')
        end
    end
end.
Proof.
intros Ht. unfold run_main. destruct (pflag_Parse flag_table args) as [l| |err]; [|by eexists..].
exists (flags_of (foldl assign defaults l)). split; [by apply arguments_given, Ht|].
destruct (ParseLevel _) as [level|err]; [|by eexists _, _]. unfold mbind, st_bind.
destruct (start _ level w) as [[[a|err]|msg] w']; [by eexists..|done].
Qed.
End CommandLine.

(** ** Witnesses: a parser that knows one argument *)

Module CommandLineExample.
Definition Parse (table : list (string * flag_value)) (args : list string) : parsed :=
match args with
| ["--help"] => ErrHelp
| [a] => if bool_decide (a = "--server-port=8080") then Assignments [("server-port", VInt 8080)]
         else ParseError (EMsg ("unknown flag: " +:+ a))
| _ => Assignments []
end.
Definition ParseLevel (s : string) : result string := if bool_decide (s = "info") then Ok s else Err (EMsg "level").
Definition start (f : Flags) (level : string) : ST unit (result Z) := λ w, (Ret (Ok (serverPort f)), w).
End CommandLineExample.

Lemma main_ends_witness :
  (∃ e, run_main CommandLineExample.Parse ["info"] CommandLineExample.ParseLevel CommandLineExample.start
     ["--help"] tt = (Ret e, tt) ∧ exit_code e = Some 0) ∧
  ∃ f, arguments f = given [("server-port", VInt 8080)] ∧ serverPort f = 8080 ∧ healthPort f = 16322.
Proof.
  split.
  - apply (main_ends CommandLineExample.Parse ["info"] CommandLineExample.ParseLevel
      CommandLineExample.start ["--help"] tt). by intros l.
  - destruct (main_ends CommandLineExample.Parse ["info"] CommandLineExample.ParseLevel
      CommandLineExample.start ["--server-port=8080"] tt) as (f & Hf & _).
    + intros l [= <-]. apply Forall_singleton. exists (VInt 16321). split; [in_table|done].
    + exists f. pose proof Hf as E. injection E. auto.
Defined.
Lemma flags_roundtrip_witness :
  flags_of (foldl assign defaults (rev (arguments MainExample.flags))) = MainExample.flags.
Proof. apply (flags_roundtrip MainExample.flags). by rewrite <- Permutation_rev. Defined.
Lemma flags_read_witness :
  foldl assign defaults [("health-port", VInt 1)] !! "server-port" = Some (VInt 16321).
Proof.
  apply (flags_read [("health-port", VInt 1)] "server-port" (VInt 16321)).
  - apply Forall_singleton. exists (VInt 16322). split; [|done]. do 2 apply list_elem_of_further. apply list_elem_of_here.
  - apply list_elem_of_further, list_elem_of_here.
Defined.
