(* ===== verification/Lifecycle.v ===== *)
(** * Starting and stopping: informers, servers and main's deferred calls

    Three small machines.  [Informer] is Start and Close of the three watching
    providers (pods, node and service accounts have the same code).  [Boot] is
    the end of server.New: the goroutines of the two servers and the channel
    that New waits on.  [Stop] is main as a sequence of what it opens, starts
    and defers, under the flags of Main.v, with the errors and the panic that
    end it. *)

From S2P Require Import Prelude GoStrings Api Main.
Open Scope string_scope.
Open Scope nat_scope.

(** ** Start and Close of a watching provider *)

Module Informer.
(** The goroutine of Start: inside informer.Run, after it, and gone, having
    closed closedChannel. *)
Inductive run_pc : Type := NotStarted | Running | RunReturned | Gone.
(** A call of Close: not made, waiting on closedChannel, returned, or panicking
    because closeChannel was closed already. *)
Inductive close_pc : Type := NotCalled | Waiting | Returned | Panicked.
Record State : Type := {
  goroutine : run_pc;
  closeChannel : bool;
  closedChannel : bool;
  closer : close_pc;
}.
Definition new : State :=
{| goroutine := NotStarted; closeChannel := false; closedChannel := false; closer := NotCalled |}.

(** [RunReturns] is informer.Run, which returns once its stop channel is
    closed; Start is called once. *)
Inductive label : Type := Start | RunReturns | CloseClosed | Close | CloseReturns.
Definition step (l : label) (s : State) : option State :=
match l with
| Start =>
    match goroutine s with
    | NotStarted => Some {| goroutine := Running; closeChannel := closeChannel s;
                            closedChannel := closedChannel s; closer := closer s |}
    | _ => None
    end
| RunReturns =>
    match goroutine s with
    | Running => if closeChannel s then
                   Some {| goroutine := RunReturned; closeChannel := true;
                           closedChannel := closedChannel s; closer := closer s |}
                 else None
    | _ => None
    end
| CloseClosed =>
    match goroutine s with
    | RunReturned => Some {| goroutine := Gone; closeChannel := closeChannel s;
                             closedChannel := true; closer := closer s |}
    | _ => None
    end
| Close =>
    match closer s with
    | NotCalled | Returned =>
        Some {| goroutine := goroutine s; closeChannel := true; closedChannel := closedChannel s;
                closer := if closeChannel s then Panicked else Waiting |}
    | _ => None
    end
| CloseReturns =>
    match closer s with
    | Waiting => if closedChannel s then
                   Some {| goroutine := goroutine s; closeChannel := closeChannel s;
                           closedChannel := true; closer := Returned |}
                 else None
    | _ => None
    end
end.
Fixpoint run (ls : list label) (s : State) : option State :=
match ls with [] => Some s | l :: ls => s' ← step l s; run ls s' end.

(** What every reachable state satisfies. *)
Record Inv (s : State) : Prop := {
  inv_closed : closedChannel s = match goroutine s with Gone => true | _ => false end;
  inv_run : goroutine s = RunReturned ∨ goroutine s = Gone → closeChannel s = true;
  inv_close : closeChannel s = match closer s with NotCalled => false | _ => true end;
  inv_returned : closer s = Returned → goroutine s = Gone;
}.
Lemma informer_inv_step l s s' : step l s = Some s' → Inv s → Inv s'.
Proof.
intros Hs [H1 H2 H3 H4]. destruct s as [g c d k]. cbn in *.
destruct l, g, c, d, k; cbn in Hs; simplify_eq; split; cbn in *; naive_solver.
Qed.
Lemma informer_inv_runs ls s s' : run ls s = Some s' → Inv s → Inv s'.
Proof.
revert s. induction ls as [|l ls IH]; intros s; cbn; [by intros [= <-]|].
destruct (step l s) eqn:E; [|done]. cbn. intros H Hi. eapply IH; [done|]. by eapply informer_inv_step.
Qed.
Lemma informer_inv_new : Inv new.
Proof. by split; cbn; try naive_solver. Qed.
End Informer.

(** Close of a watching provider is a barrier.  It returns only when the
  goroutine of Start is gone, so that no event handler runs afterwards;
  once called on a started provider it can always return, in at most three
  more steps; on a provider that was never started it never returns. *)
Theorem informer_close ls s :
  Informer.run ls Informer.new = Some s →
  (Informer.closer s = Informer.Returned → Informer.goroutine s = Informer.Gone) ∧
  (Informer.closer s = Informer.Waiting → Informer.goroutine s ≠ Informer.NotStarted →
     ∃ ls' s', length ls' ≤ 3 ∧ Informer.run ls' s = Some s' ∧ Informer.closer s' = Informer.Returned) ∧
  (Informer.Start ∉ ls → Informer.closer s ≠ Informer.Returned).
Proof.
  intros Hr. pose proof (Informer.informer_inv_runs _ _ _ Hr Informer.informer_inv_new) as [H1 H2 H3 H4]. split_and!.
  - done.
  - destruct s as [g c d k]; cbn in *. intros -> Hg. cbn in H3. subst c d. destruct g; [done|..].
    + by exists [Informer.RunReturns; Informer.CloseClosed; Informer.CloseReturns]; eexists.
    + exists [Informer.CloseClosed; Informer.CloseReturns]. eexists. split_and!; [cbn; lia|done|done].
    + exists [Informer.CloseReturns]. eexists. split_and!; [cbn; lia|done|done].
  - intros Hn Hc. specialize (H4 Hc).
    assert (Hg : ∀ s0, Informer.goroutine s0 = Informer.NotStarted → Informer.run ls s0 = Some s →
      Informer.goroutine s = Informer.NotStarted).
    { clear -Hn. induction ls as [|l ls IH]; intros s0 Hg; cbn; [by intros [= <-]|].
      apply not_elem_of_cons in Hn as [Hl Hn].
      destruct (Informer.step l s0) as [s1|] eqn:E; [|done]. cbn. apply IH; [done|].
      destruct l; cbn in E; rewrite ?Hg in E; try done; repeat case_match; by simplify_eq. }
    specialize (Hg Informer.new eq_refl Hr). congruence.
Qed.
Lemma informer_close_witness :
  ∃ ls' s', length ls' ≤ 3 ∧
    Informer.run ls' (default Informer.new (Informer.run [Informer.Start; Informer.Close] Informer.new)) = Some s' ∧
    Informer.closer s' = Informer.Returned.
Proof.
  refine (proj1 (proj2 (informer_close [Informer.Start; Informer.Close] _ _)) _ _); done.
Defined.

(** ** The end of server.New: two servers and a channel *)

Module Boot.
(** What the metadata server listens with. *)
Inductive listener : Type := TCP | ProxyListener.
Definition Listen (routingMode : string) : listener :=
if decide (routingMode ≠ RoutingModeBPF) then TCP else ProxyListener.

Inductive meta_pc : Type := MetaListen | MetaSignal | MetaServe | MetaClosed.
Inductive health_pc : Type := HealthSignal | HealthListen | HealthServe | HealthClosed.
Inductive new_pc : Type := Wait1 | Wait2 | NewReturned.
Record State : Type := {
  meta : meta_pc;
  lis : option listener;
  health : health_pc;
  done : nat;
  new : new_pc;
  fatal : option string;
}.
Definition start : State :=
{| meta := MetaListen; lis := None; health := HealthSignal; done := 0; new := Wait1; fatal := None |}.

(** A step of a goroutine, with what its call of Listen or Serve returns:
    [None] for no error or http.ErrServerClosed. *)
Inductive label : Type := Meta (err : option string) | Health (err : option string) | New.
Section Step.
Context (routingMode : string).
Definition exit (msg : string) (s : State) : State :=
{| meta := meta s; lis := lis s; health := health s; done := done s; new := new s; fatal := Some msg |}.
Definition step (l : label) (s : State) : option State :=
match fatal s with
| Some _ => None
| None =>
    match l with
    | Meta e =>
        match meta s, e with
        | MetaListen, None =>
            Some {| meta := MetaSignal; lis := Some (Listen routingMode); health := health s;
                    done := done s; new := new s; fatal := None |}
        | MetaListen, Some _ => Some (exit "error listening on metadata server address" s)
        | MetaSignal, _ =>
            if done s <? 2 then
              Some {| meta := MetaServe; lis := lis s; health := health s; done := S (done s);
                      new := new s; fatal := None |}
            else None
        | MetaServe, None =>
            Some {| meta := MetaClosed; lis := lis s; health := health s; done := done s; new := new s;
                    fatal := None |}
        | MetaServe, Some _ => Some (exit "error serving metadata server" s)
        | MetaClosed, _ => None
        end
    | Health e =>
        match health s, e with
        | HealthSignal, _ =>
            if done s <? 2 then
              Some {| meta := meta s; lis := lis s; health := HealthListen; done := S (done s);
                      new := new s; fatal := None |}
            else None
        | HealthListen, None =>
            Some {| meta := meta s; lis := lis s; health := HealthServe; done := done s; new := new s;
                    fatal := None |}
        | HealthServe, None =>
            Some {| meta := meta s; lis := lis s; health := HealthClosed; done := done s; new := new s;
                    fatal := None |}
        | HealthListen, Some _ | HealthServe, Some _ =>
            Some (exit "error listening and serving health server" s)
        | HealthClosed, _ => None
        end
    | New =>
        match new s with
        | NewReturned => None
        | pc =>
            if 0 <? done s then
              Some {| meta := meta s; lis := lis s; health := health s; done := pred (done s);
                      new := match pc with Wait1 => Wait2 | _ => NewReturned end; fatal := None |}
            else None
        end
    end
end.
Fixpoint run (ls : list label) (s : State) : option State :=
match ls with [] => Some s | l :: ls => s' ← step l s; run ls s' end.

Definition meta_signalled (s : State) : nat := match meta s with MetaListen | MetaSignal => 0 | _ => 1 end.
Definition health_signalled (s : State) : nat := match health s with HealthSignal => 0 | _ => 1 end.
Definition received (s : State) : nat := match new s with Wait1 => 0 | Wait2 => 1 | NewReturned => 2 end.
Record Inv (s : State) : Prop := {
  inv_done : done s + received s = meta_signalled s + health_signalled s;
  inv_lis : match meta s with MetaListen => lis s = None | _ => lis s = Some (Listen routingMode) end;
}.
Lemma boot_inv_step l s s' : step l s = Some s' → Inv s → Inv s'.
Proof.
unfold step. intros Hs [H1 H2]. unfold received, meta_signalled, health_signalled in *.
destruct (fatal s); [done|]. destruct l as [e|e|].
- destruct (meta s) eqn:Em, e; try (destruct (Nat.ltb_spec (done s) 2)); simplify_eq;
    split; unfold received, meta_signalled, health_signalled; cbn; rewrite ?Em; try done; lia.
- destruct (health s) eqn:Eh, e; try (destruct (Nat.ltb_spec (done s) 2)); simplify_eq;
    split; unfold received, meta_signalled, health_signalled; cbn; rewrite ?Eh; try done; lia.
- destruct (new s) eqn:En; try (destruct (Nat.ltb_spec 0 (done s))); simplify_eq;
    split; unfold received, meta_signalled, health_signalled; cbn; try done; lia.
Qed.
Lemma boot_inv_runs ls s s' : run ls s = Some s' → Inv s → Inv s'.
Proof.
revert s. induction ls as [|l ls IH]; intros s; cbn; [by intros [= <-]|].
destruct (step l s) eqn:E; [|done]. cbn. intros H Hi. eapply IH; [done|]. by eapply boot_inv_step.
Qed.
Lemma boot_inv_start : Inv start.
Proof. by split. Qed.
End Step.
End Boot.

(** C32: server.New returns only when the metadata server is listening, with the
  proxy's listener in eBPF mode and a plain TCP one otherwise, so that main
  goes on (and removes the node's taints) with a bound address; a listener
  that cannot be made is fatal before New returns.  From every state in which
  nothing was fatal New can still return: neither of its goroutines is ever
  blocked by the channel. *)
Theorem new_returns_listening mode ls s :
  Boot.run mode ls Boot.start = Some s →
  (Boot.new s = Boot.NewReturned → Boot.lis s = Some (Boot.Listen mode) ∧
     (Boot.Listen mode = Boot.ProxyListener ↔ mode = RoutingModeBPF)) ∧
  (∀ e s', Boot.step mode (Boot.Meta (Some e)) s = Some s' → Boot.meta s = Boot.MetaListen →
     Boot.fatal s' = Some "error listening on metadata server address" ∧ Boot.new s' ≠ Boot.NewReturned ∧
     ∀ l, Boot.step mode l s' = None) ∧
  (Boot.fatal s = None → ∃ ls' s', Boot.run mode ls' s = Some s' ∧ Boot.new s' = Boot.NewReturned).
Proof.
  intros Hr. pose proof (Boot.boot_inv_runs _ _ _ _ Hr (Boot.boot_inv_start mode)) as [H1 H2].
  unfold Boot.received, Boot.meta_signalled, Boot.health_signalled in H1. split_and!.
  - intros Hn. rewrite Hn in H1. split.
    + destruct (Boot.meta s); try done; destruct (Boot.health s); lia.
    + unfold Boot.Listen. destruct (decide (mode = RoutingModeBPF)) as [->|Hne]; [done|].
      by rewrite decide_True.
  - intros e s' Hs Hm. unfold Boot.step in Hs. destruct (Boot.fatal s); [done|]. rewrite Hm in *.
    simplify_eq. cbn. split_and!; [done| |done].
    intros Hn. rewrite Hn in H1. destruct (Boot.health s); lia.
  - destruct s as [m li h d n fa]. cbn in *. intros ->.
    destruct m, h, n; cbn in H1; try (exfalso; lia);
      match type of H1 with
      | d + ?r = ?k => assert (Hd : d = k - r) by lia; cbn in Hd; subst d; clear H1
      end;
      first
        [ by exists []; eexists; split
        | by exists [Boot.New]; eexists; split
        | by exists [Boot.New; Boot.New]; eexists; split
        | by exists [Boot.Meta None; Boot.New]; eexists; split
        | by exists [Boot.Health None; Boot.New]; eexists; split
        | by exists [Boot.Meta None; Boot.New; Boot.New]; eexists; split
        | by exists [Boot.Health None; Boot.New; Boot.New]; eexists; split
        | by exists [Boot.Meta None; Boot.Meta None; Boot.New]; eexists; split
        | by exists [Boot.Meta None; Boot.Meta None; Boot.New; Boot.New]; eexists; split
        | by exists [Boot.Meta None; Boot.Health None; Boot.New; Boot.New]; eexists; split
        | by exists [Boot.Meta None; Boot.Meta None; Boot.Health None; Boot.New; Boot.New]; eexists; split ].
Qed.
Lemma new_returns_listening_witness :
  let ls := [Boot.Health None; Boot.New; Boot.Meta None; Boot.Meta None; Boot.New] in
  let s := default Boot.start (Boot.run RoutingModeBPF ls Boot.start) in
  Boot.new s = Boot.NewReturned ∧ Boot.lis s = Some (Boot.Listen RoutingModeBPF).
Proof.
  intros ls s. split; [by vm_compute|].
  by apply (new_returns_listening RoutingModeBPF ls s); vm_compute.
Defined.

(** The health server may not be listening yet when New returns. *)
Lemma health_not_awaited :
  ∃ ls s, Boot.run RoutingModeNone ls Boot.start = Some s ∧ Boot.new s = Boot.NewReturned ∧
    Boot.health s = Boot.HealthListen.
Proof.
  exists [Boot.Health None; Boot.New; Boot.Meta None; Boot.Meta None; Boot.New]. by eexists.
Qed.

(** ** main: what is opened, started, deferred and closed *)

Module Stop.
Inductive resource : Type := PodWatch | NodeWatch | ServiceAccountWatch | TokenCache | Route | AttestMap | Servers.
#[global] Instance resource_eq_dec : EqDecision resource.
Proof. solve_decision. Defined.
Inductive event : Type :=
| Open (r : resource)
| StartWatch (r : resource)
| AddListener (r : resource)
| RemoveTaints
| Signal
| ShutDown
| Closed (r : resource)
| Panics (msg : string)
| Fatal (msg : string).
#[global] Instance event_eq_dec : EqDecision event.
Proof. solve_decision. Defined.

(** The events so far and the deferred closes, the last one first. *)
Definition State : Type := list event * list resource.
(** What ends main before its last line: l.Fatal, which is os.Exit and runs no
    deferred call, or a panic, which runs them. *)
Inductive halt : Type := FatalExit | PanicHalt.
(** A call of main. *)
Definition M (A : Type) : Type := State → (A + halt) * State.
#[export] Instance m_ret : MRet M := λ A a s, (inl a, s).
#[export] Instance m_bind : MBind M := λ A B f m s,
  match m s with (inl a, s') => f a s' | (inr h, s') => (inr h, s') end.
Definition emit (e : event) : M unit := λ s, (inl tt, ((s.1 ++ [e])%list, s.2)).
Definition defer (r : resource) : M unit := λ s, (inl tt, (s.1, r :: s.2)).
Definition panics (msg : string) : M unit := λ s, (inr PanicHalt, ((s.1 ++ [Panics msg])%list, s.2)).
Definition when (b : bool) (m : M unit) : M unit := if b then m else mret tt.

Section Main.
Context (f : Flags) (routingMode : string).
(** The calls that fail, by the line that is logged then. *)
Context (fails : string → bool).
Definition try_ (msg : string) : M unit := λ s,
if fails msg then (inr FatalExit, ((s.1 ++ [Fatal msg])%list, s.2)) else (inl tt, s).
Definition open (r : resource) : M unit := _ ← emit (Open r); defer r.
(** The channel that the token cache makes, before its goroutine and before the
    deferred Close of the cache. *)
Definition semaphore : M unit :=
when (cacheTokensConcurrency f <? 0)%Z (panics "makechan: size out of range").

Definition create : M unit :=
_ ← try_ "NODE_NAME environment variable must be specified";
_ ← try_ "POD_IP environment variable must be specified";
_ ← try_ "error parsing POD_IP environment variable";
_ ← try_ "POD_IP environment variable must be an IPv4 address";
_ ← try_ "error creating google credentials config";
_ ← try_ "error creating in-cluster kubeconfig";
_ ← try_ "error creating kubernetes client";
_ ← when (watchPods f) (open PodWatch);
_ ← when (watchNode f) (open NodeWatch);
_ ← when (watchServiceAccounts f) (open ServiceAccountWatch);
when (cacheTokens f)
  (_ ← semaphore;
   _ ← open TokenCache;
   _ ← when (watchPods f) (emit (AddListener PodWatch));
   when (watchServiceAccounts f) (emit (AddListener ServiceAccountWatch))).
Definition start_watches : M unit :=
_ ← when (watchPods f) (emit (StartWatch PodWatch));
_ ← when (watchNode f) (emit (StartWatch NodeWatch));
when (watchServiceAccounts f) (emit (StartWatch ServiceAccountWatch)).
Definition attach : M unit :=
_ ← try_ "error getting current node";
_ ← try_ "error loading and attaching network route";
_ ← open Route;
_ ← when (bool_decide (routingMode = RoutingModeBPF))
      (_ ← try_ "error loading attestation eBPF program"; open AttestMap);
when (testProxyUpstream f && bool_decide (routingMode = RoutingModeBPF))
  (try_ "error starting test proxy upstream").
Definition serve : M unit :=
_ ← emit (Open Servers);
_ ← emit RemoveTaints;
_ ← emit Signal;
emit ShutDown.

Definition body : M unit := _ ← create; _ ← start_watches; _ ← attach; serve.
(** The deferred calls.  Close of a watching provider waits for the goroutine
    of its Start, so that it never returns when there is none (informer_close);
    the others return. *)
Definition is_watch (r : resource) : bool :=
match r with PodWatch | NodeWatch | ServiceAccountWatch => true | _ => false end.
Fixpoint close_deferred (trace : list event) (deferred : list resource) : bool * list event :=
match deferred with
| [] => (true, trace)
| r :: deferred =>
    if is_watch r && bool_decide (StartWatch r ∉ trace) then (false, trace)
    else close_deferred (trace ++ [Closed r])%list deferred
end.

(** main returns, or its panic ends the process, after the deferred calls,
    unless one of them blocks; a fatal error skips them. *)
Inductive ended : Type := Returned | Exited | Panicked | Blocked.
Definition main : ended * list event :=
let ending (o : ended) (s : State) :=
  let '(closed, trace) := close_deferred s.1 s.2 in (if closed then o else Blocked, trace) in
match body ([], []) with
| (inl _, s) => ending Returned s
| (inr FatalExit, s) => (Exited, s.1)
| (inr PanicHalt, s) => ending Panicked s
end.
End Main.

(** Everything but the servers is closed by a deferred call. *)
Definition opened (trace : list event) : list resource :=
omap (λ e, match e with Open Servers => None | Open r => Some r | _ => None end) trace.
Definition closed (trace : list event) : list resource :=
omap (λ e, match e with Closed r => Some r | _ => None end) trace.

(** The resources under the flags, in the order main opens them. *)
Definition watches (f : Flags) : list resource :=
((if watchPods f then [PodWatch] else []) ++ (if watchNode f then [NodeWatch] else []) ++
 (if watchServiceAccounts f then [ServiceAccountWatch] else []))%list.
Definition created (f : Flags) : list resource :=
(watches f ++ if cacheTokens f then [TokenCache] else [])%list.
Definition attached (routingMode : string) : list resource :=
(Route :: if bool_decide (routingMode = RoutingModeBPF) then [AttestMap] else [])%list.
Definition listeners (f : Flags) : list event :=
if cacheTokens f then
  ((if watchPods f then [AddListener PodWatch] else []) ++
   (if watchServiceAccounts f then [AddListener ServiceAccountWatch] else []))%list
else [].

Section Runs.
Context (f : Flags) (mode : string) (fails : string → bool).
Ltac parts := unfold when, open, emit, defer, try_, mbind, m_bind, mret, m_ret.
Lemma create_run s s' :
create f fails s = (inl tt, s') →
s' = ((s.1 ++ map Open (created f) ++ listeners f)%list, (rev (created f) ++ s.2)%list) ∧
(cacheTokens f = true → (0 ≤ cacheTokensConcurrency f)%Z).
Proof.
unfold create, created, watches, listeners, semaphore. parts. destruct s as [t d].
do 7 (destruct (fails _); [done|]).
destruct (Z.ltb_spec (cacheTokensConcurrency f) 0);
  destruct (watchPods f), (watchNode f), (watchServiceAccounts f), (cacheTokens f);
  cbn; intros [= <-]; (split; [by rewrite <- ?(assoc_L (++)), ?app_nil_r|done || (intros; lia)]).
Qed.
(** A panic is that of the semaphore, with only the watchers created. *)
Lemma create_panics s s' :
create f fails s = (inr PanicHalt, s') →
cacheTokens f = true ∧ (cacheTokensConcurrency f < 0)%Z ∧
s' = ((s.1 ++ map Open (watches f) ++ [Panics "makechan: size out of range"])%list, (rev (watches f) ++ s.2)%list).
Proof.
unfold create, watches, semaphore. parts. destruct s as [t d].
do 7 (destruct (fails _); [done|]).
destruct (Z.ltb_spec (cacheTokensConcurrency f) 0);
  destruct (watchPods f), (watchNode f), (watchServiceAccounts f), (cacheTokens f);
  cbn; intros [= <-]; (split_and!; [done|done|by rewrite <- ?(assoc_L (++)), ?app_nil_r]).
Qed.
Lemma start_run s :
start_watches f s = (inl tt, ((s.1 ++ map StartWatch (watches f))%list, s.2)).
Proof.
unfold start_watches, watches. parts. destruct s as [t d].
destruct (watchPods f), (watchNode f), (watchServiceAccounts f); cbn; by rewrite <- ?(assoc_L (++)), ?app_nil_r.
Qed.
Lemma attach_run s s' :
attach f mode fails s = (inl tt, s') →
s' = ((s.1 ++ map Open (attached mode))%list, (rev (attached mode) ++ s.2)%list).
Proof.
unfold attach, attached. parts. destruct s as [t d].
do 2 (destruct (fails _); [done|]).
destruct (bool_decide (mode = RoutingModeBPF)), (testProxyUpstream f); cbn;
  repeat (destruct (fails _); [done|]); cbn; intros [= <-]; by rewrite <- ?(assoc_L (++)).
Qed.

(** Calls that end with the fatal error that is logged, and close nothing. *)
Definition aborts (m : M unit) : Prop := ∀ s,
closed (m s).2.1 = closed s.1 ∧
((m s).1 = inr FatalExit → ∃ front msg, (m s).2.1 = (front ++ [Fatal msg])%list ∧ fails msg = true).
Lemma aborts_emit e : closed [e] = [] → aborts (emit e).
Proof. intros He s. split; [|done]. cbn. unfold closed in *. by rewrite omap_app, He, app_nil_r. Qed.
Lemma aborts_bind (m k : M unit) : aborts m → aborts k → aborts (_ ← m; k).
Proof.
intros Hm Hk s. specialize (Hm s) as [H1 H2]. unfold mbind, m_bind.
destruct (m s) as [[u|h] s1]; [|by split]. cbn in H1. destruct (Hk s1) as [H3 H4].
split; [by rewrite H3|done].
Qed.
Lemma aborts_ret : aborts (mret tt).
Proof. by intros s. Qed.
Lemma aborts_defer r : aborts (defer r).
Proof. by intros s. Qed.
Lemma aborts_try msg : aborts (try_ fails msg).
Proof.
intros s. unfold try_. destruct (fails msg) eqn:E; [|done]. cbn. split; [|by eexists _, _].
unfold closed. by rewrite omap_app, app_nil_r.
Qed.
Lemma aborts_panics msg : aborts (panics msg).
Proof. intros s. split; [|done]. cbn. unfold closed. by rewrite omap_app, app_nil_r. Qed.
Lemma aborts_body : aborts (body f mode fails).
Proof.
unfold body, create, start_watches, attach, serve, semaphore, when, open.
repeat first [apply aborts_bind|apply aborts_try|apply aborts_ret|apply aborts_defer|apply aborts_panics
             |by apply aborts_emit|case_match].
Qed.

(** After the providers are created nothing panics. *)
Definition calm (m : M unit) : Prop := ∀ s, (m s).1 ≠ inr PanicHalt.
Lemma calm_bind (m k : M unit) : calm m → calm k → calm (_ ← m; k).
Proof.
intros Hm Hk s. specialize (Hm s). unfold mbind, m_bind. destruct (m s) as [[u|h] s1]; [apply Hk|done].
Qed.
Lemma calm_try msg : calm (try_ fails msg).
Proof. intros s. unfold try_. by destruct (fails msg). Qed.
Lemma calm_rest : calm (_ ← start_watches f; _ ← attach f mode fails; serve).
Proof.
unfold start_watches, attach, serve, when, open.
repeat first [apply calm_bind|apply calm_try|by intros s|case_match].
Qed.
Lemma body_panics s :
body f mode fails ([], []) = (inr PanicHalt, s) → create f fails ([], []) = (inr PanicHalt, s).
Proof.
unfold body, mbind at 1, m_bind at 1. destruct (create f fails ([], [])) as [[[]|h] s1]; [|done].
intros H. exfalso. apply (calm_rest s1). by rewrite H.
Qed.
End Runs.

(** The deferred calls all return once the watchers among them were started. *)
Lemma deferred_return d t :
(∀ r, r ∈ d → is_watch r = true → StartWatch r ∈ t) → close_deferred t d = (true, (t ++ map Closed d)%list).
Proof.
revert t. induction d as [|r d IH]; intros t H; cbn; [by rewrite app_nil_r|].
destruct (is_watch r && _) eqn:E.
- apply andb_prop in E as [Ew Es%bool_decide_eq_true]. destruct Es. apply H; [by left|done].
- rewrite IH; [by rewrite <- app_assoc|]. intros r' Hr Hw. apply elem_of_app. left. apply H; [by right|done].
Qed.
Lemma watches_are f r : r ∈ watches f → is_watch r = true.
Proof.
unfold watches. destruct (watchPods f), (watchNode f), (watchServiceAccounts f); set_solver.
Qed.
(** What main leaves to its deferred calls when it comes to its end. *)
Section Ends.
Context (f : Flags) (mode : string) (fails : string → bool).
Definition served : list event :=
(map Open (created f) ++ listeners f ++ map StartWatch (watches f) ++ map Open (attached mode) ++
 [Open Servers; RemoveTaints; Signal; ShutDown])%list.
Lemma body_returns s :
body f mode fails ([], []) = (inl tt, s) →
s = (served, rev (created f ++ attached mode)) ∧ (cacheTokens f = true → (0 ≤ cacheTokensConcurrency f)%Z).
Proof.
unfold body, mbind, m_bind. destruct (create f fails ([], [])) as [[[]|] s1] eqn:E1; [|done].
apply create_run in E1 as [-> Hc]. rewrite start_run.
destruct (attach f mode fails _) as [[[]|] s2] eqn:E2; [|done].
apply attach_run in E2 as ->. cbn. intros [= <-]. split; [|done].
unfold served. rewrite rev_app_distr, ?app_nil_r. rewrite <- ?(assoc_L (++)).
f_equal. unfold attached. cbn [rev]. by rewrite <- (assoc_L (++)).
Qed.
Lemma closes_started r :
r ∈ rev (created f ++ attached mode) → is_watch r = true → StartWatch r ∈ served.
Proof.
unfold created, attached. rewrite list_elem_of_In, <- in_rev, <- list_elem_of_In, !elem_of_app.
intros Hr Hw. assert (Hin : r ∈ watches f).
{ destruct Hr as [[?|Hr]|Hr]; [done| |]; destruct r; try done; exfalso; revert Hr; clear;
    first [destruct (cacheTokens f)|destruct (bool_decide _)]; set_solver. }
unfold served. rewrite !elem_of_app. right; right; left. by apply list_elem_of_fmap_2.
Qed.
Lemma returned_closed :
NoDup (closed (served ++ map Closed (rev (created f ++ attached mode)))) ∧
closed (served ++ map Closed (rev (created f ++ attached mode))) =
  rev (opened (served ++ map Closed (rev (created f ++ attached mode)))).
Proof.
unfold served, created, watches, listeners, attached.
destruct (watchPods f), (watchNode f), (watchServiceAccounts f), (cacheTokens f),
  (bool_decide (mode = RoutingModeBPF)); (split; [|reflexivity]);
  by apply (bool_decide_unpack _); vm_compute.
Qed.
(** After the panic no watcher is started: the first of them blocks. *)
Lemma deferred_panic :
let trace := (map Open (watches f) ++ [Panics "makechan: size out of range"])%list in
close_deferred trace (rev (watches f) ++ []) = (bool_decide (watches f = []), trace).
Proof.
unfold watches. destruct (watchPods f), (watchNode f), (watchServiceAccounts f); reflexivity.
Qed.
End Ends.
End Stop.

(** C31: the daemon closes what it opens.  When main returns, its events are the
  creation of every provider under the flags, with the token cache listening
  to the watchers before they start, then the watchers, the route and in
  eBPF mode the attestation map, then the servers until the signal and their
  shutdown, and then the close of every resource, once each, the last one
  opened first (so the cache before the watchers that feed it).  When a call
  fails, main ends at once with its fatal error and nothing is closed.  A
  cache whose concurrency is negative makes main panic before any watcher is
  started; its deferred calls then run, and the first Close of a watcher that
  was created blocks: with a watcher the process does not end, and nothing is
  closed either way. *)
Theorem main_closes f mode fails trace :
  (Stop.main f mode fails = (Stop.Returned, trace) →
     trace = (map Stop.Open (Stop.created f) ++ Stop.listeners f ++ map Stop.StartWatch (Stop.watches f) ++
       map Stop.Open (Stop.attached mode) ++
       [Stop.Open Stop.Servers; Stop.RemoveTaints; Stop.Signal; Stop.ShutDown] ++
       map Stop.Closed (rev (Stop.created f ++ Stop.attached mode)))%list ∧
     NoDup (Stop.closed trace) ∧ Stop.closed trace = rev (Stop.opened trace) ∧
     (cacheTokens f = true → (0 ≤ cacheTokensConcurrency f)%Z)) ∧
  (Stop.main f mode fails = (Stop.Exited, trace) →
     ∃ front msg, trace = (front ++ [Stop.Fatal msg])%list ∧ fails msg = true ∧ Stop.closed trace = []) ∧
  (∀ o, Stop.main f mode fails = (o, trace) → o = Stop.Panicked ∨ o = Stop.Blocked →
     cacheTokens f = true ∧ (cacheTokensConcurrency f < 0)%Z ∧
     trace = (map Stop.Open (Stop.watches f) ++ [Stop.Panics "makechan: size out of range"])%list ∧
     o = (if decide (Stop.watches f = []) then Stop.Panicked else Stop.Blocked)).
Proof.
  unfold Stop.main. destruct (Stop.body f mode fails ([], [])) as [[[]|[]] s] eqn:E.
  - destruct (Stop.body_returns f mode fails s E) as [-> Hc]. cbn [fst snd].
    rewrite Stop.deferred_return by apply Stop.closes_started.
    split_and!; [intros [= <-]|done|by intros o [= <- _] [?|?]].
    split_and!; [|apply Stop.returned_closed..|done].
    unfold Stop.served. by rewrite <- !app_assoc.
  - destruct (Stop.aborts_body f mode fails ([], [])) as [H1 H2]. rewrite E in H1, H2.
    split_and!; [done| |by intros o [= <- _] [?|?]]. intros [= <-].
    destruct (H2 eq_refl) as (front & msg & E' & Hm). exists front, msg. by split_and!.
  - apply Stop.body_panics, Stop.create_panics in E as (Hc & Hn & ->). cbn [fst snd app].
    rewrite Stop.deferred_panic. destruct (Stop.watches f) as [|r l].
    all: split; [by intros [=]|split; [by intros [=]|]]. all: intros o [= <- <-] _; by split_and!.
Qed.
Lemma main_closes_witness :
  Stop.closed (Stop.main MainExample.flags RoutingModeBPF (λ _, false)).2 =
    [Stop.AttestMap; Stop.Route; Stop.PodWatch] ∧
  NoDup (Stop.closed (Stop.main MainExample.flags RoutingModeBPF (λ _, false)).2).
Proof.
  split; [by vm_compute|].
  by apply (proj1 (main_closes MainExample.flags RoutingModeBPF (λ _, false) _) eq_refl).
Defined.
