(* ===== verification/Metrics.v ===== *)
(** * internal/metrics: the collectors and their registration

    The descriptions of the collectors, and who registers them under which
    flags (main.go, the watching providers, the token cache and server.New),
    the registry they are registered with and the handler of /metrics.  The
    Prometheus registry is an interface; its own two collectors and its
    handler are arguments. *)

From S2P Require Import Prelude GoStrings GoTime HTTP ServeMux Main.
Open Scope string_scope.
Open Scope Z_scope.

Definition namespace : string := "gke_metadata_server".

Inductive kind : Type := Counter | Gauge | Histogram.
(** The options of a collector and its variable labels; the buckets of a
    histogram are ExponentialBuckets(start, factor, count). *)
Record collector : Type := {
  co_kind : kind;
  co_subsystem : string;
  co_name : string;
  co_help : string;
  co_buckets : option (Z * Z * Z * nat);  (* start as a fraction, factor, count *)
  co_labels : list string;
}.
Definition latency_buckets : option (Z * Z * Z * nat) := Some (1, 5, 5, 7%nat).

Definition NewRequestLatencyMillis : collector :=
  {| co_kind := Histogram; co_subsystem := ""; co_name := "request_latency_millis"; co_help := "";
     co_buckets := latency_buckets; co_labels := ["method"; "path"; "status"] |}.
Definition NewLookupPodFailuresCounter : collector :=
  {| co_kind := Counter; co_subsystem := ""; co_name := "lookup_pod_failures_total";
     co_help := "Total failures when looking up Pod objects by IP to serve requests.";
     co_buckets := None; co_labels := ["client_ip"] |}.
Definition NewGetNodeFailuresCounter : collector :=
  {| co_kind := Counter; co_subsystem := ""; co_name := "get_node_failures_total";
     co_help := "Total failures when getting the current Node object to serve requests.";
     co_buckets := None; co_labels := [] |}.
Definition NewRemoveTaintsFailuresCounter : collector :=
  {| co_kind := Counter; co_subsystem := ""; co_name := "remove_taints_failures_total";
     co_help := "Total failures when removing taints from the Node object.";
     co_buckets := None; co_labels := ["node_name"] |}.
Definition NewProxyDialLantencyMillis : collector :=
  {| co_kind := Histogram; co_subsystem := "proxy"; co_name := "dial_latency_millis"; co_help := "";
     co_buckets := latency_buckets; co_labels := ["client_ip"] |}.
Definition NewProxyActiveConnectionsGauge : collector :=
  {| co_kind := Gauge; co_subsystem := "proxy"; co_name := "active_connections";
     co_help := "Current number of active connections being proxied.";
     co_buckets := None; co_labels := [] |}.
Definition NewCachedPodsGauge : collector :=
  {| co_kind := Gauge; co_subsystem := ""; co_name := "pods";
     co_help := "Amount of Pod objects currently cached."; co_buckets := None; co_labels := [] |}.
Definition NewPodCacheMissesCounter : collector :=
  {| co_kind := Counter; co_subsystem := ""; co_name := "pod_cache_misses_total";
     co_help := "Total amount cache misses when looking up Pod objects.";
     co_buckets := None; co_labels := [] |}.
Definition NewCachedServiceAccountsGauge : collector :=
  {| co_kind := Gauge; co_subsystem := ""; co_name := "service_accounts";
     co_help := "Amount of ServiceAccount objects currently cached."; co_buckets := None; co_labels := [] |}.
Definition NewServiceAccountCacheMissesCounter : collector :=
  {| co_kind := Counter; co_subsystem := ""; co_name := "service_account_cache_misses_total";
     co_help := "Total amount cache misses when looking up ServiceAccount objects.";
     co_buckets := None; co_labels := [] |}.
Definition NewCachedServiceAccountTokensGauge : collector :=
  {| co_kind := Gauge; co_subsystem := ""; co_name := "service_account_tokens";
     co_help := "Amount of ServiceAccount tokens currently cached."; co_buckets := None; co_labels := [] |}.
Definition NewServiceAccountTokenCacheMissesCounter : collector :=
  {| co_kind := Counter; co_subsystem := ""; co_name := "service_account_token_cache_misses_total";
     co_help := "Total amount cache misses when fetching ServiceAccount tokens.";
     co_buckets := None; co_labels := [] |}.

(** The registry: a name once registered cannot be registered again, when
    MustRegister panics.  The name of a collector is BuildFQName of its
    namespace, subsystem and name: the components joined by underscores, the
    empty ones left out. *)
Definition joined_name (namespace subsystem name : string) : string :=
  if bool_decide (subsystem = "") then namespace +:+ "_" +:+ name
  else namespace +:+ "_" +:+ subsystem +:+ "_" +:+ name.
Definition fq_name (BuildFQName : string → string → string → string) (c : collector) : string :=
  BuildFQName namespace (co_subsystem c) (co_name c).
Class Registry {W} (BuildFQName : string → string → string → string)
    (MustRegister : collector → ST W unit) (names : W → gset string) : Prop := {
  build_name ns sub n : ns ≠ "" → n ≠ "" → BuildFQName ns sub n = joined_name ns sub n;
  register_new c w : fq_name BuildFQName c ∉ names w →
    ∃ w', MustRegister c w = (Ret tt, w') ∧ names w' = {[fq_name BuildFQName c]} ∪ names w;
  register_duplicate c w : fq_name BuildFQName c ∈ names w → ∃ msg w', MustRegister c w = (Panic msg, w');
}.

Section Registration.
Context {W : Type} (f : Flags) (MustRegister : collector → ST W unit).

(** Each component's registrations, in main's order. *)
Definition register_pods : ST W unit :=
_ ← MustRegister NewCachedPodsGauge; MustRegister NewPodCacheMissesCounter.
Definition register_service_accounts : ST W unit :=
_ ← MustRegister NewCachedServiceAccountsGauge; MustRegister NewServiceAccountCacheMissesCounter.
Definition register_tokens : ST W unit :=
_ ← MustRegister NewCachedServiceAccountTokensGauge; MustRegister NewServiceAccountTokenCacheMissesCounter.
Definition register_server : ST W unit :=
_ ← MustRegister NewRequestLatencyMillis; _ ← MustRegister NewLookupPodFailuresCounter;
_ ← MustRegister NewProxyDialLantencyMillis; MustRegister NewProxyActiveConnectionsGauge.
Definition register_all : ST W unit :=
_ ← (if watchPods f then register_pods else mret tt);
_ ← (if watchServiceAccounts f then register_service_accounts else mret tt);
_ ← (if cacheTokens f then register_tokens else mret tt);
_ ← register_server;
MustRegister NewRemoveTaintsFailuresCounter.

Definition registered : list collector :=
((if watchPods f then [NewCachedPodsGauge; NewPodCacheMissesCounter] else []) ++
 (if watchServiceAccounts f then [NewCachedServiceAccountsGauge; NewServiceAccountCacheMissesCounter] else []) ++
 (if cacheTokens f then [NewCachedServiceAccountTokensGauge; NewServiceAccountTokenCacheMissesCounter] else []) ++
 [NewRequestLatencyMillis; NewLookupPodFailuresCounter; NewProxyDialLantencyMillis;
  NewProxyActiveConnectionsGauge; NewRemoveTaintsFailuresCounter])%list.

Fixpoint register (cs : list collector) : ST W unit :=
match cs with
| [] => mret tt
| [c] => MustRegister c
| c :: cs => _ ← MustRegister c; register cs
end.

Context (BuildFQName : string → string → string → string) (names : W → gset string).
Context `{HR : !Registry BuildFQName MustRegister names}.
Local Abbreviation name := (fq_name BuildFQName).
Lemma register_spec cs w :
NoDup (name <$> cs) → (∀ c, c ∈ cs → name c ∉ names w) →
∃ w', register cs w = (Ret tt, w') ∧ names w' = list_to_set (name <$> cs) ∪ names w.
Proof.
revert w. induction cs as [|c cs IH]; intros w Hnd Hnew.
{ exists w. split; [done|]. cbn. set_solver. }
rewrite fmap_cons in Hnd. apply NoDup_cons in Hnd as [Hc Hnd].
destruct (register_new c w) as (w1 & E & Hn); [apply Hnew; set_solver|].
assert (Hnew1 : ∀ c0, c0 ∈ cs → name c0 ∉ names w1).
{ intros c0 Hin. rewrite Hn, not_elem_of_union, not_elem_of_singleton. split; [|apply Hnew; set_solver].
  intros Heq. apply Hc. rewrite <- Heq. by apply list_elem_of_fmap_2. }
rewrite fmap_cons. destruct cs as [|c' cs].
{ exists w1. split; [exact E|]. cbn. set_solver. }
destruct (IH w1 Hnd Hnew1) as (w2 & E2 & Hn2). exists w2. split; [|rewrite Hn2, Hn; cbn; set_solver].
change (register (c :: c' :: cs)) with (_ ← MustRegister c; register (c' :: cs)).
unfold mbind, st_bind. by rewrite E.
Qed.
Lemma names_distinct : NoDup (name <$> registered).
Proof.
assert (Hj : name <$> registered = (λ c, joined_name namespace (co_subsystem c) (co_name c)) <$> registered).
{ apply list_fmap_ext. intros i c Hc. apply build_name; [done|].
  apply list_elem_of_lookup_2 in Hc. revert Hc. unfold registered.
  destruct (watchPods f), (watchServiceAccounts f), (cacheTokens f); cbn [app];
    rewrite !elem_of_cons, elem_of_nil; intros Hc; destruct_or?; by subst. }
rewrite Hj. unfold registered. destruct (watchPods f), (watchServiceAccounts f), (cacheTokens f);
  by apply (bool_decide_unpack _); vm_compute.
Qed.

Lemma registered_own c : c ∈ registered → has_prefix "gke_" (name c) = true.
Proof.
intros Hc. unfold fq_name. rewrite build_name; [|done|].
- unfold joined_name. by case_bool_decide.
- revert Hc. unfold registered. destruct (watchPods f), (watchServiceAccounts f), (cacheTokens f); cbn [app];
    rewrite !elem_of_cons, elem_of_nil; intros Hc; destruct_or?; by subst.
Qed.

Lemma register_all_list w : register_all w = register registered w.
Proof.
unfold register_all, register_pods, register_service_accounts, register_tokens, register_server, registered.
unfold mbind, st_bind, mret, st_ret.
destruct (watchPods f), (watchServiceAccounts f), (cacheTokens f); cbn [app register];
  unfold mbind, st_bind; repeat (destruct (MustRegister _ _) as [[[]|] ?]; try done).
Qed.

(** Starting never panics in the registry: whatever the flags, no two of the
  collectors that the daemon registers have the same name, so that on a
  registry without this program's names all of them are registered, and
  exactly they. *)
Theorem registration_succeeds w :
(∀ c, c ∈ registered → name c ∉ names w) →
∃ w', register_all w = (Ret tt, w') ∧ names w' = list_to_set (name <$> registered) ∪ names w.
Proof.
intros Hw. rewrite register_all_list. by apply register_spec; [apply names_distinct|].
Qed.

(** NewRegistry: the library's collectors of the process and of the runtime. *)
Context (prometheus_NewRegistry : ST W unit) (MustRegister_process MustRegister_go : ST W unit).
Definition NewRegistry : ST W unit :=
_ ← prometheus_NewRegistry; _ ← MustRegister_process; MustRegister_go.
(** A new registry is empty, and the names of the library's collectors begin as documented. *)
Record Library : Prop := {
lib_new w : ∃ w', prometheus_NewRegistry w = (Ret tt, w') ∧ names w' = ∅;
lib_process w : names w = ∅ → ∃ w', MustRegister_process w = (Ret tt, w') ∧
  ∀ n, n ∈ names w' → has_prefix "process_" n = true;
lib_go w : (∀ n, n ∈ names w → has_prefix "process_" n = true) → ∃ w', MustRegister_go w = (Ret tt, w') ∧
  ∀ n, n ∈ names w' → has_prefix "process_" n = true ∨ has_prefix "go_" n = true;
}.
(** The registry of a daemon, from nothing: every registration succeeds. *)
Theorem registry_complete w :
Library → ∃ w', (_ ← NewRegistry; register_all) w = (Ret tt, w') ∧
  (∀ c, c ∈ registered → name c ∈ names w') ∧
  ∀ n, n ∈ names w' → has_prefix "process_" n = true ∨ has_prefix "go_" n = true ∨ ∃ c, c ∈ registered ∧ n = name c.
Proof.
intros [HN HP HG]. destruct (HN w) as (w1 & E1 & N1), (HP w1 N1) as (w2 & E2 & N2), (HG w2 N2) as (w3 & E3 & N3).
destruct (registration_succeeds w3) as (w4 & E4 & N4).
{ intros c Hc Hn. pose proof (registered_own c Hc) as (t & Hg)%has_prefix_spec.
  apply N3 in Hn as [(u & H)%has_prefix_spec|(u & H)%has_prefix_spec]; rewrite Hg in H; done. }
exists w4. split_and!.
- unfold NewRegistry, mbind, st_bind in *. by rewrite E1, E2, E3.
- intros c Hc. rewrite N4. apply elem_of_union_l, elem_of_list_to_set. by apply list_elem_of_fmap_2.
- intros n. rewrite N4, elem_of_union, elem_of_list_to_set. intros [(c & -> & Hc)%list_elem_of_fmap|[H|H]%N3]; eauto.
Qed.
End Registration.

(** HandlerFor: the handler of /metrics, with the options it is made with. *)
Record HandlerOpts (Logger : Type) : Type := {
  ErrorLog : Logger;
  EnableOpenMetrics : bool;
  ProcessStartTime : Time;
}.
Arguments ErrorLog {Logger} _.
Arguments EnableOpenMetrics {Logger} _.
Arguments ProcessStartTime {Logger} _.
Definition HandlerFor {W Reg Logger} (promhttp_HandlerFor : Reg → HandlerOpts Logger → Handler W)
    (processStartTime : Time) (registry : Reg) (l : Logger) : Handler W :=
  promhttp_HandlerFor registry
    {| ErrorLog := l; EnableOpenMetrics := true; ProcessStartTime := processStartTime |}.

(** A registry as the set of its names. *)
Definition set_register (c : collector) : ST (gset string) unit := λ w,
  if decide (fq_name joined_name c ∈ w) then (Panic "duplicate metrics collector registration attempted", w)
  else (Ret tt, {[fq_name joined_name c]} ∪ w).
#[export] Instance set_registry : Registry joined_name set_register id.
Proof.
  split; [done|..]; intros c w Hc; unfold set_register, id in *.
  - rewrite decide_False by done. by eexists.
  - rewrite decide_True by done. by eexists _, _.
Qed.
Lemma registration_succeeds_witness :
  ∃ w', register_all MainExample.flags set_register {["go_goroutines"]} = (Ret tt, w') ∧
    "gke_metadata_server_pods" ∈ w'.
Proof.
  destruct (registration_succeeds MainExample.flags set_register joined_name id {["go_goroutines"]})
    as (w' & E & Hn).
  - intros c _. apply not_elem_of_singleton. unfold fq_name, joined_name. case_bool_decide; done.
  - exists w'. split; [exact E|]. unfold id in Hn. rewrite Hn. apply elem_of_union_l, elem_of_list_to_set.
    by apply (bool_decide_unpack _); vm_compute.
Defined.
