(* ===== verification/Logging.v ===== *)
(** * internal/logging: the logger of a context and the klog adapter

    Loggers as the level and fields they write with; the adapter that klog
    writes through, whose verbosities 0, 1 and 2 are info, debug and trace.
    logrus keeps an entry when the logger's level is at least the entry's. *)

From S2P Require Import Prelude GoStrings.
Open Scope string_scope.
Open Scope Z_scope.

(** logrus's levels, ordered by verbosity. *)
Inductive Level : Type := PanicLevel | FatalLevel | ErrorLevel | WarnLevel | InfoLevel | DebugLevel | TraceLevel.
#[export] Instance level_eq_dec : EqDecision Level.
Proof. solve_decision. Defined.
Definition level_nat (l : Level) : nat :=
  match l with
  | PanicLevel => 0 | FatalLevel => 1 | ErrorLevel => 2 | WarnLevel => 3 | InfoLevel => 4
  | DebugLevel => 5 | TraceLevel => 6
  end.
Definition level_ge (a b : Level) : bool := (level_nat b <=? level_nat a)%nat.

Section Logging.
(** The values that are logged, as fmt.Sprint prints them as keys. *)
Context {V : Type} (Sprint : V → string) (of_string : string → V).

Local Abbreviation Fields := (gmap string V).
Record FieldLogger : Type := { lg_level : Level; lg_fields : Fields }.
Record Entry : Type := { en_level : Level; en_msg : string; en_fields : Fields }.

(** WithFields: the new fields win. *)
Definition WithFields (fs : Fields) (l : FieldLogger) : FieldLogger :=
{| lg_level := lg_level l; lg_fields := fs ∪ lg_fields l |}.
Definition log (lv : Level) (msg : string) (l : FieldLogger) : list Entry :=
if level_ge (lg_level l) lv then [{| en_level := lv; en_msg := msg; en_fields := lg_fields l |}] else [].

(** ** Loggers and contexts *)

(** The level NewLogger stores, and the logger it makes. *)
Definition NewLogger (level : Level) : FieldLogger * Level := ({| lg_level := level; lg_fields := ∅ |}, level).
(** The context's value under loggerContextKey: nothing, a logger, or a value
  that is none. *)
Inductive ctx_value : Type := NoValue | Logger (l : FieldLogger) | OtherValue.
Definition IntoContext (l : FieldLogger) (v : ctx_value) : ctx_value := Logger l.
Definition FromContext (v : ctx_value) (logLevel : Level) : FieldLogger :=
match v with Logger l => l | NoValue | OtherValue => (NewLogger logLevel).1 end.
(** A request carries the value in its context. *)
Record LoggedRequest (A : Type) : Type := { lr_request : A; lr_logger : ctx_value }.
Arguments lr_request {A} _.
Arguments lr_logger {A} _.
Definition FromRequest {A} (r : LoggedRequest A) (logLevel : Level) : FieldLogger := FromContext (lr_logger r) logLevel.
Definition IntoRequest {A} (r : LoggedRequest A) (l : FieldLogger) : LoggedRequest A :=
{| lr_request := lr_request r; lr_logger := IntoContext l (lr_logger r) |}.
Definition Debug (logLevel : Level) : bool := level_ge logLevel DebugLevel.

(** ** The adapter *)

Record logrAdapter : Type := { ad_logger : FieldLogger; ad_level : Level }.
Definition InitKLog (l : FieldLogger) (level : Level) : logrAdapter := {| ad_logger := l; ad_level := level |}.

Definition verbosity (level : Z) : option Level :=
if level =? 0 then Some InfoLevel else if level =? 1 then Some DebugLevel
else if level =? 2 then Some TraceLevel else None.
Definition Enabled (level : Z) (a : logrAdapter) : bool :=
match verbosity level with Some lv => level_ge (ad_level a) lv | None => false end.

(** The loop over the pairs; a key without a value gets a placeholder. *)
Fixpoint fields_loop (keysAndValues : list V) (fields : Fields) : Fields :=
match keysAndValues with
| [] => fields
| [k] => <[Sprint k := of_string "<missing>"]> fields
| k :: v :: rest => fields_loop rest (<[Sprint k := v]> fields)
end.
Definition keysAndValuesToFields (keysAndValues : list V) : Fields := fields_loop keysAndValues ∅.

Definition Info (level : Z) (msg : string) (kvs : list V) (a : logrAdapter) : list Entry :=
match verbosity level with
| Some lv => log lv msg (WithFields (keysAndValuesToFields kvs) (ad_logger a))
| None => []
end.
Definition Error (err : V) (msg : string) (kvs : list V) (a : logrAdapter) : list Entry :=
log ErrorLevel msg
  (WithFields (keysAndValuesToFields kvs) (WithFields {[ "error" := err ]} (ad_logger a))).
Definition WithName (name : string) (a : logrAdapter) : logrAdapter :=
{| ad_logger := WithFields {[ "name" := of_string name ]} (ad_logger a); ad_level := ad_level a |}.
Definition WithValues (kvs : list V) (a : logrAdapter) : logrAdapter :=
{| ad_logger := WithFields (keysAndValuesToFields kvs) (ad_logger a); ad_level := ad_level a |}.

(** ** Theorems *)

(** The last value given to a key, the placeholder for a last key alone. *)
Fixpoint last_value (k : string) (kvs : list V) (acc : option V) : option V :=
match kvs with
| [] => acc
| [k'] => if decide (Sprint k' = k) then Some (of_string "<missing>") else acc
| k' :: v :: rest => last_value k rest (if decide (Sprint k' = k) then Some v else acc)
end.
Lemma list_pair_ind (P : list V → Prop) :
P [] → (∀ k, P [k]) → (∀ k v l, P l → P (k :: v :: l)) → ∀ l, P l.
Proof.
intros H0 H1 H2. assert (H : ∀ l, P l ∧ ∀ k, P (k :: l)); [|intros l; apply H].
induction l as [|x l [IH1 IH2]]; [by split|]. split; [apply IH2|]. intros k. by apply H2.
Qed.
Lemma fields_lookup kvs fs k : fields_loop kvs fs !! k = last_value k kvs (fs !! k).
Proof.
revert fs. induction kvs as [|k1|k1 v l IH] using list_pair_ind; intros fs; cbn [fields_loop last_value]; [done|..].
- rewrite lookup_insert. by case_decide.
- rewrite IH, lookup_insert. done.
Qed.

(** An adapter whose level is its logger's, as InitKLog is given by main and
  WithName and WithValues keep it. *)
Inductive adapter (level : Level) : logrAdapter → Prop :=
| adapter_init l : lg_level l = level → adapter level (InitKLog l level)
| adapter_name n a : adapter level a → adapter level (WithName n a)
| adapter_values kvs a : adapter level a → adapter level (WithValues kvs a).
Lemma adapter_levels level a : adapter level a → lg_level (ad_logger a) = level ∧ ad_level a = level.
Proof. induction 1 as [|? ? ? []|? ? ? []]; by split. Qed.

(** Klog's messages are kept or dropped consistently: Info writes exactly
  one entry when Enabled says that the verbosity is on, with the message and
  a field for every key (the last value given to it, a placeholder for a key
  without a value, the adapter's own fields otherwise), and none otherwise. *)
Theorem info_enabled level a v msg kvs :
adapter level a →
(Enabled v a = false → Info v msg kvs a = []) ∧
(Enabled v a = true → ∃ lv e, verbosity v = Some lv ∧ Info v msg kvs a = [e] ∧ en_level e = lv ∧
   en_msg e = msg ∧ ∀ k, en_fields e !! k = match last_value k kvs None with
                                            | Some x => Some x
                                            | None => lg_fields (ad_logger a) !! k
                                            end).
Proof.
intros [H1 H2]%adapter_levels. unfold Enabled, Info, log. cbn. rewrite H1, H2.
destruct (verbosity v) as [lv|]; [|done]. split; intros ->; [done|].
eexists lv, _. split_and!; try done. intros k. cbn. rewrite lookup_union. unfold keysAndValuesToFields.
rewrite fields_lookup, lookup_empty. destruct (last_value k kvs None), (lg_fields _ !! k); done.
Qed.
End Logging.

Lemma info_enabled_witness :
  let a := WithName id "watch" (InitKLog {| lg_level := DebugLevel; lg_fields := ∅ |} DebugLevel) in
  Enabled 1 a = true ∧ Enabled 2 a = false ∧ Info id id 2 "dropped" [] a = [].
Proof.
  intros a. split; [done|]. split; [done|].
  apply (info_enabled id id DebugLevel a 2 "dropped" []); [|done].
  apply adapter_name, adapter_init. done.
Defined.
