(* ===== verification/Chain.v ===== *)
(** * The eBPF chain: from a connect in a pod to the pod's identity

    The two kernel programs, the redirection of ebpf/redirect.c and the
    recording of ebpf/attest.c, with the server's lookup behind them: a pod's
    connection to the metadata address is rewritten to the daemon, recorded
    under the 4-tuple that the daemon sees, and identified by it. *)

From S2P Require Import Prelude GoStrings NetIP Retry Api ServiceAccounts Pods.
From S2P Require Import HTTP Attestation Routing Server ServerIdentity.
Open Scope string_scope.
Open Scope Z_scope.

(** A connect to 169.254.169.254:80 over IPv4 and TCP. *)
Definition metadata_connect : Redirect.bpf_sock_addr :=
  {| Redirect.user_family := Redirect.AF_INET; Redirect.protocol := Redirect.IPPROTO_TCP;
     Redirect.user_ip4 := Redirect.bswap32 (v4_of_octets [169; 254; 169; 254]);
     Redirect.user_port := Redirect.bswap16 80 |}.

(** Where the kernel connects to, and what attest_connect then records for the
    local address src:sport of a task in cgroup [cg]. *)
Definition connected_to (conf : option Redirect.Config) (cg : Z) (c : Redirect.bpf_sock_addr) : Z * Z :=
  let c' := Redirect.redirect_connect4 conf cg c in
  (Redirect.bswap32 (Redirect.user_ip4 c'), Redirect.bswap16 (Redirect.user_port c')).
Definition recorded (conf : option Redirect.Config) (cg src sport : Z) (c : Redirect.bpf_sock_addr)
    : option (Bpf.AttestKey * Z) :=
  let '(dst, dport) := connected_to conf cg c in
  Bpf.attest_connect (connecting src dst sport dport) cg.

(** The port is cut to 16 bits by the configuration. *)
Lemma metadata_redirected_mod debug own ip port cg :
  0 ≤ ip < 2 ^ 32 → cg ≠ own →
  connected_to (Some (Redirect.redirect_config debug own ip port)) cg metadata_connect = (ip, port mod 65536).
Proof.
  intros Hip Hc. unfold connected_to, Redirect.redirect_connect4.
  change (negb (Redirect.user_family metadata_connect =? Redirect.AF_INET) ||
          negb (Redirect.protocol metadata_connect =? Redirect.IPPROTO_TCP)) with false.
  change (negb (Redirect.bswap32 (Redirect.user_ip4 metadata_connect) =? 2852039166) ||
          negb (Redirect.bswap16 (Redirect.user_port metadata_connect) =? 80)) with false.
  cbn [Redirect.redirect_config Redirect.EmulatorCgroupId].
  rewrite (proj2 (Z.eqb_neq cg own)) by done.
  cbn [Redirect.user_ip4 Redirect.user_port Redirect.EmulatorIp Redirect.EmulatorPort].
  rewrite bswap32_involutive by done. cbn [Redirect.redirect_config Redirect.EmulatorIp Redirect.EmulatorPort].
  by rewrite bswap16_involutive by (apply Z.mod_pos_bound; lia).
Qed.
Lemma metadata_redirected debug own ip port cg :
  0 ≤ ip < 2 ^ 32 → 0 ≤ port < 65536 → cg ≠ own →
  connected_to (Some (Redirect.redirect_config debug own ip port)) cg metadata_connect = (ip, port).
Proof. intros Hip Hp Hc. rewrite metadata_redirected_mod by done. by rewrite Z.mod_small. Qed.
(** What is recorded for a redirected connect: its cgroup, under the 4-tuple. *)
Lemma recorded_key conf cg src dst sport dport c key entry :
  connected_to conf cg c = (dst, dport) → tuple_ok src dst sport dport →
  recorded conf cg src sport c = Some (key, entry) →
  key = network_key src dst sport dport ∧ entry = cg.
Proof.
  intros Hc Ht. pose proof Ht as (_ & _ & Hsp & Hdp). unfold recorded. rewrite Hc.
  rewrite (proj1 (attest_key_agrees src dst sport dport cg Ht)), attest_key_network by done. by intros [= <- <-].
Qed.

(** The strings of an IPv4 peer address. *)
Definition remote_addr (src sport : Z) : string := v4_string src +:+ ":" +:+ pretty sport.
Lemma remote_addr_split src sport :
  0 ≤ src < 2 ^ 32 → 0 ≤ sport → SplitHostPort (remote_addr src sport) = Ok (v4_string src, pretty sport).
Proof.
  intros Hs Hp. apply SplitHostPort_v4; [done|].
  repeat (apply Forall_cons; split; [by apply pretty_no|]). by apply Forall_nil_2.
Qed.

Section Chain.
Context {W : Type} (opts : ServerOptions W) (ctx : Ctx W).
Context (lookupPodFailures : string → ST W unit) (fuel : nat).
Context (map_Lookup : Bpf.AttestKey → ST W (result (option Z))) (cgroups : W → fs_error + fsnode).

Lemma as4_v4 a : as4 (V4 a) = Some a.
Proof. done. Qed.
Lemma local_v4 ip : 0 ≤ ip < 2 ^ 32 → addr_from_to4 (v4_octets ip) = Some (V4 ip).
Proof.
  intros Hip. assert (Hf : ∀ a b c d, addr_from_to4 [a; b; c; d] = Some (V4 (v4_of_octets [a; b; c; d]))).
  { by intros [] [] [] []. }
  unfold v4_octets. rewrite Hf. f_equal. f_equal. by apply v4_of_octets_inv.
Qed.

(** C8: in eBPF mode every pod that connects to the metadata address is
  identified.  The connect of a task in another cgroup than the daemon's is
  rewritten to the daemon's address; what attest.c records for it is found
  by the server under the accepted connection's peer and local addresses;
  and if that cgroup is a pod's (its directory in the cgroup tree names the
  UID) and the pod provider knows the UID, the request is served as that
  pod's service account, on the first try and whatever network the pod is
  on. *)
Theorem ebpf_request_identified debug own ip port cg src sport key entry x x' w r uid pod :
  opt_RoutingMode opts = RoutingModeBPF →
  opt_Attestation opts = Some (Bpf.lookuper map_Lookup cgroups) →
  tuple_ok src ip sport port → cg ≠ own →
  recorded (Some (Redirect.redirect_config debug own ip port)) cg src sport metadata_connect
    = Some (key, entry) →
  map_Lookup key x = (Ret (Ok (Some entry)), x) → PodUIDFromCgroupID (cgroups x) cg = Ok uid →
  GetByUID (opt_Pods opts) uid x = (Ret (Ok pod), x') →
  rq_RemoteAddr r = remote_addr src sport →
  ctx_localAddr r = Some {| ta_IP := v4_octets ip; ta_Port := port |} → ctx_saRef r = None →
  getPodServiceAccountReference opts ctx lookupPodFailures fuel r (x, w) =
    (Ret (Ok (ReferenceFromPod pod, with_saRef (ReferenceFromPod pod) r)), (x', w)).
Proof.
  intros Hmode HA Ht Hcg Hrec Hmap Huid Hpod Hremote Hlocal Hctx.
  pose proof Ht as (Hsrc & Hip & Hsp & Hp).
  apply (recorded_key _ _ _ ip _ port) in Hrec as [-> ->]; [|by apply metadata_redirected|done].
  unfold getPodServiceAccountReference. rewrite Hctx, Hremote, remote_addr_split by lia.
  rewrite ParseAddr_v4_string by done. unfold useAttestation. rewrite Hmode. cbn [bool_decide orb].
  rewrite bool_decide_eq_true_2 by done. cbn [orb].
  assert (Hatt : attestByConnTuple opts r (V4 src) (pretty sport) x = (Ret (Ok pod), x')).
  { unfold attestByConnTuple, parse_port, parse_uint, LocalAddrFromRequest. rewrite HA, Hlocal.
    rewrite parse_dec_pretty by lia. change (2 ^ 16) with 65536.
    rewrite (proj2 (Z.ltb_lt sport 65536)) by lia. cbn [ta_IP ta_Port]. rewrite local_v4 by done.
    cbn [unmap Lookup Bpf.lookuper]. unfold Bpf.bpf_Lookup. rewrite !as4_v4.
    rewrite (Z.mod_small port) by lia. rewrite attest_key_network by lia. st_simpl. rewrite Hmap. cbn. rewrite Huid. cbn. by rewrite Hpod. }
  unfold lift, zoom. st_simpl. by rewrite Hatt.
Qed.
End Chain.

(** A pod in cgroup 99 connects from 10.0.0.5:40000 to a daemon on 192.168.0.2:16321. *)
Module ChainExample.
Definition tree : fs_error + fsnode :=
inr (FsNode "cgroup" true (Some 1) None
  [FsNode "kubepods-pod01234567_89ab_cdef_0123_456789abcdef.slice" true (Some 99) None []]).
Definition key : Bpf.AttestKey := Bpf.attest_key 167772165 3232235522 40000 16321.
#[export] Instance key_eq_dec : EqDecision Bpf.AttestKey.
Proof. solve_decision. Defined.
Definition map_Lookup (k : Bpf.AttestKey) : ST unit (result (option Z)) :=
mret (Ok (if decide (k = key) then Some 99 else None)).
Definition pod : Kube.Pod := Pods.Example.mk "a" "01234567-89ab-cdef-0123-456789abcdef" "10.0.0.5" false.
Definition options : ServerOptions unit :=
let o := ServerExample.options RoutingModeBPF in
{| opt_NodeName := opt_NodeName o; opt_PodIP := opt_PodIP o; opt_Addr := opt_Addr o;
   opt_HealthPort := opt_HealthPort o;
   opt_Pods := {| GetByIP _ := panic "not called"; GetByUID _ := ok pod |};
   opt_ServiceAccounts := opt_ServiceAccounts o;
   opt_ServiceAccountTokens := opt_ServiceAccountTokens o; opt_ProjectID := opt_ProjectID o;
   opt_NumericProjectID := opt_NumericProjectID o;
   opt_WorkloadIdentityPool := opt_WorkloadIdentityPool o; opt_RoutingMode := opt_RoutingMode o;
   opt_PodLookup := opt_PodLookup o;
   opt_Attestation := Some (Bpf.lookuper map_Lookup (λ _, tree)) |}.
Definition request : Request :=
{| rq_Method := "GET"; rq_Path := "/computeMetadata/v1/"; rq_Query := []; rq_Header := [];
   rq_RemoteAddr := remote_addr 167772165 40000;
   ctx_localAddr := Some {| ta_IP := v4_octets 3232235522; ta_Port := 16321 |};
   ctx_saRef := None; ctx_googleEmail := None; ctx_observability := true |}.
End ChainExample.
Lemma ebpf_request_identified_witness :
  (getPodServiceAccountReference ChainExample.options ServerExample.ctx ServerExample.no_count 0
     ChainExample.request (tt, fresh_writer)).1 =
  Ret (Ok (ServerExample.test_ref, with_saRef ServerExample.test_ref ChainExample.request)).
Proof.
  rewrite (ebpf_request_identified ChainExample.options ServerExample.ctx ServerExample.no_count 0
    ChainExample.map_Lookup (λ _, ChainExample.tree) false 7 3232235522 16321 99 167772165 40000
    ChainExample.key 99 tt tt fresh_writer ChainExample.request
    "01234567-89ab-cdef-0123-456789abcdef" ChainExample.pod); done.
Defined.
