(* ===== verification/Daemon.v ===== *)
(** * The daemon end to end: from a request to the token that goes back

    The composition of all components on the path of a token: main.go starts
    the daemon with its flags, the server resolves the caller, the provider of
    tokens issues one for the caller's service account, and the handler writes
    it.  Here the provider of tokens is any that meets a contract; what the
    two providers of the repository promise is added in DaemonCache.v. *)

From S2P Require Import Prelude GoStrings NetIP Retry GoTime Credentials Api ServiceAccounts Pods.
From S2P Require Import HTTP ServeMux Tokens Attestation Preflight Node Routing Server.
From S2P Require Import Directory ServerIdentity ServerTokens ServerRoutes ServerResponse ServerNew Main.
Open Scope string_scope.
Open Scope Z_scope.

Section Daemon.
Context {W Src : Type} (f : Flags).
Context (NODE_NAME POD_IP : string) (kube_client : result unit).
Context (kube_ListPods : string → ST W (result (list Kube.Pod))).
Context (kube_GetNode : string → ST W (result Kube.Node)).
Context (kube_GetServiceAccount : string → string → ST W (result Kube.ServiceAccount)).
Context (NewFilteredPodInformer : Pods.WatchProvider.Informer →
  (Kube.Pod → list string) → Kube.Pod → ST W (result (list Kube.Pod))).
Context (NewServiceAccountInformer : ServiceAccounts.WatchProvider.Informer →
  string → ST W (result (option Kube.ServiceAccount))).
Context (gauge_Add : string → Z → ST W unit) (counter_Inc : string → ST W unit).
(** What the issuing provider calls. *)
Context (time_Now : ST W Time).
Context (kube_CreateToken : string → string → list string → ST W (result (string * Time))).
Context (exchange : ExternalAccountConfig → ST W (result Token)).
Context (IDTokenSource : CreateProvider.IDTokenConfig → string → ST W (result Src)).
Context (src_Token : Src → ST W (result Token)).
(** The cache. *)
Context (cache_tokens : Tokens.Provider W → ServiceAccounts.Provider W → Tokens.Provider W).
Context (cache_pod_listener : Pods.WatchProvider.Listener W).
Context (cache_sa_listener : ServiceAccounts.WatchProvider.Listener W).
Context (redirect : Addr → Z → ST W (result (closer W))) (loopback : ST W (result (closer W))).
Context (attestbpf_LoadAndAttach : ST W (result unit)).
Context (map_Lookup : Bpf.AttestKey → ST W (result (option Z))) (cgroups : W → fs_error + fsnode).
Context (system : W → Sockdiag.System) (addr_text : Addr → Z → string).
Context (proxytest_Start : ST W (result unit)).

Definition create_tokens (c : Config) : Tokens.Provider W :=
CreateProvider.provider time_Now kube_CreateToken exchange IDTokenSource src_Token c.
Definition start_daemon : ST W (result (ServerOptions W * closer W)) :=
Main.start f NODE_NAME POD_IP kube_client kube_ListPods kube_GetNode kube_GetServiceAccount
  NewFilteredPodInformer NewServiceAccountInformer gauge_Add counter_Inc create_tokens cache_tokens cache_pod_listener cache_sa_listener redirect
  loopback attestbpf_LoadAndAttach map_Lookup cgroups system addr_text proxytest_Start.
Definition service_accounts : ServiceAccounts.Provider W :=
sas_provider f kube_GetServiceAccount NewServiceAccountInformer gauge_Add counter_Inc cache_sa_listener.
(** Whose connections the mode's lookuper attests. *)
Definition attested (o : ServerOptions W) : W → Addr → Addr → Z → Z → string → Prop :=
mode_owner map_Lookup cgroups system (opt_RoutingMode o).

(** What the daemon relies on: the API server's lists hold the node's pods and
  apply their field selectors, and the informer of the node's pods has an index of such pods. *)
Record ApiServer (known : Kube.Pod → Prop) (store : W → list Kube.Pod) : Prop := {
api_node w items w' :
  kube_ListPods ("spec.nodeName=" +:+ NODE_NAME) w = (Ret (Ok items), w') → Forall known items;
api_ip ip w items w' :
  kube_ListPods (join "," ["spec.nodeName=" +:+ NODE_NAME; "spec.hostNetwork=false";
                           "status.podIP=" +:+ ip]) w = (Ret (Ok items), w') →
  Forall (λ pod, known pod ∧ Kube.pod_HostNetwork pod = false ∧ Kube.pod_PodIP pod = ip) items;
api_index g obj w l w' :
  NewFilteredPodInformer (Pods.WatchProvider.informer (pods_options f NODE_NAME kube_ListPods)) g obj w =
    (Ret (Ok l), w') → l ≡ₚ filter (λ pod, Exists (λ x, x ∈ g pod) (g obj)) (store w);
api_store w : Forall known (store w);
}.

(** The provider of tokens that the server is given. *)
Definition daemon_tokens : Config → Tokens.Provider W :=
tokens_provider f kube_GetServiceAccount NewServiceAccountInformer gauge_Add counter_Inc create_tokens cache_tokens
  cache_sa_listener.

(** A daemon that started meets the contracts of the server. *)
Lemma daemon_ready known store w o close w' :
ApiServer known store → start_daemon w = (Ret (Ok (o, close)), w') →
Lawful known (opt_Pods o) ∧ (∀ L, opt_Attestation o = Some L → Attests (attested o) L) ∧
opt_ServiceAccounts o = service_accounts ∧
∃ c num, NewConfig (workloadIdentityProvider f) = Ok (c, num, opt_WorkloadIdentityPool o) ∧
  opt_ServiceAccountTokens o = daemon_tokens c.
Proof.
intros [H1 H2 H3 H4] Hs. apply start_inv in Hs
  as (ip & c & num & pool & node & mode & _ & Hc & _ & _ & _ & _ & -> & _).
split; [by apply (pods_lawful f NODE_NAME kube_ListPods NewFilteredPodInformer gauge_Add counter_Inc cache_pod_listener
                    known store)|].
split; [intros L [= <-]; apply _|]. split; [done|]. by exists c, num.
Qed.

(** ** What is served *)

Section Served.
Context (ctx : Ctx W) (lookupPodFailures : string → ST W unit) (fuel : nat).
Context (Now : W → Time) (environment : W → Environment) (json_Unmarshal : string → option any).
Context (metrics : Handler W) (self : ST W self_response) (unclean : Handler W).

(** The server that main starts with its options, and the metadata server's
  answer to a message on a connection. *)
Definition server (o : ServerOptions W) : Server W :=
ServerNew.New o ctx lookupPodFailures fuel Now environment json_Unmarshal metrics self unclean.
Definition answer (o : ServerOptions W) (c : Conn) (m : Message) : ST W ResponseWriter :=
serve (metadataServer (server o)) c m.
Lemma answer_handler o c m x rw x' :
answer o c m x = (Ret rw, x') →
metadataServer_Handler o ctx lookupPodFailures fuel Now environment json_Unmarshal (server_request ConnContext c m)
  (x, fresh_writer) = (Ret tt, (x', rw)).
Proof.
unfold answer, serve. change (hs_ConnContext (metadataServer (server o))) with ConnContext.
change (hs_Handler (metadataServer (server o)) (server_request ConnContext c m)) with
  (metadataServer_Handler o ctx lookupPodFailures fuel Now environment json_Unmarshal (server_request ConnContext c m)).
destruct (metadataServer_Handler _ _ _ _ _ _ _ _ _) as [[[]|e] [x1 w]]; [|done]. by intros [= <- <-].
Qed.

(** Whatever the tokens of the provider stand for, the access token that
  leaves the daemon is such a token, asked for with a token and the annotation
  of the caller's service account and the scopes of the query. *)
Lemma served_token known store sa_token access identity w0 o close w1 conn msg sa x x' rw c t :
ApiServer known store →
(∀ conf num pool, NewConfig (workloadIdentityProvider f) = Ok (conf, num, pool) →
   Issues (sa_token conf) (access conf) (identity conf) (daemon_tokens conf)) →
start_daemon w0 = (Ret (Ok (o, close)), w1) →
splitPathPieces (msg_Path msg) = ["computeMetadata"; "v1"; "instance"; "service-accounts"; sa; "token"] →
answer o conn msg x = (Ret rw, x') →
c ∈ rw_body rw → holds_token c t →
let r := server_request ConnContext conn msg in ∃ conf num pool pod saToken email toks,
  NewConfig (workloadIdentityProvider f) = Ok (conf, num, pool) ∧
  caller o known (attested o) r x pod ∧
  annotated o (ReferenceFromPod pod) email ∧
  sa_token conf (ReferenceFromPod pod) saToken ∧
  access conf saToken email (query_scopes r) toks ∧
  sa ∈ ["default"; default pool email] ∧
  t = if bool_decide (Impersonated toks = "") then DirectAccess toks else Impersonated toks.
Proof.
intros HA HI Hs Hp Hserve%answer_handler Hin Ht r.
destruct (daemon_ready known store w0 o close w1 HA Hs) as (HP & HL & _ & conf & num & Hc & Ho).
pose proof (HI _ _ _ Hc) as HI'. rewrite <- Ho in HI'.
destruct (token_response_sound o ctx lookupPodFailures fuel Now environment json_Unmarshal known _ _ _ _
  (server_request ConnContext conn msg) sa x fresh_writer x' rw c t HP HL HI' eq_refl eq_refl Hp
  ltac:(by apply Forall_nil_2) Hserve Hin Ht) as (pod & saToken & email & toks & ?).
by exists conf, num, (opt_WorkloadIdentityPool o), pod, saToken, email, toks.
Qed.

(** Likewise whatever text the identity path answers with, unless it refuses the request. *)
Lemma served_identity known store sa_token access identity w0 o close w1 conn msg sa x x' rw t :
ApiServer known store →
(∀ conf num pool, NewConfig (workloadIdentityProvider f) = Ok (conf, num, pool) →
   Issues (sa_token conf) (access conf) (identity conf) (daemon_tokens conf)) →
start_daemon w0 = (Ret (Ok (o, close)), w1) →
splitPathPieces (msg_Path msg) = ["computeMetadata"; "v1"; "instance"; "service-accounts"; sa; "identity"] →
answer o conn msg x = (Ret rw, x') →
CText t ∈ rw_body rw → refusal_text t ∨
let r := server_request ConnContext conn msg in ∃ conf num pool pod saToken email toks,
  NewConfig (workloadIdentityProvider f) = Ok (conf, num, pool) ∧
  caller o known (attested o) r x pod ∧
  annotated o (ReferenceFromPod pod) (Some email) ∧
  sa_token conf (ReferenceFromPod pod) saToken ∧
  access conf saToken (Some email) [] toks ∧
  identity conf (ReferenceFromPod pod) (DirectAccess toks) email (trim_space (Query_Get "audience" r)) t ∧
  sa ∈ ["default"; email].
Proof.
intros HA HI Hs Hp Hserve%answer_handler Hin.
destruct (daemon_ready known store w0 o close w1 HA Hs) as (HP & HL & _ & conf & num & Hc & Ho).
pose proof (HI _ _ _ Hc) as HI'. rewrite <- Ho in HI'.
destruct (identity_response_sound o ctx lookupPodFailures fuel Now environment json_Unmarshal known _ _ _ _
  (server_request ConnContext conn msg) sa x fresh_writer x' rw t HP HL HI' eq_refl eq_refl Hp
  ltac:(by apply Forall_nil_2) Hserve Hin) as [?|(pod & saToken & email & toks & ?)]; [by left|right].
by exists conf, num, (opt_WorkloadIdentityPool o), pod, saToken, email, toks.
Qed.
End Served.

(** The name of the provider is mandatory: its flag's default is no name. *)
Lemma daemon_needs_provider w o close w' :
start_daemon w = (Ret (Ok (o, close)), w') → workloadIdentityProvider f ≠ "".
Proof.
intros Hs E. apply start_inv in Hs as (ip & c & num & pool & node & mode & _ & Hc & _).
rewrite E in Hc. by vm_compute in Hc.
Qed.
End Daemon.
