(* ===== verification/Process.v ===== *)
(** * The process: from the command line to the two servers

    main.go as a whole: CommandLine.v's flags and exits, Main.v's wiring and
    ServerNew.v's servers composed, so that what the servers are configured
    with is stated in terms of the arguments of the command line. *)

From S2P Require Import Prelude GoStrings NetIP Retry GoTime Credentials Api ServiceAccounts Pods.
From S2P Require Import HTTP ServeMux Tokens Attestation Preflight Node Routing Server ServerIdentity.
From S2P Require Import ServerTokens ServerNew Main CommandLine Daemon.
Open Scope string_scope.
Open Scope Z_scope.

Section Process.
Context {W Src Level : Type}.
Context (pflag_Parse : list (string * flag_value) → list string → parsed).
Context (AllLevels : list string) (ParseLevel : string → result Level).
Context (NODE_NAME POD_IP : string) (kube_client : result unit).
Context (kube_ListPods : string → ST W (result (list Kube.Pod))).
Context (kube_GetNode : string → ST W (result Kube.Node)).
Context (kube_GetServiceAccount : string → string → ST W (result Kube.ServiceAccount)).
Context (NewFilteredPodInformer : Pods.WatchProvider.Informer →
  (Kube.Pod → list string) → Kube.Pod → ST W (result (list Kube.Pod))).
Context (NewServiceAccountInformer : ServiceAccounts.WatchProvider.Informer →
  string → ST W (result (option Kube.ServiceAccount))).
Context (gauge_Add : string → Z → ST W unit) (counter_Inc : string → ST W unit).
Context (time_Now : ST W Time).
Context (kube_CreateToken : string → string → list string → ST W (result (string * Time))).
Context (exchange : ExternalAccountConfig → ST W (result Token)).
Context (IDTokenSource : CreateProvider.IDTokenConfig → string → ST W (result Src)).
Context (src_Token : Src → ST W (result Token)).
(** NewProvider of the cache, by its options: the concurrency, the longest
  duration of a token, the source and the service accounts. *)
Context (NewCache : Z → Z → Tokens.Provider W → ServiceAccounts.Provider W → Tokens.Provider W).
Context (cache_pod_listener : Pods.WatchProvider.Listener W).
Context (cache_sa_listener : ServiceAccounts.WatchProvider.Listener W).
Context (redirect : Addr → Z → ST W (result (closer W))) (loopback : ST W (result (closer W))).
Context (attestbpf_LoadAndAttach : ST W (result unit)).
Context (map_Lookup : Bpf.AttestKey → ST W (result (option Z))) (cgroups : W → fs_error + fsnode).
Context (system : W → Sockdiag.System) (addr_text : Addr → Z → string).
Context (proxytest_Start : ST W (result unit)).
Context (ctx : Ctx W) (lookupPodFailures : string → ST W unit) (fuel : nat).
Context (Now : W → Time) (environment : W → Environment) (json_Unmarshal : string → option any).
Context (metrics : Handler W) (self : ST W self_response) (unclean : Handler W).

(** main, up to the servers it starts. *)
Definition main (args : list string) : ST W (ending (Server W * closer W)) :=
run_main pflag_Parse AllLevels ParseLevel
  (λ f _,
     ' (o, close) ←? start_daemon f NODE_NAME POD_IP kube_client kube_ListPods kube_GetNode kube_GetServiceAccount
         NewFilteredPodInformer NewServiceAccountInformer gauge_Add counter_Inc time_Now kube_CreateToken exchange
         IDTokenSource src_Token (NewCache (cacheTokensConcurrency f) (cacheMaxTokenDuration f)) cache_pod_listener cache_sa_listener redirect loopback
         attestbpf_LoadAndAttach map_Lookup cgroups system addr_text proxytest_Start;
     ok (Daemon.server ctx lookupPodFailures fuel Now environment json_Unmarshal metrics self unclean o, close))
  args.

(** C30: a process that serves is configured as its command line says, each
  flag having the value it is given last or its default.  Its metadata server
  listens on the link-local address in Loopback mode, and on the port of
  --server-port otherwise; its health server on the port of --health-port.
  The provider named by --workload-identity-provider was accepted, the project
  is that of --project-id and the number is the one in the provider's name.
  The routing mode is the node's, one of the three, and comes with the
  lookuper of that mode, so that a request never finds attestation missing.
  Pods are looked up as often as --pod-lookup-max-attempts says, three times
  when that is zero or negative, with the two delays of their flags.  Tokens
  are issued with the configuration of the provider, directly, or with
  --cache-tokens through a cache of them with the concurrency, which is not
  negative, and the longest duration of their flags. *)
Theorem main_configures args w s close w' :
(∀ l, pflag_Parse flag_table args = Assignments l → typed l) →
main args w = (Ret (Serving (s, close)), w') →
∃ l f conf,
  pflag_Parse flag_table args = Assignments l ∧ arguments f = given l ∧
  let o := srv_opts s in
  let source := create_tokens time_Now kube_CreateToken exchange IDTokenSource src_Token conf in
  hs_Addr (metadataServer s) =
    (if decide (opt_RoutingMode o = "Loopback") then "169.254.169.254:80" else ":" +:+ pretty (serverPort f)) ∧
  hs_Addr (healthServer s) = ":" +:+ pretty (healthPort f) ∧
  NewConfig (workloadIdentityProvider f) = Ok (conf, opt_NumericProjectID o, opt_WorkloadIdentityPool o) ∧
  opt_ProjectID o = projectID f ∧
  opt_NodeName o = NODE_NAME ∧ NODE_NAME ≠ "" ∧ opt_PodIP o = POD_IP ∧ (∃ ip, ParseAddr POD_IP = Ok (V4 ip)) ∧
  (∃ node w1, kube_GetNode NODE_NAME w = (Ret (Ok node), w1) ∧ opt_RoutingMode o = getMode node) ∧
  opt_RoutingMode o ∈ ["eBPF"; "Loopback"; "None"] ∧
  opt_Attestation o = Some (mode_lookuper map_Lookup cgroups system addr_text (opt_RoutingMode o)) ∧
  default_max_attempts (pl_MaxAttempts (opt_PodLookup o)) =
    (if 0 <? podLookupMaxAttempts f then podLookupMaxAttempts f else 3) ∧
  pl_RetryInitialDelay (opt_PodLookup o) = podLookupRetryInitialDelay f ∧
  pl_RetryMaxDelay (opt_PodLookup o) = podLookupRetryMaxDelay f ∧
  (if cacheTokens f then
     0 ≤ cacheTokensConcurrency f ∧
     opt_ServiceAccountTokens o =
       NewCache (cacheTokensConcurrency f) (cacheMaxTokenDuration f) source (opt_ServiceAccounts o)
   else opt_ServiceAccountTokens o = source).
Proof.
intros Hty. unfold main, run_main. destruct (pflag_Parse flag_table args) as [l| |e] eqn:Hp; [|done..].
specialize (Hty l eq_refl). pose proof (arguments_given l Hty) as Hf. revert Hf.
generalize (flags_of (foldl assign defaults l)) as f. intros f Hf.
destruct (ParseLevel (stringLogLevel f)) as [level|e]; [|done].
intros ([[s' c']|e] & w1 & Hs & H)%bind_ret; [|done]. injection H as -> -> ->.
apply bindR_ok in Hs as ([o c] & w2 & Hs & H). injection H as <- <- <-.
pose proof (start_configures _ _ _ _ _ _ _ _ _ _ _ _ _ _ _ _ _ _ _ _ _ _ _ _ _ _ _ Hs)
  as (Hn & Hne & Hip & Hnode & Hmode & Hatt & Haddr & Hmax).
apply start_inv in Hs as (ip & conf & num & pool & node & mode & _ & Hc & _ & _ & _ & _ & -> & _ & Hconc).
exists l, f, conf. split_and!; try done.
cbn. unfold tokens_provider, create_tokens. destruct (cacheTokens f); [by split; [apply Hconc|]|done].
Qed.
End Process.

(** ** Witness: a process with two ports and a cache on its command line *)

Module ProcessExample.
Definition assignments : list (string * flag_value) :=
[("server-port", VInt 8080); ("cache-tokens", VBool true);
 ("workload-identity-provider", VString "projects/1/locations/global/workloadIdentityPools/pool/providers/prov");
 ("server-port", VInt 8081)].
Definition Parse (table : list (string * flag_value)) (args : list string) : parsed :=
if decide (args = []) then Assignments assignments
else if decide (args = ["--cache-tokens-concurrency=-1"])
then Assignments (("cache-tokens-concurrency", VInt (-1)) :: assignments)
else ParseError (EMsg "unknown flag").
Definition GetNode (name : string) : ST unit (result Kube.Node) := ok MainExample.node.
(** No cache at all. *)
Definition NewCache (concurrency duration : Z) (p : Tokens.Provider unit) (_ : ServiceAccounts.Provider unit)
  : Tokens.Provider unit := p.
Definition main : list string → ST unit (ending (Server unit * closer unit)) :=
Process.main Parse ["info"] CommandLineExample.ParseLevel "n1" "192.168.0.2" (Ok tt) (λ _, panic "") GetNode
  (λ _ _, panic "") (λ _ _ _, panic "") (λ _ _, panic "") (λ _ _, mret tt) (λ _, mret tt) (panic "")
  (λ _ _ _, panic "") (λ _, panic "") (λ _ _, panic "") (λ _ : unit, panic "") NewCache
  {| Pods.WatchProvider.AddPodServiceAccount _ := mret tt; Pods.WatchProvider.DeletePodServiceAccount _ := mret tt |}
  {| ServiceAccounts.WatchProvider.UpdateServiceAccount _ := mret tt;
     ServiceAccounts.WatchProvider.DeleteServiceAccount _ := mret tt |}
  (λ _ _, panic "") (panic "") (panic "") (λ _, panic "") (λ _, inl FsSkipped) MainExample.system (λ _ _, "") (panic "")
  ServerExample.ctx ServerExample.no_count 0 (λ _, clock 0 0) example_environment no_json (λ _, mret tt) (panic "")
  (λ _, mret tt).
Lemma serving : ∃ s close, main [] tt = (Ret (Serving (s, close)), tt).
Proof. by eexists _, _. Qed.
Lemma parsed_typed args l : Parse flag_table args = Assignments l → typed l.
Proof.
assert (Ht : typed assignments).
{ repeat apply Forall_cons_2; [..|apply Forall_nil_2]; eexists; (split; [in_table|done]). }
unfold Parse. destruct (decide _); [by intros [= <-]|]. destruct (decide _); [|done]. intros [= <-].
apply Forall_cons_2; [|done]. eexists. split; [in_table|done].
Qed.
(** A negative concurrency is not refused as a flag: main panics. *)
Lemma negative_concurrency : main ["--cache-tokens-concurrency=-1"] tt = (Panic "makechan: size out of range", tt).
Proof. by vm_compute. Qed.
End ProcessExample.

Lemma main_configures_witness :
  ∃ s close, ProcessExample.main [] tt = (Ret (Serving (s, close)), tt) ∧
    hs_Addr (metadataServer s) = ":8081" ∧ hs_Addr (healthServer s) = ":16322".
Proof.
  destruct ProcessExample.serving as (s & close & Hs). exists s, close. split; [exact Hs|].
  destruct (main_configures ProcessExample.Parse ["info"] CommandLineExample.ParseLevel "n1" "192.168.0.2" (Ok tt)
    (λ _, panic "") ProcessExample.GetNode (λ _ _, panic "") (λ _ _ _, panic "") (λ _ _, panic "") (λ _ _, mret tt)
    (λ _, mret tt) (panic "") (λ _ _ _, panic "") (λ _, panic "") (λ _ _, panic "") (λ _ : unit, panic "")
    ProcessExample.NewCache _ _ (λ _ _, panic "") (panic "") (panic "") (λ _, panic "") (λ _, inl FsSkipped) MainExample.system (λ _ _, "")
    (panic "") ServerExample.ctx ServerExample.no_count 0 (λ _, clock 0 0) example_environment no_json (λ _, mret tt)
    (panic "") (λ _, mret tt) [] tt s close tt (ProcessExample.parsed_typed []) Hs)
    as (l & f & conf & Hl & Hf & Ha & Hh & _ & _ & _ & _ & _ & _ & (node & w1 & Hn & Hm) & _).
  injection Hl as <-. injection Hn as <- <-. injection Hf as _ Hport Hhealth _.
  rewrite Ha, Hh, Hm. by rewrite Hport, Hhealth.
Defined.
