(* ===== verification/DaemonCache.v ===== *)
(** * The daemon with its token cache

    The composition closed: the provider of tokens is the one that main.go
    puts together, the issuing provider with the token cache in front of it
    when the flags ask for it.  The daemon then runs on the states of the
    cache's machine, of which the outside world is a part: a call of the
    Kubernetes API or of Google changes the world, the informers' listeners
    are steps of the machine, and a call of the cache runs it under any
    schedule.  What the theorems assume is what the Kubernetes API server, the
    kernel and the Google APIs answer, and that their clients return. *)

From S2P Require Import Prelude GoStrings NetIP Retry GoTime Credentials Api ServiceAccounts Pods.
From S2P Require Import HTTP ServeMux Tokens TokenCache CacheProvider Attestation Preflight Node Routing Server.
From S2P Require Import Directory ServerIdentity ServerTokens ServerRoutes ServerResponse ServerNew Main Daemon.
Open Scope string_scope.
Open Scope Z_scope.

(** ** Calls of the world, made from inside the process *)

Section World.
Context {W : Type} (Now : W → Time) (Source : Tokens.Provider W).
Context (SAs : ServiceAccounts.Provider W) (jwt_Subject : string → option string).
Context (Concurrency : nat) (MaxTokenDuration : Z).
Local Abbreviation Cache := (CacheProvider.Cache Now Source SAs jwt_Subject Concurrency MaxTokenDuration).
Local Abbreviation step := (TokenCache.step Now Source SAs jwt_Subject Concurrency MaxTokenDuration).

(** A step of the machine; there is none once a goroutine has panicked. *)
Definition tell (l : label W) : ST Cache unit := λ s,
match step l (`s) as o return step l (`s) = o → outcome unit * Cache with
| Some s' => λ E, (Ret tt, exist _ s' (reach_step _ _ _ _ _ _ _ l s' (proj2_sig s) E))
| None => λ _, (Panic (default "" (fault (`s))), s)
end eq_refl.
(** A call of the outside world. *)
Definition in_world {A} (m : ST W A) : ST Cache A := λ s,
match fault (`s) with
| Some e => (Panic e, s)
| None => let '(o, w) := m (world (`s)) in (o, (tell (Env w) s).2)
end.

Lemma tell_step l s s' : step l (`s) = Some s' → ∃ t, tell l s = (Ret tt, t) ∧ `t = s'.
Proof.
intros E.
assert (G : ∀ o (H : step l (`s) = o), o = Some s' → ∃ t,
  match o as o' return step l (`s) = o' → outcome unit * Cache with
  | Some s1 => λ E, (Ret tt, exist _ s1 (reach_step _ _ _ _ _ _ _ l s1 (proj2_sig s) E))
  | None => λ _, (Panic (default "" (fault (`s))), s)
  end H = (Ret tt, t) ∧ `t = s'); [|by apply (G _ eq_refl)].
intros o H ->. by eexists.
Qed.

(** An informer's handler: it counts, and tells the one listener. *)
Lemma count_and_tell (m : ST W unit) l s w s' :
fault (`s) = None → m (world (`s)) = (Ret tt, w) → step l (set_world w (`s)) = Some s' →
∃ t, (_ ← in_world m; _ ← tell l; mret tt) s = (Ret tt, t) ∧ `t = s'.
Proof.
intros Hf Hm Hs. unfold mbind, st_bind, in_world. rewrite Hf, Hm.
destruct (tell_step (Env w) s (set_world w (`s))) as (s1 & -> & H1); [by unfold TokenCache.step; rewrite Hf|].
cbn. rewrite <- H1 in Hs. destruct (tell_step _ _ _ Hs) as (s2 & -> & H2). by exists s2.
Qed.

(** The process's call does what the world's call does. *)
Definition acts {A} (m : ST W A) (m' : ST Cache A) : Prop := ∀ s, fault (`s) = None →
∃ s', m' s = ((m (world (`s))).1, s') ∧ `s' = set_world (m (world (`s))).2 (`s).
(** Nothing is called from a process that has ended. *)
Definition alive {A} (m' : ST Cache A) : Prop := ∀ s a s', m' s = (Ret a, s') → fault (`s) = None.

Lemma acts_in_world {A} (m : ST W A) : acts m (in_world m).
Proof.
intros s Hs. unfold in_world. rewrite Hs. destruct (m (world (`s))) as [o w]. cbn.
destruct (tell_step (Env w) s (set_world w (`s))) as (t & -> & Ht); [by unfold TokenCache.step; rewrite Hs|].
by exists t.
Qed.
Lemma acts_ret {A} (a : A) : acts (mret a) (mret a).
Proof. intros s _. exists s. split; [done|]. cbn. by destruct (`s). Qed.
Lemma acts_bind {A B} (m : ST W A) m' (k : A → ST W B) k' :
acts m m' → (∀ a, acts (k a) (k' a)) → acts (m ≫= k) (m' ≫= k').
Proof.
intros Hm Hk s Hs. destruct (Hm s Hs) as (s1 & E1 & W1). unfold mbind, st_bind. rewrite E1.
destruct (m (world (`s))) as [[a|e] w1]; cbn in *; [|by exists s1].
destruct (Hk a s1) as (s2 & E2 & W2); [by rewrite W1|].
rewrite W1 in W2, E2. cbn in W2, E2. exists s2. by split.
Qed.
Lemma acts_bindR {A B} (m : ST W (result A)) m' (k : A → ST W (result B)) k' :
acts m m' → (∀ a, acts (k a) (k' a)) → acts (bindR m k) (bindR m' k').
Proof. intros Hm Hk. apply acts_bind; [done|]. intros [a|e]; [done|apply acts_ret]. Qed.
Lemma alive_in_world {A} (m : ST W A) : alive (in_world m).
Proof. intros s a s'. unfold in_world. by destruct (fault (`s)). Qed.
Lemma alive_bind {A B} (m : ST Cache A) (k : A → ST Cache B) : alive m → alive (m ≫= k).
Proof. intros Hm s b s' (a & s1 & H & _)%bind_ret. by eapply Hm. Qed.

(** What a call of the process answers, the world answered. *)
Lemma acts_answer {A} (m : ST W A) m' s a s' :
acts m m' → alive m' → m' s = (Ret a, s') → ∃ w', m (world (`s)) = (Ret a, w').
Proof.
intros Hm Ha H. destruct (Hm s (Ha _ _ _ H)) as (s1 & E & _). rewrite H in E. injection E as E _.
exists (m (world (`s))).2. by rewrite E, <- surjective_pairing.
Qed.
Lemma in_world_answer {A} (m : ST W A) s a s' : in_world m s = (Ret a, s') → ∃ w', m (world (`s)) = (Ret a, w').
Proof. apply acts_answer; [apply acts_in_world|apply alive_in_world]. Qed.
End World.
Create HintDb acts.
#[export] Hint Resolve acts_in_world acts_ret acts_bind acts_bindR alive_in_world alive_bind : acts.

(** ** Two providers over the two views of the world *)

Section Providers.
Context {W Src : Type} {N : W → Time} {S0 : Tokens.Provider W} {A0 : ServiceAccounts.Provider W}.
Context {J : string → option string} {K : nat} {M : Z}.
Local Abbreviation acts := (acts N S0 A0 J K M).
Local Abbreviation in_world := (in_world N S0 A0 J K M).

Lemma acts_NewToken exchange c t email scopes :
acts (NewToken exchange c t email scopes) (NewToken (λ conf, in_world (exchange conf)) c t email scopes).
Proof. apply acts_in_world. Qed.

(** The issuing provider made of the process's calls does what the one made of the world's calls does. *)
Lemma create_acts (time_Now : ST W Time) kube_CreateToken exchange (IDTokenSource : _ → _ → ST W (result Src)) src_Token c :
let P := CreateProvider.provider time_Now kube_CreateToken exchange IDTokenSource src_Token c in
let P' := CreateProvider.provider (in_world time_Now) (λ ns name auds, in_world (kube_CreateToken ns name auds))
  (λ conf, in_world (exchange conf)) (λ conf a, in_world (IDTokenSource conf a)) (λ src, in_world (src_Token src)) c in
(∀ ref, acts (GetServiceAccountToken P ref) (GetServiceAccountToken P' ref)) ∧
(∀ t email scopes, acts (GetGoogleAccessTokens P t email scopes) (GetGoogleAccessTokens P' t email scopes)) ∧
(∀ ref a email aud, acts (GetGoogleIdentityToken P ref a email aud) (GetGoogleIdentityToken P' ref a email aud)).
Proof.
cbn. split_and!; intros.
- apply acts_bindR; [apply acts_in_world|]. intros [t e]. apply acts_ret.
- apply acts_bind; [apply acts_in_world|]. intros now. apply acts_bindR.
  { case_match; [|apply acts_ret]. apply acts_bindR; [apply acts_NewToken|]. intros tok. apply acts_ret. }
  intros [d e]. apply acts_bindR.
  { case_match; [|apply acts_ret]. apply acts_bindR; [apply acts_NewToken|]. intros tok. apply acts_ret. }
  intros [i e']. apply acts_ret.
- apply acts_bindR; [apply acts_in_world|]. intros src.
  apply acts_bindR; [apply acts_in_world|]. intros tok. apply acts_ret.
Qed.

(** So does the provider of service accounts, with or without its informer;
  whoever listens to the informer makes no difference to a lookup. *)
Lemma accounts_act f kube_Get Informer_ gauge counter l l' ref :
acts (ServiceAccounts.Get (sas_provider f kube_Get Informer_ gauge counter l) ref)
  (ServiceAccounts.Get (sas_provider f (λ ns name, in_world (kube_Get ns name)) (λ i k, in_world (Informer_ i k))
          (λ n d, in_world (gauge n d)) (λ n, in_world (counter n)) l') ref).
Proof.
unfold sas_provider. destruct (watchServiceAccounts f); [|apply acts_in_world].
unfold watch_sas. cbn. unfold ServiceAccounts.WatchProvider.watch_Get, ServiceAccounts.WatchProvider.get.
apply acts_bind.
{ apply acts_bindR; [destruct (cacheTokens f); apply acts_in_world|]. intros [sa|]; apply acts_ret. }
intros [sa|e]; [apply acts_ret|].
destruct (cacheTokens f), (watchServiceAccountsDisableFallback f); cbn; try apply acts_ret.
all: apply acts_bindR; [apply acts_in_world|]; intros sa; apply acts_bind; [apply acts_in_world|]; intros []; apply acts_ret.
Qed.
Lemma accounts_alive f kube_Get Informer_ gauge counter l ref :
alive N S0 A0 J K M (ServiceAccounts.Get (sas_provider f (λ ns name, in_world (kube_Get ns name)) (λ i k, in_world (Informer_ i k))
          (λ n d, in_world (gauge n d)) (λ n, in_world (counter n)) l) ref).
Proof.
unfold sas_provider. destruct (watchServiceAccounts f); [|apply alive_in_world].
unfold watch_sas. apply alive_bind, alive_bind. destruct (cacheTokens f); apply alive_in_world.
Qed.

(** They do not panic if the calls do not. *)
Lemma accounts_total f kube_Get Informer_ gauge counter (l : ServiceAccounts.WatchProvider.Listener W) ref :
(∀ ns name, total (kube_Get ns name)) → (∀ i k, total (Informer_ i k)) → (∀ n, total (counter n)) →
total (ServiceAccounts.Get (sas_provider f kube_Get Informer_ gauge counter l) ref).
Proof.
intros HG HI HC. unfold sas_provider. destruct (watchServiceAccounts f); [|apply HG].
unfold watch_sas. cbn. apply total_bind.
{ apply total_bind; [destruct (cacheTokens f); apply HI|]. intros [[sa|]|e]; apply total_ret. }
intros [sa|e]; [apply total_ret|].
destruct (cacheTokens f), (watchServiceAccountsDisableFallback f); cbn; try apply total_ret.
all: apply total_bind; [apply HG|]; intros [sa|e']; [|apply total_ret]; apply total_bind; [apply HC|]; intros []; apply total_ret.
Qed.
End Providers.

(** A provider of the process that does what a provider of the world does issues for whom that one does. *)
Lemma acts_issues {W} {N : W → Time} {S0 A0 J K M} sa_token access identity (P : Tokens.Provider W)
    (P' : Tokens.Provider (CacheProvider.Cache N S0 A0 J K M)) :
  Issues sa_token access identity P →
  (∀ ref, acts N S0 A0 J K M (GetServiceAccountToken P ref) (GetServiceAccountToken P' ref)) ∧
  (∀ t email scopes, acts N S0 A0 J K M (GetGoogleAccessTokens P t email scopes) (GetGoogleAccessTokens P' t email scopes)) ∧
  (∀ ref a email aud, acts N S0 A0 J K M (GetGoogleIdentityToken P ref a email aud) (GetGoogleIdentityToken P' ref a email aud)) →
  (∀ ref, alive N S0 A0 J K M (GetServiceAccountToken P' ref)) →
  (∀ t email scopes, alive N S0 A0 J K M (GetGoogleAccessTokens P' t email scopes)) →
  (∀ ref a email aud, alive N S0 A0 J K M (GetGoogleIdentityToken P' ref a email aud)) →
  Issues sa_token access identity P'.
Proof.
  intros HI (A1 & A2 & A3) L1 L2 L3. split.
  - intros ref s t e s' (w' & H)%(acts_answer _ _ _ _ _ _ _ _ _ _ _ (A1 _) (L1 _)). by eapply issues_sa.
  - intros t email scopes s toks e s' (w' & H)%(acts_answer _ _ _ _ _ _ _ _ _ _ _ (A2 _ _ _) (L2 _ _ _)).
    by eapply issues_access.
  - intros ref a email aud s t e s' (w' & H)%(acts_answer _ _ _ _ _ _ _ _ _ _ _ (A3 _ _ _ _) (L3 _ _ _ _)).
    by eapply issues_identity.
Qed.

(** ** The daemon *)

Section Daemon.
Context {W Src : Type} (f : Flags).
(** What the cache and the providers behind it call in the outside world. *)
Context (Now : W → Time).
Context (kube_GetServiceAccount : string → string → ST W (result Kube.ServiceAccount)).
Context (NewServiceAccountInformer : ServiceAccounts.WatchProvider.Informer →
  string → ST W (result (option Kube.ServiceAccount))).
Context (gauge_Add : string → Z → ST W unit) (counter_Inc : string → ST W unit).
Context (kube_CreateToken : string → string → list string → ST W (result (string * Time))).
Context (exchange : ExternalAccountConfig → ST W (result Token)).
Context (IDTokenSource : CreateProvider.IDTokenConfig → string → ST W (result Src)).
Context (src_Token : Src → ST W (result Token)).
Context (jwt_Subject : string → option string).

(** The configuration of a daemon that starts. *)
Definition config : Config :=
match NewConfig (workloadIdentityProvider f) with
| Ok (c, _, _) => c
| Err _ => {| WorkloadIdentityProvider := "" |}
end.
Definition time_Now : ST W Time := λ w, (Ret (Now w), w).
Definition no_listener : ServiceAccounts.WatchProvider.Listener W :=
{| ServiceAccounts.WatchProvider.UpdateServiceAccount _ := mret tt;
   ServiceAccounts.WatchProvider.DeleteServiceAccount _ := mret tt |}.
(** The issuing provider and the service account provider that the cache is given. *)
Definition source : Tokens.Provider W :=
create_tokens time_Now kube_CreateToken exchange IDTokenSource src_Token config.
Definition accounts : ServiceAccounts.Provider W :=
sas_provider f kube_GetServiceAccount NewServiceAccountInformer gauge_Add counter_Inc no_listener.
(** The process: the state of the cache, and the world around it.  With a
  negative concurrency there is none: main panics when it makes the semaphore. *)
Definition Process : Type :=
CacheProvider.Cache Now source accounts jwt_Subject (Z.to_nat (cacheTokensConcurrency f)) (cacheMaxTokenDuration f).
Local Abbreviation in_world :=
(in_world Now source accounts jwt_Subject (Z.to_nat (cacheTokensConcurrency f)) (cacheMaxTokenDuration f)).
Local Abbreviation tell :=
(tell Now source accounts jwt_Subject (Z.to_nat (cacheTokensConcurrency f)) (cacheMaxTokenDuration f)).

Context (schedule : State W → call → nat * list (label W)).
Definition cache : Tokens.Provider Process :=
cached Now source accounts jwt_Subject (Z.to_nat (cacheTokensConcurrency f)) (cacheMaxTokenDuration f) schedule.
Definition cache_pod_listener : Pods.WatchProvider.Listener Process :=
{| Pods.WatchProvider.AddPodServiceAccount ref := tell (AddPod ref);
   Pods.WatchProvider.DeletePodServiceAccount ref := tell (DeletePod ref) |}.
Definition cache_sa_listener : ServiceAccounts.WatchProvider.Listener Process :=
{| ServiceAccounts.WatchProvider.UpdateServiceAccount ref := tell (UpdateSA ref);
   ServiceAccounts.WatchProvider.DeleteServiceAccount ref := tell (DeleteSA ref) |}.

(** The rest of what the daemon calls may do anything to the process. *)
Context (NODE_NAME POD_IP : string) (kube_client : result unit).
Context (kube_ListPods : string → ST Process (result (list Kube.Pod))).
Context (kube_GetNode : string → ST Process (result Kube.Node)).
Context (NewFilteredPodInformer : Pods.WatchProvider.Informer →
  (Kube.Pod → list string) → Kube.Pod → ST Process (result (list Kube.Pod))).
Context (redirect : Addr → Z → ST Process (result (closer Process))) (loopback : ST Process (result (closer Process))).
Context (attestbpf_LoadAndAttach : ST Process (result unit)).
Context (map_Lookup : Bpf.AttestKey → ST Process (result (option Z))) (cgroups : Process → fs_error + fsnode).
Context (system : Process → Sockdiag.System) (addr_text : Addr → Z → string).
Context (proxytest_Start : ST Process (result unit)).

Definition start : ST Process (result (ServerOptions Process * closer Process)) :=
start_daemon f NODE_NAME POD_IP kube_client kube_ListPods kube_GetNode
  (λ ns name, in_world (kube_GetServiceAccount ns name)) NewFilteredPodInformer
  (λ i k, in_world (NewServiceAccountInformer i k)) (λ n d, in_world (gauge_Add n d)) (λ n, in_world (counter_Inc n))
  (in_world time_Now) (λ ns name auds, in_world (kube_CreateToken ns name auds)) (λ conf, in_world (exchange conf))
  (λ conf a, in_world (IDTokenSource conf a)) (λ src, in_world (src_Token src)) (λ _ _, cache)
  cache_pod_listener cache_sa_listener redirect loopback attestbpf_LoadAndAttach map_Lookup cgroups system addr_text
  proxytest_Start.

(** The informers that main connects to the cache drive its machine: what they
  report is counted, and is an event of the machine in the order of the reports. *)
Definition informed_pods : Pods.WatchProvider.State Process :=
watch_pods f NODE_NAME kube_ListPods NewFilteredPodInformer (λ n d, in_world (gauge_Add n d))
  (λ n, in_world (counter_Inc n)) cache_pod_listener.
Definition informed_accounts : ServiceAccounts.WatchProvider.State Process :=
watch_sas f (λ ns name, in_world (kube_GetServiceAccount ns name)) (λ i k, in_world (NewServiceAccountInformer i k))
  (λ n d, in_world (gauge_Add n d)) (λ n, in_world (counter_Inc n)) cache_sa_listener.
Definition drives (m : ST Process unit) (s : Process) (next : State W) : Prop :=
∃ s', m s = (Ret tt, s') ∧ `s' = next.
Lemma informers_drive (s : Process) pod sa old w :
cacheTokens f = true → fault (`s) = None →
(gauge_Add "pods" 1 (world (`s)) = (Ret tt, w) →
 drives (Pods.WatchProvider.AddFunc informed_pods pod) s (AddPodServiceAccount (ReferenceFromPod pod) (set_world w (`s)))) ∧
(gauge_Add "pods" (-1) (world (`s)) = (Ret tt, w) →
 drives (Pods.WatchProvider.DeleteFunc informed_pods pod) s
   (DeletePodServiceAccount (ReferenceFromPod pod) (set_world w (`s)))) ∧
(gauge_Add "service_accounts" 1 (world (`s)) = (Ret tt, w) →
 drives (ServiceAccounts.WatchProvider.AddFunc informed_accounts sa) s
   (UpdateServiceAccount (ReferenceFromObject sa) (set_world w (`s)))) ∧
drives (ServiceAccounts.WatchProvider.UpdateFunc informed_accounts old sa) s (UpdateServiceAccount (ReferenceFromObject sa) (`s)) ∧
(gauge_Add "service_accounts" (-1) (world (`s)) = (Ret tt, w) →
 drives (ServiceAccounts.WatchProvider.DeleteFunc informed_accounts sa) s
   (DeleteServiceAccount (ReferenceFromObject sa) (set_world w (`s)))).
Proof.
intros HT Hf. unfold informed_pods, informed_accounts, watch_pods, watch_sas. rewrite HT. split_and!.
4: { destruct (tell_step Now source accounts jwt_Subject (Z.to_nat (cacheTokensConcurrency f)) (cacheMaxTokenDuration f)
       (UpdateSA (ReferenceFromObject sa)) s (UpdateServiceAccount (ReferenceFromObject sa) (`s)))
       as (s1 & E & H1); [by unfold TokenCache.step; rewrite Hf|].
     exists s1. split; [|done]. unfold ServiceAccounts.WatchProvider.UpdateFunc. cbn -[tell].
     unfold mbind, st_bind. by rewrite E. }
all: intros Hg; by apply count_and_tell with (w := w); [..|unfold TokenCache.step; cbn; rewrite Hf].
Qed.

(** What the clients of the Kubernetes and the Google APIs answer: they return,
  and the subject of a token of the Kubernetes API names its account. *)
Record Clients : Prop := {
cl_account ns name : total (kube_GetServiceAccount ns name);
cl_informer i k : total (NewServiceAccountInformer i k);
cl_counter n : total (counter_Inc n);
cl_token ns name auds : total (kube_CreateToken ns name auds);
cl_exchange conf : total (exchange conf);
cl_subject ref t : kube_issued kube_CreateToken config ref t →
  jwt_Subject t = Some ("system:serviceaccount:" +:+ Namespace ref +:+ ":" +:+ Name ref) ∧
  ¬ str_in colon (Namespace ref) ∧ ¬ str_in colon (Name ref);
}.
Context (HC : Clients).

Lemma token_names ref t : kube_issued kube_CreateToken config ref t → ReferenceFromToken jwt_Subject t = Ret ref.
Proof.
intros (Hs & Hns & Hn)%(cl_subject HC). destruct ref as [name ns].
by apply (proj1 (ReferenceFromToken_spec jwt_Subject t)).
Qed.

Lemma cache_source_total ref : total (createTokens Now source accounts (cacheMaxTokenDuration f) ref).
Proof.
assert (Hwrap : ∀ A pre (m : ST W (result A)), total m → total (wrap_err pre m)).
{ intros A pre m Hm. apply total_bind; [done|]. intros [a|e]; apply total_ret. }
assert (Hr : ∀ A B (m : ST W (result A)) (k : A → ST W (result B)), total m → (∀ a, total (k a)) → total (bindR m k)).
{ intros A B m k Hm Hk. apply total_bind; [done|]. intros [a|e]; [done|apply total_ret]. }
assert (HX : ∀ t who scopes, total (NewToken exchange config t who scopes)) by (intros; apply (cl_exchange HC)).
apply Hr; [apply Hwrap, accounts_total; apply HC|]. intros sa.
apply Hr; [apply Hwrap, total_ret|]. intros email.
apply Hr; [apply Hwrap, Hr; [apply HC|]; intros [t e]; apply total_ret|]. intros [t e].
apply Hr; [apply Hwrap|].
- apply total_bind; [intros w; by eexists _, _|]. intros now. apply Hr.
  { case_match; [|apply total_ret]. apply Hr; [apply HX|]. intros d. apply total_ret. }
  intros [d ex]. apply Hr; [|intros [i ex']; apply total_ret].
  destruct email; [|apply total_ret]. apply Hr; [apply HX|]. intros i. apply total_ret.
- intros [toks e']. intros w. by eexists _, _.
Qed.

(** ** What the tokens of the process stand for *)

Definition process_access : string → option string → list string → AccessTokens → Prop :=
if cacheTokens f
then cached_access accounts jwt_Subject (kube_issued kube_CreateToken config) (exchanged_access exchange config)
else exchanged_access exchange config.
Definition process_identity : Reference → string → string → string → string → Prop :=
if cacheTokens f then cached_identity (id_issued IDTokenSource src_Token) else id_issued IDTokenSource src_Token.

Lemma process_issues conf num pool :
NewConfig (workloadIdentityProvider f) = Ok (conf, num, pool) →
Issues (kube_issued kube_CreateToken conf) process_access process_identity
  (daemon_tokens f (λ ns name, in_world (kube_GetServiceAccount ns name))
     (λ i k, in_world (NewServiceAccountInformer i k)) (λ n d, in_world (gauge_Add n d)) (λ n, in_world (counter_Inc n))
     (in_world time_Now) (λ ns name auds, in_world (kube_CreateToken ns name auds)) (λ c, in_world (exchange c))
     (λ c a, in_world (IDTokenSource c a)) (λ src, in_world (src_Token src)) (λ _ _, cache) cache_sa_listener conf).
Proof.
intros Hc. assert (conf = config) as -> by by unfold config; rewrite Hc.
assert (HS : Issues (kube_issued kube_CreateToken config) (exchanged_access exchange config)
  (id_issued IDTokenSource src_Token) source) by apply create_issues.
unfold process_access, process_identity, daemon_tokens, tokens_provider. destruct (cacheTokens f).
- pose proof cache_source_total as Ht. split.
  + intros. by eapply cached_sa_token.
  + intros. by eapply cached_access_tokens.
  + intros. by eapply cached_identity_token.
- eapply (acts_issues _ _ _ source); [exact HS|apply create_acts|intros; apply alive_bind, alive_in_world..].
Qed.

(** The annotation of an account, where the absent one and the empty one are the same to the cache. *)
Definition annotated_as (ref : Reference) (email : option string) : Prop :=
∃ email', has_annotation accounts ref email' ∧ default "" email = default "" email'.
(** The token that a response shows. *)
Definition shown (toks : AccessTokens) : string :=
if bool_decide (Impersonated toks = "") then DirectAccess toks else Impersonated toks.
(** What Google's token exchange granted an account: for a token of the
  account, impersonating whom the annotation names, with the scopes. *)
Definition granted (ref : Reference) (scopes : list string) (t : string) : Prop :=
∃ saToken email scopes' toks, ReferenceFromToken jwt_Subject saToken = Ret ref ∧ annotated_as ref email ∧
  join "," scopes' = join "," scopes ∧ exchanged_access exchange config saToken email scopes' toks ∧ t = shown toks.

Lemma process_grants ref saToken email scopes toks :
kube_issued kube_CreateToken config ref saToken → has_annotation accounts ref email →
process_access saToken email scopes toks → granted ref scopes (shown toks).
Proof.
intros Hk%token_names Ha. unfold process_access. destruct (cacheTokens f).
- intros (ref' & saToken' & email' & Hr & H). rewrite Hk in Hr. injection Hr as <-. destruct scopes as [|sc scopes].
  + destruct H as (Hk'%token_names & Ha' & Hx). exists saToken', email', [], toks. split_and!; try done. by exists email'.
  + destruct H as (Hr & He & scopes' & toks' & Hne & Hj & Hx & ->).
    exists saToken', email', scopes', toks'. split_and!; try done; [by exists email|].
    destruct Hx as (_ & Hd & Hi). unfold shown. cbn. destruct email' as [e|].
    * rewrite (Hd ltac:(done) Hne). cbn. repeat case_bool_decide; congruence.
    * rewrite Hi. cbn. repeat case_bool_decide; congruence.
- intros Hx. exists saToken, email, scopes, toks. split_and!; try done. by exists email.
Qed.

(** ** Theorems *)

Section Served.
Context (ctx : Ctx Process) (lookupPodFailures : string → ST Process unit) (fuel : nat).
Context (clock_of : Process → Time) (environment : Process → Environment) (json_Unmarshal : string → option any).
Context (metrics : Handler Process) (self : ST Process self_response) (unclean : Handler Process).
Definition respond (o : ServerOptions Process) : Conn → Message → ST Process ResponseWriter :=
Daemon.answer ctx lookupPodFailures fuel clock_of environment json_Unmarshal metrics self unclean o.

Lemma annotation_read known store s0 o close s1 ref email :
ApiServer f NODE_NAME kube_ListPods NewFilteredPodInformer known store →
start s0 = (Ret (Ok (o, close)), s1) → annotated o ref email → has_annotation accounts ref email.
Proof.
intros HA Hs (sa & w & w' & Hg & He).
eapply daemon_ready in Hs as (_ & _ & Ho & _); [|exact HA]. rewrite Ho in Hg.
apply (acts_answer _ _ _ _ _ _ _ _ _ _ _ (accounts_act f _ _ _ _ no_listener _ ref)) in Hg as [w1 Hg];
  [|apply accounts_alive]. by exists sa, (world (`w)), w1.
Qed.

(** An access token in a response was granted to the caller's account. *)
Lemma token_served known store s0 o close s1 conn msg sa x x' rw c t :
ApiServer f NODE_NAME kube_ListPods NewFilteredPodInformer known store →
start s0 = (Ret (Ok (o, close)), s1) →
splitPathPieces (msg_Path msg) = ["computeMetadata"; "v1"; "instance"; "service-accounts"; sa; "token"] →
respond o conn msg x = (Ret rw, x') →
c ∈ rw_body rw → holds_token c t →
let r := server_request ConnContext conn msg in ∃ num pool pod email,
  NewConfig (workloadIdentityProvider f) = Ok (config, num, pool) ∧
  caller o known (attested map_Lookup cgroups system o) r x pod ∧
  has_annotation accounts (ReferenceFromPod pod) email ∧
  sa ∈ ["default"; default pool email] ∧
  granted (ReferenceFromPod pod) (query_scopes r) t.
Proof.
intros HA Hs Hp Hr Hin Ht r.
eapply served_token with (sa := sa) (c := c) (t := t) (known := known) (store := store) (sa_token :=
  (kube_issued kube_CreateToken)) (access := (λ _, process_access)) (identity := (λ _, process_identity)) in Hr
  as (conf & num & pool & pod & saToken & email & toks & Hc & Hcall & Hann & Hk & Hacc & Hsa & ->);
  [|exact HA|exact process_issues|exact Hs|exact Hp|exact Hin|exact Ht].
assert (conf = config) as -> by by unfold config; rewrite Hc.
pose proof (annotation_read _ _ _ _ _ _ _ _ HA Hs Hann) as Hann'.
exists num, pool, pod, email. split_and!; try done. by eapply process_grants.
Qed.
(** C3: the access token that leaves the daemon is the caller's.  Take a daemon
  that was started with any flags, with or without the token cache, at any
  point of its run, and any message for a service account's token path on any
  connection that it accepted.  If the response holds an access token, then
  Google's token exchange granted it to the service account of the pod behind
  the connection: for a token whose subject is that account, impersonating the
  Google service account of its annotation, if any, and for the scopes of the
  query; and the account named in the path is "default" or the caller's own. *)
Theorem daemon_token_response known store s0 o close s1 conn msg sa x x' rw c t :
ApiServer f NODE_NAME kube_ListPods NewFilteredPodInformer known store →
start s0 = (Ret (Ok (o, close)), s1) →
splitPathPieces (msg_Path msg) = ["computeMetadata"; "v1"; "instance"; "service-accounts"; sa; "token"] →
respond o conn msg x = (Ret rw, x') →
c ∈ rw_body rw → holds_token c t →
let r := server_request ConnContext conn msg in ∃ pod email,
  caller o known (attested map_Lookup cgroups system o) r x pod ∧
  has_annotation accounts (ReferenceFromPod pod) email ∧
  sa ∈ ["default"; default (opt_WorkloadIdentityPool o) email] ∧
  granted (ReferenceFromPod pod) (query_scopes r) t.
Proof.
intros HA Hs Hp Hr Hin Ht r.
destruct (token_served _ _ _ _ _ _ _ _ _ _ _ _ _ _ HA Hs Hp Hr Hin Ht) as (num & pool & pod & email & Hc & H).
eapply daemon_ready in Hs as (_ & _ & _ & conf & num' & Hc' & _); [|exact HA].
rewrite Hc in Hc'. injection Hc' as _ _ <-. by exists pod, email.
Qed.

(** C13: the identity token that leaves the daemon is the caller's.  Whatever text
  the identity path answers with is one of the texts that refuse the
  request, or an identity token that Google issued for the Google service
  account in the annotation of the calling pod's service account and for the
  audience of the query; without the cache, to the bearer of a direct access
  token exchanged for that service account's own token; and the account named
  in the path is "default" or that one. *)
Theorem daemon_identity_response known store s0 o close s1 conn msg sa x x' rw t :
ApiServer f NODE_NAME kube_ListPods NewFilteredPodInformer known store →
start s0 = (Ret (Ok (o, close)), s1) →
splitPathPieces (msg_Path msg) = ["computeMetadata"; "v1"; "instance"; "service-accounts"; sa; "identity"] →
respond o conn msg x = (Ret rw, x') →
CText t ∈ rw_body rw → refusal_text t ∨
let r := server_request ConnContext conn msg in ∃ pod email bearer,
  caller o known (attested map_Lookup cgroups system o) r x pod ∧
  has_annotation accounts (ReferenceFromPod pod) (Some email) ∧
  sa ∈ ["default"; email] ∧
  id_issued IDTokenSource src_Token (ReferenceFromPod pod) bearer email (trim_space (Query_Get "audience" r)) t ∧
  (cacheTokens f = false → bearer = "" ∨ ∃ saToken, kube_issued kube_CreateToken config (ReferenceFromPod pod) saToken ∧
     exchanged exchange (external_config config saToken None []) bearer).
Proof.
intros HA Hs Hp Hr Hin.
eapply served_identity with (sa := sa) (t := t) (known := known) (store := store) (sa_token :=
  (kube_issued kube_CreateToken)) (access := (λ _, process_access)) (identity := (λ _, process_identity)) in Hr
  as [?|(conf' & num' & pool & pod & saToken & email & toks & Hc' & Hcall & Hann & Hk & Hacc & Hid & Hsa)];
  [by left| |exact HA|exact process_issues|exact Hs|exact Hp|exact Hin]. right.
assert (conf' = config) as -> by by unfold config; rewrite Hc'.
pose proof (annotation_read _ _ _ _ _ _ _ _ HA Hs Hann) as Hann'.
unfold process_identity, process_access in *. destruct (cacheTokens f).
- destruct Hid as [a Hid]. by exists pod, email, a.
- exists pod, email, (DirectAccess toks). split_and!; try done. intros _.
  destruct Hacc as ([?|?] & _); [by left|right]. by exists saToken.
Qed.
End Served.
End Daemon.

(** ** Witnesses: a daemon with a token cache, asked for both tokens *)

Module DaemonExample.
Definition flags : Flags :=
{| stringLogLevel := "info"; serverPort := 16321; healthPort := 16322; projectID := "p";
   workloadIdentityProvider := "projects/1/locations/global/workloadIdentityPools/pool/providers/prov";
   watchPods := true; watchPodsResyncPeriod := 0; watchPodsDisableFallback := false; watchNode := false;
   watchNodeResyncPeriod := 0; watchNodeDisableFallback := false; watchServiceAccounts := true;
   watchServiceAccountsResyncPeriod := 0; watchServiceAccountsDisableFallback := false; cacheTokens := true;
   cacheTokensConcurrency := 10; cacheMaxTokenDuration := 0; podLookupMaxAttempts := -1;
   podLookupRetryInitialDelay := 0; podLookupRetryMaxDelay := 0; testProxyUpstream := false |}.
(** The outside world, whatever else it is, issues tokens for the account default/test. *)
Definition Now {W} (w : W) : Time := clock 0 0.
Definition CreateToken {W} (ns name : string) (auds : list string) : ST W (result (string * Time)) :=
if bool_decide (ns = "default" ∧ name = "test") then ok ("system:serviceaccount:default:test", FromUnix 3600)
else err (EMsg "not found").
Definition exchange {W} (c : ExternalAccountConfig) : ST W (result Token) :=
ok {| AccessToken := SubjectToken c +:+ "@" +:+ ServiceAccountImpersonationURL c; Expiry := FromUnix 3600 |}.
Definition IDTokenSource {W} (c : CreateProvider.IDTokenConfig) (a : string) : ST W (result string) :=
ok (CreateProvider.idc_TargetPrincipal c +:+ ">" +:+ CreateProvider.idc_Audience c).
Definition src_Token {W} (s : string) : ST W (result Token) := ok {| AccessToken := s; Expiry := FromUnix 3600 |}.
Definition GetServiceAccount {W} (ns name : string) : ST W (result Kube.ServiceAccount) :=
ok {| Kube.sa_Name := name; Kube.sa_Namespace := ns;
      Kube.sa_Annotations := {[ GKEAnnotationServiceAccount := "gsa@p.iam.gserviceaccount.com" ]} |}.
Definition GetByKey {W} (i : ServiceAccounts.WatchProvider.Informer) (k : string) : ST W (result (option Kube.ServiceAccount)) :=
err (EMsg "none").
Definition gauge {W} (n : string) (d : Z) : ST W unit := mret tt.
Definition counter {W} (n : string) : ST W unit := mret tt.
(** A call takes the next identifier and runs alone, with the goroutine of the account. *)
Definition cl {W} (c : nat) : label W := RunClient c BGo.
Definition go {W} (g : nat) : label W := RunGoroutine g BGo.
Definition schedule {W} (s : State W) (r : call) : nat * list (label W) :=
let c := size (clients s) in
(c, match r with
    | CallServiceAccountToken _ => [cl c; cl c; cl c; go 0; go 0; go 0; go 0; go 0; go 0; go 0; RunClient c BRecv]
    | CallGoogleAccessTokens _ _ [] => [cl c; cl c]
    | _ => [cl c; cl c; cl c; cl c; cl c]
    end).

Definition P : Type := Process flags (Now (W := unit)) GetServiceAccount GetByKey gauge counter CreateToken exchange IDTokenSource src_Token Some.
(** The rest leaves the cache alone. *)
Definition beside {A} (m : ST unit A) : ST P A := zoom (λ _, tt) (λ _ s, s) m.
Definition ListPods (sel : string) : ST P (result (list Kube.Pod)) := beside (Pods.Example.kube_List sel).
Definition GetNode (name : string) : ST P (result Kube.Node) := ok MainExample.node.
Definition index (i : Pods.WatchProvider.Informer) (g : Kube.Pod → list string) (obj : Kube.Pod) : ST P (result (list Kube.Pod)) :=
beside (Pods.WatchProvider.indexer_Index Pods.Example.state g obj).
Definition start := DaemonCache.start flags Now GetServiceAccount GetByKey gauge counter CreateToken exchange IDTokenSource
  src_Token Some schedule "n1" "192.168.0.2" (Ok tt) ListPods GetNode index (λ _ _, panic "") (panic "") (panic "")
  (λ _, panic "") (λ _, inl FsSkipped) (λ _, MainExample.system tt) (λ _ _, "") (panic "").
Definition s0 : P := exist _ (NewProvider tt) (reach_init _ _ _ _ _ _ tt).
(** What it starts with; the last case does not occur. *)
Definition nothing {W} : ServerOptions W :=
{| opt_NodeName := ""; opt_PodIP := ""; opt_Addr := ""; opt_HealthPort := 0;
   opt_Pods := {| GetByIP _ := panic ""; GetByUID _ := panic "" |};
   opt_ServiceAccounts := {| ServiceAccounts.Get _ := panic "" |};
   opt_ServiceAccountTokens := {| GetServiceAccountToken _ := panic ""; GetGoogleAccessTokens _ _ _ := panic "";
                                  GetGoogleIdentityToken _ _ _ _ := panic "" |};
   opt_ProjectID := ""; opt_NumericProjectID := ""; opt_WorkloadIdentityPool := ""; opt_RoutingMode := "";
   opt_PodLookup := {| pl_MaxAttempts := 0; pl_RetryInitialDelay := 0; pl_RetryMaxDelay := 0 |};
   opt_Attestation := None |}.
Definition options : ServerOptions P := match start s0 with (Ret (Ok (o, _)), _) => o | _ => nothing end.
Definition closeRoute : closer P := match start s0 with (Ret (Ok (_, c)), _) => c | _ => ok tt end.
Lemma started : ∃ s1, start s0 = (Ret (Ok (options, closeRoute)), s1).
Proof.
unfold options, closeRoute. assert (E : match start s0 with (Ret (Ok _), _) => true | _ => false end = true)
  by (by vm_compute).
destruct (start s0) as [[[[o c]|e]|m] s1]; [|done..]. by exists s1.
Qed.
(** The informer reports the pod, and the cache is told. *)
Definition with_pod : P :=
(Pods.WatchProvider.AddFunc (informed_pods flags Now GetServiceAccount GetByKey gauge counter CreateToken exchange IDTokenSource
   src_Token Some "n1" ListPods index) (Pods.Example.mk "a" "uid-a" "10.0.0.5" false) s0).2.
Definition conn : Conn := {| conn_RemoteAddr := "10.0.0.5:1234"; conn_LocalAddr := None |}.
Definition message (path : string) (query : list (string * string)) : Message :=
{| msg_Method := "GET"; msg_Path := "/computeMetadata/v1/instance/service-accounts/default/" +:+ path;
   msg_Query := query; msg_Header := [(MetadataFlavorHeader, MetadataFlavorGoogle)] |}.
Definition ctx {W} : Ctx W := {| ctx_done_before d := mret false; ctx_Err := mret (EMsg "context canceled") |}.
Definition respond : Conn → Message → ST P ResponseWriter :=
DaemonCache.respond flags Now GetServiceAccount GetByKey gauge counter CreateToken exchange IDTokenSource src_Token Some
  ctx (λ _, mret tt) 0 (λ _, clock 0 0) (λ _, example_environment tt) no_json (λ _, mret tt) (panic "") (λ _, mret tt)
  options.
Definition response (m : Message) : ResponseWriter :=
match respond conn m with_pod with (Ret w, _) => w | _ => fresh_writer end.
Lemma responded m : rw_body (response m) ≠ [] → ∃ x', respond conn m with_pod = (Ret (response m), x').
Proof. unfold response. destruct (respond conn m with_pod) as [[w|e] x']; [by exists x'|done]. Qed.
Definition impersonated : string :=
"system:serviceaccount:default:test@https://iamcredentials.googleapis.com/v1/projects/-/serviceAccounts/gsa@p.iam.gserviceaccount.com:generateAccessToken".
Definition token_chunk : chunk := CJson (token_json {| DirectAccess := ""; Impersonated := impersonated |} 2880).
Lemma token_held : holds_token token_chunk impersonated.
Proof. eexists. split; [unfold token_chunk, token_json; reflexivity|by vm_compute]. Qed.
Lemma token_body : rw_body (response (message "token" [("scopes", "a")])) = [token_chunk].
Proof. by vm_compute. Qed.
Lemma identity_body : rw_body (response (message "identity" [("audience", "me")])) = [CText "gsa@p.iam.gserviceaccount.com>me"].
Proof. by vm_compute. Qed.

Lemma api_server : ApiServer flags "n1" ListPods index Pods.Example.known (λ _, Pods.Example.cluster).
Proof.
split.
- intros w items w' [= <- _]. apply Pods.Example.cluster_known.
- intros ip w items w' H. apply (Pods.Example.kube_List_ip ip). by injection H as <- _.
- by intros g obj w l w' [= <-].
- intros _. apply Pods.Example.cluster_known.
Qed.
Lemma clients {W} : Clients (W := W) flags GetServiceAccount GetByKey counter CreateToken exchange Some.
Proof.
split; try (intros; intros w; by eexists _, _).
- intros ns name auds w. unfold CreateToken. case_bool_decide; by eexists _, _.
- intros [name ns] t (w & e & w' & H). unfold CreateToken in H. cbn in *.
  case_bool_decide as Hb; [|done]. destruct Hb as [-> ->]. injection H as <- _ _. split; [done|].
  split; by apply (bool_decide_unpack _); vm_compute.
Qed.
End DaemonExample.
Import DaemonExample.

Lemma daemon_token_response_witness :
  rw_body (response (message "token" [("scopes", "a")])) = [token_chunk] ∧
  ∃ pod email,
    caller options Pods.Example.known (attested (λ _, panic "") (λ _, inl FsSkipped) (λ _, MainExample.system tt) options)
      (server_request ConnContext conn (message "token" [("scopes", "a")])) with_pod pod ∧
    has_annotation (W := unit) (accounts flags GetServiceAccount GetByKey gauge counter) (ReferenceFromPod pod) email ∧
    "default" ∈ ["default"; default (opt_WorkloadIdentityPool options) email] ∧
    granted (W := unit) flags GetServiceAccount GetByKey gauge counter exchange Some (ReferenceFromPod pod)
      (query_scopes (server_request ConnContext conn (message "token" [("scopes", "a")]))) impersonated.
Proof.
  split; [exact token_body|].
  destruct started as [s1 Hs], (responded (message "token" [("scopes", "a")])) as [x' Hr]; [by rewrite token_body|].
  pose proof (daemon_token_response flags Now GetServiceAccount GetByKey gauge counter CreateToken exchange IDTokenSource
    src_Token Some schedule "n1" "192.168.0.2" (Ok tt) ListPods GetNode index (λ _ _, panic "") (panic "") (panic "")
    (λ _, panic "") (λ _, inl FsSkipped) (λ _, MainExample.system tt) (λ _ _, "") (panic "") clients
    ctx (λ _, mret tt) 0 (λ _, clock 0 0) (λ _, example_environment tt) no_json (λ _, mret tt) (panic "") (λ _, mret tt)
    Pods.Example.known (λ _, Pods.Example.cluster) s0 options closeRoute s1 conn (message "token" [("scopes", "a")])
    "default" with_pod x' (response (message "token" [("scopes", "a")])) token_chunk impersonated api_server Hs ltac:(by vm_compute) Hr) as H.
  rewrite token_body in H. apply H; [by apply list_elem_of_singleton|exact token_held].
Defined.
Lemma daemon_identity_response_witness :
  rw_body (response (message "identity" [("audience", "me")])) = [CText "gsa@p.iam.gserviceaccount.com>me"] ∧
  (refusal_text "gsa@p.iam.gserviceaccount.com>me" ∨
   ∃ pod email bearer,
    caller options Pods.Example.known (attested (λ _, panic "") (λ _, inl FsSkipped) (λ _, MainExample.system tt) options)
      (server_request ConnContext conn (message "identity" [("audience", "me")])) with_pod pod ∧
    has_annotation (W := unit) (accounts flags GetServiceAccount GetByKey gauge counter) (ReferenceFromPod pod) (Some email) ∧
    "default" ∈ ["default"; email] ∧
    id_issued (W := unit) IDTokenSource src_Token (ReferenceFromPod pod) bearer email
      (trim_space (Query_Get "audience" (server_request ConnContext conn (message "identity" [("audience", "me")]))))
      "gsa@p.iam.gserviceaccount.com>me").
Proof.
  split; [exact identity_body|].
  destruct started as [s1 Hs], (responded (message "identity" [("audience", "me")])) as [x' Hr]; [by rewrite identity_body|].
  pose proof (daemon_identity_response flags Now GetServiceAccount GetByKey gauge counter CreateToken exchange IDTokenSource
    src_Token Some schedule "n1" "192.168.0.2" (Ok tt) ListPods GetNode index (λ _ _, panic "") (panic "") (panic "")
    (λ _, panic "") (λ _, inl FsSkipped) (λ _, MainExample.system tt) (λ _ _, "") (panic "") clients
    ctx (λ _, mret tt) 0 (λ _, clock 0 0) (λ _, example_environment tt) no_json (λ _, mret tt) (panic "") (λ _, mret tt)
    Pods.Example.known (λ _, Pods.Example.cluster) s0 options closeRoute s1 conn (message "identity" [("audience", "me")])
    "default" with_pod x' (response (message "identity" [("audience", "me")])) "gsa@p.iam.gserviceaccount.com>me" api_server Hs ltac:(by vm_compute) Hr) as H.
  rewrite identity_body in H.
  destruct (H ltac:(by apply list_elem_of_singleton)) as [?|(pod & email & bearer & H1 & H2 & H3 & H4 & _)]; [by left|right].
  exists pod, email, bearer. exact (conj H1 (conj H2 (conj H3 H4))).
Defined.
