(* ===== verification/EndToEnd.v ===== *)
(** * From a process in a pod to the token it gets

    The whole program in one statement, in the eBPF mode: main.go loads the
    redirection with its own cgroup and address, the kernel's two programs
    rewrite and record the connect of a process, the server attests the
    accepted connection by what was recorded, and the token that goes back was
    granted to the service account of the pod the process is in. *)

From S2P Require Import Prelude GoStrings NetIP Retry GoTime Credentials Api ServiceAccounts Pods.
From S2P Require Import HTTP ServeMux Tokens TokenCache CacheProvider Attestation Preflight Node Routing Server.
From S2P Require Import Directory ServerIdentity ServerTokens ServerRoutes ServerResponse ServerNew Main Chain Daemon.
From S2P Require Import DaemonCache.
Open Scope string_scope.
Open Scope Z_scope.

(** What the eBPF mode says of a caller: the kernel recorded a cgroup of the
    pod for the connection. *)
Lemma caller_recorded {W} (o : ServerOptions W) known map_Lookup cgroups system r x pod src dst sport dport :
  opt_RoutingMode o = RoutingModeBPF →
  tuple_ok src dst sport dport →
  rq_RemoteAddr r = remote_addr src sport →
  ctx_localAddr r = Some {| ta_IP := v4_octets dst; ta_Port := dport |} →
  caller o known (attested map_Lookup cgroups system o) r x pod →
  known pod ∧ isPodRunning pod = true ∧ ∃ cgid x',
    map_Lookup (network_key src dst sport dport) x = (Ret (Ok (Some cgid)), x') ∧
    cgroup_pod (cgroups x') cgid (Kube.pod_UID pod).
Proof.
  intros Hmode (Hsrc & Hdst & Hsp & Hdp) Hr Hl (host & port & ip & Hs & Hip & Hk & Hrun & H).
  rewrite Hr, remote_addr_split in Hs by lia. injection Hs as <- <-.
  rewrite ParseAddr_v4_string in Hip by done. injection Hip as <-.
  unfold useAttestation in H. rewrite Hmode in H. rewrite bool_decide_eq_true_2 in H by done. cbn [orb] in H.
  destruct H as (local & dst' & sp & uid & Hloc & Hd & Hsport & Hown & Huid).
  rewrite Hl in Hloc. injection Hloc as <-. cbn [ta_IP ta_Port] in *.
  rewrite local_v4 in Hd by done. injection Hd as <-.
  unfold parse_uint in Hsport. rewrite parse_dec_pretty in Hsport by lia. change (2 ^ 16) with 65536 in Hsport.
  rewrite (proj2 (Z.ltb_lt sport 65536)) in Hsport by lia. injection Hsport as <-.
  unfold attested, mode_owner in Hown. rewrite Hmode in Hown. rewrite decide_True in Hown by done.
  destruct Hown as (s & d & cgid & x' & [= <-] & [= <-] & Hmap & Hcg).
  rewrite (Z.mod_small dport) in Hmap by lia. subst uid. split_and!; [done..|]. by exists cgid, x'.
Qed.

Section EndToEnd.
Context {W Src : Type} (f : Flags) (Now : W → Time).
Context (kube_GetServiceAccount : string → string → ST W (result Kube.ServiceAccount)).
Context (NewServiceAccountInformer : ServiceAccounts.WatchProvider.Informer →
  string → ST W (result (option Kube.ServiceAccount))).
Context (gauge_Add : string → Z → ST W unit) (counter_Inc : string → ST W unit).
Context (kube_CreateToken : string → string → list string → ST W (result (string * Time))).
Context (exchange : ExternalAccountConfig → ST W (result Token)).
Context (IDTokenSource : CreateProvider.IDTokenConfig → string → ST W (result Src)).
Context (src_Token : Src → ST W (result Token)).
Context (jwt_Subject : string → option string).
Context (schedule : State W → call → nat * list (label W)).
Local Abbreviation Process := (DaemonCache.Process f Now kube_GetServiceAccount NewServiceAccountInformer gauge_Add
  counter_Inc kube_CreateToken exchange IDTokenSource src_Token jwt_Subject).
Context (NODE_NAME POD_IP : string) (kube_client : result unit).
Context (kube_ListPods : string → ST Process (result (list Kube.Pod))).
Context (kube_GetNode : string → ST Process (result Kube.Node)).
Context (NewFilteredPodInformer : Pods.WatchProvider.Informer →
  (Kube.Pod → list string) → Kube.Pod → ST Process (result (list Kube.Pod))).
(** The kernel: the redirect program's objects and what its loader calls, the
  attestation program, and the files of the cgroup tree. *)
Context {Objs Lnk : Type} (loadRedirectObjects : ST Process (result Objs)).
Context (self_cgroup : Process → result (list string * option error)) (stat : Process → string → result Z).
Context (debug : bool) (MapConfig_Update : Objs → Redirect.Config → ST Process (result unit)).
Context (AttachCgroup : Objs → ST Process (result Lnk)) (link_Close : Lnk → ST Process (result unit)).
Context (objs_Close : Objs → ST Process (result unit)).
Context (attestbpf_LoadAndAttach : ST Process (result unit)).
Context (map_Lookup : Bpf.AttestKey → ST Process (result (option Z))) (cgroups : Process → fs_error + fsnode).
Context (loopback : ST Process (result (closer Process))).
Context (system : Process → Sockdiag.System) (addr_text : Addr → Z → string).
Context (proxytest_Start : ST Process (result unit)).

Definition start : ST Process (result (ServerOptions Process * closer Process)) :=
DaemonCache.start f Now kube_GetServiceAccount NewServiceAccountInformer gauge_Add counter_Inc kube_CreateToken exchange
  IDTokenSource src_Token jwt_Subject schedule NODE_NAME POD_IP kube_client kube_ListPods kube_GetNode
  NewFilteredPodInformer
  (Redirect.redirect_LoadAndAttach loadRedirectObjects self_cgroup stat debug MapConfig_Update AttachCgroup link_Close
     objs_Close)
  loopback attestbpf_LoadAndAttach map_Lookup cgroups system addr_text proxytest_Start.

(** What the redirect program reads is the last configuration its map was
  given; nothing else that main does before it serves changes it. *)
Context (redirect_map : Process → option Redirect.Config).
Record Kernel : Prop := {
k_update o c w w' : MapConfig_Update o c w = (Ret (Ok tt), w') → redirect_map w' = Some c;
k_attach o w r w' : AttachCgroup o w = (Ret r, w') → redirect_map w' = redirect_map w;
k_attest w r w' : attestbpf_LoadAndAttach w = (Ret r, w') → redirect_map w' = redirect_map w;
k_test w r w' : proxytest_Start w = (Ret r, w') → redirect_map w' = redirect_map w;
}.

(** A daemon in eBPF mode has left its own cgroup and address to the program. *)
Lemma start_redirects s0 o close s1 :
Kernel → start s0 = (Ret (Ok (o, close)), s1) → opt_RoutingMode o = RoutingModeBPF →
∃ ip own w, 0 ≤ ip < 2 ^ 32 ∧ ParseAddr POD_IP = Ok (V4 ip) ∧
  Redirect.selfCgroupID (self_cgroup w) (stat w) = Ok own ∧
  redirect_map s1 = Some (Redirect.redirect_config debug own ip (serverPort f)).
Proof.
intros HK Hs Hm.
eapply (start_views _ _ _ _ _ _ _ _ _ _ _ _ _ _ _ _ _ _ _ _ _ _ _ redirect_map) in Hs
  as (node & ip & w1 & w2 & Hip & Hnode & Hl & Hv); [|apply HK..].
unfold LoadAndAttach in Hl. rewrite <- Hnode, Hm, decide_True in Hl by done.
apply bindR_ok in Hl as (c & w3 & Hr & [= _ <-]).
apply (redirect_configured redirect_map) in Hr as (own & w & Hown & Hc); [|apply HK..].
exists ip, own, w. split; [by eapply ParseAddr_v4_range|]. by rewrite Hv.
Qed.

(** ** Theorem *)

Context (HC : Clients f kube_GetServiceAccount NewServiceAccountInformer counter_Inc kube_CreateToken exchange jwt_Subject).
Context (ctx : Ctx Process) (lookupPodFailures : string → ST Process unit) (fuel : nat).
Context (clock_of : Process → Time) (environment : Process → Environment) (json_Unmarshal : string → option any).
Context (metrics : Handler Process) (self : ST Process self_response) (unclean : Handler Process).
Local Abbreviation respond := (DaemonCache.respond f Now kube_GetServiceAccount NewServiceAccountInformer gauge_Add
  counter_Inc kube_CreateToken exchange IDTokenSource src_Token jwt_Subject ctx lookupPodFailures fuel clock_of
  environment json_Unmarshal metrics self unclean).
Local Abbreviation accounts := (DaemonCache.accounts f kube_GetServiceAccount NewServiceAccountInformer gauge_Add counter_Inc).
Local Abbreviation granted := (DaemonCache.granted f kube_GetServiceAccount NewServiceAccountInformer gauge_Add counter_Inc
  exchange jwt_Subject).

(** The connection that the daemon accepts of a connect to the metadata address
  from src:sport by a task in the cgroup: its peer is the task, its local
  address is where the redirection sent it. *)
Definition accepted (conf : option Redirect.Config) (cg src sport : Z) : Conn :=
let '(dst, dport) := connected_to conf cg metadata_connect in
{| conn_RemoteAddr := remote_addr src sport; conn_LocalAddr := Some {| ta_IP := v4_octets dst; ta_Port := dport |} |}.

(** C7: in eBPF mode a process gets its own pod's tokens.  Take a daemon that
  was started in eBPF mode with any flags, and a task of a cgroup other than
  the daemon's that connects to 169.254.169.254:80.  If the map that the
  sockops program fills holds what it recorded for this connect, and the
  cgroup tree names one pod for the cgroup, then an access token in the
  response to any message on the connection was granted by Google's token
  exchange to the service account of a running pod with that UID, with its
  annotation and the scopes of the query; whatever the pod's network and
  whatever the message says. *)
Theorem pod_gets_own_token known store s0 o close s1 cg src sport key entry x x1 uid msg sa x' rw c t :
ApiServer f NODE_NAME kube_ListPods NewFilteredPodInformer known store → Kernel →
start s0 = (Ret (Ok (o, close)), s1) → opt_RoutingMode o = RoutingModeBPF →
0 ≤ src < 2 ^ 32 → 0 ≤ sport < 65536 →
(∀ w own, Redirect.selfCgroupID (self_cgroup w) (stat w) = Ok own → cg ≠ own) →
recorded (redirect_map s1) cg src sport metadata_connect = Some (key, entry) →
map_Lookup key x = (Ret (Ok (Some entry)), x1) → (∀ u, cgroup_pod (cgroups x1) cg u → u = uid) →
splitPathPieces (msg_Path msg) = ["computeMetadata"; "v1"; "instance"; "service-accounts"; sa; "token"] →
respond o (accepted (redirect_map s1) cg src sport) msg x = (Ret rw, x') →
c ∈ rw_body rw → holds_token c t →
∃ pod email, known pod ∧ isPodRunning pod = true ∧ Kube.pod_UID pod = uid ∧
  has_annotation accounts (ReferenceFromPod pod) email ∧
  sa ∈ ["default"; default (opt_WorkloadIdentityPool o) email] ∧
  granted (ReferenceFromPod pod)
    (query_scopes (server_request ConnContext (accepted (redirect_map s1) cg src sport) msg)) t.
Proof.
intros HA HK Hs Hmode Hsrc Hsp Hown Hrec Hmap Huid Hp Hr Hin Ht.
destruct (start_redirects _ _ _ _ HK Hs Hmode) as (ip & own & w & Hip & _ & Hcg%Hown & Hconf).
rewrite Hconf in *.
pose proof (metadata_redirected_mod debug own ip (serverPort f) cg Hip Hcg) as Hto.
assert (Htuple : tuple_ok src ip sport (serverPort f mod 65536)).
{ pose proof (Z.mod_pos_bound (serverPort f) 65536). unfold tuple_ok. lia. }
apply (recorded_key _ _ _ _ _ _ _ _ _ Hto Htuple) in Hrec as [-> ->].
eapply token_served in Hr as (num & pool & pod & email & Hc & Hcall & Hann & Hsa & Hg);
  [|exact HC|exact HA|exact Hs|exact Hp|exact Hin|exact Ht].
eapply daemon_ready in Hs as (_ & _ & _ & conf & num' & Hc' & _); [|exact HA].
rewrite Hc in Hc'. injection Hc' as _ _ ->.
eapply caller_recorded in Hcall as (Hknown & Hrun & cgid & x2 & Hmap2 & Hpod); [|exact Hmode|exact Htuple|..].
2, 3: by unfold accepted; rewrite Hto.
rewrite Hmap in Hmap2. injection Hmap2 as <- <-. exists pod, email. split_and!; try done. by apply Huid.
Qed.
End EndToEnd.

(** ** Witness: the pod of ChainExample asks the daemon of DaemonExample, in eBPF mode *)

Module EndToEndExample.
Import DaemonExample.
(** The outside world is the redirection's configuration. *)
Abbreviation W := (option Redirect.Config).
Definition Proc : Type :=
Process flags (Now (W := W)) GetServiceAccount GetByKey gauge counter CreateToken exchange IDTokenSource src_Token Some.
Definition pod : Kube.Pod := ChainExample.pod.
Definition known (p : Kube.Pod) : Prop := p = pod.
(** The pod is in the lists of the node, and is not looked up by its address. *)
Definition ListPods (sel : string) : ST Proc (result (list Kube.Pod)) :=
ok (if has_prefix Pods.Example.ip_prefix sel then [] else [pod]).
Definition index (i : Pods.WatchProvider.Informer) (g : Kube.Pod → list string) (obj : Kube.Pod)
  : ST Proc (result (list Kube.Pod)) :=
ok (filter (λ p, Exists (λ x, x ∈ g p) (g obj)) [pod]).
Definition GetNode (name : string) : ST Proc (result Kube.Node) :=
ok {| Kube.node_Name := "n1"; Kube.node_Annotations := ∅;
      Kube.node_Labels := {[ AnnotationRoutingMode := RoutingModeBPF ]}; Kube.node_Taints := [] |}.
Definition self_cgroup (s : Proc) : result (list string * option error) := Ok (["0::/kubepods/daemon"], None).
Definition stat (s : Proc) (p : string) : result Z :=
if bool_decide (p = "/sys/fs/cgroup/kubepods/daemon") then Ok 7 else Err (EMsg "none").
Definition update (o : unit) (c : Redirect.Config) : ST Proc (result unit) :=
in_world _ _ _ _ _ _ (λ _, (Ret (Ok tt), Some c)).
Definition redirect_map (s : Proc) : option Redirect.Config := world (`s).
#[local] Existing Instance ChainExample.key_eq_dec.
Definition map_Lookup (k : Bpf.AttestKey) : ST Proc (result (option Z)) :=
ok (if decide (k = ChainExample.key) then Some 99 else None).

Definition start := EndToEnd.start flags (Now (W := W)) GetServiceAccount GetByKey gauge counter CreateToken exchange
  IDTokenSource src_Token Some schedule "n1" "192.168.0.2" (Ok tt) ListPods GetNode index (ok tt) self_cgroup stat false
  update (λ _, ok tt) (λ _ : unit, ok tt) (λ _, ok tt) (ok tt) map_Lookup (λ _, ChainExample.tree) (panic "")
  (λ _, MainExample.system tt) (λ _ _, "") (panic "").
Definition s0 : Proc := exist _ (NewProvider None) (reach_init _ _ _ _ _ _ None).
Definition s1 : Proc := (start s0).2.
Definition options : ServerOptions Proc := match start s0 with (Ret (Ok (o, _)), _) => o | _ => nothing end.
Definition closeRoute : closer Proc := match start s0 with (Ret (Ok (_, c)), _) => c | _ => ok tt end.
Lemma ebpf_started : start s0 = (Ret (Ok (options, closeRoute)), s1).
Proof.
unfold options, closeRoute, s1. assert (E : match start s0 with (Ret (Ok _), _) => true | _ => false end = true)
  by (by vm_compute).
by destruct (start s0) as [[[[o c]|e]|m] t].
Qed.
Definition with_pod : Proc :=
(Pods.WatchProvider.AddFunc (informed_pods flags (Now (W := W)) GetServiceAccount GetByKey gauge counter CreateToken
   exchange IDTokenSource src_Token Some "n1" ListPods index) pod s1).2.
Definition conn : Conn := accepted (redirect_map s1) 99 167772165 40000.
Definition respond : Conn → Message → ST Proc ResponseWriter :=
DaemonCache.respond flags (Now (W := W)) GetServiceAccount GetByKey gauge counter CreateToken exchange IDTokenSource
  src_Token Some ctx (λ _, mret tt) 0 (λ _, clock 0 0) (λ _, example_environment tt) no_json (λ _, mret tt) (panic "")
  (λ _, mret tt) options.
Definition request : Message := message "token" [("scopes", "a")].
Definition response : ResponseWriter := match respond conn request with_pod with (Ret w, _) => w | _ => fresh_writer end.
Lemma ebpf_token_body : rw_body response = [token_chunk].
Proof. by vm_compute. Qed.
Lemma ebpf_responded : ∃ x', respond conn request with_pod = (Ret response, x').
Proof.
pose proof ebpf_token_body as E. unfold response in *.
destruct (respond conn request with_pod) as [[w|e] x']; [by exists x'|done].
Qed.

Lemma ebpf_api_server : ApiServer flags "n1" ListPods index known (λ _, [pod]).
Proof.
split.
- intros w items w' [= <- _]. by constructor.
- intros ip w items w'. change (join _ _) with (Pods.Example.ip_prefix +:+ ip). unfold ListPods.
  rewrite has_prefix_app. intros [= <- _]. constructor.
- by intros g obj w l w' [= <- _].
- intros _. by constructor.
Qed.
Lemma kernel : Kernel flags (Now (W := W)) GetServiceAccount GetByKey gauge counter CreateToken exchange IDTokenSource
  src_Token Some update (λ _, ok tt : ST Proc (result unit)) (ok tt) (panic "") redirect_map.
Proof.
split; [|by intros ? ? ? ? [= _ <-]|by intros ? ? ? [= _ <-]|done].
intros o c w w' H. unfold update, in_world in H. destruct (fault (`w)) eqn:Hf; [done|].
destruct (acts_in_world _ _ _ _ _ _ (λ _ : W, (Ret (Ok tt : result unit), Some c)) w Hf) as (s' & E & Hw).
unfold in_world in E. rewrite Hf in E. rewrite H in E. injection E as ->. unfold redirect_map. by rewrite Hw.
Qed.
Lemma one_pod u : cgroup_pod ChainExample.tree 99 u → u = Kube.pod_UID pod.
Proof.
intros (n & path & [= <-] & Hin & (v & Hv & <-)%submatch_names). inversion Hin; subst.
match goal with H : _ ∈ [_] |- _ => apply list_elem_of_singleton in H; injection H as -> -> -> -> -> end.
match goal with H : in_tree _ (FsNode _ _ _ _ []) _ _ |- _ => inversion H; subst end;
  [|by match goal with H : _ ∈ [] |- _ => apply elem_of_nil in H end].
revert Hv. vm_compute. by intros [= <-].
Qed.
End EndToEndExample.

Lemma pod_gets_own_token_witness :
  rw_body EndToEndExample.response = [DaemonExample.token_chunk] ∧
  ∃ pod email, EndToEndExample.known pod ∧ isPodRunning pod = true ∧
    Kube.pod_UID pod = Kube.pod_UID ChainExample.pod ∧
    has_annotation (W := EndToEndExample.W) (accounts DaemonExample.flags DaemonExample.GetServiceAccount DaemonExample.GetByKey
      DaemonExample.gauge DaemonExample.counter) (ReferenceFromPod pod) email ∧
    "default" ∈ ["default"; default (opt_WorkloadIdentityPool EndToEndExample.options) email] ∧
    granted (W := EndToEndExample.W) DaemonExample.flags DaemonExample.GetServiceAccount DaemonExample.GetByKey DaemonExample.gauge
      DaemonExample.counter DaemonExample.exchange Some (ReferenceFromPod pod)
      (query_scopes (server_request ConnContext EndToEndExample.conn EndToEndExample.request)) DaemonExample.impersonated.
Proof.
  split; [exact EndToEndExample.ebpf_token_body|].
  destruct EndToEndExample.ebpf_responded as [x' Hr].
  pose proof (pod_gets_own_token _ _ _ _ _ _ _ _ _ _ _ _ _ _ _ _ _ _ _ _ _ _ _ _ _ _ _ _ _ _ _ _ _
    EndToEndExample.redirect_map DaemonExample.clients DaemonExample.ctx (λ _, mret tt) 0 (λ _, clock 0 0)
    (λ _, example_environment tt) no_json (λ _, mret tt) (panic "") (λ _, mret tt) EndToEndExample.known (λ _, [ChainExample.pod])
    EndToEndExample.s0 EndToEndExample.options EndToEndExample.closeRoute EndToEndExample.s1 99 167772165 40000
    ChainExample.key 99 EndToEndExample.with_pod EndToEndExample.with_pod (Kube.pod_UID ChainExample.pod)
    EndToEndExample.request "default" x' EndToEndExample.response DaemonExample.token_chunk DaemonExample.impersonated
    EndToEndExample.ebpf_api_server EndToEndExample.kernel EndToEndExample.ebpf_started) as H.
  rewrite EndToEndExample.ebpf_token_body in H.
  apply H; [by vm_compute|lia|lia| |by vm_compute|done|exact EndToEndExample.one_pod|by vm_compute|exact Hr
           |by apply list_elem_of_singleton|exact DaemonExample.token_held].
  intros w own Hown. revert Hown. vm_compute. by intros [= <-].
Defined.
